(* ===== verification/_CoqProject ===== *)
-Q . S2P
Prelude.v
Types.v
Stats.v
Json.v
Trace.v
Ras.v
BranchPred.v
Bimodal.v
Btb.v
Tage.v
BranchUnit.v
Sdram.v
Repl.v
Prefetcher.v
CacheBase.v
LruCache.v
CacheEnv.v
EnvSim.v
PipeCache.v
RamConn.v
StoreBuffer.v
Caches.v
Ifq.v
Pipeline.v
PipelineSafe.v
PipelineRun.v
CoreRank.v
CoreStages.v
CoreLive.v
CoreFrame.v
CoreSim.v
Config.v
Sim.v
SimSafe.v
GenTrace.v
Reports.v
FabricFrame.v
SimReport.v
