(* ===== verification/Prelude.v ===== *)
(** * npSim: a verification development

    npSim is a trace-driven cycle model of an in-order RISC-V core with its
    branch predictors, caches and memory.  A trace of executed instructions is
    fed to the core; the components decide how many cycles each instruction
    takes.  The development models the C++ sources under [src/] as executable
    functions and proves what makes each component correct.

    ** How the parts interact

    [main.cc] advances a global tick.  In each tick it calls [do_update] of the
    memory fabric, the caches and the core, in this order, and feeds the core one
    record of the trace when it can take one.  The core asks its branch unit for
    predictions at fetch and tells it the outcome at execute, reads instructions
    through the instruction cache and data through the data cache or the bypass
    port; caches answer through two callbacks ([recv_mem_resp],
    [ack_mem_avail]); a cache that misses sends a [MemTrans] to the fabric
    ([RAMArbiter]), which charges the latency of the device its address maps to
    and calls the cache back.

    ** Conventions

    Integers are [Z] with the width written out: [u64] and [u32] wrap, [int_]
    fails on signed overflow.  Operations of the source that can fail return
    [res]: an [Err] is a failed [assert], an index out of range, a null pointer,
    a division by zero or an overflow, so "no [Err]" is a theorem about the code
    and not a convention.  Methods that call other objects are written in the
    state and error monad [ST], whose state pairs the object with its environment;
    [wp m Q s] says that [m] run from [s] ends without an error in a result and a
    state that satisfy [Q].  An environment is a type class ([CacheEnv],
    [HostEnv], [CpuEnv], [DirPredictor]): the methods are generic in it, and the
    theorems quantify over everything it may do.  [r <| f := v |>] is record
    update.

    ** The files

    - [Types], [Trace]: messages, trace records, reader and sanitizer
      ([defines/interface.hh], [trace.hh], [trace.cc]).
    - [Stats] ([libs/stats_template/stats.hpp]): named counters, distributions,
      distributions of differences and vectors of distributions.
    - [GenTrace] ([tests/gen_trace.cc]): the trace the examples run.
    - [Ras], [BranchPred], [Bimodal], [Btb], [Tage], [BranchUnit]
      ([branchSim/]): return stack, the predictor interface and the stateless
      predictors, the table predictors, the target buffer, TAGE, and the unit
      that composes one predictor with a target buffer and a return stack.
    - [Sdram] ([cacheSim/RamModel.hh]): SDRAM timing.
    - [Repl], [Prefetcher], [CacheBase], [LruCache] ([cacheSim/CacheLine.hh],
      [ReplPolicy], [Prefetcher], [CacheBase]): lines, replacement policies,
      prefetchers, the lookup structure and its refinement to recency lists.
    - [CacheEnv], [PipeCache], [StoreBuffer] ([cacheSim/CacheBase]): what a cache
      sees of the system, the pipelined cache, [NoCache] and [StoreBuffer].
    - [RamConn] ([cacheSim/RamConn]): devices, address map and [RAMArbiter], and
      the map and devices [main.cc] builds.
    - [Ifq], [Pipeline], [PipelineSafe], [PipelineRun] ([pipeSim/Pipeline]): the
      fetch queue, the core, its invariant stage by stage, and whole runs.
    - [CoreRank], [CoreStages], [CoreLive]: the part of the core that decides when
      it looks again, a measure of the work in it, every stage seen through the
      two, and rounds that drain the core.
    - [Config] ([main.cc], [defines/debug.hh]): option parsing, debug flags, and
      the factories that build a branch unit from the options.
    - [EnvSim], [Caches], [CoreFrame], [CoreSim]: why a property proved in a contract
      environment holds in the real system: methods behave alike in related
      environments, and callbacks leave alone what they do not touch.  [Caches]
      states what every cache promises (the class [CacheLaws]) and chooses the
      data cache.
    - [Sim], [SimSafe] ([main.cc]): construction of the system, the wiring of its
      parts and the loop over the trace; the invariant of the whole.
    - [Json], [Reports], [FabricFrame], [SimReport] ([areaSim/AreaEst.hh], the
      [config_json] and [stats_json] of every class, [main.cc]): what a JSON value
      type promises, the report of each component with its area numbers, the
      fabric's counters followed through the whole system, and [main] with the
      report it builds and the files it writes.

    Each class is a Module; its members are the fields of a record and its
    methods are definitions of the same names.

    ** What the theorems show

    - The whole simulator: for every configuration in range ([options_ok]), every
      well-formed trace and every number of turns within the 32-bit time of the
      SDRAM model, [main] runs without a failed assertion, an index out of range or
      a call into the running core ([simulator_safe]); a run that ends because
      nothing is in flight has fed the first records of the trace in order and
      committed each of them ([trace_committed]).  Both follow from the invariants
      of the components: each is proved in an environment that only keeps its
      contract, and a simulation per component carries it to the real environment,
      the rest of the system.
    - Core: no assertion fails and no index leaves its array whatever the caches
      do ([pipeline_safe]); fed instructions commit or are still in the machine
      ([insts_conserved]); each cycle is in one stall category
      ([cycles_accounted]); caches that answer drain it from every reachable state
      ([core_drains]); wrong-path fetches never reach decode.  The
      invariant of [PipelineSafe] ties program order to the fetch state: behind a
      mispredicted branch there are only wrong-path fetches.
    - Caches: contracts with the processor and the memory hold on every run
      ([pipecache_safe]), every request is answered within a bound
      ([pipecache_answers]), no block is resident twice, and an LRU cache is its
      recency lists (without the victim lag of write-back caches).
    - Memory: the arbiter loses and invents nothing and serves everybody; SDRAM
      time is a function of the request history.
    - Predictors: refinement of the return stack and the target buffer to their
      specifications, recovery of TAGE's history, bookkeeping of the statistics.
    - Trace and statistics: every byte stream is read as typed records and less
      than one record more ([records_typed]); distributions have a closed form and
      their counters add up ([distri_counts], [distri_balanced]).
    - Reports: [main] with its report ends as the loop alone ([report_refines]);
      the report is complete, overwrites nothing and counts the records fed
      ([report_complete]); the fabric's counters agree in every entry
      ([report_tallies]); the bits reported of a cache are those of its lines, tags and valid
      bits ([cache_area]).
    - Options: what the parsers accept and that printed numbers are read back;
      the branch unit built from options in range never fails
      ([configured_unit_safe]).
    - Error behaviour the models expose (a store buffer that stays in flush, a
      polluted line no lookup finds, a delayed response that is lost, a reset by a
      torn record) is stated as theorems too.

    ** Bounds and fuel

    A reachable core with [n] instructions is drained in [37 * (20 * n + 2) + 36]
    rounds: an instruction weighs at most 20 on its way to write-back, and no time
    the core waits for is more than 36 ticks away.
    Loops of the source are structural recursions or take the obvious count as
    fuel; where fuel could run out a theorem excludes it ([fold_ghr_spec] for
    TAGE's folding loop).  Runs of the core assume that the tick stays 40 below
    [InfTime], the longest latency being 34; capacities are below 2^63.  The loop
    of [main] takes a number [n] of turns as fuel; a turn advances the tick by one, so
    [max_ticks] turns always suffice.  SDRAM times are 32-bit in the source:
    [options_ok o n] bounds [n] so that they do not wrap ([so_time]; 3.8 million
    turns with the default options, [defaults_span]); of longer runs nothing is
    said, and device time does overflow in the end.  A last record that is torn is
    read as [Trace.next] says: its bytes reach [inst], and one of them is [sys_op].

    ** Not modelled

    Text on the terminal ([dump_stats], [TraceSanitizer::dump], debug printing),
    the file system behind the two output files, [getopt], decompression by a child
    process, the Python tooling and the cache tests.  The JSON library is the class
    [Json]: its values are whatever the class builds, and only the laws of
    [JsonLaws] are used of it; [Tree] is an instance for the examples.  The
    statistics templates are modelled at the instance [size_t]; the program makes
    no object of them, and of their JSON only that of [ClassifiedStats] and
    [DistriBase] is written out.  Caches are modelled in the timing-only build
    ([ACTIVE_MODE]), where the physical memory stubs are empty and never called. *)

From stdpp Require Export base tactics numbers list option.
From Stdlib Require Export ZArith Lia.

Declare Scope npsim_scope.
Delimit Scope npsim_scope with npsim.
#[global] Open Scope Z_scope.

(** ** Outcomes of C++ code

    [assert] is compiled in (the Makefile's default [DEBUG_MODE] leaves
    [NDEBUG] undefined) and [std::vector::at] throws; both end the run.  The
    remaining constructors are undefined behaviour that the source does not
    guard against. *)

Inductive error : Type :=
| AssertFailed     (** [assert(...)] evaluated to false *)
| OutOfRange       (** [std::out_of_range] of [.at(i)], or [v[i]] outside [v] *)
| NullDeref        (** a null [unique_ptr] or raw pointer dereferenced *)
| DivByZero        (** integer division or remainder by zero *)
| SignedOverflow   (** [int] arithmetic out of range *)
| InvalidArgument  (** [std::invalid_argument] of [std::stoul] and friends *)
| Reentrant        (** a call into the core while it runs; excluded by theorem *)
| OutOfFuel.       (** the model's own bound; excluded by theorem where used *)

Inductive res (A : Type) : Type :=
| Ok (a : A)
| Err (e : error).
Arguments Ok {A} _.
Arguments Err {A} _.

#[export] Instance error_eq_dec : EqDecision error.
Proof. solve_decision. Defined.

#[export] Instance res_ret : MRet res := @Ok.
#[export] Instance res_bind : MBind res :=
  λ A B f m, match m with Ok a => f a | Err e => Err e end.
#[export] Instance res_fmap : FMap res :=
  λ A B f m, match m with Ok a => Ok (f a) | Err e => Err e end.

(** [is_ok m]: the computation ends without an error. *)
Definition is_ok {A} (m : res A) : Prop := match m with Ok _ => True | Err _ => False end.

Definition assert_ (b : bool) : res unit := if b then Ok tt else Err AssertFailed.

Lemma bind_Ok_inv {A B} (m : res A) (f : A → res B) (b : B) :
  (m ≫= f) = Ok b → ∃ a, m = Ok a ∧ f a = Ok b.
Proof. destruct m; simpl; [eauto | discriminate]. Qed.

Lemma assert_Ok_inv (b : bool) u : assert_ b = Ok u → b = true.
Proof. by destruct b. Qed.

(** ** The state-and-error monad

    A method of an object with state [S] is [ST S A]: it may read and write
    the object and whatever the object's callbacks can reach, and may fail. *)

Definition ST (S A : Type) : Type := S → res (A * S).

#[export] Instance ST_ret {S} : MRet (ST S) := λ A a s, Ok (a, s).
#[export] Instance ST_bind {S} : MBind (ST S) :=
  λ A B f m s, match m s with Ok (a, s') => f a s' | Err e => Err e end.

Definition gets {S A} (f : S → A) : ST S A := λ s, Ok (f s, s).
Definition modify {S} (f : S → S) : ST S unit := λ s, Ok (tt, f s).
Definition lift {S A} (m : res A) : ST S A :=
  λ s, match m with Ok a => Ok (a, s) | Err e => Err e end.
Definition fail {S A} (e : error) : ST S A := λ _, Err e.
Definition assertM {S} (b : bool) : ST S unit := lift (assert_ b).
Definition when {S} (b : bool) (m : ST S unit) : ST S unit := if b then m else mret tt.

(** [wp m Q s]: run from [s], [m] ends without an error, in a result and a
    state that satisfy [Q]. *)
Definition wp {S A} (m : ST S A) (Q : A → S → Prop) (s : S) : Prop :=
  match m s with Ok (a, s') => Q a s' | Err _ => False end.

Section wp_rules.
Context {S : Type}.
Implicit Types s : S.

Lemma wp_run {A} (m : ST S A) Q s :
  wp m Q s ↔ ∃ a s', m s = Ok (a, s') ∧ Q a s'.
Proof.
  unfold wp. destruct (m s) as [[a s']|e]; split; [eauto | | done |].
  - intros (? & ? & [= -> ->] & ?); done.
  - by intros (? & ? & ? & ?).
Qed.

Lemma wp_ret {A} (a : A) Q s : wp (mret a) Q s ↔ Q a s.
Proof. done. Qed.

Lemma wp_bind {A B} (m : ST S A) (f : A → ST S B) Q s :
  wp (m ≫= f) Q s ↔ wp m (λ a, wp (f a) Q) s.
Proof. unfold wp, mbind, ST_bind. by destruct (m s) as [[??]|?]. Qed.

Lemma wp_gets {A} (f : S → A) Q s : wp (gets f) Q s ↔ Q (f s) s.
Proof. done. Qed.

Lemma wp_modify (f : S → S) Q s : wp (modify f) Q s ↔ Q tt (f s).
Proof. done. Qed.

Lemma wp_lift {A} (m : res A) Q s : wp (lift m) Q s ↔ ∃ a, m = Ok a ∧ Q a s.
Proof.
  unfold wp, lift. destruct m; split; [eauto | | done |].
  - by intros (? & [= ->] & ?).
  - by intros (? & ? & ?).
Qed.

Lemma wp_assert (b : bool) Q s : wp (assertM b) Q s ↔ b = true ∧ Q tt s.
Proof. destruct b; unfold wp; simpl; [by split; [|intros []] | by split; [|intros []]]. Qed.

Lemma wp_when (b : bool) m Q s :
  wp (when b m) Q s ↔ (if b then wp m Q s else Q tt s).
Proof. by destruct b. Qed.

Lemma wp_mono {A} (m : ST S A) (P Q : A → S → Prop) s :
  wp m P s → (∀ a s', P a s' → Q a s') → wp m Q s.
Proof. unfold wp. destruct (m s) as [[??]|?]; eauto. Qed.
End wp_rules.

Create Rewrite HintDb wp.
#[export] Hint Rewrite @wp_ret @wp_bind @wp_gets @wp_modify @wp_lift @wp_assert @wp_when : wp.

(** [wp_step] runs the monadic combinators at the head of a [wp] goal. *)
Ltac wp_step := repeat (progress autorewrite with wp; cbv beta).

(** ** Record update

    [Eta R] writes a record out field by field; from it the update of one
    field, [r <| f := v |>], is computed. *)

Class Eta (R : Type) := eta : R → R.
Class Setter {R T : Type} (proj : R → T) := MkSetter { over : (T → T) → R → R }.
Arguments over {R T} proj {_} _ _.

Ltac build_setter :=
  match goal with
  | |- @Setter ?R ?T ?proj =>
    let h := constr:(_ : Eta R) in
    let f := fresh "f" in
    let r := fresh "r" in
    refine (MkSetter R T proj _); intros f r;
    let e := eval red in (h r) in
    let p := eval pattern (proj r) in e in
    match p with
    | ?g _ => let body := eval cbv beta in (g (f (proj r))) in exact body
    end
  end.

#[export] Hint Extern 1 (Setter _) => build_setter : typeclass_instances.

Notation "r <| proj ::= f |>" := (over proj f r)
  (at level 12, proj at level 99, f at level 99, left associativity) : npsim_scope.
Notation "r <| proj := v |>" := (over proj (λ _, v) r)
  (at level 12, proj at level 99, v at level 99, left associativity) : npsim_scope.
#[global] Open Scope npsim_scope.

(** ** Machine integers

    Values are mathematical integers; an operation that C++ performs at a
    fixed width is followed by the reduction to that width. *)

Definition u8 (z : Z) : Z := z mod 2 ^ 8.
Definition u16 (z : Z) : Z := z mod 2 ^ 16.
Definition u32 (z : Z) : Z := z mod 2 ^ 32.
Definition u64 (z : Z) : Z := z mod 2 ^ 64.
(** Conversion to [int]: reduction modulo 2^32, then two's complement. *)
Definition i32 (z : Z) : Z := (z + 2 ^ 31) mod 2 ^ 32 - 2 ^ 31.

(** A value of type [uint8_t], and of type [uint32_t], [addr_t] or [word_t]. *)
Definition byte_ok (z : Z) : Prop := 0 <= z < 2 ^ 8.
Definition word_ok (z : Z) : Prop := 0 <= z < 2 ^ 32.

(** [++n] on a [size_t] counter. *)
Definition incr (n : Z) : Z := u64 (n + 1).

(** [InfTime]: [std::numeric_limits<tick_t>::max()]. *)
Definition InfTime : Z := 2 ^ 64 - 1.
Definition WordShift : Z := 2.

(** [b ? 1 : 0] and C's conversion of [bool]. *)
Definition b2z (b : bool) : Z := if b then 1 else 0.

Definition is_pow2 (n : Z) : Prop := ∃ k, 0 <= k ∧ n = 2 ^ k.

(** [n & (n - 1)] is zero exactly for powers of two. *)
Lemma land_pred_pow2 n : 0 < n → Z.land n (n - 1) = 0 → n = 2 ^ Z.log2 n.
Proof.
  intros Hn H. destruct (Z.eq_dec n (2 ^ Z.log2 n)) as [|Hne]; [done|]. exfalso.
  pose proof (Z.log2_spec n Hn) as [H1 H2]. pose proof (Z.log2_nonneg n).
  assert (Z.log2 (n - 1) = Z.log2 n) as Hl.
  { apply Z.log2_unique; [done|]. lia. }
  assert (Z.testbit (Z.land n (n - 1)) (Z.log2 n) = true) as Ht.
  { rewrite Z.land_spec, Z.bit_log2 by done. rewrite <- Hl, Z.bit_log2; [done|].
    assert (1 <= 2 ^ Z.log2 n) by (apply (Z.pow_le_mono_r 2 0); lia). lia. }
  by rewrite H, Z.bits_0 in Ht.
Qed.

Lemma pow2_land_pred k : 0 <= k → Z.land (2 ^ k) (2 ^ k - 1) = 0.
Proof.
  intros Hk. replace (2 ^ k - 1) with (Z.ones k) by (rewrite Z.ones_equiv; lia).
  rewrite Z.land_ones by done. by apply Z.mod_same, Z.pow_nonzero.
Qed.

Lemma u64_small z : 0 <= z < 2 ^ 64 → u64 z = z.
Proof. apply Z.mod_small. Qed.
Lemma u32_small z : 0 <= z < 2 ^ 32 → u32 z = z.
Proof. apply Z.mod_small. Qed.
Lemma u64_range z : 0 <= u64 z < 2 ^ 64.
Proof. by apply Z.mod_pos_bound. Qed.
Lemma u32_range z : 0 <= u32 z < 2 ^ 32.
Proof. by apply Z.mod_pos_bound. Qed.
Lemma u64_add_l a b : u64 (u64 a + b) = u64 (a + b).
Proof. apply Zplus_mod_idemp_l. Qed.
Lemma u64_add a b : u64 (u64 a + u64 b) = u64 (a + b).
Proof. unfold u64. by rewrite <- Zplus_mod. Qed.
Lemma u64_add4 a b c d : u64 (u64 a + u64 b + u64 c + u64 d) = u64 (a + b + c + d).
Proof.
  replace (u64 a + u64 b + u64 c + u64 d) with (u64 a + (u64 b + u64 c + u64 d)) by lia.
  rewrite u64_add_l. replace (a + (u64 b + u64 c + u64 d)) with (u64 b + (a + u64 c + u64 d)) by lia.
  rewrite u64_add_l. replace (b + (a + u64 c + u64 d)) with (u64 c + (a + b + u64 d)) by lia.
  rewrite u64_add_l. replace (c + (a + b + u64 d)) with (u64 d + (a + b + c)) by lia.
  rewrite u64_add_l. f_equal. lia.
Qed.
Lemma incr_u64 n : incr (u64 n) = u64 (n + 1).
Proof. apply u64_add_l. Qed.
Lemma incr_add_l a b : u64 (incr a + b) = u64 (a + b + 1).
Proof. unfold incr, u64. rewrite Zplus_mod_idemp_l. f_equal. lia. Qed.
Lemma i32_small z : - 2 ^ 31 <= z < 2 ^ 31 → i32 z = z.
Proof. intros. unfold i32. rewrite Z.mod_small; lia. Qed.

Lemma land_mask_mod a k : 0 <= k → Z.land a (2 ^ k - 1) = a mod 2 ^ k.
Proof. intros. rewrite <- Z.land_ones by done. by rewrite Z.ones_equiv, <- Z.sub_1_r. Qed.

Lemma land_mask_range a k : 0 <= k → 0 <= Z.land a (2 ^ k - 1) < 2 ^ k.
Proof. intros. rewrite land_mask_mod by done. apply Z.mod_pos_bound. lia. Qed.

Lemma lxor_range a b k :
  0 <= k → 0 <= a < 2 ^ k → 0 <= b < 2 ^ k → 0 <= Z.lxor a b < 2 ^ k.
Proof.
  intros Hk Ha Hb.
  rewrite <- (Z.mod_small a (2 ^ k)), <- (Z.mod_small b (2 ^ k)) by done.
  rewrite <- !Z.land_ones by done.
  replace (Z.lxor (Z.land a (Z.ones k)) (Z.land b (Z.ones k)))
    with (Z.land (Z.lxor a b) (Z.ones k)).
  - rewrite Z.land_ones by done. apply Z.mod_pos_bound. lia.
  - apply Z.bits_inj'. intros i Hi.
    rewrite !Z.land_spec, !Z.lxor_spec, !Z.land_spec.
    by destruct (Z.testbit a i), (Z.testbit b i), (Z.testbit (Z.ones k) i).
Qed.

(** The result of [int] arithmetic, undefined when out of range. *)
Definition int_ (z : Z) : res Z :=
  if (- 2 ^ 31 <=? z) && (z <? 2 ^ 31) then Ok z else Err SignedOverflow.

Lemma int_small z : - 2 ^ 31 <= z < 2 ^ 31 → int_ z = Ok z.
Proof.
  unfold int_. intros. destruct (Z.leb_spec (- 2 ^ 31) z), (Z.ltb_spec z (2 ^ 31)); simpl; try done; lia.
Qed.

(** ** [std::vector] and arrays: bounds-checked access *)

Definition vec_at {A} (l : list A) (i : Z) : res A :=
  if 0 <=? i then
    match l !! Z.to_nat i with Some x => Ok x | None => Err OutOfRange end
  else Err OutOfRange.

Definition vec_set {A} (l : list A) (i : Z) (x : A) : res (list A) :=
  if (0 <=? i) && (i <? Z.of_nat (length l)) then Ok (<[Z.to_nat i := x]> l)
  else Err OutOfRange.

Definition zlen {A} (l : list A) : Z := Z.of_nat (length l).
Definition zrange (n : Z) : list Z := Z.of_nat <$> seq 0 (Z.to_nat n).

(** [a % b] on unsigned operands. *)
Definition umod (a b : Z) : res Z := if b =? 0 then Err DivByZero else Ok (a mod b).
(** [a / b] on unsigned operands. *)
Definition udiv (a b : Z) : res Z := if b =? 0 then Err DivByZero else Ok (a / b).

Section vectors.
Context {A : Type}.
Implicit Types (l : list A) (i j : Z) (x : A).

Lemma vec_at_Ok l i x :
  vec_at l i = Ok x ↔ 0 <= i ∧ l !! Z.to_nat i = Some x.
Proof.
  unfold vec_at. destruct (Z.leb_spec 0 i).
  - destruct (l !! Z.to_nat i) eqn:E; split; naive_solver.
  - split; [done | lia].
Qed.

Lemma vec_at_lt l i : 0 <= i < zlen l → ∃ x, vec_at l i = Ok x.
Proof.
  intros [? ?]. destruct (lookup_lt_is_Some_2 l (Z.to_nat i)) as [x ?].
  - unfold zlen in *. lia.
  - exists x. by apply vec_at_Ok.
Qed.

Lemma vec_at_range l i x : vec_at l i = Ok x → 0 <= i < zlen l.
Proof.
  intros [? Hx]%vec_at_Ok. apply lookup_lt_Some in Hx. unfold zlen. lia.
Qed.

Lemma vec_set_lt l i x :
  0 <= i < zlen l → vec_set l i x = Ok (<[Z.to_nat i := x]> l).
Proof.
  unfold vec_set, zlen. intros.
  destruct (Z.leb_spec 0 i), (Z.ltb_spec i (Z.of_nat (length l))); simpl; try lia. done.
Qed.

Lemma vec_set_Ok l i x l' :
  vec_set l i x = Ok l' ↔ 0 <= i < zlen l ∧ l' = <[Z.to_nat i := x]> l.
Proof.
  unfold vec_set, zlen.
  destruct (Z.leb_spec 0 i), (Z.ltb_spec i (Z.of_nat (length l))); simpl;
    split; try naive_solver lia.
Qed.

Lemma vec_at_set_eq l i x : 0 <= i < zlen l → vec_at (<[Z.to_nat i := x]> l) i = Ok x.
Proof.
  unfold zlen. intros. apply vec_at_Ok. split; [lia |].
  apply list_lookup_insert_eq. lia.
Qed.

Lemma vec_at_set_ne l i j x :
  0 <= i → i ≠ j → vec_at (<[Z.to_nat i := x]> l) j = vec_at l j.
Proof.
  intros. unfold vec_at. destruct (Z.leb_spec 0 j); [| done].
  by rewrite list_lookup_insert_ne by lia.
Qed.

Lemma zlen_insert l (n : nat) x : zlen (<[n := x]> l) = zlen l.
Proof. unfold zlen. by rewrite length_insert. Qed.

Lemma zlen_replicate (n : Z) x : 0 <= n → zlen (replicate (Z.to_nat n) x) = n.
Proof. intros. unfold zlen. rewrite length_replicate. lia. Qed.

Lemma Forall_vec_at (P : A → Prop) l i x :
  Forall P l → vec_at l i = Ok x → P x.
Proof. intros HF [_ ?]%vec_at_Ok. by eapply Forall_lookup_1. Qed.
End vectors.

Lemma zlen_nonneg {A} (l : list A) : 0 <= zlen l.
Proof. unfold zlen. lia. Qed.

(** ** Automation *)

(** [res_inv H] takes a successful run [H : (x ← m; k) = Ok _] apart. *)
Ltac res_inv H :=
  lazymatch type of H with
  | (_ ≫= _) = Ok _ =>
    let a := fresh "a" in let Ha := fresh "Ha" in
    apply bind_Ok_inv in H as (a & Ha & H); simpl in H
  | assert_ _ = Ok _ => apply assert_Ok_inv in H
  | Ok _ = Ok _ => injection H as H
  | mret _ = Ok _ => injection H as H
  end.

(** Case analysis on the first [if] or [match] of the goal, boolean integer
    tests turned into inequalities. *)
Ltac case_bool :=
  match goal with
  | |- context [if ?a =? ?b then _ else _] => destruct (Z.eqb_spec a b)
  | |- context [if ?a <=? ?b then _ else _] => destruct (Z.leb_spec a b)
  | |- context [if ?a <? ?b then _ else _] => destruct (Z.ltb_spec a b)
  | |- context [if ?b then _ else _] => destruct b eqn:?
  end.

(** Split syntactic conjunctions, leaving definitions folded. *)
Ltac splits := repeat match goal with |- _ ∧ _ => split end.

(** Linear facts about counters that wrap at 2^64. *)
Ltac u64_solve := unfold incr, u64 in *; Z.to_euclidean_division_equations; lia.

Create HintDb npsim.
#[export] Hint Resolve zlen_nonneg u64_range u32_range : npsim.
Create Rewrite HintDb vec.
#[export] Hint Rewrite @zlen_insert @length_insert : vec.

(** Number of elements satisfying a boolean predicate. *)
Fixpoint countb {A} (P : A → bool) (l : list A) : Z :=
  match l with [] => 0 | x :: l => b2z (P x) + countb P l end.

Lemma countb_nonneg {A} (P : A → bool) l : 0 <= countb P l.
Proof. induction l as [|x l IH]; simpl; [lia|]. destruct (P x); simpl; lia. Qed.

Lemma countb_bound {A} (P : A → bool) l : 0 <= countb P l <= zlen l.
Proof. unfold zlen. induction l as [|x l IH]; simpl length; simpl countb; [lia|]. destruct (P x); simpl b2z; lia. Qed.

Lemma countb_app {A} (P : A → bool) l k : countb P (l ++ k) = countb P l + countb P k.
Proof. induction l as [|x l IH]; simpl; lia. Qed.

Lemma countb_true {A} (l : list A) : countb (λ _, true) l = zlen l.
Proof. unfold zlen. induction l as [|x l IH]; simpl in *; lia. Qed.

Lemma countb_ext {A} (P Q : A → bool) l :
  Forall (λ x, P x = Q x) l → countb P l = countb Q l.
Proof. induction 1 as [|x l Hx _ IH]; simpl; [done|]. by rewrite Hx, IH. Qed.

Lemma countb_add {A} (P Q R : A → bool) l :
  Forall (λ x, b2z (R x) = b2z (P x) + b2z (Q x)) l →
  countb R l = countb P l + countb Q l.
Proof. induction 1 as [|x l Hx _ IH]; simpl; lia. Qed.

Lemma countb_zero {A} (P : A → bool) l : countb P l = 0 → Forall (λ x, P x = false) l.
Proof.
  induction l as [|x l IH]; simpl; intros H; [done|].
  pose proof (countb_nonneg P l). destruct (P x) eqn:E; simpl in H; [lia|].
  constructor; [done | apply IH; lia].
Qed.
#[export] Hint Resolve countb_nonneg : npsim.
#[export] Hint Rewrite @countb_app : vec.

(** [for (auto i : l) ...] over a state, stopping at the first error. *)
Fixpoint for_each {S} (l : list Z) (f : Z → S → res S) (s : S) : res S :=
  match l with [] => mret s | i :: l => s' ← f i s; for_each l f s' end.

Lemma for_each_inv {S} (P : S → Prop) (l : list Z) (f : Z → S → res S) s :
  P s → (∀ i s, i ∈ l → P s → ∃ s', f i s = Ok s' ∧ P s') →
  ∃ s', for_each l f s = Ok s' ∧ P s'.
Proof.
  revert s. induction l as [|i l IH]; intros s Hs Hf; simpl; [eauto|].
  destruct (Hf i s) as (s1 & H1 & Hs1); [left | done |]. rewrite H1. simpl.
  apply IH; [done|]. intros j s2 Hj. apply Hf. by right.
Qed.

Lemma elem_of_zrange n i : i ∈ zrange n ↔ 0 <= i < n.
Proof.
  unfold zrange. rewrite list_elem_of_fmap. setoid_rewrite elem_of_seq. split.
  - intros (k & -> & ?). lia.
  - intros. exists (Z.to_nat i). lia.
Qed.

Lemma zlen_zrange n : 0 <= n → zlen (zrange n) = n.
Proof. intros. unfold zlen, zrange. rewrite length_fmap, length_seq. lia. Qed.
