(* ===== verification/Types.v ===== *)
(** * Messages between the pipeline, the caches and the memory fabric

    [src/defines/interface.hh] and [src/defines/types.hh]: the transactions the
    components exchange.  Addresses and data words are 32-bit, held as [Z]. *)

From S2P Require Import Prelude.

Inductive Direction : Type := Req | Resp.
Inductive MemRWOpt : Type := Read | Write.

#[export] Instance Direction_eq_dec : EqDecision Direction.
Proof. solve_decision. Defined.
#[export] Instance MemRWOpt_eq_dec : EqDecision MemRWOpt.
Proof. solve_decision. Defined.

Definition is_Read (m : MemRWOpt) : bool := match m with Read => true | Write => false end.

Record MemTrans : Type := MkMemTrans {
  mt_dir : Direction;
  mt_mop : MemRWOpt;
  mt_addr : Z;
  mt_id : Z;
  mt_bst_len : Z;
  mt_data : list Z;
  mt_strb : list Z;
  mt_lat : Z
}.
#[global] Instance eta_MemTrans : Eta MemTrans := λ r,
  MkMemTrans r.(mt_dir) r.(mt_mop) r.(mt_addr) r.(mt_id) r.(mt_bst_len)
             r.(mt_data) r.(mt_strb) r.(mt_lat).
#[export] Instance MemTrans_eq_dec : EqDecision MemTrans.
Proof. solve_decision. Defined.

Record CpuTrans : Type := MkCpuTrans {
  ct_addr : Z;
  ct_data : Z;
  ct_id : Z;
  ct_mop : MemRWOpt
}.
#[global] Instance eta_CpuTrans : Eta CpuTrans := λ r,
  MkCpuTrans r.(ct_addr) r.(ct_data) r.(ct_id) r.(ct_mop).
#[export] Instance CpuTrans_eq_dec : EqDecision CpuTrans.
Proof. solve_decision. Defined.

Record AckTrans : Type := MkAckTrans { ack_id : Z; ack_mop : MemRWOpt }.
#[export] Instance AckTrans_eq_dec : EqDecision AckTrans.
Proof. solve_decision. Defined.

(** A request as the caches build it: [std::make_unique<MemTrans>(Req, mop,
    addr, id, bst_len, data, strb)], the latency value-initialised. *)
Definition mk_req (mop : MemRWOpt) (addr id bst_len : Z) (data strb : list Z) : MemTrans :=
  MkMemTrans Req mop addr id bst_len data strb 0.

Definition is_Write (m : MemRWOpt) : bool := negb (is_Read m).
