(* ===== verification/Stats.v ===== *)
(** * Statistics templates

    [src/libs/stats_template/stats.hpp] at the instance [size_t]: named counters
    ([ClassifiedStats]), distributions over buckets ([DistriBase]), distributions
    of differences ([DistriDelta]) and vectors of distributions ([DistriVec]).
    [double] is IEEE binary64, computed by the Standard Library's [SpecFloat].
    Text output is left out; the JSON of a distribution is in [Reports]. *)

From stdpp Require Import gmap strings.
From Stdlib Require Import SpecFloat.
From S2P Require Import Prelude.

(** ** Sums *)

Fixpoint zsum (l : list Z) : Z := match l with [] => 0 | x :: l => x + zsum l end.

Lemma zsum_app l k : zsum (l ++ k) = zsum l + zsum k.
Proof. induction l; simpl; lia. Qed.

Lemma zsum_insert (l : list Z) i x y : l !! i = Some x → zsum (<[i := y]> l) = zsum l - x + y.
Proof.
  revert i. induction l as [|z l IH]; intros [|i] Hi; try done; simpl in *.
  - injection Hi as ->. lia.
  - rewrite (IH i Hi). lia.
Qed.

(** The samples [l] that satisfy [f], each with its weight. *)
Definition weight {A} (f : A → bool) (l : list (A * Z)) : Z :=
  zsum ((λ x, if f x.1 then x.2 else 0) <$> l).

Lemma weight_snoc {A} (f : A → bool) l v n : weight f (l ++ [(v, n)]) = weight f l + if f v then n else 0.
Proof. unfold weight. rewrite fmap_app, zsum_app. simpl. lia. Qed.

(** Folding a fallible operation over its arguments. *)
Fixpoint run_ops {S A} (f : A → S → res S) (l : list A) (s : S) : res S :=
  match l with [] => Ok s | x :: l => s ← f x s; run_ops f l s end.

Lemma run_ops_app {S A} (f : A → S → res S) l k s :
  run_ops f (l ++ k) s = (s' ← run_ops f l s; run_ops f k s').
Proof. revert s. induction l as [|x l IH]; intros s; simpl; [done|]. destruct (f x s); simpl; [apply IH | done]. Qed.

Lemma run_ops_snoc {S A} (f : A → S → res S) l x s : run_ops f (l ++ [x]) s = (s' ← run_ops f l s; f x s').
Proof. rewrite run_ops_app. destruct (run_ops f l s); [|done]. simpl. by destruct (f x _). Qed.

(** [v.at(i) += n] *)
Definition bump (i n : Z) (v : list Z) : res (list Z) := x ← vec_at v i; vec_set v i (u64 (x + n)).

(** A vector given by its entries. *)
Lemma bump_spec (f : Z → Z) m i n :
  bump i n (f <$> zrange m) =
    if (0 <=? i) && (i <? m) then Ok ((λ j, if j =? i then u64 (f j + n) else f j) <$> zrange m) else Err OutOfRange.
Proof.
  unfold bump. assert (zlen (f <$> zrange m) = Z.max 0 m) as El.
  { unfold zlen, zrange. rewrite !length_fmap, length_seq. lia. }
  destruct ((0 <=? i) && (i <? m)) eqn:Hi.
  - apply andb_true_iff in Hi as [Hi1%Z.leb_le Hi2%Z.ltb_lt].
    assert (vec_at (f <$> zrange m) i = Ok (f i)) as ->.
    { apply vec_at_Ok. split; [done|]. unfold zrange. rewrite !list_lookup_fmap, lookup_seq_lt by lia. simpl.
      by rewrite Z2Nat.id. }
    simpl. rewrite vec_set_lt by lia. f_equal. apply list_eq. intros k. unfold zrange.
    rewrite !list_lookup_fmap. destruct (decide (k = Z.to_nat i)) as [->|Hk].
    + rewrite list_lookup_insert_eq by (rewrite !length_fmap, length_seq; lia).
      rewrite lookup_seq_lt by lia. simpl. by rewrite Z2Nat.id, Z.eqb_refl by lia.
    + rewrite list_lookup_insert_ne, !list_lookup_fmap by done.
      destruct (seq 0 (Z.to_nat m) !! k) as [j|] eqn:Ej; [|done]. simpl. apply lookup_seq in Ej as [-> _]. simpl.
      destruct (Z.eqb_spec (Z.of_nat k) i); [lia | done].
  - destruct (vec_at (f <$> zrange m) i) as [x|e] eqn:Ex.
    + apply vec_at_range in Ex. rewrite El in Ex. apply andb_false_iff in Hi as [?%Z.leb_gt|?%Z.ltb_ge]; lia.
    + unfold vec_at in Ex. repeat case_match; try done; by injection Ex as <-.
Qed.

(** ** [double] *)

Definition double : Type := spec_float.
Definition prec : Z := 53.
Definition emax : Z := 1024.
Definition dzero : double := S754_zero false.

(** [static_cast<double>] of an unsigned value. *)
Definition to_double (z : Z) : double := binary_normalize prec emax z 0 false.
Definition dadd : double → double → double := SFadd prec emax.
Definition dsub : double → double → double := SFsub prec emax.
Definition dmul : double → double → double := SFmul prec emax.
Definition ddiv : double → double → double := SFdiv prec emax.
#[global] Arguments to_double : simpl never.
#[global] Arguments dadd : simpl never.
#[global] Arguments dsub : simpl never.
#[global] Arguments dmul : simpl never.
#[global] Arguments ddiv : simpl never.

(** ** [ClassifiedStats<U>] *)

Module Classified.
Section classified.
Context {U : Type} `{Countable U}.

Record ClassifiedStats : Type := MkClassified {
  arr : gmap string Z;
  idToNames : gmap U string;
  samples : Z
}.
#[global] Instance eta_ClassifiedStats : Eta ClassifiedStats := λ r, MkClassified r.(arr) r.(idToNames) r.(samples).

(** [for (auto const& [id, nm] : idToNames) arr[nm] = 0;] *)
Definition zero_names (names : gmap U string) (a : gmap string Z) : gmap string Z :=
  map_fold (λ _ nm a, <[nm := 0]> a) a names.

Definition reset_stats (c : ClassifiedStats) : ClassifiedStats :=
  c <| samples := 0 |> <| arr ::= λ a, zero_names (idToNames c) a |>.

Definition make (nameMap : gmap U string) : ClassifiedStats := reset_stats (MkClassified ∅ nameMap 0).

(** [idToNames.at(key)] *)
Definition name_of (key : U) (c : ClassifiedStats) : res string :=
  match idToNames c !! key with Some nm => Ok nm | None => Err OutOfRange end.

Definition sample (op : U * Z) (c : ClassifiedStats) : res ClassifiedStats :=
  let c := c <| samples ::= (λ s, u64 (s + op.2)) |> in
  nm ← name_of op.1 c;
  mret (c <| arr ::= (λ a, <[nm := u64 (default 0 (a !! nm) + op.2)]> a) |>).

Definition at_ (key : U) (c : ClassifiedStats) : res Z :=
  nm ← name_of key c;
  match arr c !! nm with Some n => Ok n | None => Err OutOfRange end.

Definition get_samples (c : ClassifiedStats) : Z := samples c.

(** The map the JSON object is built from. *)
Definition gen_json (c : ClassifiedStats) : gmap string Z := <["samples"%string := samples c]> (arr c).

Definition named (names : gmap U string) (nm : string) : Prop := ∃ id, names !! id = Some nm.

Lemma reset_lookup (names : gmap U string) (a : gmap string Z) nm :
  (named names nm → zero_names names a !! nm = Some 0) ∧
  (¬ named names nm → zero_names names a !! nm = a !! nm).
Proof.
  unfold named, zero_names. apply (map_fold_weak_ind (λ r m, ((∃ id, m !! id = Some nm) → r !! nm = Some 0) ∧
    ((¬ ∃ id, m !! id = Some nm) → r !! nm = a !! nm))).
  - split; [intros [id Hid]; by rewrite lookup_empty in Hid | done].
  - intros id x m r Hm [IH1 IH2]. destruct (decide (x = nm)) as [->|Hne].
    + split; intros Hx; [by rewrite lookup_insert_eq|]. destruct Hx. exists id. by rewrite lookup_insert_eq.
    + rewrite lookup_insert_ne by done. split.
      * intros [j Hj]. apply IH1. exists j. destruct (decide (j = id)) as [->|]; [|by rewrite lookup_insert_ne in Hj].
        rewrite lookup_insert_eq in Hj. by injection Hj as ->.
      * intros Hx. apply IH2. intros [j Hj]. apply Hx. exists j. rewrite lookup_insert_ne; [done|].
        intros ->. by rewrite Hm in Hj.
Qed.

(** The closed form after the samples [l]. *)
Definition same_name (names : gmap U string) (nm : string) (b : U) : bool := bool_decide (names !! b = Some nm).

Record counted (names : gmap U string) (l : list (U * Z)) (c : ClassifiedStats) : Prop := {
  c_names : idToNames c = names;
  c_samples : samples c = u64 (weight (λ _, true) l);
  c_arr nm : named names nm → arr c !! nm = Some (u64 (weight (same_name names nm) l))
}.

Lemma sample_counted names l b n c : counted names l c →
  match sample (b, n) c with
  | Ok c' => is_Some (names !! b) ∧ counted names (l ++ [(b, n)]) c'
  | Err e => e = OutOfRange ∧ names !! b = None
  end.
Proof.
  intros [H1 H2 H3]. unfold sample, name_of. simpl. rewrite H1.
  destruct (names !! b) as [nm|] eqn:E; simpl; [|done]. split; [by eexists|]. constructor; simpl; [done | |].
  - by rewrite weight_snoc, H2, u64_add_l.
  - intros x Hx. rewrite weight_snoc. unfold same_name at 2. rewrite E. destruct (decide (nm = x)) as [->|Hne].
    + rewrite lookup_insert_eq, (H3 x Hx), bool_decide_eq_true_2 by done. simpl. by rewrite u64_add_l.
    + rewrite lookup_insert_ne, bool_decide_eq_false_2, Z.add_0_r by congruence. by apply H3.
Qed.

Lemma make_counted names : counted names [] (make names).
Proof. constructor; [done..|]. intros nm Hnm. by apply (proj1 (reset_lookup names _ nm)). Qed.

Lemma run_counted names l c : run_ops sample l (make names) = Ok c → counted names l c.
Proof.
  revert c. induction l as [|[b n] l IH] using rev_ind; intros c; [intros [= <-]; apply make_counted|].
  rewrite run_ops_snoc. intros (c1 & H1 & H2)%bind_Ok_inv. specialize (IH c1 H1).
  pose proof (sample_counted names l b n c1 IH) as Hs. rewrite H2 in Hs. apply Hs.
Qed.

(** After any samples, the count of a key is the total weight of the samples
    whose key has the same name, [samples] is the total weight, both modulo 2^64;
    and a run fails only on a key without a name. *)
Theorem classified_counts (names : gmap U string) l :
  match run_ops sample l (make names) with
  | Ok c => get_samples c = u64 (weight (λ _, true) l) ∧
      ∀ key, at_ key c = match names !! key with
                         | Some nm => Ok (u64 (weight (same_name names nm) l))
                         | None => Err OutOfRange
                         end
  | Err e => e = OutOfRange ∧ ∃ b, b ∈ l.*1 ∧ names !! b = None
  end.
Proof.
  destruct (run_ops sample l (make names)) as [c|e] eqn:E.
  - apply run_counted in E as [H1 H2 H3]. split; [done|]. intros key. unfold at_, name_of. rewrite H1.
    destruct (names !! key) as [nm|] eqn:Ek; [|done]. simpl. rewrite H3; [done | by exists key].
  - induction l as [|[b n] l IH] using rev_ind; [done|]. rewrite run_ops_snoc in E. rewrite fmap_app.
    destruct (run_ops sample l (make names)) as [c|e'] eqn:Ec.
    + pose proof (sample_counted names l b n c (run_counted _ _ _ Ec)) as Hs. simpl in E. rewrite E in Hs.
      destruct Hs as [-> Hb]. split; [done|]. exists b. split; [|done]. apply elem_of_app. right. by left.
    + injection E as ->. destruct (IH eq_refl) as (He & b' & Hb & Hn). split; [done|]. exists b'. split; [|done].
      apply elem_of_app. by left.
Qed.
End classified.
End Classified.

(** ** [DistriBase<size_t>] *)

Module Distri.
Definition Overflow : Z := 0.
Definition Underflow : Z := 1.
Definition Min : Z := 2.
Definition Max : Z := 3.
Definition Num_MetaIdx : Z := 4.
Definition Sum : Z := 0.
Definition Avg : Z := 1.
Definition Num_StatIdx : Z := 2.

Record DistriBase : Type := MkDistri {
  min : Z;
  max : Z;
  delta : Z;
  maxidx : Z;
  arr : list Z;
  meta : list Z;
  stat : list double;
  samples : Z
}.
#[global] Instance eta_DistriBase : Eta DistriBase := λ r,
  MkDistri r.(min) r.(max) r.(delta) r.(maxidx) r.(arr) r.(meta) r.(stat) r.(samples).

(** [arr.assign(maxidx, 0U); ...] *)
Definition reset_stats (d : DistriBase) : DistriBase :=
  d <| arr := replicate (Z.to_nat (maxidx d)) 0 |> <| meta := replicate (Z.to_nat Num_MetaIdx) 0 |>
    <| stat := replicate (Z.to_nat Num_StatIdx) dzero |> <| samples := 0 |>.

Definition make (min max delta : Z) : res DistriBase :=
  maxidx ← udiv (u64 (max - min)) delta;
  mret (reset_stats (MkDistri min max delta maxidx [] [] [] 0)).

(** The bucket counters. *)
Definition sample_bucket (v n : Z) (d : DistriBase) : res DistriBase :=
  if max d <=? v then m ← bump Overflow n (meta d); mret (d <| meta := m |>)
  else if v <? min d then a ← bump Underflow n (arr d); mret (d <| arr := a |>)
  else idx ← udiv (u64 (v - min d)) (delta d); a ← bump idx n (arr d); mret (d <| arr := a |>).

Definition sample_meta (v : Z) (d : DistriBase) : res DistriBase :=
  mx ← vec_at (meta d) Max; m ← vec_set (meta d) Max (Z.max v mx);
  mn ← vec_at m Min; m ← vec_set m Min (Z.min v mn);
  mret (d <| meta := m |>).

Definition sample_stat (v n : Z) (d : DistriBase) : res DistriBase :=
  sum ← vec_at (stat d) Sum; s ← vec_set (stat d) Sum (dadd sum (to_double v));
  let frac := ddiv (to_double (u64 (samples d - n))) (to_double (samples d)) in
  avg ← vec_at s Avg;
  s ← vec_set s Avg (dadd (dmul frac avg) (dmul (dsub (to_double 1) frac) (to_double v)));
  mret (d <| stat := s |>).

Definition sample (op : Z * Z) (d : DistriBase) : res DistriBase :=
  let d := d <| samples ::= (λ s, u64 (s + op.2)) |> in
  d ← sample_bucket op.1 op.2 d;
  d ← sample_meta op.1 d;
  sample_stat op.1 op.2 d.

Definition get_samples (d : DistriBase) : Z := samples d.
Definition get_avg (d : DistriBase) : res double := vec_at (stat d) Avg.
Definition get_sum (d : DistriBase) : res double := vec_at (stat d) Sum.

(** ** What the counters mean *)

Section spec.
Context (mn mx dl : Z) (Hmn : 0 <= mn <= mx) (Hmx : mx < 2 ^ 64) (Hdl : 0 < dl).

Notation buckets := ((mx - mn) / dl).

(** The entry of [arr] a value counts in.  Values below the minimum count in
    entry 1, not in the [Underflow] counter. *)
Definition in_bucket (i v : Z) : bool :=
  (v <? mx) && if v <? mn then i =? 1 else (v - mn) / dl =? i.

Definition above (v : Z) : bool := mx <=? v.

(** A value [sample] accepts. *)
Definition accepted (v : Z) : bool :=
  (mx <=? v) || if v <? mn then 1 <? buckets else (v - mn) / dl <? buckets.

(** [Sum] and [Avg] as left folds, with the number of samples. *)
Definition stat_step (st : Z * (double * double)) (op : Z * Z) : Z * (double * double) :=
  let t := u64 (st.1 + op.2) in
  let frac := ddiv (to_double (u64 (t - op.2))) (to_double t) in
  (t, (dadd st.2.1 (to_double op.1),
       dadd (dmul frac st.2.2) (dmul (dsub (to_double 1) frac) (to_double op.1)))).

Definition stats_of (l : list (Z * Z)) : Z * (double * double) := fold_left stat_step l (0, (dzero, dzero)).

(** The distribution after the samples [l], in closed form. *)
Definition after (l : list (Z * Z)) : DistriBase :=
  MkDistri mn mx dl buckets
    ((λ i, u64 (weight (in_bucket i) l)) <$> zrange buckets)
    [u64 (weight above l); 0; 0; foldr Z.max 0 l.*1]
    [(stats_of l).2.1; (stats_of l).2.2] (u64 (weight (λ _, true) l)).

Lemma stats_of_snoc l op : stats_of (l ++ [op]) = stat_step (stats_of l) op.
Proof. unfold stats_of. by rewrite fold_left_app. Qed.

Lemma stats_of_samples l : (stats_of l).1 = u64 (weight (λ _, true) l).
Proof.
  induction l as [|[v n] l IH] using rev_ind; [done|].
  rewrite stats_of_snoc, weight_snoc. simpl. by rewrite IH, u64_add_l.
Qed.

Lemma make_after : make mn mx dl = Ok (after []).
Proof.
  unfold make, udiv. rewrite u64_small by lia. destruct (Z.eqb_spec dl 0); [lia|].
  cbn [mbind res_bind mret res_ret]. unfold after, reset_stats. simpl. f_equal. f_equal.
  unfold zrange. generalize (Z.to_nat buckets). intros k. generalize 0%nat as b.
  induction k as [|k IH]; intros b; simpl; [done|]. by rewrite (IH (S b)).
Qed.

(** Where the weight of a sample goes. *)
Lemma bucket_snoc l i v n :
  (∀ j, 0 <= j < buckets → in_bucket j v = (j =? i)) →
  (λ j, if j =? i then u64 (u64 (weight (in_bucket j) l) + n) else u64 (weight (in_bucket j) l)) <$> zrange buckets =
  (λ j, u64 (weight (in_bucket j) (l ++ [(v, n)]))) <$> zrange buckets.
Proof.
  intros Hi. apply list_fmap_ext. intros k j Hj. apply list_elem_of_lookup_2 in Hj. apply elem_of_zrange in Hj.
  rewrite weight_snoc, (Hi j Hj). destruct (j =? i); [by rewrite u64_add_l | by rewrite Z.add_0_r].
Qed.

Lemma max_snoc l v : foldr Z.max 0 (l ++ [v]) = Z.max v (foldr Z.max 0 l).
Proof. induction l as [|x l IH]; simpl; lia. Qed.

(** [sample] on the counters of [after l]. *)
Lemma bucket_after l v n d : 0 <= v < 2 ^ 64 →
  min d = mn → max d = mx → delta d = dl → arr d = arr (after l) → meta d = meta (after l) →
  sample_bucket v n d =
    if accepted v then Ok (d <| arr := arr (after (l ++ [(v, n)])) |>
                             <| meta := [u64 (weight above (l ++ [(v, n)])); 0; 0; foldr Z.max 0 l.*1] |>)
    else Err OutOfRange.
Proof.
  intros Hv E1 E2 E3 E4 E5. unfold sample_bucket, accepted. rewrite E1, E2, E3, E4, E5. unfold after. cbn [arr meta].
  destruct d as [mn' mx' dl' mi a m st sa]. simpl in E1, E2, E3, E4, E5. subst mn' mx' dl' a m. simpl.
  assert (∀ b : bool, above v = b → u64 (weight above (l ++ [(v, n)])) = if b then u64 (u64 (weight above l) + n) else u64 (weight above l)) as Hab.
  { intros b Hb. rewrite weight_snoc, Hb. destruct b; [by rewrite u64_add_l | by rewrite Z.add_0_r]. }
  destruct (Z.leb_spec mx v) as [Hmv|Hmv]; simpl.
  - rewrite (Hab true) by (apply Z.leb_le; lia). f_equal. unfold over. simpl. f_equal.
    apply list_fmap_ext. intros _ j _. rewrite weight_snoc.
    assert (in_bucket j v = false) as ->; [|by rewrite Z.add_0_r]. unfold in_bucket. destruct (Z.ltb_spec v mx); [lia | done].
  - rewrite (Hab false) by (apply Z.leb_gt; lia).
    destruct (Z.ltb_spec v mn) as [Hlt|Hge]; simpl.
    + rewrite bump_spec. change (0 <=? Underflow) with true. simpl. change Underflow with 1.
      destruct (1 <? buckets); [|done]. simpl. f_equal. unfold over. simpl. f_equal. apply bucket_snoc.
      intros j Hj. unfold in_bucket. destruct (Z.ltb_spec v mx), (Z.ltb_spec v mn); lia.
    + unfold udiv. destruct (Z.eqb_spec dl 0); [lia|]. rewrite (u64_small (v - mn)) by lia. simpl. rewrite bump_spec.
      destruct (Z.leb_spec 0 ((v - mn) / dl)) as [_|Hneg]; [|pose proof (Z.div_pos (v - mn) dl); lia]. simpl.
      destruct ((v - mn) / dl <? buckets); [|done]. simpl. f_equal. unfold over. simpl. f_equal. apply bucket_snoc.
      intros j Hj. unfold in_bucket. destruct (Z.ltb_spec v mx), (Z.ltb_spec v mn); lia.
Qed.

Lemma sample_after l v n : 0 <= v < 2 ^ 64 →
  sample (v, n) (after l) = if accepted v then Ok (after (l ++ [(v, n)])) else Err OutOfRange.
Proof.
  intros Hv. unfold sample. cbn [fst snd]. rewrite (bucket_after l) by done.
  destruct (accepted v); [|done]. unfold sample_meta, sample_stat, after, over. simpl.
  unfold vec_set. simpl. f_equal. f_equal.
  - rewrite fmap_app. simpl. rewrite max_snoc. rewrite Z.min_r by lia. done.
  - rewrite stats_of_snoc. unfold stat_step. simpl. by rewrite stats_of_samples.
  - by rewrite weight_snoc, u64_add_l.
Qed.
Lemma run_after l d : Forall (λ op, 0 <= op.1 < 2 ^ 64) l →
  (d ← make mn mx dl; run_ops sample l d) = Ok d → d = after l ∧ Forall (λ op, accepted op.1 = true) l.
Proof.
  intros Hl. rewrite make_after. cbn [mbind res_bind]. revert d.
  induction l as [|[v n] l IH] using rev_ind; intros d; [by intros [= <-]|].
  apply Forall_app in Hl as [Hl [Hv _]%Forall_cons_iff]. rewrite run_ops_snoc. intros (d1 & H1 & H2)%bind_Ok_inv.
  destruct (IH Hl d1 H1) as [-> Ha]. rewrite sample_after in H2 by done.
  destruct (accepted v) eqn:Hacc; [|done]. injection H2 as <-. split; [done|]. apply Forall_app. by repeat constructor.
Qed.

Lemma zsum_u64 (f : Z → Z) l : u64 (zsum ((λ i, u64 (f i)) <$> l)) = u64 (zsum (f <$> l)).
Proof.
  induction l as [|x l IH]; [done|]. rewrite !fmap_cons. cbn [zsum]. rewrite u64_add_l.
  by rewrite (Z.add_comm (f x)), (Z.add_comm (f x)), <- u64_add_l, IH, u64_add_l.
Qed.

Lemma zsum_single (k n m : Z) : 0 <= k < m → zsum ((λ i, if i =? k then n else 0) <$> zrange m) = n.
Proof.
  intros Hk. unfold zrange.
  assert (∀ b c, zsum ((λ i, if i =? k then n else 0) <$> (Z.of_nat <$> seq b c)) =
    if (Z.of_nat b <=? k) && (k <? Z.of_nat (b + c)) then n else 0) as Hs.
  { intros b c. revert b. induction c as [|c IH]; intros b; simpl.
    - destruct (Z.leb_spec (Z.of_nat b) k), (Z.ltb_spec k (Z.of_nat (b + 0))); simpl; lia.
    - rewrite IH. destruct (Z.eqb_spec (Z.of_nat b) k), (Z.leb_spec (Z.of_nat b) k), (Z.leb_spec (Z.of_nat (S b)) k),
        (Z.ltb_spec k (Z.of_nat (S b + c))), (Z.ltb_spec k (Z.of_nat (b + S c))); simpl; lia. }
  rewrite Hs. destruct (Z.leb_spec (Z.of_nat 0) k), (Z.ltb_spec k (Z.of_nat (0 + Z.to_nat m))); simpl; lia.
Qed.

Lemma zsum_add (f g : Z → Z) l : zsum ((λ i, f i + g i) <$> l) = zsum (f <$> l) + zsum (g <$> l).
Proof. induction l as [|x l IH]; [done|]. rewrite !fmap_cons. cbn [zsum]. lia. Qed.

Lemma zsum_zero (l : list Z) : zsum ((λ _, 0) <$> l) = 0.
Proof. by induction l. Qed.

(** Each accepted sample is in exactly one counter. *)
Lemma weights_partition l : Forall (λ op, 0 <= op.1 ∧ accepted op.1 = true) l →
  zsum ((λ i, weight (in_bucket i) l) <$> zrange buckets) + weight above l = weight (λ _, true) l.
Proof.
  induction l as [|[v n] l IH] using rev_ind; intros Hl.
  - change (zsum ((λ _, 0) <$> zrange buckets) + 0 = 0). by rewrite zsum_zero.
  - apply Forall_app in Hl as [Hl [[Hv Ha] _]%Forall_cons_iff]. specialize (IH Hl). simpl in Hv, Ha.
    rewrite !weight_snoc.
    erewrite (list_fmap_ext _ (λ i, weight (in_bucket i) l + if in_bucket i v then n else 0)) by (intros; apply weight_snoc).
    rewrite zsum_add. enough (zsum ((λ i, if in_bucket i v then n else 0) <$> zrange buckets) = if above v then 0 else n)
      as -> by (destruct (above v); lia).
    unfold in_bucket, above, accepted in *. destruct (Z.ltb_spec v mx), (Z.leb_spec mx v); try lia; simpl in *.
    + destruct (Z.ltb_spec v mn).
      * apply zsum_single. apply Z.ltb_lt in Ha. lia.
      * erewrite (list_fmap_ext _ (λ i, if i =? (v - mn) / dl then n else 0)) by (intros; by rewrite Z.eqb_sym).
        apply zsum_single. apply Z.ltb_lt in Ha. pose proof (Z.div_pos (v - mn) dl). lia.
    + apply zsum_zero.
Qed.
End spec.

(** C26: a distribution accepts a sequence of samples exactly when each value is
    at least [max], or below [min] and there are two buckets, or in a whole
    bucket; the run then ends in the closed form [after]: every counter is the
    weight of the samples in its range, modulo 2^64, [Sum] and [Avg] are the
    running sum and mean in binary64 in the order of the samples.  Otherwise it
    ends in [std::out_of_range]. *)
Theorem distri_counts mn mx dl l : 0 <= mn <= mx → mx < 2 ^ 64 → 0 < dl → Forall (λ op, 0 <= op.1 < 2 ^ 64) l →
  (d ← make mn mx dl; run_ops sample l d) =
    if forallb (accepted mn mx dl) l.*1 then Ok (after mn mx dl l) else Err OutOfRange.
Proof.
  intros Hmn Hmx Hdl Hl. rewrite make_after by done. cbn [mbind res_bind].
  induction l as [|[v n] l IH] using rev_ind; [done|].
  apply Forall_app in Hl as [Hl [Hv _]%Forall_cons_iff]. rewrite run_ops_snoc, fmap_app, forallb_app, (IH Hl).
  destruct (forallb _ _); [|done]. cbn [mbind res_bind andb]. rewrite sample_after by done.
  simpl. by rewrite andb_true_r.
Qed.

(** C27: the counters of a distribution are balanced: after any accepted samples
    the buckets and [Overflow] add up to [samples], modulo 2^64.  [Underflow]
    and [Min] never leave zero. *)
Theorem distri_balanced mn mx dl l d : 0 <= mn <= mx → mx < 2 ^ 64 → 0 < dl → Forall (λ op, 0 <= op.1 < 2 ^ 64) l →
  (d ← make mn mx dl; run_ops sample l d) = Ok d →
  ∃ o, vec_at (meta d) Overflow = Ok o ∧ u64 (zsum (arr d) + o) = get_samples d ∧
    vec_at (meta d) Underflow = Ok 0 ∧ vec_at (meta d) Min = Ok 0.
Proof.
  intros Hmn Hmx Hdl Hl Hd. apply run_after in Hd as [-> Ha]; [|done..].
  exists (u64 (weight (above mx) l)). split; [done|]. split; [|by split]. unfold get_samples, after. simpl.
  rewrite <- u64_add_l, zsum_u64, u64_add. f_equal. apply weights_partition; [done..|].
  apply Forall_forall. intros op Hop. split.
  - by apply (proj1 (Forall_forall _ _) Hl) in Hop as [? _].
  - by apply (proj1 (Forall_forall _ _) Ha) in Hop.
Qed.

(** A value below [min] counts in the second bucket. *)
Definition below_ex : list (Z * Z) := [(3, 1); (40, 2); (25, 1)].

Lemma distri_counts_witness : (d ← make 10 30 5; run_ops sample below_ex d) = Ok (after 10 30 5 below_ex).
Proof. rewrite distri_counts; [done | lia | lia | lia | by repeat constructor]. Defined.

Lemma distri_balanced_witness : ∃ d o, (d ← make 10 30 5; run_ops sample below_ex d) = Ok d ∧
  arr d = [0; 1; 0; 1] ∧ vec_at (meta d) Overflow = Ok o ∧ o = 2 ∧ u64 (zsum (arr d) + o) = 4 ∧ vec_at (meta d) Underflow = Ok 0.
Proof.
  destruct (make 10 30 5 ≫= run_ops sample below_ex) as [d|e] eqn:E; [|by vm_compute in E].
  destruct (distri_balanced 10 30 5 below_ex d) as (o & H1 & H2 & H3 & _); [lia | lia | lia | by repeat constructor | done |].
  exists d, o. split; [done|]. vm_compute in E. injection E as <-. injection H1 as <-. by repeat split.
Defined.
End Distri.

(** ** [DistriDelta<size_t>] *)

Module Delta.
Record DistriDelta : Type := MkDelta { base : Distri.DistriBase; last : Z }.
#[global] Instance eta_DistriDelta : Eta DistriDelta := λ r, MkDelta r.(base) r.(last).

Definition make (min max delta init : Z) : res DistriDelta :=
  b ← Distri.make min max delta; mret (MkDelta b init).

Definition sample (op : Z * Z) (d : DistriDelta) : res DistriDelta :=
  b ← Distri.sample (u64 (op.1 - last d), op.2) (base d);
  mret (MkDelta b op.1).

Definition updlast (v : Z) (d : DistriDelta) : DistriDelta := d <| last := v |>.

(** Inherited: [last] stays. *)
Definition reset_stats (d : DistriDelta) : DistriDelta := d <| base ::= Distri.reset_stats |>.

(** The differences of consecutive values, the first to [prev]. *)
Fixpoint diffs (prev : Z) (l : list (Z * Z)) : list (Z * Z) :=
  match l with [] => [] | (v, n) :: l => (u64 (v - prev), n) :: diffs v l end.

Lemma last_cons_eq {A} (l : list A) x d : List.last (x :: l) d = List.last l x.
Proof.
  revert x d. induction l as [|y l IH]; intros x d; [done|].
  change (List.last (x :: y :: l) d) with (List.last (y :: l) d). by rewrite !(IH y).
Qed.

(** Sampling values is sampling their consecutive differences, also across a
    reset, after which the first difference is to the last value before it. *)
Theorem delta_refines (l : list (Z * Z)) (d : DistriDelta) :
  run_ops sample l d =
    (b ← run_ops Distri.sample (diffs (last d) l) (base d); mret (MkDelta b (List.last l.*1 (last d)))) ∧
  run_ops sample l (reset_stats d) =
    (b ← run_ops Distri.sample (diffs (last d) l) (Distri.reset_stats (base d)); mret (MkDelta b (List.last l.*1 (last d)))).
Proof.
  assert (∀ d, run_ops sample l d =
    (b ← run_ops Distri.sample (diffs (last d) l) (base d); mret (MkDelta b (List.last l.*1 (last d))))) as Hr.
  { clear d. induction l as [|[v n] l IH]; intros d; [by destruct d|]. cbn [run_ops diffs].
    change (sample (v, n) d) with (b ← Distri.sample (u64 (v - last d), n) (base d); mret (MkDelta b v)).
    destruct (Distri.sample (u64 (v - last d), n) (base d)) as [b|e]; [|done].
    cbn [mbind res_bind mret res_ret]. rewrite IH. cbn [base last]. rewrite fmap_cons. cbn [fst].
    by rewrite last_cons_eq. }
  split; [apply Hr | by rewrite Hr].
Qed.
End Delta.

(** ** What a vector of distributions asks of its elements *)

Class Distribution (U : Type) := {
  d_sample : Z * Z → U → res U;
  d_reset : U → U;
  d_samples : U → Z
}.

Class DistributionLaws (U : Type) `{Distribution U} := {
  d_sample_counts op u u' : d_sample op u = Ok u' → d_samples u' = u64 (d_samples u + op.2);
  d_reset_zero u : d_samples (d_reset u) = 0
}.

#[export] Instance base_distribution : Distribution Distri.DistriBase :=
  {| d_sample := Distri.sample; d_reset := Distri.reset_stats; d_samples := Distri.get_samples |}.
#[export] Instance delta_distribution : Distribution Delta.DistriDelta :=
  {| d_sample := Delta.sample; d_reset := Delta.reset_stats; d_samples := λ d, Distri.get_samples (Delta.base d) |}.

Lemma sample_counts op d d' : Distri.sample op d = Ok d' → Distri.samples d' = u64 (Distri.samples d + op.2).
Proof.
  unfold Distri.sample. intros (d1 & H1 & (d2 & H2 & H3)%bind_Ok_inv)%bind_Ok_inv.
  assert (Distri.samples d1 = u64 (Distri.samples d + op.2)) as E1.
  { unfold Distri.sample_bucket in H1. repeat case_match; repeat res_inv H1; by subst d1. }
  assert (Distri.samples d2 = Distri.samples d1) as E2.
  { unfold Distri.sample_meta in H2. repeat res_inv H2. by subst d2. }
  unfold Distri.sample_stat in H3. repeat res_inv H3. subst d'. simpl. by rewrite E2, E1.
Qed.

#[export] Instance base_laws : DistributionLaws Distri.DistriBase.
Proof. split; [apply sample_counts | done]. Qed.

#[export] Instance delta_laws : DistributionLaws Delta.DistriDelta.
Proof.
  split; [|done]. intros op u u' (b & Hb & [= <-])%bind_Ok_inv. simpl. by apply (sample_counts _ _ _ Hb).
Qed.

(** ** [DistriVec<U, size_t>] *)

Module DVec.
Section vec.
Context {U : Type} `{DistributionLaws U}.

Record DistriVec : Type := MkVec { cats : list U; sumsamples : Z }.
#[global] Instance eta_DistriVec : Eta DistriVec := λ r, MkVec r.(cats) r.(sumsamples).

(** [new_cat]: the constructor of [U] on the arguments of the vector. *)
Definition make (n : Z) (new_cat : string → res U) (names : list string) : res DistriVec :=
  assert_ (n =? zlen names);;
  cs ← run_ops (λ nm cs, c ← new_cat nm; mret (cs ++ [c])) names [];
  mret (MkVec cs 0).

Definition reset_stats (v : DistriVec) : DistriVec := v <| cats ::= fmap d_reset |> <| sumsamples := 0 |>.

(** [sample(cat, value)] *)
Definition sample (op : Z * Z) (v : DistriVec) : res DistriVec :=
  let v := v <| sumsamples ::= incr |> in
  c ← vec_at (cats v) op.1;
  c ← d_sample (op.2, 1) c;
  cs ← vec_set (cats v) op.1 c;
  mret (v <| cats := cs |>).

Definition size (v : DistriVec) : Z := zlen (cats v).
Definition samples (v : DistriVec) : Z := sumsamples v.

Definition balanced (v : DistriVec) : Prop := samples v = u64 (zsum (d_samples <$> cats v)).

(** The vector's count is the sum of its elements' counts after any samples
    and resets, whatever distributions it holds. *)
Theorem vec_balanced (v : DistriVec) : 
  balanced (reset_stats v) ∧ ∀ l v', balanced v → run_ops sample l v = Ok v' → balanced v' ∧ size v' = size v.
Proof.
  unfold balanced, samples, size. split.
  - simpl. rewrite <- list_fmap_compose. induction (cats v) as [|c cs IH]; [done|].
    rewrite fmap_cons. cbn [zsum]. unfold compose at 1. by rewrite d_reset_zero, Z.add_0_l.
  - intros l. induction l as [|[i x] l IH] using rev_ind; intros v' Hv; [by intros [= <-]|].
    rewrite run_ops_snoc. intros (v1 & H1 & H2)%bind_Ok_inv. destruct (IH v1 Hv H1) as [Hb Es].
    unfold sample in H2. simpl in H2. repeat res_inv H2. apply vec_at_Ok in Ha as [Hi Ha].
    apply vec_set_Ok in Ha1 as [_ ->]. subst v'. simpl. rewrite zlen_insert. split; [|done].
    rewrite list_fmap_insert. erewrite zsum_insert by (rewrite list_lookup_fmap, Ha; done).
    rewrite (d_sample_counts _ _ _ Ha0). simpl. unfold incr. rewrite Hb, u64_add_l.
    rewrite Z.add_comm with (m := u64 _), u64_add_l. f_equal. lia.
Qed.
End vec.
End DVec.
