(* ===== verification/Json.v ===== *)
(** * Ordered JSON objects

    The reports are built with [nlohmann::ordered_json], which is not part of the
    repository: [Json] names the operations the sources use, and [JsonLaws] what
    its documentation says of them.  An object keeps its keys in the order of their
    first insertion; [j[key] = v] on [null] makes an object, and on an object
    updates the key in place or appends it.  [Tree.json] is a value type with these
    laws. *)

From stdpp Require Import strings.
From S2P Require Import Prelude Stats.

Class Json (J : Type) : Type := {
  jnull : J;
  jint : Z → J;
  jreal : double → J;
  jbool : bool → J;
  jstr : string → J;
  jarray : list J → J;
  (** [json{{key, v}, ...}] *)
  jlit : list (string * J) → J;
  (** [j[key] = v] *)
  jset : string → J → J → J;
  (** [j.items()] *)
  jitems : J → list (string * J)
}.

(** ** Association lists in insertion order *)

Section assoc.
Context {V : Type}.
Implicit Types (k : string) (v : V) (l : list (string * V)).

Fixpoint upsert k v l : list (string * V) :=
  match l with
  | [] => [(k, v)]
  | kv :: l => if decide (kv.1 = k) then (k, v) :: l else kv :: upsert k v l
  end.

Fixpoint assoc k l : option V :=
  match l with
  | [] => None
  | kv :: l => if decide (kv.1 = k) then Some kv.2 else assoc k l
  end.

Lemma upsert_new k v l : k ∉ l.*1 → upsert k v l = l ++ [(k, v)].
Proof.
  induction l as [|[k' v'] l IH]; intros Hk; simpl; [done|].
  rewrite fmap_cons, not_elem_of_cons in Hk. destruct Hk as [Hne Hk].
  rewrite decide_False by (intros ->; by apply Hne). by rewrite IH.
Qed.

Lemma upsert_keys k v l : (upsert k v l).*1 = if decide (k ∈ l.*1) then l.*1 else l.*1 ++ [k].
Proof.
  induction l as [|[k' v'] l IH]; [done|]. cbn [upsert fst]. destruct (decide (k' = k)) as [->|Hne].
  - rewrite decide_True by by left. done.
  - rewrite !fmap_cons, IH. cbn [fst]. destruct (decide (k ∈ l.*1)) as [Hk|Hk].
    + rewrite decide_True by by right. done.
    + rewrite decide_False; [done|]. rewrite not_elem_of_cons. by split.
Qed.

Lemma upsert_NoDup k v l : NoDup l.*1 → NoDup (upsert k v l).*1.
Proof.
  intros Hl. rewrite upsert_keys. destruct (decide (k ∈ l.*1)) as [|Hk]; [done|].
  apply list.NoDup_app. split; [done|]. split; [|apply NoDup_singleton].
  intros x Hx ->%list_elem_of_singleton. done.
Qed.

Lemma assoc_upsert k v l k' : assoc k' (upsert k v l) = if decide (k = k') then Some v else assoc k' l.
Proof.
  induction l as [|[k0 v0] l IH]; [done|]. cbn [upsert fst]. destruct (decide (k0 = k)) as [->|Hne].
  - cbn [assoc fst snd]. by destruct (decide (k = k')).
  - cbn [assoc fst snd]. rewrite IH. destruct (decide (k0 = k')) as [->|]; [|done].
    by rewrite decide_False by congruence.
Qed.

Lemma assoc_app k l l' : assoc k (l ++ l') = match assoc k l with Some v => Some v | None => assoc k l' end.
Proof. induction l as [|[k' v'] l IH]; [done|]. cbn [app assoc fst snd]. by destruct (decide (k' = k)). Qed.

Lemma assoc_None k l : k ∉ l.*1 → assoc k l = None.
Proof.
  induction l as [|[k' v'] l IH]; [done|]. rewrite fmap_cons, not_elem_of_cons. cbn [assoc fst snd].
  intros [Hne Hk]. rewrite decide_False by (intros ->; by apply Hne). by apply IH.
Qed.

Lemma assoc_elem k v l : NoDup l.*1 → (k, v) ∈ l → assoc k l = Some v.
Proof.
  induction l as [|[k' v'] l IH]; [by intros _ ?%elem_of_nil|].
  rewrite fmap_cons, list.NoDup_cons. cbn [assoc fst snd]. intros [Hk Hl] Hin. apply elem_of_cons in Hin as [[= -> ->]|Hin].
  - by rewrite decide_True.
  - rewrite decide_False; [by apply IH|]. intros ->. apply Hk. apply list_elem_of_fmap. by exists (k, v).
Qed.
End assoc.

(** ** What is documented of the operations *)

Class JsonLaws (J : Type) `{Json J} : Type := {
  (** [null] or an object: what the sources apply [operator[]] to. *)
  is_object : J → Prop;
  object_null : is_object jnull;
  object_lit l : is_object (jlit l);
  object_set k v j : is_object j → is_object (jset k v j);
  items_null : jitems jnull = [];
  items_lit l : NoDup l.*1 → jitems (jlit l) = l;
  items_set k v j : is_object j → jitems (jset k v j) = upsert k v (jitems j)
}.

Section json.
Context {J : Type} `{Json J}.

(** [j[k1] = v1; j[k2] = v2; ...] *)
Definition extend (j : J) (l : list (string * J)) : J := fold_left (λ j kv, jset kv.1 kv.2 j) l j.
(** [json j; j[k1] = v1; ...; return j;] *)
Definition fields (l : list (string * J)) : J := extend jnull l.

(** [j.empty()], of [null] or an object *)
Definition jempty (j : J) : bool := match jitems j with [] => true | _ => false end.

(** The value under a key. *)
Definition jget (k : string) (j : J) : option J := assoc k (jitems j).
Definition keys (j : J) : list string := (jitems j).*1.

Context `{!JsonLaws J}.

Lemma object_extend j l : is_object j → is_object (extend j l).
Proof. revert j. induction l as [|kv l IH]; intros j Hj; [done|]. by apply IH, object_set. Qed.

Lemma object_fields l : is_object (fields l).
Proof. apply object_extend, object_null. Qed.

Lemma items_extend j l : is_object j → NoDup (keys j ++ l.*1) → jitems (extend j l) = jitems j ++ l.
Proof.
  unfold keys. revert j. induction l as [|[k v] l IH]; intros j Hj Hd; [by rewrite app_nil_r|].
  assert (jitems (jset k v j) = jitems j ++ [(k, v)]) as E.
  { rewrite items_set by done. apply upsert_new. intros Hk. rewrite fmap_cons in Hd.
    apply list.NoDup_app in Hd as (_ & Hd & _). apply (Hd k Hk). by left. }
  change (extend j ((k, v) :: l)) with (extend (jset k v j) l). rewrite IH; [|by apply object_set|].
  - by rewrite E, <- app_assoc.
  - by rewrite E, fmap_app, <- app_assoc.
Qed.

Lemma items_fields l : NoDup l.*1 → jitems (fields l) = l.
Proof. intros Hl. unfold fields. rewrite items_extend; rewrite ?items_null; [done | apply object_null|]. unfold keys. by rewrite items_null. Qed.

Lemma get_set k v j k' : is_object j → jget k' (jset k v j) = if decide (k = k') then Some v else jget k' j.
Proof. intros Hj. unfold jget. by rewrite items_set, assoc_upsert. Qed.

(** The last assignment to a key decides. *)
Lemma get_extend k j l : is_object j → jget k (extend j l) =
  match assoc k (rev l) with Some v => Some v | None => jget k j end.
Proof.
  revert j. induction l as [|[k' v'] l IH]; intros j Hj; [done|].
  change (extend j ((k', v') :: l)) with (extend (jset k' v' j) l). rewrite IH by by apply object_set.
  cbn [rev]. rewrite assoc_app, get_set by done. destruct (assoc k (rev l)); [done|]. simpl.
  by destruct (decide (k' = k)).
Qed.

Lemma get_fields k l : jget k (fields l) = assoc k (rev l).
Proof.
  unfold fields. rewrite get_extend by apply object_null. destruct (assoc k (rev l)); [done|].
  unfold jget. by rewrite items_null.
Qed.

Lemma keys_set_new k v j : is_object j → k ∉ keys j → keys (jset k v j) = keys j ++ [k].
Proof. intros Hj Hk. unfold keys in *. rewrite items_set, upsert_keys by done. by rewrite decide_False. Qed.
End json.

(** ** A value type with the laws *)

Module Tree.
Unset Elimination Schemes.
Inductive json : Type :=
| Null
| Int (n : Z)
| Real (d : double)
| Bool (b : bool)
| Str (s : string)
| Arr (l : list json)
| Obj (l : list (string * json)).
Set Elimination Schemes.

#[export] Instance tree_json : Json json := {|
  jnull := Null; jint := Int; jreal := Real; jbool := Bool; jstr := Str; jarray := Arr; jlit := Obj;
  jset k v j := match j with Obj l => Obj (upsert k v l) | _ => Obj [(k, v)] end;
  jitems j := match j with Obj l => l | _ => [] end
|}.

#[export] Instance tree_laws : JsonLaws json.
Proof.
  refine {| is_object j := match j with Null | Obj _ => True | _ => False end |};
    try done; by intros k v [].
Defined.
End Tree.
