(* ===== verification/Trace.v ===== *)
(** * Trace records, trace reader and trace sanitizer

    [src/trace.hh], [src/trace.cc]: the packed 16-byte record NEMU writes, the
    reader that takes one record from the decompressed stream, and the counters
    of [TraceSanitizer]. *)

From S2P Require Import Prelude.

(** [enum MemOp], [enum SysOp], [enum ExtOp]: the record stores them as bytes. *)
Definition MemNone : Z := 0.
Definition MemLoad : Z := 1.
Definition MemStore : Z := 2.
Definition SysNone : Z := 0.
Definition SysResetStats : Z := 1.
Definition SysDumpStats : Z := 2.
Definition SysFenceI : Z := 3.
Definition ExtNone : Z := 0.
Definition IntMulL : Z := 1.
Definition IntMulH : Z := 2.
Definition IntDiv : Z := 3.
Definition IntRem : Z := 4.

Record TraceInst : Type := MkTraceInst {
  pc : Z;
  mem_addr : Z;
  mem_op : Z;
  is_branch_ : Z;
  br_taken_ : Z;
  dst_reg : Z;
  src_reg0 : Z;
  src_reg1 : Z;
  sys_op : Z;
  ext_op : Z
}.
#[global] Instance eta_TraceInst : Eta TraceInst := λ r,
  MkTraceInst r.(pc) r.(mem_addr) r.(mem_op) r.(is_branch_) r.(br_taken_)
              r.(dst_reg) r.(src_reg0) r.(src_reg1) r.(sys_op) r.(ext_op).
#[export] Instance TraceInst_eq_dec : EqDecision TraceInst.
Proof. solve_decision. Defined.

(** [uint8_t] fields used as conditions. *)
Definition is_branch (t : TraceInst) : bool := negb (is_branch_ t =? 0).
Definition br_taken (t : TraceInst) : bool := negb (br_taken_ t =? 0).

(** [Inst{}]: every field zero. *)
Definition inst_zero : TraceInst := MkTraceInst 0 0 0 0 0 0 0 0 0 0.

(** The fields hold values of their C types. *)
Definition inst_ok (t : TraceInst) : Prop :=
  word_ok (pc t) ∧ word_ok (mem_addr t) ∧
  Forall byte_ok [mem_op t; is_branch_ t; br_taken_ t; dst_reg t;
                  src_reg0 t; src_reg1 t; sys_op t; ext_op t].

(** ** Object representation of the packed struct (little-endian host) *)

Definition le32_bytes (w : Z) : list Z :=
  [w mod 256; w / 2 ^ 8 mod 256; w / 2 ^ 16 mod 256; w / 2 ^ 24 mod 256].

Definition le32_of (b0 b1 b2 b3 : Z) : Z :=
  b0 + b1 * 2 ^ 8 + b2 * 2 ^ 16 + b3 * 2 ^ 24.

Definition inst_bytes (t : TraceInst) : list Z :=
  le32_bytes (pc t) ++ le32_bytes (mem_addr t) ++
  [mem_op t; is_branch_ t; br_taken_ t; dst_reg t;
   src_reg0 t; src_reg1 t; sys_op t; ext_op t].

(** ** [TraceReader::next]: [fread(&inst, 16, 1, file_)] on the rest of the stream *)

(** A whole record, and what is left. *)
Definition take_record (file : list Z) : option (TraceInst * list Z) :=
  match file with
  | p0 :: p1 :: p2 :: p3 :: m0 :: m1 :: m2 :: m3
      :: mo :: ib :: bt :: dr :: s0 :: s1 :: so :: eo :: rest =>
    Some (MkTraceInst (le32_of p0 p1 p2 p3) (le32_of m0 m1 m2 m3)
            mo ib bt dr s0 s1 so eo, rest)
  | _ => None
  end.

(** A short read.  [fread] stores the bytes it gets over the first ones of the
    caller's record, and returns 0.  (The C standard calls the value of a partially
    read element indeterminate; this is what the C libraries do.) *)
Definition torn (tail : list Z) (i : TraceInst) : TraceInst :=
  match take_record (tail ++ drop (length tail) (inst_bytes i)) with Some (t, _) => t | None => i end.

(** [has_next = reader.next(inst)]: the result, [inst] afterwards, and the rest. *)
Definition next (i : TraceInst) (file : list Z) : bool * TraceInst * list Z :=
  match take_record file with
  | Some (t, rest) => (true, t, rest)
  | None => (false, torn file i, [])
  end.

(** Every record of a stream, as the simulation loop draws them. *)
Fixpoint read_all (fuel : nat) (file : list Z) : list TraceInst :=
  match fuel with
  | O => []
  | S n => match take_record file with Some (t, rest) => t :: read_all n rest | None => [] end
  end.

Definition records (file : list Z) : list TraceInst := read_all (S (length file)) file.

(** What is behind the last whole record. *)
Definition leftover (file : list Z) : list Z := drop (16 * length (records file)) file.

(** ** [TraceSanitizer] *)

Record TraceSanitizer : Type := MkSanitizer {
  total : Z;
  loads : Z;
  stores : Z;
  branches : Z;
  n_br_taken : Z;
  br_not_taken : Z;
  alu : Z;
  has_dst : Z;
  has_src1 : Z;
  has_src2 : Z;
  sys_ops : Z;
  m_ext_ops : Z;
  br_taken_no_target : Z
}.
#[global] Instance eta_TraceSanitizer : Eta TraceSanitizer := λ r,
  MkSanitizer r.(total) r.(loads) r.(stores) r.(branches) r.(n_br_taken)
    r.(br_not_taken) r.(alu) r.(has_dst) r.(has_src1) r.(has_src2)
    r.(sys_ops) r.(m_ext_ops) r.(br_taken_no_target).

Definition sanitizer_reset : TraceSanitizer := MkSanitizer 0 0 0 0 0 0 0 0 0 0 0 0 0.

(** [if (b) field++;] *)
Definition count (b : bool) (n : Z) : Z := if b then incr n else n.

Definition record (s : TraceSanitizer) (t : TraceInst) : TraceSanitizer :=
  let is_load := mem_op t =? MemLoad in
  let is_store := mem_op t =? MemStore in
  let s := s <| total ::= incr |> in
  let s := if is_load then s <| loads ::= incr |>
           else if is_store then s <| stores ::= incr |> else s in
  let s :=
    if is_branch t then
      let s := s <| branches ::= incr |> in
      if br_taken t then
        let s := s <| n_br_taken ::= incr |> in
        if mem_addr t =? 0 then s <| br_taken_no_target ::= incr |> else s
      else s <| br_not_taken ::= incr |>
    else s in
  let s := s <| alu ::= count ((mem_op t =? MemNone) && negb (is_branch t)) |> in
  let s := s <| has_dst ::= count (negb (dst_reg t =? 0)) |> in
  let s := s <| has_src1 ::= count (negb (src_reg0 t =? 0)) |> in
  let s := s <| has_src2 ::= count (negb (src_reg1 t =? 0)) |> in
  let s := s <| sys_ops ::= count (negb (sys_op t =? SysNone)) |> in
  s <| m_ext_ops ::= count (negb (ext_op t =? ExtNone)) |>.

Definition record_all (s : TraceSanitizer) (l : list TraceInst) : TraceSanitizer :=
  fold_left record l s.

(** ** Theorems *)

Lemma le32_round_trip w :
  word_ok w → le32_of (w mod 256) (w / 2 ^ 8 mod 256) (w / 2 ^ 16 mod 256)
                      (w / 2 ^ 24 mod 256) = w.
Proof.
  unfold word_ok, le32_of. intros Hw.
  assert (w / 2 ^ 24 mod 256 = w / 2 ^ 24) as ->.
  { apply Z.mod_small. split; [apply Z.div_pos; lia | apply Z.div_lt_upper_bound; lia]. }
  replace (w / 2 ^ 24) with (w / 256 / 256 / 256) by (rewrite !Z.div_div by lia; done).
  replace (w / 2 ^ 16) with (w / 256 / 256) by (rewrite !Z.div_div by lia; done).
  change (2 ^ 8) with 256. change (2 ^ 16) with (256 * 256).
  change (2 ^ 24) with (256 * 256 * 256).
  pose proof (Z.div_mod w 256). pose proof (Z.div_mod (w / 256) 256).
  pose proof (Z.div_mod (w / 256 / 256) 256). lia.
Qed.

Lemma take_inst_bytes t rest : inst_ok t → take_record (inst_bytes t ++ rest) = Some (t, rest).
Proof.
  intros (Hp & Hm & _). unfold inst_bytes, le32_bytes.
  cbn [app take_record]. rewrite !le32_round_trip by done. by destruct t.
Qed.

(** C29: reading back the object representation of a trace yields the same
    records in the same order, and a trailing partial record is dropped. *)
Theorem read_all_round_trip (ts : list TraceInst) (junk : list Z) (n : nat) :
  Forall inst_ok ts → (length junk < 16)%nat → (length ts < n)%nat →
  read_all n (concat (inst_bytes <$> ts) ++ junk) = ts.
Proof.
  intros Hts Hj. revert n. induction Hts as [|t ts Ht Hts IH]; intros [|n] Hn; simpl in Hn; try lia.
  - cbn [read_all fmap list_fmap concat app].
    do 16 (destruct junk as [|? junk]; [done|]). simpl in Hj. lia.
  - rewrite fmap_cons. cbn [concat]. rewrite <- (assoc_L (++)). cbn [read_all].
    rewrite take_inst_bytes by done. f_equal. apply IH. lia.
Qed.

Lemma take_inv file t rest : take_record file = Some (t, rest) →
  ∃ r, length r = 16%nat ∧ file = r ++ rest ∧ ∀ rest', take_record (r ++ rest') = Some (t, rest').
Proof.
  intros Hn. do 16 (destruct file as [|? file]; [done|]). injection Hn as <- <-.
  by exists [z; z0; z1; z2; z3; z4; z5; z6; z7; z8; z9; z10; z11; z12; z13; z14].
Qed.

Lemma take_None file : take_record file = None → (length file < 16)%nat.
Proof. intros Hn. do 16 (destruct file as [|? file]; [simpl; lia|]). done. Qed.

Lemma read_all_fuel n m file : (length file < n)%nat → (length file < m)%nat → read_all n file = read_all m file.
Proof.
  revert m file. induction n as [|n IH]; intros [|m] file Hn Hm; try lia. cbn [read_all].
  destruct (take_record file) as [[t rest]|] eqn:E; [|done]. apply take_inv in E as (r & Hr & -> & _).
  rewrite length_app in *. f_equal. apply IH; lia.
Qed.

Lemma records_take file :
  records file = match take_record file with Some (t, rest) => t :: records rest | None => [] end.
Proof.
  unfold records at 1. cbn [read_all]. destruct (take_record file) as [[t rest]|] eqn:E; [|done].
  apply take_inv in E as (r & Hr & -> & _). f_equal. apply read_all_fuel; rewrite ?length_app; lia.
Qed.

Lemma leftover_take file t rest : take_record file = Some (t, rest) → leftover file = leftover rest.
Proof.
  intros E. unfold leftover. rewrite (records_take file), E. apply take_inv in E as (r & Hr & -> & _).
  simpl length. replace (16 * S (length (records rest)))%nat with (length r + 16 * length (records rest))%nat by lia.
  apply drop_app_add.
Qed.

Lemma leftover_None file : take_record file = None → leftover file = file.
Proof. intros E. unfold leftover. by rewrite records_take, E. Qed.

Lemma leftover_short file : (length (leftover file) < 16)%nat.
Proof.
  remember (length file) as n eqn:En. assert (length file <= n)%nat as Hn by lia. clear En. revert file Hn.
  induction n as [|n IH]; intros file Hn; destruct (take_record file) as [[t rest]|] eqn:E.
  2,4: rewrite (leftover_None file E); by apply take_None.
  all: rewrite (leftover_take file t rest E); apply take_inv in E as (r & Hr & -> & _); rewrite length_app in Hn.
  { lia. }
  apply IH. lia.
Qed.

(** A short read reaches [sys_op] only if it is one byte short. *)
Lemma torn_sys_op tail i : (length tail < 16)%nat →
  sys_op (torn tail i) = if (length tail =? 15)%nat then nth 14 tail 0 else sys_op i.
Proof. intros Hl. do 16 (destruct tail as [|? tail]; [done|]). simpl in Hl. lia. Qed.

Lemma le32_bytes_of b0 b1 b2 b3 : byte_ok b0 → byte_ok b1 → byte_ok b2 → byte_ok b3 →
  word_ok (le32_of b0 b1 b2 b3) ∧ le32_bytes (le32_of b0 b1 b2 b3) = [b0; b1; b2; b3].
Proof.
  unfold byte_ok, word_ok, le32_of, le32_bytes. intros. split; [lia|].
  assert (∀ a b, 0 <= a < 256 → (a + b * 256) mod 256 = a ∧ (a + b * 256) / 256 = b) as Hd.
  { intros a b Ha. rewrite Z.mod_add, Z.div_add, Z.mod_small, Z.div_small by lia. lia. }
  change (2 ^ 8) with 256. change (2 ^ 16) with (256 * 256). change (2 ^ 24) with (256 * 256 * 256).
  rewrite <- !Z.div_div by lia.
  replace (b0 + b1 * 256 + b2 * (256 * 256) + b3 * (256 * 256 * 256)) with (b0 + (b1 + (b2 + b3 * 256) * 256) * 256) by lia.
  repeat match goal with |- context [(?a + ?b * 256) / 256] => rewrite (proj2 (Hd a b ltac:(lia))) end.
  rewrite !(fun a b H => proj1 (Hd a b H)) by lia. by rewrite Z.mod_small by lia.
Qed.

(** A record read from bytes is typed and holds exactly these bytes. *)
Lemma take_typed file t rest : Forall byte_ok file → take_record file = Some (t, rest) →
  inst_ok t ∧ file = inst_bytes t ++ rest.
Proof.
  intros Hf Hn. do 16 (destruct file as [|? file]; [done|]). injection Hn as <- <-.
  rewrite !Forall_cons_iff in Hf. destruct_and! Hf.
  destruct (le32_bytes_of z z0 z1 z2) as [Hw1 E1]; try done. destruct (le32_bytes_of z3 z4 z5 z6) as [Hw2 E2]; try done.
  split; [|unfold inst_bytes; cbn [pc mem_addr]; by rewrite E1, E2].
  split; [done|]. split; [done|]. repeat (apply Forall_cons_2; [done|]). apply Forall_nil_2.
Qed.

(** C28: the records of any byte stream are typed, every field a value of its C
    type, and the stream is exactly their object representations, in order,
    followed by less than one record. *)
Theorem records_typed (file : list Z) : Forall byte_ok file →
  Forall inst_ok (records file) ∧
  ∃ junk, (length junk < 16)%nat ∧ file = concat (inst_bytes <$> records file) ++ junk.
Proof.
  remember (length file) as n eqn:En. assert (length file <= n)%nat as Hn by lia. clear En. revert file Hn.
  induction n as [|n IH]; intros file Hn Hf; rewrite records_take; destruct (take_record file) as [[t rest]|] eqn:E.
  2,4: split; [constructor | exists file; split; [by apply take_None | done]].
  all: pose proof (take_typed _ _ _ Hf E) as [Ht Ef]; apply take_inv in E as (r & Hr & Er & _).
  { rewrite Er, length_app in Hn. lia. }
  rewrite Er, length_app in Hn.
  rewrite Ef in Hf. apply Forall_app in Hf as [_ Hf]. destruct (IH rest) as (IH1 & junk & Hj & IH2); [lia | done |].
  split; [by constructor|]. exists junk. split; [done|]. rewrite fmap_cons. cbn [concat]. by rewrite <- app_assoc, <- IH2.
Qed.

Definition bytes_ex : list Z := Z.of_nat <$> seq 100 35.

Lemma records_typed_witness : Forall inst_ok (records (bytes_ex)) ∧
  ∃ junk, (length junk < 16)%nat ∧ bytes_ex = concat (inst_bytes <$> records (bytes_ex)) ++ junk.
Proof. apply records_typed. by repeat (constructor; [done|]). Defined.

Definition trace_ex : list TraceInst :=
  [MkTraceInst 0x80000000 0x80001000 1 0 0 5 6 0 0 0; MkTraceInst 0x80000004 0 0 1 1 0 5 6 0 0].

Lemma read_all_round_trip_witness : read_all 3 (concat (inst_bytes <$> trace_ex) ++ [1; 2; 3]) = trace_ex.
Proof.
  apply read_all_round_trip; [|simpl; lia | simpl; lia].
  repeat (apply Forall_cons; [split; [done | split; [done | by repeat (apply Forall_cons; [done|])]]|]). apply Forall_nil; done.
Defined.

Definition is_load (t : TraceInst) : bool := mem_op t =? MemLoad.
Definition is_store (t : TraceInst) : bool := mem_op t =? MemStore.

(** The counters a list of records must produce, in closed form. *)
Definition counters_of (l : list TraceInst) : TraceSanitizer :=
  let c P := u64 (countb P l) in
  MkSanitizer (c (λ _, true)) (c is_load) (c is_store) (c is_branch)
    (c (λ t, is_branch t && br_taken t)) (c (λ t, is_branch t && negb (br_taken t)))
    (c (λ t, (mem_op t =? MemNone) && negb (is_branch t)))
    (c (λ t, negb (dst_reg t =? 0))) (c (λ t, negb (src_reg0 t =? 0)))
    (c (λ t, negb (src_reg1 t =? 0))) (c (λ t, negb (sys_op t =? SysNone)))
    (c (λ t, negb (ext_op t =? ExtNone)))
    (c (λ t, is_branch t && br_taken t && (mem_addr t =? 0))).

Lemma count_u64 b n : count b (u64 n) = u64 (n + b2z b).
Proof. destruct b; simpl; [apply incr_u64 | by rewrite Z.add_0_r]. Qed.

(** Recording one instruction extends the closed form by that instruction. *)
Lemma record_counters l t : record (counters_of l) t = counters_of (l ++ [t]).
Proof.
  unfold record, counters_of, is_load, is_store.
  rewrite !countb_app. cbn [countb]. rewrite !Z.add_0_r.
  destruct (mem_op t =? MemLoad) eqn:EL; destruct (mem_op t =? MemStore) eqn:ES;
    destruct (is_branch t) eqn:EB; destruct (br_taken t) eqn:ET;
    destruct (mem_addr t =? 0) eqn:EA;
    lazy -[u64 incr count Z.add countb Z.eqb negb is_branch br_taken MemNone SysNone ExtNone MemLoad MemStore andb];
    rewrite ?count_u64, ?incr_u64, ?Z.add_0_r; try done.
  all: unfold MemLoad, MemStore in *; lia.
Qed.

(** After any sequence of records since the last reset every counter of the
    sanitizer equals, modulo 2^64, the number of records in its category. *)
Theorem sanitizer_counts (l : list TraceInst) :
  record_all sanitizer_reset l = counters_of l.
Proof.
  unfold record_all. induction l as [|t l IH] using rev_ind; [done|].
  rewrite fold_left_app, IH. apply record_counters.
Qed.

(** On a trace whose memory operations are none, load or store and whose
    branches access no memory, the categories partition the records:
    loads + stores + branches + ALU = total, and taken + not taken = branches. *)
Theorem sanitizer_partition (l : list TraceInst) :
  Forall (λ t, (is_branch t = true → mem_op t = MemNone) ∧
               (mem_op t = MemNone ∨ mem_op t = MemLoad ∨ mem_op t = MemStore)) l →
  let s := record_all sanitizer_reset l in
  u64 (loads s + stores s + branches s + alu s) = total s ∧
  u64 (n_br_taken s + br_not_taken s) = branches s.
Proof.
  intros Hl s. subst s. rewrite sanitizer_counts. cbn -[u64 countb]. split.
  - rewrite u64_add4. f_equal.
    rewrite countb_true. clear -Hl.
    induction Hl as [|t l [Hb Hm] _ IH]; [done|].
    unfold zlen, is_load, is_store in *. cbn -[Z.of_nat] in *.
    destruct (is_branch t).
    + rewrite Hb by done. simpl. lia.
    + destruct Hm as [-> | [-> | ->]]; simpl; lia.
  - rewrite u64_add. f_equal. symmetry. apply countb_add.
    apply Forall_forall. intros t _. by destruct (is_branch t), (br_taken t).
Qed.

Lemma sanitizer_partition_witness :
  let s := record_all sanitizer_reset trace_ex in
  u64 (loads s + stores s + branches s + alu s) = total s ∧ u64 (n_br_taken s + br_not_taken s) = branches s.
Proof.
  apply sanitizer_partition. unfold trace_ex.
  apply Forall_cons; [split; [done | right; by left]|]. apply Forall_cons; [split; [done | by left]|]. by apply Forall_nil.
Defined.
