(* ===== verification/Ras.v ===== *)
(** * Return address stack

    [ReturnAddrStack] of [src/branchSim/BranchPred.hh]: a circular buffer of
    [depth] slots with a top-of-stack index and an occupancy count, refined
    here to a stack that keeps its [depth] most recent pushes. *)

From S2P Require Import Prelude.

Module RAS.

Record ReturnAddrStack : Type := MkRAS { stack_ : list Z; tos_ : Z; cnt_ : Z }.
#[global] Instance eta_RAS : Eta ReturnAddrStack := λ r, MkRAS r.(stack_) r.(tos_) r.(cnt_).

(** [explicit ReturnAddrStack(size_t depth)] *)
Definition make (depth : Z) : ReturnAddrStack := MkRAS (replicate (Z.to_nat depth) 0) 0 0.

Definition size (r : ReturnAddrStack) : Z := zlen (stack_ r).

Definition push (r : ReturnAddrStack) (addr : Z) : res ReturnAddrStack :=
  tos ← umod (tos_ r + 1) (size r);
  stack ← vec_set (stack_ r) tos addr;
  let r := r <| tos_ := tos |> <| stack_ := stack |> in
  mret (if cnt_ r <? size r then r <| cnt_ ::= incr |> else r).

Definition pop (r : ReturnAddrStack) : ReturnAddrStack :=
  if 0 <? cnt_ r then
    r <| tos_ := (if tos_ r =? 0 then size r - 1 else tos_ r - 1) |>
      <| cnt_ := cnt_ r - 1 |>
  else r.

Definition top (r : ReturnAddrStack) : res Z :=
  if 0 <? cnt_ r then vec_at (stack_ r) (tos_ r) else mret 0.

Definition valid (r : ReturnAddrStack) : bool := 0 <? cnt_ r.
Definition depth (r : ReturnAddrStack) : Z := size r.

(** ** Invariant and abstraction *)

Definition wf (r : ReturnAddrStack) : Prop :=
  0 < size r < 2 ^ 63 ∧ 0 <= tos_ r < size r ∧ 0 <= cnt_ r <= size r.

Definition slot (l : list Z) (i : Z) : Z := default 0 (l !! Z.to_nat i).

(** The pushed addresses still held, the most recent first. *)
Definition contents (r : ReturnAddrStack) : list Z :=
  (λ i, slot (stack_ r) ((tos_ r - i) mod size r)) <$> zrange (cnt_ r).

(** ** Lemmas *)

Lemma ras_wf_make d : 0 < d < 2 ^ 63 → wf (make d).
Proof. unfold wf, size, make. simpl. intros. rewrite zlen_replicate by lia. lia. Qed.

Lemma contents_make d : contents (make d) = [].
Proof. done. Qed.

Lemma contents_length r : wf r → zlen (contents r) = cnt_ r.
Proof.
  intros (_ & _ & ?). unfold contents, zrange, zlen.
  rewrite !length_fmap, length_seq. lia.
Qed.

Lemma contents_lookup r (i : nat) :
  contents r !! i =
  if decide (i < Z.to_nat (cnt_ r))%nat
  then Some (slot (stack_ r) ((tos_ r - Z.of_nat i) mod size r)) else None.
Proof.
  unfold contents, zrange. rewrite !list_lookup_fmap.
  case_decide.
  - rewrite lookup_seq_lt by lia. done.
  - rewrite lookup_seq_ge by lia. done.
Qed.

Lemma slot_insert_eq l i x : 0 <= i < zlen l → slot (<[Z.to_nat i := x]> l) i = x.
Proof. unfold slot, zlen. intros. by rewrite list_lookup_insert_eq by lia. Qed.

Lemma slot_insert_ne l i j x :
  0 <= i → 0 <= j → i ≠ j → slot (<[Z.to_nat i := x]> l) j = slot l j.
Proof. unfold slot. intros. by rewrite list_lookup_insert_ne by lia. Qed.

(** The state [push] leaves. *)
Lemma push_Ok r a : wf r →
  push r a = Ok (MkRAS (<[Z.to_nat ((tos_ r + 1) mod size r) := a]> (stack_ r))
                       ((tos_ r + 1) mod size r) (Z.min (size r) (cnt_ r + 1))).
Proof.
  intros (Hn & Ht & Hc). unfold push, umod.
  destruct (Z.eqb_spec (size r) 0) as [?|_]; [lia|]. simpl.
  rewrite vec_set_lt by (apply Z.mod_pos_bound; apply Hn). simpl.
  unfold size, over. cbn -[Z.min incr zlen insert]. rewrite zlen_insert. fold (size r).
  destruct (Z.ltb_spec (cnt_ r) (size r)); do 2 f_equal.
  - unfold incr. rewrite u64_small; lia.
  - lia.
Qed.

(** [push] succeeds, keeps the invariant, and refines pushing on a bounded
    stack: the new address on top and, when the stack was full, the oldest
    address forgotten. *)
Lemma push_spec r a : wf r →
  ∃ r', push r a = Ok r' ∧ wf r' ∧ size r' = size r ∧
        contents r' = take (Z.to_nat (size r)) (a :: contents r).
Proof.
  intros Hwf. eexists. split; [by apply push_Ok|].
  pose proof Hwf as (Hn & Ht & Hc).
  set (t := (tos_ r + 1) mod size r).
  assert (0 <= t < size r) as Htr by (apply Z.mod_pos_bound; lia).
  assert (size (MkRAS (<[Z.to_nat t := a]> (stack_ r)) t (Z.min (size r) (cnt_ r + 1)))
          = size r) as Hs by (unfold size; simpl; apply zlen_insert).
  split; [unfold wf; rewrite Hs; simpl; lia|]. split; [done|].
  apply list_eq. intros i. rewrite contents_lookup, Hs. cbn [cnt_ tos_ stack_].
  case_decide as Hi.
  - rewrite lookup_take_lt by lia. destruct i as [|i].
    + change (Z.of_nat 0) with 0. simpl. rewrite Z.sub_0_r, Z.mod_small by lia.
      by rewrite slot_insert_eq by (change (zlen (stack_ r)) with (size r); lia).
    + cbn [lookup list_lookup]. rewrite contents_lookup, decide_True by lia. f_equal.
      assert ((t - Z.of_nat (S i)) mod size r = (tos_ r - Z.of_nat i) mod size r) as ->.
      { unfold t. rewrite Zminus_mod_idemp_l. f_equal. lia. }
      apply slot_insert_ne; [lia | apply Z.mod_pos_bound; lia |].
      unfold t. intros E. apply (f_equal (λ z, z - (tos_ r - Z.of_nat i) mod size r)) in E.
      rewrite Z.sub_diag in E.
      pose proof (Zminus_mod (tos_ r + 1) (tos_ r - Z.of_nat i) (size r)) as E2.
      rewrite E, Zmod_0_l in E2. rewrite Z.mod_small in E2; lia.
  - destruct (decide (i < Z.to_nat (size r))%nat).
    + rewrite lookup_take_lt by lia. destruct i as [|i]; [lia|]. simpl.
      rewrite contents_lookup, decide_False by lia. done.
    + symmetry. apply lookup_ge_None. rewrite length_take. lia.
Qed.

(** [pop] keeps the invariant and refines removing the top of the bounded
    stack; on an empty stack it changes nothing. *)
Lemma pop_spec r : wf r →
  wf (pop r) ∧ size (pop r) = size r ∧ contents (pop r) = tail (contents r).
Proof.
  intros Hwf. pose proof Hwf as (Hn & Ht & Hc). unfold pop.
  destruct (Z.ltb_spec 0 (cnt_ r)) as [Hpos|Hz].
  - set (t := if tos_ r =? 0 then size r - 1 else tos_ r - 1).
    assert (0 <= t < size r ∧ t mod size r = (tos_ r - 1) mod size r) as [Htr Hmod].
    { unfold t. destruct (Z.eqb_spec (tos_ r) 0) as [->|]; [|lia]. split; [lia|].
      replace (size r - 1) with (0 - 1 + 1 * size r) by lia. apply Z_mod_plus_full. }
    change (r <| tos_ := t |> <| cnt_ := cnt_ r - 1 |>) with (MkRAS (stack_ r) t (cnt_ r - 1)).
    split; [unfold wf, size in *; simpl; lia|]. split; [done|].
    apply list_eq. intros i. rewrite lookup_tail, !contents_lookup.
    change (size (MkRAS _ _ _)) with (size r). simpl.
    repeat case_decide; try lia; [|done]. do 2 f_equal.
    rewrite <- (Z.mod_small t (size r)), Hmod by lia. rewrite Zminus_mod_idemp_l. f_equal. lia.
  - split; [done|]. split; [done|].
    assert (cnt_ r = 0) as E by lia. unfold contents. by rewrite E.
Qed.

(** [top] and [valid] observe the top of the bounded stack; [top] of an
    empty stack is 0 and no read is out of bounds. *)
Lemma top_spec r : wf r →
  top r = Ok (default 0 (head (contents r))) ∧
  valid r = negb (bool_decide (contents r = [])).
Proof.
  intros Hwf. pose proof Hwf as (Hn & Ht & Hc). unfold top, valid.
  pose proof (contents_lookup r 0) as H0. rewrite <- head_lookup in H0.
  pose proof (contents_length r Hwf) as HL. unfold zlen in HL.
  destruct (Z.ltb_spec 0 (cnt_ r)) as [Hpos|Hz].
  - rewrite decide_True in H0 by lia. split.
    + rewrite H0. simpl. rewrite Z.sub_0_r, Z.mod_small by lia.
      destruct (vec_at_lt (stack_ r) (tos_ r)) as [x Hx]; [unfold size in *; lia|].
      rewrite Hx. apply vec_at_Ok in Hx as [_ Hx]. unfold slot. by rewrite Hx.
    + rewrite bool_decide_false; [done|]. intros E. rewrite E in H0. done.
  - rewrite decide_False in H0 by lia. rewrite H0. split; [done|].
    destruct (contents r); [done|]. simpl in HL. lia.
Qed.

(** ** Refinement *)

Inductive op : Type := Push (addr : Z) | Pop.

Definition apply_op (r : ReturnAddrStack) (o : op) : res ReturnAddrStack :=
  match o with Push a => push r a | Pop => mret (pop r) end.

Fixpoint run (r : ReturnAddrStack) (ops : list op) : res ReturnAddrStack :=
  match ops with [] => mret r | o :: ops => r' ← apply_op r o; run r' ops end.

(** The specification: a stack that forgets its oldest address when it holds
    [d] of them. *)
Definition spec_op (d : Z) (s : list Z) (o : op) : list Z :=
  match o with Push a => take (Z.to_nat d) (a :: s) | Pop => tail s end.

Definition spec (d : Z) (s : list Z) (ops : list op) : list Z := foldl (spec_op d) s ops.

Lemma run_spec r ops : wf r →
  ∃ r', run r ops = Ok r' ∧ wf r' ∧ size r' = size r ∧
        contents r' = spec (size r) (contents r) ops.
Proof.
  revert r. induction ops as [|o ops IH]; intros r Hr; simpl; [by exists r|].
  assert (∃ r1, apply_op r o = Ok r1 ∧ wf r1 ∧ size r1 = size r ∧
                contents r1 = spec_op (size r) (contents r) o) as (r1 & -> & H1 & Hs & Hc).
  { destruct o as [a|]; simpl; [by apply push_spec|].
    destruct (pop_spec r Hr) as (? & ? & ?). eauto. }
  simpl. destruct (IH r1 H1) as (r' & -> & ? & Hs' & Hc').
  exists r'. splits; [done | done | congruence | by rewrite Hc', Hs, Hc].
Qed.

(** C20: the circular buffer refines a bounded stack.  From a fresh stack of
    depth [d], any sequence of pushes and pops succeeds, and then [top] and
    [valid] answer as the list that keeps the [d] most recent addresses: a push
    on a full stack forgets the oldest address, a pop of an empty one does
    nothing, and the top of an empty one is 0. *)
Theorem ras_refines d ops : 0 < d < 2 ^ 63 →
  ∃ r, run (make d) ops = Ok r ∧ depth r = d ∧
       contents r = spec d [] ops ∧
       top r = Ok (default 0 (head (spec d [] ops))) ∧
       valid r = negb (bool_decide (spec d [] ops = [])).
Proof.
  intros Hd. destruct (run_spec (make d) ops) as (r & Hr & Hw & Hs & Hc); [by apply ras_wf_make|].
  assert (size (make d) = d) as E by (unfold size, make; simpl; apply zlen_replicate; lia).
  rewrite E, contents_make in *. destruct (top_spec r Hw) as [Ht Hv]. rewrite Hc in Ht, Hv.
  by exists r.
Qed.

Lemma ras_refines_witness :
  ∃ r, run (make 2) [Push 4; Push 8; Push 12; Pop] = Ok r ∧ depth r = 2 ∧
       contents r = [8] ∧ top r = Ok 8 ∧ valid r = true.
Proof. apply (ras_refines 2 [Push 4; Push 8; Push 12; Pop]). lia. Defined.

End RAS.
