(* ===== verification/BranchPred.v ===== *)
(** * Direction predictors: the interface and the stateless predictors

    [BPStatsBase], [BPUPredResult], [BranchResult], [BranchPred] and the three
    predictors without tables of [src/branchSim/BranchPred.hh].  [BranchPred] is
    an abstract class there; here it is the type class [DirPredictor], and what
    [BranchUnit] relies on is the class [DirPredictorLaws]. *)

From S2P Require Import Prelude.

Record BPStats : Type := MkBPStats {
  accesses : Z;
  misses : Z;
  no_target : Z;
  bad_target : Z;
  bad_pred : Z;
  nonbr_mispred : Z;
  br_accesses : Z
}.
#[global] Instance eta_BPStats : Eta BPStats := λ r,
  MkBPStats r.(accesses) r.(misses) r.(no_target) r.(bad_target) r.(bad_pred)
            r.(nonbr_mispred) r.(br_accesses).

(** Member initialisers and [BPStatsBase::reset_stats]. *)
Definition bp_stats_zero : BPStats := MkBPStats 0 0 0 0 0 0 0.

Record BPUPredResult : Type := MkPred {
  pr_taken : bool;
  pr_bht_cnt : Z;
  pr_ghr_snap : Z;
  pr_tage_overrode : bool
}.

Record BranchResult : Type := MkBranchResult {
  pred_taken : bool;
  pred_target : Z;
  will_redirect : bool;
  bht_cnt : Z;
  ghr_snap : Z;
  tage_overrode_bimodal : bool
}.

(** [BranchResult{}]: what [predict_at_fetch] returns for a non-branch. *)
Definition branch_result_default : BranchResult := MkBranchResult false 0 false 1 0 false.

(** ** The interface *)

Class DirPredictor (P : Type) : Type := {
  predict : P → Z → Z → res (BPUPredResult * P);
  update : P → Z → bool → bool → Z → Z → res P;
  on_mispred : P → bool → Z → Z → res P;
  on_resolved : P → bool → BranchResult → res P;
  bp_stats : P → BPStats;
  bp_reset_stats : P → P;
  (** [name() == "NoBPU"] *)
  is_NoBPU : P → bool
}.

(** Prediction state that a predictor may hand out and get back. *)
Definition snap_ok (cnt ghr : Z) : Prop := 0 <= cnt <= 3 ∧ word_ok ghr.

(** What [BranchUnit] may assume: from a well-formed state no operation fails,
    and the state stays well-formed. *)
Class DirPredictorLaws (P : Type) `{DirPredictor P} (inv : P → Prop) : Prop := {
  predict_law p pc tgt : inv p → word_ok pc →
    ∃ r p', predict p pc tgt = Ok (r, p') ∧ inv p' ∧ snap_ok (pr_bht_cnt r) (pr_ghr_snap r);
  update_law p pc taken hit cnt ghr : inv p → word_ok pc → snap_ok cnt ghr →
    ∃ p', update p pc taken hit cnt ghr = Ok p' ∧ inv p';
  on_mispred_law p taken cnt ghr : inv p → snap_ok cnt ghr →
    ∃ p', on_mispred p taken cnt ghr = Ok p' ∧ inv p';
  on_resolved_law p taken (r : BranchResult) : inv p → snap_ok (bht_cnt r) (ghr_snap r) →
    ∃ p', on_resolved p taken r = Ok p' ∧ inv p';
  reset_law p : inv p → inv (bp_reset_stats p)
}.

(** ** Predictors without tables *)

(** [accesses++] at the head of every [predict]. *)
Definition count_access (s : BPStats) : BPStats := s <| accesses ::= incr |>.

Inductive StaticKind : Type := AlwaysTaken | NoBPU | BTFNT.

Record StaticPredictor : Type := MkStatic { st_kind : StaticKind; st_stats : BPStats }.
#[global] Instance eta_Static : Eta StaticPredictor := λ r, MkStatic r.(st_kind) r.(st_stats).

Definition make_static (k : StaticKind) : StaticPredictor := MkStatic k bp_stats_zero.

Definition static_predict (p : StaticPredictor) (pc target : Z) : res (BPUPredResult * StaticPredictor) :=
  let p' := p <| st_stats ::= count_access |> in
  mret (match st_kind p with
        | AlwaysTaken => MkPred true 3 0 false
        | NoBPU => MkPred false 0 0 false
        | BTFNT => MkPred (target <? pc) 0 0 false
        end, p').

(** [update], [on_mispred] and [on_resolved] are empty bodies. *)
Definition static_update (p : StaticPredictor) (pc : Z) (taken btb_hit : bool)
    (old_cnt old_ghr : Z) : res StaticPredictor := mret p.

#[export] Instance static_predictor : DirPredictor StaticPredictor := {|
  predict := static_predict;
  update := static_update;
  on_mispred p _ _ _ := mret p;
  on_resolved p _ _ := mret p;
  bp_stats := st_stats;
  bp_reset_stats p := p <| st_stats := bp_stats_zero |>;
  is_NoBPU p := match st_kind p with NoBPU => true | _ => false end
|}.

#[export] Instance static_laws : DirPredictorLaws StaticPredictor (λ _, True).
Proof.
  split; simpl; [| eauto ..].
  intros p pc tgt _ _. eexists _, _. split; [done|]. split; [done|].
  unfold snap_ok, word_ok. destruct (st_kind p); simpl; lia.
Qed.
