(* ===== verification/Bimodal.v ===== *)
(** * Table-based direction predictors

    [src/branchSim/Bimodal.hh], [src/branchSim/Bimodal.cc]: the bimodal, gshare
    and tournament predictors over tables of two-bit saturating counters. *)

From S2P Require Import Prelude BranchPred.

(** ** Two-bit counters *)

Definition cnt_ok (c : Z) : Prop := 0 <= c <= 3.

(** [(old_cnt < 3) ? old_cnt + 1 : 3] and [(old_cnt > 0) ? old_cnt - 1 : 0]. *)
Definition sat_inc (c : Z) : Z := if c <? 3 then c + 1 else 3.
Definition sat_dec (c : Z) : Z := if 0 <? c then c - 1 else 0.

(** The counter that [BimodalPredictor::update] and [GSharePredictor::update]
    store: weakly taken on the first taken occurrence, else saturating. *)
Definition bht_next (taken btb_hit : bool) (old_cnt : Z) : Z :=
  if taken && negb btb_hit then 2
  else if taken then sat_inc old_cnt
  else sat_dec old_cnt.

Lemma sat_inc_ok c : cnt_ok c → cnt_ok (sat_inc c).
Proof. unfold cnt_ok, sat_inc. destruct (Z.ltb_spec c 3); lia. Qed.
Lemma sat_dec_ok c : cnt_ok c → cnt_ok (sat_dec c).
Proof. unfold cnt_ok, sat_dec. destruct (Z.ltb_spec 0 c); lia. Qed.
Lemma bht_next_ok t h c : cnt_ok c → cnt_ok (bht_next t h c).
Proof.
  intros. unfold bht_next.
  destruct t, h; simpl; auto using sat_inc_ok, sat_dec_ok. unfold cnt_ok; lia.
Qed.
Lemma cnt_cases c : cnt_ok c → c = 0 ∨ c = 1 ∨ c = 2 ∨ c = 3.
Proof. unfold cnt_ok. lia. Qed.
#[export] Hint Resolve sat_inc_ok sat_dec_ok bht_next_ok : npsim.

(** A table of [2^bits] counters. *)
Definition table_ok (bits : Z) (t : list Z) : Prop := zlen t = 2 ^ bits ∧ Forall cnt_ok t.

Lemma table_init bits v : 0 <= bits → cnt_ok v → table_ok bits (replicate (Z.to_nat (2 ^ bits)) v).
Proof.
  intros. split; [apply zlen_replicate; lia|]. by apply Forall_replicate.
Qed.

Lemma table_read bits t i : table_ok bits t → 0 <= i < 2 ^ bits →
  ∃ c, vec_at t i = Ok c ∧ cnt_ok c.
Proof.
  intros [Hl Hf] Hi. destruct (vec_at_lt t i) as [c Hc]; [lia|].
  exists c. split; [done|]. by eapply Forall_vec_at.
Qed.

Lemma table_write bits t i c : table_ok bits t → 0 <= i < 2 ^ bits → cnt_ok c →
  vec_set t i c = Ok (<[Z.to_nat i := c]> t) ∧ table_ok bits (<[Z.to_nat i := c]> t).
Proof.
  intros [Hl Hf] Hi Hc. split; [apply vec_set_lt; lia|].
  split; [by rewrite zlen_insert | by apply Forall_insert].
Qed.

(** ** Global history *)

(** [((ghr << 1) | dir) & hist_mask_] on [uint32_t]. *)
Definition ghr_shift (mask ghr : Z) (dir : bool) : Z :=
  Z.land (Z.lor (u32 (Z.shiftl ghr 1)) (b2z dir)) mask.

(** The history register that holds the last [n] directions, most recent
    first in the list and at bit 0 in the register. *)
Fixpoint encode (n : nat) (dirs : list bool) : Z :=
  match n, dirs with
  | O, _ | _, [] => 0
  | S n, d :: dirs => b2z d + 2 * encode n dirs
  end.

Lemma encode_range n dirs : 0 <= encode n dirs < 2 ^ Z.of_nat n.
Proof.
  revert dirs. induction n as [|n IH]; intros [|d dirs]; cbn [encode]; try lia.
  specialize (IH dirs). rewrite Nat2Z.inj_succ, Z.pow_succ_r by lia. destruct d; simpl; lia.
Qed.

Lemma encode_take n dirs : encode (S n) dirs mod 2 ^ Z.of_nat n = encode n dirs.
Proof.
  revert dirs. induction n as [|n IH]; intros [|d dirs].
  - done.
  - cbn [encode]. by rewrite Z.mod_1_r.
  - cbn [encode]. apply Zmod_0_l.
  - cbn [encode] in IH |- *.
    rewrite Nat2Z.inj_succ, Z.pow_succ_r by lia.
    specialize (IH dirs). cbn [encode] in IH. rewrite <- IH.
    set (e := match dirs with [] => 0 | d0 :: dirs0 => b2z d0 + 2 * encode n dirs0 end).
    set (m := 2 ^ Z.of_nat n). assert (0 < m) by (unfold m; lia).
    rewrite <- (Zmod_unique (b2z d + 2 * e) (2 * m) (e / m) (b2z d + 2 * (e mod m))); [done| |].
    + pose proof (Z.mod_pos_bound e m). destruct d; simpl; lia.
    + pose proof (Z.div_mod e m). lia.
Qed.

Lemma lor_b2z a d : Z.lor (2 * a) (b2z d) = 2 * a + b2z d.
Proof.
  replace (2 * a) with (Z.shiftl a 1) by (rewrite Z.shiftl_mul_pow2; lia).
  symmetry. apply Z.add_nocarry_lor. apply Z.bits_inj'. intros i Hi.
  rewrite Z.land_spec, Z.bits_0. destruct (Z.eq_dec i 0) as [->|].
  - rewrite Z.shiftl_spec by lia. by rewrite Z.testbit_neg_r by lia.
  - destruct d; simpl b2z; [|by rewrite Z.bits_0, andb_false_r].
    rewrite (Z.bits_above_log2 1 i) by (simpl; lia). apply andb_false_r.
Qed.

(** Shifting the register is consing the direction. *)
Lemma ghr_shift_encode (n : nat) dirs d : (1 <= n < 32)%nat →
  ghr_shift (2 ^ Z.of_nat n - 1) (encode n dirs) d = encode n (d :: dirs).
Proof.
  intros Hn. unfold ghr_shift. pose proof (encode_range n dirs) as He.
  assert (2 ^ Z.of_nat n <= 2 ^ 31) by (apply Z.pow_le_mono_r; lia).
  rewrite Z.shiftl_mul_pow2 by lia. rewrite u32_small by lia.
  rewrite (Z.mul_comm _ (2 ^ 1)). change (2 ^ 1) with 2.
  rewrite lor_b2z, land_mask_mod by lia.
  rewrite <- (encode_take n (d :: dirs)). cbn [encode]. f_equal. lia.
Qed.

Lemma ghr_shift_range n ghr d : 0 <= n < 32 → word_ok (ghr_shift (2 ^ n - 1) ghr d).
Proof.
  intros. unfold ghr_shift, word_ok.
  pose proof (land_mask_range (Z.lor (u32 (Z.shiftl ghr 1)) (b2z d)) n).
  assert (2 ^ n <= 2 ^ 31) by (apply Z.pow_le_mono_r; lia). lia.
Qed.

(** ** [BimodalPredictor] *)

Module Bimodal.

Record BimodalPredictor : Type := Mk {
  stats : BPStats;
  idx_bits_ : Z;
  mask_ : Z;
  table_ : list Z
}.
#[global] Instance eta_Bimodal : Eta BimodalPredictor := λ r,
  Mk r.(stats) r.(idx_bits_) r.(mask_) r.(table_).

Definition make (table_pow2 init_val : Z) : BimodalPredictor :=
  Mk bp_stats_zero table_pow2 (2 ^ table_pow2 - 1)
     (replicate (Z.to_nat (2 ^ table_pow2)) init_val).

(** Folded index: two adjacent fields of the word address, XORed. *)
Definition index (p : BimodalPredictor) (pc : Z) : Z :=
  let lo := Z.land (Z.shiftr pc 2) (mask_ p) in
  let hi := Z.land (Z.shiftr pc (2 + idx_bits_ p)) (mask_ p) in
  Z.lxor lo hi.

Definition predict (p : BimodalPredictor) (pc btb_target : Z) : res (BPUPredResult * BimodalPredictor) :=
  let p := p <| stats ::= count_access |> in
  let idx := index p pc in
  cnt ← vec_at (table_ p) idx;
  let pred := 2 <=? cnt in
  mret (MkPred pred cnt 0 false, p).

Definition update (p : BimodalPredictor) (pc : Z) (taken btb_hit : bool) (old_cnt old_ghr : Z)
    : res BimodalPredictor :=
  let idx := index p pc in
  t ← vec_set (table_ p) idx (bht_next taken btb_hit old_cnt);
  mret (p <| table_ := t |>).

#[export] Instance bimodal_predictor : DirPredictor BimodalPredictor := {|
  BranchPred.predict := predict;
  BranchPred.update := update;
  on_mispred p _ _ _ := mret p;
  on_resolved p _ _ := mret p;
  bp_stats := stats;
  bp_reset_stats p := p <| stats := bp_stats_zero |>;
  is_NoBPU _ := false
|}.

Definition wf (p : BimodalPredictor) : Prop :=
  0 <= idx_bits_ p < 30 ∧ mask_ p = 2 ^ idx_bits_ p - 1 ∧ table_ok (idx_bits_ p) (table_ p).

Lemma bimodal_wf_make k v : 0 <= k < 30 → cnt_ok v → wf (make k v).
Proof. intros. split; [done|]. split; [done|]. apply table_init; [lia | done]. Qed.

Lemma bimodal_index_range p pc : wf p → 0 <= index p pc < 2 ^ idx_bits_ p.
Proof.
  intros (Hb & Hm & _). unfold index. rewrite Hm.
  apply lxor_range; [lia | |]; apply land_mask_range; lia.
Qed.

Lemma bimodal_predict_Ok p pc t : wf p →
  ∃ c, vec_at (table_ p) (index p pc) = Ok c ∧ cnt_ok c ∧
       predict p pc t = Ok (MkPred (2 <=? c) c 0 false, p <| stats ::= count_access |>).
Proof.
  intros Hp. pose proof Hp as (_ & _ & Ht).
  destruct (table_read _ _ _ Ht (bimodal_index_range p pc Hp)) as (c & Hc & Hok).
  exists c. split; [done|]. split; [done|]. unfold predict. cbv zeta.
  change (table_ (p <| stats ::= count_access |>)) with (table_ p).
  change (index (p <| stats ::= count_access |>) pc) with (index p pc). by rewrite Hc.
Qed.

Lemma bimodal_update_Ok p pc taken hit c g : wf p → cnt_ok c →
  let p' := p <| table_ := <[Z.to_nat (index p pc) := bht_next taken hit c]> (table_ p) |> in
  update p pc taken hit c g = Ok p' ∧ wf p'.
Proof.
  intros Hp Hc. pose proof Hp as (? & ? & Ht). unfold update.
  destruct (table_write _ _ (index p pc) (bht_next taken hit c) Ht) as [-> Ht'];
    auto using bimodal_index_range with npsim. simpl. done.
Qed.

Lemma wf_stats p f : wf p → wf (p <| stats ::= f |>).
Proof. done. Qed.

#[export] Instance bimodal_laws : DirPredictorLaws BimodalPredictor wf.
Proof.
  split; simpl; [| | eauto | eauto | done].
  - intros p pc tgt Hp _. destruct (bimodal_predict_Ok p pc tgt Hp) as (c & _ & Hc & ->).
    eexists _, _. split; [done|]. split; [done|]. unfold snap_ok, word_ok. simpl. unfold cnt_ok in *. lia.
  - intros p pc taken hit cnt ghr Hp _ [Hc _].
    destruct (bimodal_update_Ok p pc taken hit cnt ghr Hp Hc). eauto.
Qed.

(** One branch at [pc]: predict, then update with the outcome, the BTB hitting. *)
Definition train (p : BimodalPredictor) (pc : Z) (d : bool) : res BimodalPredictor :=
  '(r, p1) ← predict p pc 1; update p1 pc d true (pr_bht_cnt r) (pr_ghr_snap r).

(** The counter that serves [pc]. *)
Definition counter (p : BimodalPredictor) (pc : Z) : Z :=
  default 0 (table_ p !! Z.to_nat (index p pc)).

Lemma train_Ok p pc d : wf p →
  ∃ p', train p pc d = Ok p' ∧ wf p' ∧ (∀ pc', index p' pc' = index p pc') ∧
        cnt_ok (counter p pc) ∧
        counter p' pc = (if d then sat_inc else sat_dec) (counter p pc) ∧
        (∀ pc', index p pc' ≠ index p pc → counter p' pc' = counter p pc').
Proof.
  intros Hp. destruct (bimodal_predict_Ok p pc 1 Hp) as (c & Hat & Hc & Hpr).
  unfold train. rewrite Hpr. cbn [mbind res_bind pr_bht_cnt pr_ghr_snap].
  destruct (bimodal_update_Ok _ pc d true c 0 (wf_stats p count_access Hp) Hc) as [-> Hwf].
  eexists. split; [done|]. split; [exact Hwf|]. split; [done|].
  pose proof (bimodal_index_range p pc Hp) as Hi. pose proof Hp as (_ & _ & Hl & _).
  assert (counter p pc = c) as Hcnt.
  { apply vec_at_Ok in Hat as [_ Hat]. unfold counter. by rewrite Hat. }
  rewrite Hcnt. split; [done|]. unfold counter. simpl.
  change (index (Mk _ (idx_bits_ p) (mask_ p) _)) with (index p). split.
  - rewrite list_lookup_insert_eq by (unfold zlen in Hl; lia). simpl. by destruct d.
  - intros pc' Hne. pose proof (bimodal_index_range p pc' Hp). by rewrite list_lookup_insert_ne by lia.
Qed.

Lemma predict_counter p pc t : wf p →
  ∃ p', predict p pc t = Ok (MkPred (2 <=? counter p pc) (counter p pc) 0 false, p').
Proof.
  intros Hp. destruct (bimodal_predict_Ok p pc t Hp) as (c & Hat & _ & ->).
  apply vec_at_Ok in Hat as [_ Hat]. unfold counter. rewrite Hat. eauto.
Qed.

(** Hysteresis of the two-bit counters.  From any well-formed state, two
    outcomes in direction [d] make the predictor predict [d]; after a third, one
    outcome the other way does not change the prediction. *)
Theorem bimodal_hysteresis p pc d : wf p →
  ∃ p2 p3 p4 r2 r4 q2 q4,
    (p1 ← train p pc d; train p1 pc d) = Ok p2 ∧
    predict p2 pc 1 = Ok (r2, q2) ∧ pr_taken r2 = d ∧
    train p2 pc d = Ok p3 ∧ train p3 pc (negb d) = Ok p4 ∧
    predict p4 pc 1 = Ok (r4, q4) ∧ pr_taken r4 = d.
Proof.
  intros Hp.
  destruct (train_Ok p pc d Hp) as (p1 & H1 & W1 & _ & C0 & C1 & _).
  destruct (train_Ok p1 pc d W1) as (p2 & H2 & W2 & _ & _ & C2 & _).
  destruct (train_Ok p2 pc d W2) as (p3 & H3 & W3 & _ & _ & C3 & _).
  destruct (train_Ok p3 pc (negb d) W3) as (p4 & H4 & W4 & _ & _ & C4 & _).
  destruct (predict_counter p2 pc 1 W2) as (q2 & Hq2).
  destruct (predict_counter p4 pc 1 W4) as (q4 & Hq4).
  exists p2, p3, p4. eexists _, _, q2, q4.
  split; [rewrite H1; exact H2|]. split; [exact Hq2|].
  split; [|split; [exact H3|]; split; [exact H4|]; split; [exact Hq4|]]; simpl.
  - rewrite C2, C1. by destruct (cnt_cases _ C0) as [-> | [-> | [-> | ->]]], d.
  - rewrite C4, C3, C2, C1. by destruct (cnt_cases _ C0) as [-> | [-> | [-> | ->]]], d.
Qed.

Lemma bimodal_hysteresis_witness :
  ∃ p2 p3 p4 r2 r4 q2 q4,
    (p1 ← train (make 4 1) 0x80000010 true; train p1 0x80000010 true) = Ok p2 ∧
    predict p2 0x80000010 1 = Ok (r2, q2) ∧ pr_taken r2 = true ∧
    train p2 0x80000010 true = Ok p3 ∧ train p3 0x80000010 false = Ok p4 ∧
    predict p4 0x80000010 1 = Ok (r4, q4) ∧ pr_taken r4 = true.
Proof. apply (bimodal_hysteresis (make 4 1)). apply bimodal_wf_make; [lia | unfold cnt_ok; lia]. Defined.

End Bimodal.

(** ** [GSharePredictor] *)

Module GShare.

Record GSharePredictor : Type := Mk {
  stats : BPStats;
  history_len_ : Z;
  mask_ : Z;
  hist_mask_ : Z;
  global_history_ : Z;
  table_ : list Z
}.
#[global] Instance eta_GShare : Eta GSharePredictor := λ r,
  Mk r.(stats) r.(history_len_) r.(mask_) r.(hist_mask_) r.(global_history_) r.(table_).

Definition make (table_pow2 history_len init_val : Z) : GSharePredictor :=
  Mk bp_stats_zero history_len (2 ^ table_pow2 - 1) (2 ^ history_len - 1) 0
     (replicate (Z.to_nat (2 ^ table_pow2)) init_val).

Definition index (p : GSharePredictor) (pc ghr : Z) : Z :=
  Z.land (Z.lxor (Z.shiftr pc 2) ghr) (mask_ p).

Definition predict (p : GSharePredictor) (pc btb_target : Z) : res (BPUPredResult * GSharePredictor) :=
  let p := p <| stats ::= count_access |> in
  let snap := global_history_ p in
  let idx := index p pc snap in
  cnt ← vec_at (table_ p) idx;
  let pred := 2 <=? cnt in
  mret (MkPred pred cnt snap false,
        p <| global_history_ := ghr_shift (hist_mask_ p) snap pred |>).

Definition update (p : GSharePredictor) (pc : Z) (taken btb_hit : bool) (old_cnt old_ghr : Z)
    : res GSharePredictor :=
  let idx := index p pc old_ghr in
  t ← vec_set (table_ p) idx (bht_next taken btb_hit old_cnt);
  mret (p <| table_ := t |>).

Definition on_mispred (p : GSharePredictor) (actual_taken : bool) (old_cnt old_ghr : Z)
    : res GSharePredictor :=
  mret (p <| global_history_ := ghr_shift (hist_mask_ p) old_ghr actual_taken |>).

#[export] Instance gshare_predictor : DirPredictor GSharePredictor := {|
  BranchPred.predict := predict;
  BranchPred.update := update;
  BranchPred.on_mispred := on_mispred;
  on_resolved p _ _ := mret p;
  bp_stats := stats;
  bp_reset_stats p := p <| stats := bp_stats_zero |>;
  is_NoBPU _ := false
|}.

(** [bits] is [log2] of the table size. *)
Definition wf (bits : Z) (p : GSharePredictor) : Prop :=
  0 <= bits < 32 ∧ 1 <= history_len_ p < 32 ∧ mask_ p = 2 ^ bits - 1 ∧
  hist_mask_ p = 2 ^ history_len_ p - 1 ∧ word_ok (global_history_ p) ∧ table_ok bits (table_ p).

Lemma gshare_wf_make k h v : 0 <= k < 32 → 1 <= h < 32 → cnt_ok v → wf k (make k h v).
Proof.
  intros. unfold wf, make. simpl. splits; try done; try (unfold word_ok; lia); try lia.
  all: by apply table_init; [lia|].
Qed.

Lemma gshare_wf_ghr bits p g d s : wf bits p →
  wf bits (p <| stats := s |> <| global_history_ := ghr_shift (hist_mask_ p) g d |>).
Proof.
  intros (? & ? & ? & Hhm & ? & ?). unfold wf. simpl. splits; try done; try lia.
  rewrite Hhm. apply ghr_shift_range. lia.
Qed.

Lemma gshare_index_range bits p pc g : wf bits p → 0 <= index p pc g < 2 ^ bits.
Proof. intros (Hb & _ & Hm & _). unfold index. rewrite Hm. apply land_mask_range. lia. Qed.

Lemma gshare_predict_Ok bits p pc t : wf bits p →
  ∃ c, cnt_ok c ∧ let d := 2 <=? c in
  let p' := p <| stats ::= count_access |>
              <| global_history_ := ghr_shift (hist_mask_ p) (global_history_ p) d |> in
  predict p pc t = Ok (MkPred d c (global_history_ p) false, p') ∧ wf bits p'.
Proof.
  intros Hp. pose proof Hp as (Hb & Hh & Hm & Hhm & Hg & Ht).
  destruct (table_read _ _ _ Ht (gshare_index_range bits p pc (global_history_ p) Hp)) as (c & Hc & Hok).
  exists c. split; [done|]. split.
  - unfold predict. cbv zeta.
    change (table_ (p <| stats ::= count_access |>)) with (table_ p).
    change (index (p <| stats ::= count_access |>)) with (index p).
    change (global_history_ (p <| stats ::= count_access |>)) with (global_history_ p).
    by rewrite Hc.
  - by apply gshare_wf_ghr.
Qed.

#[export] Instance gshare_laws bits : DirPredictorLaws GSharePredictor (wf bits).
Proof.
  split; simpl; [| | | eauto | done].
  - intros p pc tgt Hp _. destruct (gshare_predict_Ok bits p pc tgt Hp) as (c & Hc & -> & Hwf).
    eexists _, _. split; [done|]. split; [done|]. split; [done | apply Hp].
  - intros p pc taken hit cnt ghr Hp _ [Hc _]. unfold update.
    pose proof Hp as (? & ? & ? & ? & ? & Ht).
    destruct (table_write _ _ (index p pc ghr) (bht_next taken hit cnt) Ht) as [-> Ht'];
      [by apply gshare_index_range | by apply bht_next_ok |].
    eexists. split; [done|]. unfold wf. simpl. naive_solver.
  - intros p taken cnt ghr Hp _. eexists. split; [done|].
    by apply (gshare_wf_ghr bits p ghr taken (stats p)).
Qed.

(** The global history register is a window on the list of predicted
    directions: [predict] hands out the window as it was, and pushes its own
    prediction; whatever happened in between, [on_mispred] with that snapshot
    leaves the window in which the branch went its actual way. *)
Theorem gshare_history bits p pc tgt dirs (later : GSharePredictor) actual :
  wf bits p → wf bits later → history_len_ later = history_len_ p →
  let h := Z.to_nat (history_len_ p) in
  global_history_ p = encode h dirs →
  ∃ r p' q, predict p pc tgt = Ok (r, p') ∧
    pr_ghr_snap r = encode h dirs ∧
    global_history_ p' = encode h (pr_taken r :: dirs) ∧
    on_mispred later actual (pr_bht_cnt r) (pr_ghr_snap r) = Ok q ∧
    global_history_ q = encode h (actual :: dirs).
Proof.
  intros Hp Hl Hlen h Hg. destruct (gshare_predict_Ok bits p pc tgt Hp) as (c & _ & Hpr & _).
  destruct Hp as (_ & Hh & _ & Hhm & _). destruct Hl as (_ & _ & _ & Hhm' & _).
  rewrite Hlen in Hhm'.
  assert (2 ^ history_len_ p - 1 = 2 ^ Z.of_nat h - 1) as Hpow by (unfold h; by rewrite Z2Nat.id by lia).
  eexists _, _, _. split; [exact Hpr|]. split; [exact Hg|]. split; [|split; [done|]]; simpl.
  - rewrite Hhm, Hg, Hpow. apply ghr_shift_encode. lia.
  - rewrite Hhm', Hg, Hpow. apply ghr_shift_encode. lia.
Qed.

Lemma gshare_history_witness :
  ∃ r p' q, predict (make 4 12 1) 0x80000010 0 = Ok (r, p') ∧
    pr_ghr_snap r = encode 12 [] ∧
    global_history_ p' = encode 12 (pr_taken r :: []) ∧
    on_mispred (make 4 12 2) true (pr_bht_cnt r) (pr_ghr_snap r) = Ok q ∧
    global_history_ q = encode 12 [true].
Proof.
  apply (gshare_history 4 (make 4 12 1) 0x80000010 0 [] (make 4 12 2) true);
    [apply gshare_wf_make; unfold cnt_ok; lia | apply gshare_wf_make; unfold cnt_ok; lia | done | done].
Defined.

End GShare.

(** ** [TournamentPredictor] *)

Module Tournament.

Record TournamentPredictor : Type := Mk {
  stats : BPStats;
  history_len_ : Z;
  mask_ : Z;
  hist_mask_ : Z;
  global_history_ : Z;
  local_table_ : list Z;
  global_table_ : list Z;
  selector_table_ : list Z
}.
#[global] Instance eta_Tournament : Eta TournamentPredictor := λ r,
  Mk r.(stats) r.(history_len_) r.(mask_) r.(hist_mask_) r.(global_history_)
     r.(local_table_) r.(global_table_) r.(selector_table_).

Definition make (table_pow2 history_len : Z) : TournamentPredictor :=
  let t := replicate (Z.to_nat (2 ^ table_pow2)) 1 in
  Mk bp_stats_zero history_len (2 ^ table_pow2 - 1) (2 ^ history_len - 1) 0 t t t.

Definition local_index (p : TournamentPredictor) (pc : Z) : Z := Z.land (Z.shiftr pc 2) (mask_ p).
Definition global_index (p : TournamentPredictor) (pc ghr : Z) : Z :=
  Z.land (Z.lxor (Z.shiftr pc 2) ghr) (mask_ p).

Definition predict (p : TournamentPredictor) (pc btb_target : Z)
    : res (BPUPredResult * TournamentPredictor) :=
  let p := p <| stats ::= count_access |> in
  let snap := global_history_ p in
  let li := local_index p pc in
  let gi := global_index p pc snap in
  lc ← vec_at (local_table_ p) li;
  gc ← vec_at (global_table_ p) gi;
  sel ← vec_at (selector_table_ p) li;
  let local_pred := 2 <=? lc in
  let global_pred := 2 <=? gc in
  let use_global := 2 <=? sel in
  let pred := if use_global then global_pred else local_pred in
  mret (MkPred pred (if use_global then gc else lc) snap false,
        p <| global_history_ := ghr_shift (hist_mask_ p) snap pred |>).

(** [if (c < 3) c++;] and [if (c > 0) c--;] on an element of a table. *)
Definition bump (up : bool) (c : Z) : Z :=
  if up then (if c <? 3 then c + 1 else c) else (if 0 <? c then c - 1 else c).

Definition update (p : TournamentPredictor) (pc : Z) (taken btb_hit : bool) (old_cnt old_ghr : Z)
    : res TournamentPredictor :=
  let li := local_index p pc in
  let gi := global_index p pc old_ghr in
  lc ← vec_at (local_table_ p) li;
  gc ← vec_at (global_table_ p) gi;
  sel ← vec_at (selector_table_ p) li;
  let local_correct := Bool.eqb (2 <=? lc) taken in
  let global_correct := Bool.eqb (2 <=? gc) taken in
  st ← (if negb (Bool.eqb local_correct global_correct)
        then vec_set (selector_table_ p) li (bump global_correct sel)
        else mret (selector_table_ p));
  lt ← vec_set (local_table_ p) li (bump taken lc);
  gt ← vec_set (global_table_ p) gi (bump taken gc);
  mret (p <| selector_table_ := st |> <| local_table_ := lt |> <| global_table_ := gt |>).

Definition on_mispred (p : TournamentPredictor) (actual_taken : bool) (old_cnt old_ghr : Z)
    : res TournamentPredictor :=
  mret (p <| global_history_ := ghr_shift (hist_mask_ p) old_ghr actual_taken |>).

#[export] Instance tournament_predictor : DirPredictor TournamentPredictor := {|
  BranchPred.predict := predict;
  BranchPred.update := update;
  BranchPred.on_mispred := on_mispred;
  on_resolved p _ _ := mret p;
  bp_stats := stats;
  bp_reset_stats p := p <| stats := bp_stats_zero |>;
  is_NoBPU _ := false
|}.

Definition wf (bits : Z) (p : TournamentPredictor) : Prop :=
  0 <= bits < 32 ∧ 1 <= history_len_ p < 32 ∧ mask_ p = 2 ^ bits - 1 ∧
  hist_mask_ p = 2 ^ history_len_ p - 1 ∧ word_ok (global_history_ p) ∧
  table_ok bits (local_table_ p) ∧ table_ok bits (global_table_ p) ∧
  table_ok bits (selector_table_ p).

Lemma tournament_wf_make k h : 0 <= k < 32 → 1 <= h < 32 → wf k (make k h).
Proof.
  intros. assert (table_ok k (replicate (Z.to_nat (2 ^ k)) 1)) by
    (apply table_init; [lia | unfold cnt_ok; lia]).
  unfold wf, make. simpl. splits; try done; try (unfold word_ok; lia); try lia.
  all: by destruct_and?.
Qed.

Lemma tournament_wf_ghr bits p g d s : wf bits p →
  wf bits (p <| stats := s |> <| global_history_ := ghr_shift (hist_mask_ p) g d |>).
Proof.
  intros (? & ? & ? & Hhm & ? & ? & ? & ?). unfold wf. simpl. splits; try done; try lia.
  rewrite Hhm. apply ghr_shift_range. lia.
Qed.

Lemma bump_ok up c : cnt_ok c → cnt_ok (bump up c).
Proof. intros. unfold bump, cnt_ok in *. destruct up; case_bool; lia. Qed.

Lemma local_range bits p pc : wf bits p → 0 <= local_index p pc < 2 ^ bits.
Proof. intros (Hb & _ & Hm & _). unfold local_index. rewrite Hm. apply land_mask_range. lia. Qed.
Lemma global_range bits p pc g : wf bits p → 0 <= global_index p pc g < 2 ^ bits.
Proof. intros (Hb & _ & Hm & _). unfold global_index. rewrite Hm. apply land_mask_range. lia. Qed.

(** The three counters that serve [pc] under the history [g]. *)
Definition counters (p : TournamentPredictor) (pc g : Z) (lc gc sel : Z) : Prop :=
  vec_at (local_table_ p) (local_index p pc) = Ok lc ∧
  vec_at (global_table_ p) (global_index p pc g) = Ok gc ∧
  vec_at (selector_table_ p) (local_index p pc) = Ok sel.

Lemma counters_exist bits p pc g : wf bits p →
  ∃ lc gc sel, counters p pc g lc gc sel ∧ cnt_ok lc ∧ cnt_ok gc ∧ cnt_ok sel.
Proof.
  intros Hp. pose proof Hp as (_ & _ & _ & _ & _ & Hl & Hg & Hs).
  destruct (table_read _ _ _ Hl (local_range bits p pc Hp)) as (lc & ? & ?).
  destruct (table_read _ _ _ Hg (global_range bits p pc g Hp)) as (gc & ? & ?).
  destruct (table_read _ _ _ Hs (local_range bits p pc Hp)) as (sel & ? & ?).
  exists lc, gc, sel. unfold counters. by splits.
Qed.

(** The component that is right alone wins the selector's next step. *)
Definition select_next (taken : bool) (lc gc sel : Z) : Z :=
  let lok := Bool.eqb (2 <=? lc) taken in
  let gok := Bool.eqb (2 <=? gc) taken in
  if Bool.eqb lok gok then sel else if gok then sat_inc sel else sat_dec sel.

Lemma bump_sat up c : cnt_ok c → bump up c = (if up then sat_inc else sat_dec) c.
Proof. by intros [-> | [-> | [-> | ->]]]%cnt_cases; destruct up. Qed.

Lemma tournament_update_Ok bits p pc taken hit cnt g lc gc sel :
  wf bits p → counters p pc g lc gc sel → cnt_ok lc → cnt_ok gc → cnt_ok sel →
  ∃ p', update p pc taken hit cnt g = Ok p' ∧ wf bits p' ∧
        counters p' pc g (bump taken lc) (bump taken gc) (select_next taken lc gc sel).
Proof.
  intros Hp (El & Eg & Es) Hlc Hgc Hsel.
  pose proof Hp as (? & ? & Hm & ? & ? & Hl & Hg & Hs).
  pose proof (local_range bits p pc Hp) as Rl. pose proof (global_range bits p pc g Hp) as Rg.
  set (st := <[Z.to_nat (local_index p pc) := select_next taken lc gc sel]> (selector_table_ p)).
  assert (table_ok bits st) as Hst.
  { apply table_write; [done | done |]. unfold select_next.
    repeat case_match; auto with npsim. }
  assert (update p pc taken hit cnt g = Ok
    (p <| selector_table_ := st |>
       <| local_table_ := <[Z.to_nat (local_index p pc) := bump taken lc]> (local_table_ p) |>
       <| global_table_ := <[Z.to_nat (global_index p pc g) := bump taken gc]> (global_table_ p) |>))
    as ->.
  { unfold update. rewrite El, Eg, Es. cbn [mbind res_bind]. unfold st, select_next.
    rewrite !(vec_set_lt (local_table_ p)), !(vec_set_lt (global_table_ p))
      by (rewrite ?(proj1 Hl), ?(proj1 Hg); done).
    destruct (Bool.eqb (Bool.eqb _ _) _); cbn [negb].
    - rewrite (list_insert_id (selector_table_ p)); [done|]. by apply vec_at_Ok in Es as [_ ?].
    - rewrite (vec_set_lt (selector_table_ p)) by (rewrite (proj1 Hs); exact Rl). cbn [mbind res_bind mret res_ret].
      rewrite (bump_sat _ sel) by done. by destruct (Bool.eqb (2 <=? gc) taken). }
  eexists. split; [done|].
  destruct (table_write _ _ _ _ Hl Rl (bump_ok taken lc Hlc)) as [_ Hl'].
  destruct (table_write _ _ _ _ Hg Rg (bump_ok taken gc Hgc)) as [_ Hg'].
  split; [unfold wf; simpl; splits; first [done | lia]|].
  destruct Hl as [Hll _], Hg as [Hgl _], Hs as [Hsl _].
  unfold counters. splits;
    [ apply (vec_at_set_eq (local_table_ p) (local_index p pc))
    | apply (vec_at_set_eq (global_table_ p) (global_index p pc g))
    | apply (vec_at_set_eq (selector_table_ p) (local_index p pc)) ]; lia.
Qed.

#[export] Instance tournament_laws bits : DirPredictorLaws TournamentPredictor (wf bits).
Proof.
  split; simpl; [| | | eauto | done].
  - intros p pc tgt Hp _. pose proof Hp as (? & ? & ? & Hhm & ? & ? & ? & ?).
    destruct (counters_exist bits p pc (global_history_ p) Hp)
      as (lc & gc & sel & (E1 & E2 & E3) & ? & ? & ?).
    unfold predict. cbv zeta.
    change (local_index (p <| stats ::= count_access |>)) with (local_index p).
    change (global_index (p <| stats ::= count_access |>)) with (global_index p).
    simpl in E1, E2, E3 |- *. rewrite E1, E2, E3.
    eexists _, _. split; [done|]. split; [|split; [by case_match|done]].
    by apply (tournament_wf_ghr bits p).
  - intros p pc taken hit cnt ghr Hp _ _.
    destruct (counters_exist bits p pc ghr Hp) as (lc & gc & sel & Hc & ? & ? & ?).
    destruct (tournament_update_Ok bits p pc taken hit cnt ghr lc gc sel) as (p' & ? & ? & _); eauto.
  - intros p taken cnt ghr Hp _. eexists. split; [done|].
    by apply (tournament_wf_ghr bits p ghr taken (stats p)).
Qed.

(** One update moves the selector towards the component that alone was
    right (and leaves it when both or neither were), moves both component
    counters towards the outcome, and the following prediction is the one of
    the component the new selector points at. *)
Theorem tournament_step bits p pc taken hit cnt :
  wf bits p →
  let g := global_history_ p in
  ∃ lc gc sel p' r p'',
    counters p pc g lc gc sel ∧
    update p pc taken hit cnt g = Ok p' ∧
    counters p' pc g (bump taken lc) (bump taken gc) (select_next taken lc gc sel) ∧
    predict p' pc 0 = Ok (r, p'') ∧
    pr_taken r = (if 2 <=? select_next taken lc gc sel
                  then 2 <=? bump taken gc else 2 <=? bump taken lc).
Proof.
  intros Hp g. destruct (counters_exist bits p pc g Hp) as (lc & gc & sel & Hc & ? & ? & ?).
  destruct (tournament_update_Ok bits p pc taken hit cnt g lc gc sel) as (p' & Hu & _ & Hc'); auto.
  assert (global_history_ p' = g) as Hg.
  { unfold update in Hu. repeat res_inv Hu. by subst p'. }
  pose proof Hc' as (E1 & E2 & E3).
  assert (∃ r p'', predict p' pc 0 = Ok (r, p'') ∧
    pr_taken r = (if 2 <=? select_next taken lc gc sel
                  then 2 <=? bump taken gc else 2 <=? bump taken lc)) as (r & p'' & ? & ?).
  { unfold predict. cbv zeta.
    change (local_index (p' <| stats ::= count_access |>)) with (local_index p').
    change (global_index (p' <| stats ::= count_access |>)) with (global_index p').
    simpl. rewrite Hg, E1, E2, E3. eexists _, _. by split. }
  by exists lc, gc, sel, p', r, p''.
Qed.

Lemma tournament_step_witness :
  ∃ lc gc sel p' r p'',
    counters (make 3 4) 0x80000010 0 lc gc sel ∧
    update (make 3 4) 0x80000010 true true 1 0 = Ok p' ∧
    counters p' 0x80000010 0 (bump true lc) (bump true gc) (select_next true lc gc sel) ∧
    predict p' 0x80000010 0 = Ok (r, p'') ∧
    pr_taken r = (if 2 <=? select_next true lc gc sel
                  then 2 <=? bump true gc else 2 <=? bump true lc).
Proof. apply (tournament_step 3 (make 3 4)). apply tournament_wf_make; lia. Defined.

End Tournament.
