(* ===== verification/Btb.v ===== *)
(** * Branch target buffer

    [BTBBase], [CompressedBTB] and [NoBTB] of [src/branchSim/BranchPred.hh] and
    [.cc]: a direct-mapped table of tagged targets.  The subclasses are the two
    values of [kind]; the base-class state is shared. *)

From S2P Require Import Prelude.

Module BTB.

Record BTBEntry : Type := MkEntry {
  pc_tag : Z;
  target : Z;
  valid : bool;
  type_ : Z
}.
#[global] Instance eta_BTBEntry : Eta BTBEntry := λ r,
  MkEntry r.(pc_tag) r.(target) r.(valid) r.(type_).

Definition entry_init : BTBEntry := MkEntry 0 0 false 0.

Inductive BTBKind : Type :=
| CompressedBTB (tag_mask_ index_mask_ tag_shift_ : Z)
| NoBTB.

Record BTBBase : Type := MkBTB {
  kind : BTBKind;
  table_ : list BTBEntry;
  sram_dff_ : bool
}.
#[global] Instance eta_BTBBase : Eta BTBBase := λ r,
  MkBTB r.(kind) r.(table_) r.(sram_dff_).

Definition base_table (entries_pow2 : Z) : list BTBEntry :=
  replicate (Z.to_nat (2 ^ entries_pow2)) entry_init.

(** [CompressedBTB(name, entries_pow2, tag_bits, _, sram_dff)] with the default
    [tag_shift_override = 0], and [NoBTB()]. *)
Definition make_compressed (entries_pow2 tag_bits : Z) (sram_dff : bool) : BTBBase :=
  MkBTB (CompressedBTB (2 ^ tag_bits - 1) (2 ^ entries_pow2 - 1) (2 + entries_pow2))
        (base_table entries_pow2) sram_dff.
Definition make_none : BTBBase := MkBTB NoBTB (base_table 0) true.

Definition num_entries (b : BTBBase) : Z := zlen (table_ b).
Definition has_rw_conflict (b : BTBBase) : bool := negb (sram_dff_ b).

Definition entry_type (b : BTBBase) (idx : Z) : Z :=
  if idx <? num_entries b then default 0 (type_ <$> table_ b !! Z.to_nat idx) else 0.

Definition set_entry_type (b : BTBBase) (idx t : Z) : BTBBase :=
  if idx <? num_entries b
  then b <| table_ ::= alter (λ e, e <| type_ := t |>) (Z.to_nat idx) |>
  else b.

Definition index (index_mask pc : Z) : Z := Z.land (Z.shiftr pc 2) index_mask.
Definition tag_of (tag_shift tag_mask pc : Z) : Z := Z.land (Z.shiftr pc tag_shift) tag_mask.

Definition lookup (b : BTBBase) (pc : Z) : res Z :=
  match kind b with
  | NoBTB => mret 0
  | CompressedBTB tm im ts =>
    let idx := index im pc in
    ent ← vec_at (table_ b) idx;
    let hit := valid ent && (pc_tag ent =? tag_of ts tm pc) in
    mret (if hit then target ent else 0)
  end.

Definition update (b : BTBBase) (pc tgt : Z) : res BTBBase :=
  match kind b with
  | NoBTB => mret b
  | CompressedBTB tm im ts =>
    let idx := index im pc in
    ent ← vec_at (table_ b) idx;
    t ← vec_set (table_ b) idx
          (ent <| pc_tag := tag_of ts tm pc |> <| target := tgt |> <| valid := true |>);
    mret (b <| table_ := t |>)
  end.

Definition clear_entry (b : BTBBase) (pc : Z) : res BTBBase :=
  match kind b with
  | NoBTB => mret b
  | CompressedBTB tm im ts =>
    let idx := index im pc in
    ent ← vec_at (table_ b) idx;
    t ← vec_set (table_ b) idx
          (ent <| valid := false |> <| pc_tag := 0 |> <| target := 0 |> <| type_ := 0 |>);
    mret (b <| table_ := t |>)
  end.

(** ** Well-formedness *)

(** [k] is [entries_pow2], [w] the number of tag bits. *)
Definition wf (k w : Z) (b : BTBBase) : Prop :=
  match kind b with
  | NoBTB => num_entries b = 1
  | CompressedBTB tm im ts =>
    0 <= k < 30 ∧ 0 <= w < 32 ∧ tm = 2 ^ w - 1 ∧ im = 2 ^ k - 1 ∧ ts = 2 + k ∧
    num_entries b = 2 ^ k
  end.

Lemma btb_wf_make k w d : 0 <= k < 30 → 0 <= w < 32 → wf k w (make_compressed k w d).
Proof.
  intros. unfold wf, make_compressed, num_entries, base_table. simpl.
  splits; try done; try lia. apply zlen_replicate. lia.
Qed.

Section compressed.
Context (k w : Z).

(** The entry index and the tag of an address, as the bits they select. *)
Definition idx_bits (pc : Z) : Z := pc / 2 ^ 2 mod 2 ^ k.
Definition tag_bits (pc : Z) : Z := pc / 2 ^ (2 + k) mod 2 ^ w.

Lemma index_bits pc : 0 <= k → index (2 ^ k - 1) pc = idx_bits pc.
Proof. intros. unfold index, idx_bits. by rewrite land_mask_mod, Z.shiftr_div_pow2. Qed.

Lemma tag_of_bits pc : 0 <= k → 0 <= w → tag_of (2 + k) (2 ^ w - 1) pc = tag_bits pc.
Proof. intros. unfold tag_of, tag_bits. rewrite land_mask_mod, Z.shiftr_div_pow2 by lia. done. Qed.

Lemma idx_bits_range pc : 0 <= k → 0 <= idx_bits pc < 2 ^ k.
Proof. intros. apply Z.mod_pos_bound. lia. Qed.
End compressed.

(** The operations a client performs. *)
Inductive op : Type :=
| OpUpdate (pc tgt : Z)
| OpClear (pc : Z)
| OpSetType (idx t : Z).

Definition apply_op (b : BTBBase) (o : op) : res BTBBase :=
  match o with
  | OpUpdate pc tgt => update b pc tgt
  | OpClear pc => clear_entry b pc
  | OpSetType idx t => mret (set_entry_type b idx t)
  end.

Fixpoint apply_ops (b : BTBBase) (ops : list op) : res BTBBase :=
  match ops with [] => mret b | o :: ops => b' ← apply_op b o; apply_ops b' ops end.

(** ** Specification: the most recent write to an index decides

    [spec k w ops pc], with the most recent operation first. *)
Fixpoint spec (k w : Z) (ops : list op) (pc : Z) : Z :=
  match ops with
  | [] => 0
  | OpUpdate pc' tgt :: ops =>
    if idx_bits k pc =? idx_bits k pc' then
      if tag_bits k w pc =? tag_bits k w pc' then tgt else 0
    else spec k w ops pc
  | OpClear pc' :: ops =>
    if idx_bits k pc =? idx_bits k pc' then 0 else spec k w ops pc
  | OpSetType _ _ :: ops => spec k w ops pc
  end.

(** The look-up on the table, without the bounds check. *)
Definition read (k w : Z) (b : BTBBase) (pc : Z) : Z :=
  match table_ b !! Z.to_nat (idx_bits k pc) with
  | Some e => if valid e && (pc_tag e =? tag_bits k w pc) then target e else 0
  | None => 0
  end.

Definition compressed (k w : Z) (b : BTBBase) : Prop :=
  wf k w b ∧ ∃ tm im ts, kind b = CompressedBTB tm im ts.

Lemma lookup_read k w b pc : compressed k w b → lookup b pc = Ok (read k w b pc).
Proof.
  intros (Hwf & tm & im & ts & Hk). unfold wf in Hwf. rewrite Hk in Hwf.
  destruct Hwf as (? & ? & -> & -> & -> & Hn). unfold lookup, read. rewrite Hk.
  rewrite index_bits, tag_of_bits by lia. cbv zeta.
  destruct (vec_at_lt (table_ b) (idx_bits k pc)) as [e He].
  { unfold num_entries in Hn. rewrite Hn. apply idx_bits_range; lia. }
  rewrite He. apply vec_at_Ok in He as [_ ->]. done.
Qed.

Lemma write_entry k w b pc (f : BTBEntry → BTBEntry) : compressed k w b →
  ∃ e, vec_at (table_ b) (idx_bits k pc) = Ok e ∧
       vec_set (table_ b) (idx_bits k pc) (f e) =
         Ok (<[Z.to_nat (idx_bits k pc) := f e]> (table_ b)) ∧
       compressed k w (b <| table_ := <[Z.to_nat (idx_bits k pc) := f e]> (table_ b) |>).
Proof.
  intros (Hwf & tm & im & ts & Hk). pose proof Hwf as Hwf'.
  unfold wf in Hwf'. rewrite Hk in Hwf'. destruct Hwf' as (? & ? & ? & ? & ? & Hn).
  unfold num_entries in Hn.
  assert (0 <= idx_bits k pc < zlen (table_ b)) as Hr by (rewrite Hn; apply idx_bits_range; lia).
  destruct (vec_at_lt (table_ b) (idx_bits k pc) Hr) as [e He].
  exists e. split; [done|]. split; [by apply vec_set_lt|].
  split; [|by exists tm, im, ts].
  unfold wf, num_entries in *. simpl. rewrite Hk in *. rewrite zlen_insert. done.
Qed.

(** Reading after one entry has been replaced. *)
Lemma read_write k w b pc pc' e (x : BTBEntry) : compressed k w b →
  vec_at (table_ b) (idx_bits k pc') = Ok e →
  read k w (b <| table_ := <[Z.to_nat (idx_bits k pc') := x]> (table_ b) |>) pc =
  if idx_bits k pc =? idx_bits k pc'
  then (if valid x && (pc_tag x =? tag_bits k w pc) then target x else 0)
  else read k w b pc.
Proof.
  intros (Hwf & tm & im & ts & Hk) [Hr He]%vec_at_Ok. apply lookup_lt_Some in He.
  unfold wf in Hwf. rewrite Hk in Hwf. destruct Hwf as (? & _).
  unfold read. simpl. destruct (Z.eqb_spec (idx_bits k pc) (idx_bits k pc')) as [->|Hne].
  - rewrite list_lookup_insert_eq by done. done.
  - pose proof (idx_bits_range k pc). rewrite list_lookup_insert_ne by lia. done.
Qed.

Lemma apply_op_refines k w b o pc : compressed k w b →
  ∃ b', apply_op b o = Ok b' ∧ compressed k w b' ∧
    read k w b' pc =
      match o with
      | OpUpdate pc' tgt =>
        if idx_bits k pc =? idx_bits k pc' then
          if tag_bits k w pc =? tag_bits k w pc' then tgt else 0
        else read k w b pc
      | OpClear pc' => if idx_bits k pc =? idx_bits k pc' then 0 else read k w b pc
      | OpSetType _ _ => read k w b pc
      end.
Proof.
  intros Hc. pose proof Hc as (Hwf & tm & im & ts & Hk).
  unfold wf in Hwf. rewrite Hk in Hwf. destruct Hwf as (? & ? & -> & -> & -> & Hn).
  destruct o as [pc' tgt | pc' | idx t]; simpl.
  - unfold update. rewrite Hk, index_bits, tag_of_bits by lia.
    destruct (write_entry k w b pc' (λ ent, ent <| pc_tag := tag_bits k w pc' |>
      <| target := tgt |> <| valid := true |>) Hc) as (e & He & Hs & Hc').
    cbv zeta. rewrite He. cbn [mbind res_bind]. rewrite Hs. cbn [mbind res_bind].
    eexists. split; [done|]. split; [exact Hc'|]. rewrite (read_write k w b pc pc' e) by done.
    simpl. by rewrite (Z.eqb_sym (tag_bits k w pc')).
  - unfold clear_entry. rewrite Hk, index_bits by lia.
    destruct (write_entry k w b pc' (λ ent, ent <| valid := false |> <| pc_tag := 0 |>
      <| target := 0 |> <| type_ := 0 |>) Hc) as (e & He & Hs & Hc').
    cbv zeta. rewrite He. cbn [mbind res_bind]. rewrite Hs. cbn [mbind res_bind].
    eexists. split; [done|]. split; [exact Hc'|]. by rewrite (read_write k w b pc pc' e) by done.
  - eexists. split; [done|]. unfold set_entry_type.
    destruct (idx <? num_entries b); [|done]. split.
    + split; [|by eexists _, _, _]. unfold wf, num_entries, zlen in *. simpl. rewrite Hk.
      by rewrite length_alter.
    + unfold read. simpl. rewrite list_lookup_alter.
      destruct (decide _) as [->|]; [|done].
      by destruct (table_ b !! _) as [[]|].
Qed.

(** C16: after any sequence of updates, clears and type writes on a fresh
    compressed BTB, no operation has failed and a look-up returns what the most
    recent write to the selected index says: its target when that write was an
    update under the same tag, else 0. *)
Theorem lookup_refines k w dff ops pc :
  0 <= k < 30 → 0 <= w < 32 →
  ∃ b, apply_ops (make_compressed k w dff) ops = Ok b ∧
       lookup b pc = Ok (spec k w (rev ops) pc).
Proof.
  intros Hk Hw.
  enough (∀ b past, compressed k w b → (∀ pc, read k w b pc = spec k w past pc) →
    ∃ b', apply_ops b ops = Ok b' ∧ lookup b' pc = Ok (spec k w (rev ops ++ past) pc)) as H.
  { destruct (H (make_compressed k w dff) []) as (b & ? & ?).
    - split; [by apply btb_wf_make | by eexists _, _, _].
    - intros pc'. unfold read, make_compressed, base_table. simpl.
      destruct (base.lookup _ _) as [e|] eqn:E; [|done].
      apply lookup_replicate in E as [-> _]. done.
    - rewrite app_nil_r in *. eauto. }
  induction ops as [|o ops IH]; intros b past Hb Hr; simpl.
  - exists b. split; [done|]. by rewrite (lookup_read k w), Hr.
  - destruct (apply_op_refines k w b o pc Hb) as (b' & Ho & Hb' & _).
    rewrite Ho. cbn [mbind res_bind]. rewrite <- (assoc_L (++)). apply IH; [done|].
    intros pc'. destruct (apply_op_refines k w b o pc' Hb) as (b'' & Ho' & _ & Hrd).
    rewrite Ho in Ho'. injection Ho' as <-. rewrite Hrd.
    destruct o; simpl; by rewrite ?Hr.
Qed.

Lemma lookup_refines_witness :
  ∃ b, apply_ops (make_compressed 4 16 true)
         [OpUpdate 0x80000010 0x80000100; OpSetType 4 1; OpUpdate 0x80000050 0x80000200] = Ok b ∧
       lookup b 0x80000050 = Ok 0x80000200.
Proof.
  apply (lookup_refines 4 16 true
    [OpUpdate 0x80000010 0x80000100; OpSetType 4 1; OpUpdate 0x80000050 0x80000200] 0x80000050);
    lia.
Defined.

(** A hit is never false when index, tag and the two alignment bits cover
    the 32-bit address: two word-aligned addresses that agree on index and tag
    are equal.  With [create_btb]'s [min(32 - k - 2, 16)] tag bits this holds
    from 2^14 entries on; below, addresses 2^(18+k) apart share their entry and
    their tag. *)
Theorem no_false_hit k pc pc' :
  14 <= k < 30 → word_ok pc → word_ok pc' → pc mod 4 = 0 → pc' mod 4 = 0 →
  let w := Z.min (32 - k - 2) 16 in
  index (2 ^ k - 1) pc = index (2 ^ k - 1) pc' →
  tag_of (2 + k) (2 ^ w - 1) pc = tag_of (2 + k) (2 ^ w - 1) pc' → pc = pc'.
Proof.
  intros Hk Hp Hp' Ha Ha' w Hi Ht.
  rewrite !index_bits in Hi by lia. rewrite !tag_of_bits in Ht by lia.
  unfold idx_bits, tag_bits, word_ok in *.
  assert (w = 30 - k) as Hw by lia. rewrite Hw in Ht.
  assert (∀ a, 0 <= a < 2 ^ 32 → 0 <= a / 2 ^ (2 + k) < 2 ^ (30 - k)) as Hsm.
  { intros a Ha0. split; [apply Z.div_pos; lia|]. apply Z.div_lt_upper_bound; [lia|].
    rewrite <- Z.pow_add_r by lia. replace (2 + k + (30 - k)) with 32 by lia. lia. }
  rewrite !Z.mod_small in Ht by auto.
  rewrite Z.pow_add_r, <- !Z.div_div in Ht by lia.
  pose proof (Z.div_mod (pc / 2 ^ 2) (2 ^ k)). pose proof (Z.div_mod (pc' / 2 ^ 2) (2 ^ k)).
  pose proof (Z.div_mod pc 4). pose proof (Z.div_mod pc' 4). change (2 ^ 2) with 4 in *. nia.
Qed.

Lemma no_false_hit_witness :
  index (2 ^ 14 - 1) 0x80000010 = index (2 ^ 14 - 1) 0x80000010 ∧
  tag_of 16 (2 ^ 16 - 1) 0x80000010 = tag_of 16 (2 ^ 16 - 1) 0x80000010 ∧ 0x80000010 = 0x80000010.
Proof.
  split; [reflexivity|]. split; [reflexivity|].
  apply (no_false_hit 14 0x80000010 0x80000010); unfold word_ok; try lia; reflexivity.
Defined.

(** ** What the branch unit uses *)

Lemma wf_cases k w b : wf k w b → compressed k w b ∨ kind b = NoBTB ∧ num_entries b = 1.
Proof.
  intros Hw. destruct (kind b) as [tm im ts|] eqn:E.
  - left. split; [done|]. by exists tm, im, ts.
  - right. split; [done|]. unfold wf in Hw. by rewrite E in Hw.
Qed.

Lemma wf_entries k w b : wf k w b → ∃ m, 0 <= m < 30 ∧ num_entries b = 2 ^ m.
Proof.
  unfold wf. destruct (kind b).
  - intros (? & _ & _ & _ & _ & ?). by exists k.
  - intros ?. by exists 0.
Qed.

Lemma lookup_wf k w b pc : wf k w b → ∃ t, lookup b pc = Ok t.
Proof.
  intros [Hc | [Hk _]]%wf_cases; [eexists; by apply (lookup_read k w)|].
  exists 0. unfold lookup. by rewrite Hk.
Qed.

Lemma apply_op_wf k w b o : wf k w b → ∃ b', apply_op b o = Ok b' ∧ wf k w b'.
Proof.
  intros Hw. destruct (wf_cases k w b Hw) as [Hc | [Hk Hn]].
  - destruct (apply_op_refines k w b o 0 Hc) as (b' & ? & [? _] & _). by exists b'.
  - destruct o; simpl; unfold update, clear_entry; rewrite ?Hk; [by exists b | by exists b |].
    eexists. split; [done|]. unfold set_entry_type. case_bool; [|done].
    unfold wf, num_entries, zlen in *. simpl. rewrite Hk, length_alter. exact Hn.
Qed.

Lemma entry_type_update b pc tgt b' i : update b pc tgt = Ok b' →
  entry_type b' i = entry_type b i ∧ num_entries b' = num_entries b ∧
  has_rw_conflict b' = has_rw_conflict b.
Proof.
  unfold update. destruct (kind b) as [tm im ts|]; [|by intros [= <-]].
  intros H. res_inv H. res_inv H. injection H as <-.
  apply vec_set_Ok in Ha0 as [Hr ->]. apply vec_at_Ok in Ha as [_ Ha].
  unfold entry_type, num_entries. simpl. rewrite zlen_insert. split; [|done].
  case_bool; [|done].
  destruct (decide (Z.to_nat i = Z.to_nat (index im pc))) as [->|].
  - rewrite list_lookup_insert_eq, Ha by (by eapply lookup_lt_Some). done.
  - by rewrite list_lookup_insert_ne by done.
Qed.

Lemma entry_type_set b i t j : 0 <= i < num_entries b → 0 <= j →
  entry_type (set_entry_type b i t) j = (if j =? i then t else entry_type b j).
Proof.
  intros Hi Hj. unfold set_entry_type. destruct (Z.ltb_spec i (num_entries b)); [|lia].
  unfold entry_type, num_entries, zlen in *. simpl. rewrite length_alter.
  destruct (Z.eqb_spec j i) as [->|]; case_bool; try lia; try done; rewrite list_lookup_alter.
  - rewrite decide_True by done. destruct (lookup_lt_is_Some_2 (table_ b) (Z.to_nat i)) as [e ->]; [lia|].
    done.
  - rewrite decide_False by lia. done.
Qed.

Lemma set_type_conflict b i t : has_rw_conflict (set_entry_type b i t) = has_rw_conflict b.
Proof. unfold set_entry_type. by case_bool. Qed.

Lemma set_type_entries b i t : num_entries (set_entry_type b i t) = num_entries b.
Proof.
  unfold set_entry_type. case_bool; [|done]. unfold num_entries, zlen. simpl. by rewrite length_alter.
Qed.

(** The index [BranchUnit] computes from the table size is the BTB's own. *)
Lemma unit_index k w b pc : compressed k w b →
  Z.land (Z.shiftr pc 2) (num_entries b - 1) = idx_bits k pc.
Proof.
  intros (Hwf & tm & im & ts & Hk). unfold wf in Hwf. rewrite Hk in Hwf.
  destruct Hwf as (? & _ & _ & _ & _ & ->). apply index_bits. lia.
Qed.

End BTB.
