(* ===== verification/Tage.v ===== *)
(** * TAGE direction predictor

    [src/branchSim/Tage.hh], [src/branchSim/Tage.cc]: a base table of two-bit
    counters, up to eight tagged components indexed by folded global history,
    and a ring of prediction-time snapshots that [update] and [on_mispred] reach
    through the id carried in [ghr_snap]. *)

From S2P Require Import Prelude BranchPred Bimodal.

Module TAGE.

Definition MAX_COMP : Z := 8.
Definition TAG_BITS : Z := 8.
Definition CTR_MAX : Z := 3.
Definition CTR_MIN : Z := -4.
Definition U_MAX : Z := 3.
Definition U_RESET_PERIOD : Z := 2 ^ 18.
Definition SNAP_RING : Z := 512.

Record TageEntry : Type := MkEntry { ctr : Z; u : Z; tag : Z; e_valid : bool }.
#[global] Instance eta_TageEntry : Eta TageEntry := λ r,
  MkEntry r.(ctr) r.(u) r.(tag) r.(e_valid).
Definition entry_init : TageEntry := MkEntry 0 0 0 false.

Record TageSnap : Type := MkSnap {
  valid : bool;
  bimodal_taken : bool;
  tage_taken : bool;
  btb_hit_at_pred : bool;
  base_cnt : Z;
  provider : Z;
  alt_provider : Z;
  provider_idx : Z;
  alt_idx : Z;
  provider_ctr : Z;
  provider_u : Z;
  alt_ctr : Z;
  alt_taken : bool;
  snap_ghr : Z;
  fidx : list Z;
  ftag : list Z;
  comp_hit : list bool
}.
#[global] Instance eta_TageSnap : Eta TageSnap := λ r,
  MkSnap r.(valid) r.(bimodal_taken) r.(tage_taken) r.(btb_hit_at_pred) r.(base_cnt)
    r.(provider) r.(alt_provider) r.(provider_idx) r.(alt_idx) r.(provider_ctr)
    r.(provider_u) r.(alt_ctr) r.(alt_taken) r.(snap_ghr) r.(fidx) r.(ftag) r.(comp_hit).

(** The constructor's [memset(snap_ring_, 0, ...)]. *)
Definition snap_zero : TageSnap :=
  MkSnap false false false false 0 0 0 0 0 0 0 0 false 0
    (replicate 8 0) (replicate 8 0) (replicate 8 false).

Definition ring_zero : list TageSnap := replicate (Z.to_nat SNAP_RING) snap_zero.

Record TageStats : Type := MkStats {
  bimodal_correct : Z;
  bimodal_mispred : Z;
  tage_correct : Z;
  tage_mispred : Z;
  tage_overrides : Z;
  tage_override_helpful : Z;
  tage_override_harmful : Z;
  base_used : Z;
  base_correct : Z;
  base_mispred : Z;
  comp_used : list Z;
  comp_correct : list Z;
  comp_mispred : list Z;
  allocations : Z;
  alloc_failures : Z;
  alloc_tried : Z;
  update_snap_invalid : Z;
  snap_ring_overflow : Z
}.
#[global] Instance eta_TageStats : Eta TageStats := λ r,
  MkStats r.(bimodal_correct) r.(bimodal_mispred) r.(tage_correct) r.(tage_mispred)
    r.(tage_overrides) r.(tage_override_helpful) r.(tage_override_harmful)
    r.(base_used) r.(base_correct) r.(base_mispred) r.(comp_used) r.(comp_correct)
    r.(comp_mispred) r.(allocations) r.(alloc_failures) r.(alloc_tried)
    r.(update_snap_invalid) r.(snap_ring_overflow).
Definition tage_stats_zero : TageStats :=
  MkStats 0 0 0 0 0 0 0 0 0 0 (replicate 8 0) (replicate 8 0) (replicate 8 0) 0 0 0 0 0.

Record TagePredictor : Type := Mk {
  stats : BPStats;
  n_comp_ : Z;
  hist_len_ : list Z;
  hist_lens_param_ : list Z;
  comp_idx_bits_ : list Z;
  comp_mask_ : list Z;
  tag_mask_ : Z;
  base_table_ : list Z;
  base_mask_ : Z;
  base_idx_bits_ : Z;
  comp_tables_ : list (list TageEntry);
  ghr_ : Z;
  ghr_mask_ : Z;
  snap_ring_ : list TageSnap;
  snap_wr_idx_ : Z;
  u_reset_ctr_ : Z;
  tage_stats_ : TageStats
}.
#[global] Instance eta_Tage : Eta TagePredictor := λ r,
  Mk r.(stats) r.(n_comp_) r.(hist_len_) r.(hist_lens_param_) r.(comp_idx_bits_) r.(comp_mask_) r.(tag_mask_)
    r.(base_table_) r.(base_mask_) r.(base_idx_bits_) r.(comp_tables_) r.(ghr_) r.(ghr_mask_)
    r.(snap_ring_) r.(snap_wr_idx_) r.(u_reset_ctr_) r.(tage_stats_).

(** The constructor, its two [assert]s first.  Arrays of [MAX_COMP] elements
    are lists of the [n_comp_] elements the constructor initialises. *)
Definition make (base_pow2 comp_pow2 : Z) (hist_lens : list Z) : res TagePredictor :=
  let n_comp := Z.min (zlen hist_lens) MAX_COMP in
  _ ← assert_ (1 <=? n_comp);
  _ ← assert_ (1 <=? comp_pow2);
  let n := Z.to_nat n_comp in
  let hist_lens_param := take n hist_lens in
  let hist_len := (λ h, Z.max h 1) <$> hist_lens_param in
  max_hist ← vec_at hist_len (n_comp - 1);
  mret (Mk bp_stats_zero n_comp hist_len hist_lens_param (replicate n comp_pow2)
          (replicate n (2 ^ comp_pow2 - 1)) (2 ^ TAG_BITS - 1)
          (replicate (Z.to_nat (2 ^ base_pow2)) 1) (2 ^ base_pow2 - 1) base_pow2
          (replicate n (replicate (Z.to_nat (2 ^ comp_pow2)) entry_init))
          0 (if max_hist <? 64 then 2 ^ max_hist - 1 else 2 ^ 64 - 1)
          ring_zero 0 0 tage_stats_zero).

(** ** Hashing *)

(** [while (ghr) { result ^= ghr & out_mask; ghr >>= out_bits; }] *)
Fixpoint fold_loop (fuel : nat) (ghr out_bits out_mask result : Z) : res Z :=
  match fuel with
  | O => Err OutOfFuel
  | S fuel =>
    if ghr =? 0 then mret result
    else fold_loop fuel (Z.shiftr ghr out_bits) out_bits out_mask
           (Z.lxor result (u32 (Z.land ghr out_mask)))
  end.

(** The 64-bit register is exhausted after at most 64 shifts. *)
Definition fold_ghr (ghr hist_len out_bits : Z) : res Z :=
  let hist_len := if 64 <=? hist_len then 63 else hist_len in
  let mask := if hist_len <? 63 then 2 ^ hist_len - 1 else 2 ^ 64 - 1 in
  let ghr := Z.land ghr mask in
  let out_mask := if out_bits <? 32 then 2 ^ out_bits - 1 else 2 ^ 32 - 1 in
  result ← fold_loop 65 ghr out_bits out_mask 0;
  mret (Z.land result out_mask).

Definition comp_idx (p : TagePredictor) (pc ghr comp : Z) : res Z :=
  bits ← vec_at (comp_idx_bits_ p) comp;
  mask ← vec_at (comp_mask_ p) comp;
  len ← vec_at (hist_len_ p) comp;
  let pc_part := u32 (Z.land (Z.shiftr pc 2) mask) in
  ghr_part ← fold_ghr ghr len bits;
  mret (Z.land (Z.lxor pc_part ghr_part) (u32 mask)).

Definition comp_tag (p : TagePredictor) (pc ghr comp : Z) : res Z :=
  len ← vec_at (hist_len_ p) comp;
  h1 ← fold_ghr ghr len TAG_BITS;
  h2 ← fold_ghr (Z.shiftr ghr 1) (if 1 <? len then len - 1 else 1) (TAG_BITS - 1);
  let pc_low := Z.land (Z.shiftr pc 2) (tag_mask_ p) in
  mret (u16 (Z.land (Z.lxor (Z.lxor pc_low h1) (u32 (Z.shiftl h2 1))) (tag_mask_ p))).

Definition base_index (p : TagePredictor) (pc : Z) : Z :=
  let lo := Z.land (Z.shiftr pc 2) (base_mask_ p) in
  let hi := Z.land (Z.shiftr pc (2 + base_idx_bits_ p)) (base_mask_ p) in
  Z.lxor lo hi.

Definition update_ctr (c : Z) (taken : bool) : Z :=
  if taken then (if c <? CTR_MAX then c + 1 else c)
  else (if CTR_MIN <? c then c - 1 else c).

(** [comp_tables_[comp][idx]], read and written. *)
Definition entry_at (p : TagePredictor) (comp idx : Z) : res TageEntry :=
  t ← vec_at (comp_tables_ p) comp; vec_at t idx.
Definition entry_set (p : TagePredictor) (comp idx : Z) (e : TageEntry) : res TagePredictor :=
  t ← vec_at (comp_tables_ p) comp;
  t' ← vec_set t idx e;
  ts ← vec_set (comp_tables_ p) comp t';
  mret (p <| comp_tables_ := ts |>).

(** ** [predict] *)

(** Loop body: index, tag and hit of component [i] at prediction time. *)
Definition compute_comp (p : TagePredictor) (pc i : Z) (snap : TageSnap) : res TageSnap :=
  fi ← comp_idx p pc (ghr_ p) i;
  ft ← comp_tag p pc (ghr_ p) i;
  fidx' ← vec_set (fidx snap) i fi;
  ftag' ← vec_set (ftag snap) i ft;
  e ← entry_at p i fi;
  hit' ← vec_set (comp_hit snap) i (e_valid e && (tag e =? ft));
  mret (snap <| fidx := fidx' |> <| ftag := ftag' |> <| comp_hit := hit' |>).

(** Loop from the longest history down: the first hit is the provider, the
    second the alternate, and the loop breaks there. *)
Fixpoint find_providers (p : TagePredictor) (comps : list Z) (snap : TageSnap) : res TageSnap :=
  match comps with
  | [] => mret snap
  | i :: comps =>
    hit ← vec_at (comp_hit snap) i;
    if (hit : bool) then
      fi ← vec_at (fidx snap) i;
      if provider snap =? -1 then
        e ← entry_at p i fi;
        find_providers p comps
          (snap <| provider := i |> <| provider_idx := fi |>
                <| provider_ctr := ctr e |> <| provider_u := u e |>)
      else if alt_provider snap =? -1 then
        e ← entry_at p i fi;
        mret (snap <| alt_provider := i |> <| alt_idx := fi |>
                   <| alt_ctr := ctr e |> <| alt_taken := (0 <=? ctr e) |>)
      else find_providers p comps snap
    else find_providers p comps snap
  end.

(** Final direction: the provider unless it is freshly allocated and weak. *)
Definition final_direction (p : TagePredictor) (snap : TageSnap) : res bool :=
  if 0 <=? provider snap then
    pe ← entry_at p (provider snap) (provider_idx snap);
    let provider_weak := ((ctr pe =? 0) || (ctr pe =? -1)) && (u pe =? 0) in
    mret (if provider_weak && negb (alt_provider snap =? provider snap)
          then alt_taken snap else 0 <=? provider_ctr snap)
  else mret (bimodal_taken snap).

Definition predict (p : TagePredictor) (pc btb_target : Z) : res (BPUPredResult * TagePredictor) :=
  let p := p <| stats ::= count_access |> in
  let snap_id := snap_wr_idx_ p in
  let p := p <| snap_wr_idx_ := u32 (snap_id + 1) |> in
  snap ← vec_at (snap_ring_ p) (snap_id mod SNAP_RING);
  let snap := snap <| snap_ghr := ghr_ p |> <| btb_hit_at_pred := negb (btb_target =? 0) |> in
  let bi := base_index p pc in
  base ← vec_at (base_table_ p) bi;
  let snap := snap <| base_cnt := base |> <| bimodal_taken := (2 <=? base) |> in
  snap ← for_each (zrange (n_comp_ p)) (compute_comp p pc) snap;
  let snap := snap <| provider := -1 |> <| alt_provider := -1 |> in
  snap ← find_providers p (rev (zrange (n_comp_ p))) snap;
  let snap :=
    if alt_provider snap =? -1 then
      snap <| alt_taken := bimodal_taken snap |> <| alt_ctr := base_cnt snap |>
           <| alt_idx := u32 bi |>
    else snap in
  tage ← final_direction p snap;
  let snap := snap <| tage_taken := tage |> <| valid := true |> in
  ring ← vec_set (snap_ring_ p) (snap_id mod SNAP_RING) snap;
  let p := p <| snap_ring_ := ring |> in
  let btb_hit := negb (btb_target =? 0) in
  let tage_overrode := btb_hit && negb (Bool.eqb tage (bimodal_taken snap)) in
  let p :=
    if btb_hit
    then p <| ghr_ := Z.land (Z.lor (u64 (Z.shiftl (ghr_ p) 1)) (b2z tage)) (ghr_mask_ p) |>
    else p in
  mret (MkPred tage 0 snap_id tage_overrode, p).

(** ** [update] *)

(** [(snap_wr_idx_ - snap_id) >= SNAP_RING] in [uint32_t] arithmetic. *)
Definition snap_overwritten (p : TagePredictor) (snap_id : Z) : bool :=
  SNAP_RING <=? u32 (snap_wr_idx_ p - snap_id).

(** First candidate from [start] up that is free or not useful. *)
Fixpoint find_victim (p : TagePredictor) (snap : TageSnap) (comps : list Z) : res Z :=
  match comps with
  | [] => mret (-1)
  | i :: comps =>
    fi ← vec_at (fidx snap) i;
    e ← entry_at p i fi;
    if negb (e_valid e) || (u e =? 0) then mret i else find_victim p snap comps
  end.

Definition age_entry (snap : TageSnap) (i : Z) (p : TagePredictor) : res TagePredictor :=
  fi ← vec_at (fidx snap) i;
  e ← entry_at p i fi;
  if e_valid e && (0 <? u e) then entry_set p i fi (e <| u ::= Z.pred |>) else mret p.

(** Allocation on a wrong final prediction. *)
Definition allocate (p : TagePredictor) (snap : TageSnap) (taken : bool) : res TagePredictor :=
  let p := p <| tage_stats_ ::= (λ t, t <| alloc_tried ::= incr |>) |> in
  let start := provider snap + 1 in
  if start <? n_comp_ p then
    let comps := (λ i, start + i) <$> zrange (n_comp_ p - start) in
    alloc_comp ← find_victim p snap comps;
    if alloc_comp <? 0 then
      p ← for_each comps (age_entry snap) p;
      mret (p <| tage_stats_ ::= (λ t, t <| alloc_failures ::= incr |>) |>)
    else
      fi ← vec_at (fidx snap) alloc_comp;
      ft ← vec_at (ftag snap) alloc_comp;
      p ← entry_set p alloc_comp fi (MkEntry (if taken then 0 else -1) 0 ft true);
      mret (p <| tage_stats_ ::= (λ t, t <| allocations ::= incr |>) |>)
  else mret p.

(** The provider's direction counter, then its usefulness counter. *)
Definition update_provider (p : TagePredictor) (snap : TageSnap) (taken : bool) : res TagePredictor :=
  let prov := provider snap in
  if 0 <=? prov then
    e ← entry_at p prov (provider_idx snap);
    p ← entry_set p prov (provider_idx snap) (e <| ctr := update_ctr (ctr e) taken |>);
    let prov_taken := 0 <=? provider_ctr snap in
    if negb (Bool.eqb prov_taken (alt_taken snap)) then
      pe ← entry_at p prov (provider_idx snap);
      entry_set p prov (provider_idx snap)
        (pe <| u := if Bool.eqb prov_taken taken
                    then (if u pe <? U_MAX then u pe + 1 else u pe)
                    else (if 0 <? u pe then u pe - 1 else u pe) |>)
    else mret p
  else mret p.

(** Halve every usefulness counter once per [U_RESET_PERIOD] updates. *)
Definition periodic_reset (p : TagePredictor) : TagePredictor :=
  let p := p <| u_reset_ctr_ := u32 (u_reset_ctr_ p + 1) |> in
  if U_RESET_PERIOD <=? u_reset_ctr_ p then
    p <| u_reset_ctr_ := 0 |>
      <| comp_tables_ ::= map (map (λ e, if e_valid e then e <| u := Z.shiftr (u e) 1 |> else e)) |>
  else p.

Definition update (p : TagePredictor) (pc : Z) (taken btb_hit : bool) (old_cnt snap_id : Z)
    : res TagePredictor :=
  if snap_overwritten p snap_id then
    mret (p <| tage_stats_ ::= (λ t, t <| snap_ring_overflow ::= incr |>) |>)
  else
    snap ← vec_at (snap_ring_ p) (snap_id mod SNAP_RING);
    if negb (valid snap) then
      mret (p <| tage_stats_ ::= (λ t, t <| update_snap_invalid ::= incr |>) |>)
    else
      let bi := base_index p pc in
      cnt ← vec_at (base_table_ p) bi;
      base ← vec_set (base_table_ p) bi (Tournament.bump taken cnt);
      let p := p <| base_table_ := base |> in
      p ← update_provider p snap taken;
      p ← (if negb (Bool.eqb (tage_taken snap) taken) then allocate p snap taken else mret p);
      let p := periodic_reset p in
      ring ← vec_set (snap_ring_ p) (snap_id mod SNAP_RING) (snap <| valid := false |>);
      mret (p <| snap_ring_ := ring |>).

(** ** [on_mispred] *)

Definition on_mispred (p : TagePredictor) (actual_taken : bool) (old_cnt snap_id : Z)
    : res TagePredictor :=
  if snap_overwritten p snap_id then mret p
  else
    snap ← vec_at (snap_ring_ p) (snap_id mod SNAP_RING);
    mret (p <| ghr_ := Z.land (Z.lor (u64 (Z.shiftl (snap_ghr snap) 1)) (b2z actual_taken))
                              (ghr_mask_ p) |>).

(** ** [on_resolved] *)

Definition incr_at (l : list Z) (i : Z) : res (list Z) := n ← vec_at l i; vec_set l i (incr n).

Definition resolve_stats (snap : TageSnap) (actual overrode : bool) (t : TageStats) : res TageStats :=
  let tage_ok := Bool.eqb (tage_taken snap) actual in
  let t := if tage_ok then t <| tage_correct ::= incr |> else t <| tage_mispred ::= incr |> in
  let t := if Bool.eqb (bimodal_taken snap) actual
           then t <| bimodal_correct ::= incr |> else t <| bimodal_mispred ::= incr |> in
  let t :=
    if overrode then
      let t := t <| tage_overrides ::= incr |> in
      if tage_ok then t <| tage_override_helpful ::= incr |>
      else t <| tage_override_harmful ::= incr |>
    else t in
  if provider snap <? 0 then
    let t := t <| base_used ::= incr |> in
    mret (if tage_ok then t <| base_correct ::= incr |> else t <| base_mispred ::= incr |>)
  else
    used ← incr_at (comp_used t) (provider snap);
    let t := t <| comp_used := used |> in
    if tage_ok then
      c ← incr_at (comp_correct t) (provider snap); mret (t <| comp_correct := c |>)
    else
      c ← incr_at (comp_mispred t) (provider snap); mret (t <| comp_mispred := c |>).

Definition on_resolved (p : TagePredictor) (actual_taken : bool) (pred : BranchResult) : res TagePredictor :=
  let snap_id := ghr_snap pred in
  if snap_overwritten p snap_id then mret p
  else
    snap ← vec_at (snap_ring_ p) (snap_id mod SNAP_RING);
    if negb (valid snap) then mret p
    else
      t ← resolve_stats snap actual_taken (tage_overrode_bimodal pred) (tage_stats_ p);
      mret (p <| tage_stats_ := t |>).

#[export] Instance tage_predictor : DirPredictor TagePredictor := {|
  BranchPred.predict := predict;
  BranchPred.update := update;
  BranchPred.on_mispred := on_mispred;
  BranchPred.on_resolved := on_resolved;
  bp_stats := stats;
  (** [SimObject::reset_stats] reaches [stats] only; [tage_stats_] is kept. *)
  bp_reset_stats p := p <| stats := bp_stats_zero |>;
  is_NoBPU _ := false
|}.

(** ** GHR folding: termination and meaning *)

(** XOR of the [n] lowest [bits]-wide fields of [g]. *)
Fixpoint xor_fields (n : nat) (g bits : Z) : Z :=
  match n with O => 0 | S n => Z.lxor (g mod 2 ^ bits) (xor_fields n (g / 2 ^ bits) bits) end.

Lemma xor_fields_zero n bits : 0 <= bits → xor_fields n 0 bits = 0.
Proof.
  intros. induction n as [|n IH]; simpl; [done|]. by rewrite Zmod_0_l, Zdiv_0_l, IH.
Qed.


Lemma fold_loop_spec fuel g bits r :
  1 <= bits < 32 → 0 <= g < 2 ^ (Z.of_nat fuel) →
  fold_loop (S fuel) g bits (2 ^ bits - 1) r = Ok (Z.lxor r (xor_fields fuel g bits)).
Proof.
  intros Hb. revert g r. induction fuel as [|fuel IH]; intros g r Hg.
  - assert (g = 0) as -> by lia. simpl. by rewrite Z.lxor_0_r.
  - cbn [fold_loop]. destruct (Z.eqb_spec g 0) as [->|Hne].
    + by rewrite xor_fields_zero, Z.lxor_0_r by lia.
    + rewrite Z.shiftr_div_pow2, land_mask_mod by lia.
      pose proof (Z.mod_pos_bound g (2 ^ bits)) as Hm.
      assert (2 ^ bits <= 2 ^ 31) by (apply Z.pow_le_mono_r; lia).
      rewrite u32_small by lia.
      specialize (IH (g / 2 ^ bits) (Z.lxor r (g mod 2 ^ bits))).
      cbn [fold_loop] in IH |- *. rewrite IH.
      * cbn [xor_fields]. by rewrite Z.lxor_assoc.
      * split; [apply Z.div_pos; lia|]. apply Z.div_lt_upper_bound; [lia|].
        assert (2 ^ 1 <= 2 ^ bits) by (apply Z.pow_le_mono_r; lia).
        rewrite Nat2Z.inj_succ, Z.pow_succ_r in Hg by lia. nia.
Qed.




Lemma fold_ghr_Ok g len bits :
  0 <= g < 2 ^ 64 → 1 <= len → 1 <= bits < 32 →
  ∃ r, fold_ghr g len bits = Ok r ∧ 0 <= r < 2 ^ bits.
Proof.
  intros Hg Hl Hb. unfold fold_ghr. cbv zeta. destruct (Z.ltb_spec bits 32); [|lia].
  set (len' := if 64 <=? len then 63 else len).
  set (m := if len' <? 63 then 2 ^ len' - 1 else 2 ^ 64 - 1).
  assert (0 <= Z.land g m < 2 ^ 64).
  { split; [apply Z.land_nonneg; lia|]. rewrite <- (Z.mod_small g (2 ^ 64)) by done.
    rewrite <- land_mask_mod, <- Z.land_assoc, (Z.land_comm (2 ^ 64 - 1)), Z.land_assoc by lia.
    apply land_mask_range. lia. }
  rewrite (fold_loop_spec 64) by done. cbn [mbind res_bind].
  eexists. split; [done|]. apply land_mask_range. lia.
Qed.

(** ** Invariant *)

Definition entry_ok (e : TageEntry) : Prop := CTR_MIN <= ctr e <= CTR_MAX ∧ 0 <= u e <= U_MAX.

Record snap_wf (n c : Z) (s : TageSnap) : Prop := {
  sw_fidx : zlen (fidx s) = 8 ∧ Forall (λ i, 0 <= i < 2 ^ c) (fidx s);
  sw_ftag : zlen (ftag s) = 8;
  sw_hit : zlen (comp_hit s) = 8;
  sw_prov : -1 <= provider s < n;
  sw_pidx : 0 <= provider_idx s < 2 ^ c;
  sw_ghr : 0 <= snap_ghr s < 2 ^ 64
}.

Definition comp_ok (c : Z) (t : list TageEntry) : Prop := zlen t = 2 ^ c ∧ Forall entry_ok t.

Record tstats_wf (t : TageStats) : Prop := {
  tw_used : zlen (comp_used t) = 8;
  tw_correct : zlen (comp_correct t) = 8;
  tw_mispred : zlen (comp_mispred t) = 8
}.

(** [b] and [c]: log2 of the base table and of a component table. *)
Record wf (b c : Z) (p : TagePredictor) : Prop := {
  w_b : 0 <= b < 30;
  w_c : 1 <= c < 32;
  w_n : 1 <= n_comp_ p <= MAX_COMP;
  w_hist : zlen (hist_len_ p) = n_comp_ p ∧ Forall (λ h, 1 <= h) (hist_len_ p);
  w_bits : comp_idx_bits_ p = replicate (Z.to_nat (n_comp_ p)) c;
  w_mask : comp_mask_ p = replicate (Z.to_nat (n_comp_ p)) (2 ^ c - 1);
  w_base : table_ok b (base_table_ p);
  w_bmask : base_mask_ p = 2 ^ b - 1;
  w_comps : zlen (comp_tables_ p) = n_comp_ p ∧ Forall (comp_ok c) (comp_tables_ p);
  w_ghr : 0 <= ghr_ p < 2 ^ 64;
  w_gmask : 0 <= ghr_mask_ p < 2 ^ 64;
  w_ring : zlen (snap_ring_ p) = SNAP_RING ∧ Forall (snap_wf (n_comp_ p) c) (snap_ring_ p);
  w_idx : word_ok (snap_wr_idx_ p);
  w_stats : tstats_wf (tage_stats_ p)
}.

Lemma snap_zero_wf n c : 1 <= n → 0 <= c → snap_wf n c snap_zero.
Proof.
  intros. constructor; simpl; try done; try lia.
  split; [done|]. repeat constructor; lia.
Qed.

Lemma land_range64 x m : 0 <= x → 0 <= m < 2 ^ 64 → 0 <= Z.land x m < 2 ^ 64.
Proof.
  intros Hx Hm. split; [apply Z.land_nonneg; lia|].
  rewrite <- (Z.mod_small m (2 ^ 64)) by done.
  rewrite <- land_mask_mod, Z.land_assoc by lia. apply land_mask_range. lia.
Qed.

Lemma ghr_next_range x d m : 0 <= m < 2 ^ 64 → 0 <= Z.land (Z.lor (u64 x) (b2z d)) m < 2 ^ 64.
Proof.
  intros. apply land_range64; [|done]. apply Z.lor_nonneg.
  pose proof (u64_range x). destruct d; simpl; lia.
Qed.

Lemma tage_make_wf b c hs p : 0 <= b < 30 → c < 32 → make b c hs = Ok p → wf b c p.
Proof.
  intros Hb Hc H. unfold make in H. repeat res_inv H. subst p.
  apply assert_Ok_inv in Ha, Ha0. rename Ha1 into Hat.
  set (n := Z.min (zlen hs) MAX_COMP) in *. unfold MAX_COMP in *.
  assert (zlen ((λ h, Z.max h 1) <$> take (Z.to_nat n) hs) = n) as Hh.
  { unfold zlen in *. rewrite length_fmap, length_take. lia. }
  constructor; simpl; try done; unfold MAX_COMP; try lia.
  - split; [done|]. apply Forall_fmap, Forall_forall. intros x _. simpl. lia.
  - apply table_init; [lia | unfold cnt_ok; lia].
  - split; [apply zlen_replicate; lia|]. apply Forall_replicate.
    split; [apply zlen_replicate; lia|]. apply Forall_replicate.
    unfold entry_ok, CTR_MIN, CTR_MAX, U_MAX. simpl. lia.
  - case_bool; [|lia]. apply vec_at_Ok in Hat as [_ Hat].
    rewrite list_lookup_fmap in Hat. destruct (_ !! _) as [h|]; [|done].
    injection Hat as <-. assert (2 ^ Z.max h 1 <= 2 ^ 64) by (apply Z.pow_le_mono_r; lia).
    lia.
  - split; [done|]. unfold ring_zero. by apply Forall_replicate, snap_zero_wf; lia.
Qed.

Section safety.
Context (b c : Z).
Implicit Types p : TagePredictor.

Lemma hist_at p i : wf b c p → 0 <= i < n_comp_ p → ∃ h, vec_at (hist_len_ p) i = Ok h ∧ 1 <= h.
Proof.
  intros Hp Hi. destruct (w_hist b c p Hp) as [Hl Hf].
  destruct (vec_at_lt (hist_len_ p) i) as [h Hh]; [lia|].
  exists h. split; [done|]. by apply (Forall_vec_at _ _ _ _ Hf Hh).
Qed.

Lemma vec_at_replicate {A} (n i : Z) (x : A) : 0 <= i < n → vec_at (replicate (Z.to_nat n) x) i = Ok x.
Proof. intros. apply vec_at_Ok. split; [lia|]. apply lookup_replicate_2. lia. Qed.

Lemma comp_idx_Ok p pc g i : wf b c p → 0 <= g < 2 ^ 64 → 0 <= i < n_comp_ p →
  ∃ r, comp_idx p pc g i = Ok r ∧ 0 <= r < 2 ^ c.
Proof.
  intros Hp Hg Hi. destruct (hist_at p i Hp Hi) as (h & Hh & ?).
  pose proof (w_c b c p Hp). unfold comp_idx.
  rewrite (w_bits b c p Hp), (w_mask b c p Hp), !vec_at_replicate by done.
  cbn [mbind res_bind]. rewrite Hh. cbn [mbind res_bind].
  destruct (fold_ghr_Ok g h c) as (r & -> & ?); [done | done | done |]. cbn [mbind res_bind].
  eexists. split; [done|].
  assert (2 ^ 1 <= 2 ^ c) by (apply Z.pow_le_mono_r; lia).
  assert (2 ^ c <= 2 ^ 31) by (apply Z.pow_le_mono_r; lia).
  rewrite (u32_small (2 ^ c - 1)) by lia. apply land_mask_range. lia.
Qed.

Lemma comp_tag_Ok p pc g i : wf b c p → 0 <= g < 2 ^ 64 → 0 <= i < n_comp_ p →
  ∃ r, comp_tag p pc g i = Ok r.
Proof.
  intros Hp Hg Hi. destruct (hist_at p i Hp Hi) as (h & Hh & ?).
  unfold comp_tag, TAG_BITS. rewrite Hh. cbn [mbind res_bind].
  destruct (fold_ghr_Ok g h 8) as (r & -> & _); [done | done | lia |]. cbn [mbind res_bind].
  destruct (fold_ghr_Ok (Z.shiftr g 1) (if 1 <? h then h - 1 else 1) (8 - 1)) as (r2 & -> & _).
  - rewrite Z.shiftr_div_pow2 by lia. change (2 ^ 1) with 2.
    split; [apply Z.div_pos; lia | apply Z.div_lt_upper_bound; lia].
  - case_bool; lia.
  - lia.
  - cbn [mbind res_bind]. eauto.
Qed.

Lemma entry_at_Ok p i j : wf b c p → 0 <= i < n_comp_ p → 0 <= j < 2 ^ c →
  ∃ e, entry_at p i j = Ok e ∧ entry_ok e.
Proof.
  intros Hp Hi Hj. destruct (w_comps b c p Hp) as [Hl Hf].
  destruct (vec_at_lt (comp_tables_ p) i) as [t Ht]; [lia|].
  destruct (Forall_vec_at _ _ _ _ Hf Ht) as [Htl Htf].
  destruct (vec_at_lt t j) as [e He]; [lia|].
  exists e. unfold entry_at. rewrite Ht. cbn [mbind res_bind]. split; [done|].
  by apply (Forall_vec_at _ _ _ _ Htf He).
Qed.

Lemma entry_set_Ok p i j e : wf b c p → 0 <= i < n_comp_ p → 0 <= j < 2 ^ c → entry_ok e →
  ∃ ts, entry_set p i j e = Ok (p <| comp_tables_ := ts |>) ∧ wf b c (p <| comp_tables_ := ts |>).
Proof.
  intros Hp Hi Hj He. destruct (w_comps b c p Hp) as [Hl Hf].
  destruct (vec_at_lt (comp_tables_ p) i) as [t Ht]; [lia|].
  destruct (Forall_vec_at _ _ _ _ Hf Ht) as [Htl Htf].
  unfold entry_set. rewrite Ht. cbn [mbind res_bind].
  rewrite vec_set_lt by lia. cbn [mbind res_bind]. rewrite vec_set_lt by lia. cbn [mbind res_bind].
  eexists. split; [done|]. destruct Hp. constructor; simpl; try done.
  rewrite zlen_insert. split; [done|]. apply Forall_insert; [done|].
  split; [by rewrite zlen_insert | by apply Forall_insert].
Qed.

(** What the loops of [predict] keep true of the snapshot they fill. *)
Definition filling (n g : Z) (bt : bool) (s : TageSnap) : Prop :=
  snap_wf n c s ∧ snap_ghr s = g ∧ bimodal_taken s = bt.

Lemma compute_comp_Ok p pc i g bt s :
  wf b c p → 0 <= i < n_comp_ p → filling (n_comp_ p) g bt s →
  ∃ s', compute_comp p pc i s = Ok s' ∧ filling (n_comp_ p) g bt s'.
Proof.
  intros Hp Hi [[[Hl1 Hf] Hl2 Hl3 ? ? ?] ?]. unfold compute_comp.
  pose proof (w_n b c p Hp) as Hn. unfold MAX_COMP in Hn.
  destruct (comp_idx_Ok p pc (ghr_ p) i Hp (w_ghr b c p Hp) Hi) as (fi & -> & Hfi).
  cbn [mbind res_bind].
  destruct (comp_tag_Ok p pc (ghr_ p) i Hp (w_ghr b c p Hp) Hi) as (ft & ->).
  cbn [mbind res_bind]. rewrite !vec_set_lt by lia. cbn [mbind res_bind].
  destruct (entry_at_Ok p i fi Hp Hi Hfi) as (e & -> & _). cbn [mbind res_bind].
  rewrite vec_set_lt by lia. cbn [mbind res_bind].
  eexists. split; [done|]. split; [|done].
  constructor; simpl; rewrite ?zlen_insert; try done. split; [done | by apply Forall_insert].
Qed.

Lemma find_providers_Ok p comps g bt s :
  wf b c p → Forall (λ i, 0 <= i < n_comp_ p) comps → filling (n_comp_ p) g bt s →
  ∃ s', find_providers p comps s = Ok s' ∧ filling (n_comp_ p) g bt s'.
Proof.
  intros Hp Hc. revert s. induction Hc as [|i comps Hi _ IH]; intros s Hs; cbn [find_providers].
  { by exists s. }
  pose proof (w_n b c p Hp) as Hn. unfold MAX_COMP in Hn.
  pose proof Hs as [[[Hl1 Hf] Hl2 Hl3 ? ? ?] [? ?]].
  destruct (vec_at_lt (comp_hit s) i) as [hit ->]; [lia|]. cbn [mbind res_bind].
  destruct hit; [|by apply IH].
  destruct (vec_at_lt (fidx s) i) as [fi Hfi]; [lia|]. rewrite Hfi. cbn [mbind res_bind].
  pose proof (Forall_vec_at _ _ _ _ Hf Hfi) as Hr. simpl in Hr.
  destruct (entry_at_Ok p i fi Hp Hi Hr) as (e & He & _).
  repeat case_bool; rewrite ?He; cbn [mbind res_bind].
  - apply IH. split; [|done]. constructor; simpl; try done. lia.
  - eexists. split; [done|]. split; [|done]. constructor; simpl; done.
  - by apply IH.
Qed.

Lemma final_direction_Ok p g bt s :
  wf b c p → filling (n_comp_ p) g bt s → ∃ d, final_direction p s = Ok d.
Proof.
  intros Hp [[_ _ _ ? ? _] _]. unfold final_direction. case_bool; [|eauto].
  destruct (entry_at_Ok p (provider s) (provider_idx s)) as (e & -> & _); [done | lia | done |].
  cbn [mbind res_bind]. eauto.
Qed.

Lemma base_index_range p pc : wf b c p → 0 <= base_index p pc < 2 ^ b.
Proof.
  intros Hp. pose proof (w_b b c p Hp). unfold base_index. rewrite (w_bmask b c p Hp).
  apply lxor_range; [lia | |]; apply land_mask_range; lia.
Qed.

Definition slot (id : Z) : nat := Z.to_nat (id mod SNAP_RING).

Lemma slot_range id : 0 <= id mod SNAP_RING < SNAP_RING.
Proof. apply Z.mod_pos_bound. done. Qed.

(** [predict] leaves: the snapshot in its slot, the ring index advanced, the
    history shifted only on a BTB hit. *)
Lemma tage_predict_Ok p pc tgt : wf b c p → ∃ r s p',
  predict p pc tgt = Ok (r, p') ∧ wf b c p' ∧
  pr_ghr_snap r = snap_wr_idx_ p ∧ pr_bht_cnt r = 0 ∧
  snap_wr_idx_ p' = u32 (snap_wr_idx_ p + 1) ∧
  snap_ring_ p' = <[slot (snap_wr_idx_ p) := s]> (snap_ring_ p) ∧
  valid s = true ∧ tage_taken s = pr_taken r ∧ snap_ghr s = ghr_ p ∧
  pr_tage_overrode r = negb (tgt =? 0) && negb (Bool.eqb (tage_taken s) (bimodal_taken s)) ∧
  ghr_ p' = (if tgt =? 0 then ghr_ p
             else Z.land (Z.lor (u64 (Z.shiftl (ghr_ p) 1)) (b2z (pr_taken r))) (ghr_mask_ p)) ∧
  ghr_mask_ p' = ghr_mask_ p ∧ n_comp_ p' = n_comp_ p ∧ tage_stats_ p' = tage_stats_ p.
Proof.
  intros Hp0. unfold predict.
  set (p1 := p <| stats ::= count_access |> <| snap_wr_idx_ := u32 (snap_wr_idx_ p + 1) |>).
  assert (wf b c p1) as Hp.
  { destruct Hp0. constructor; simpl; try done. apply u32_range. }
  destruct (w_ring b c p Hp0) as [Hrl Hrf].
  destruct (vec_at_lt (snap_ring_ p) (snap_wr_idx_ p mod SNAP_RING)) as [s0 Hs0].
  { rewrite Hrl. apply slot_range. }
  pose proof (Forall_vec_at _ _ _ _ Hrf Hs0) as Hw0. simpl in Hw0.
  destruct (table_read b (base_table_ p) (base_index p pc) (w_base b c p Hp0)) as (bc & Hbc & _).
  { by apply base_index_range. }
  cbv zeta. change (snap_wr_idx_ (p <| stats ::= count_access |>)) with (snap_wr_idx_ p).
  fold p1. change (snap_ring_ p1) with (snap_ring_ p). rewrite Hs0. cbn [mbind res_bind].
  change (base_table_ p1) with (base_table_ p). change (base_index p1) with (base_index p).
  rewrite Hbc. cbn [mbind res_bind].
  change (n_comp_ p1) with (n_comp_ p). change (ghr_ p1) with (ghr_ p).
  match goal with |- context [for_each _ _ ?s] => set (s1 := s) end.
  assert (filling (n_comp_ p) (ghr_ p) (2 <=? bc) s1) as Hs1.
  { split; [|done]. destruct Hw0. constructor; simpl; try done. apply (w_ghr b c p Hp0). }
  destruct (for_each_inv (filling (n_comp_ p) (ghr_ p) (2 <=? bc)) (zrange (n_comp_ p))
              (compute_comp p1 pc) s1 Hs1) as (s2 & -> & Hs2).
  { intros i s Hi%elem_of_zrange Hs. by apply (compute_comp_Ok p1). }
  cbn [mbind res_bind].
  match goal with |- context [find_providers _ _ ?s] => set (s3 := s) end.
  assert (filling (n_comp_ p) (ghr_ p) (2 <=? bc) s3) as Hs3.
  { destruct Hs2 as [[] ?]. split; [|done]. pose proof (w_n b c p Hp0).
    constructor; simpl; try done; lia. }
  destruct (find_providers_Ok p1 (rev (zrange (n_comp_ p))) (ghr_ p) (2 <=? bc) s3 Hp)
    as (s4 & -> & Hs4); [|done|].
  { apply Forall_forall. intros i Hi.
    by apply elem_of_zrange, list_elem_of_In, in_rev. }
  cbn [mbind res_bind].
  match goal with |- context [final_direction _ ?s] => set (s5 := s) end.
  assert (filling (n_comp_ p) (ghr_ p) (2 <=? bc) s5) as Hs5.
  { unfold s5. case_bool; [|done]. destruct Hs4 as [[] ?]. split; [|done]. by constructor. }
  destruct (final_direction_Ok p1 (ghr_ p) (2 <=? bc) s5 Hp Hs5) as (d & ->).
  cbn [mbind res_bind].
  rewrite vec_set_lt by (rewrite Hrl; apply slot_range). cbn [mbind res_bind].
  fold (slot (snap_wr_idx_ p)).
  set (s6 := s5 <| tage_taken := d |> <| valid := true |>).
  assert (snap_wf (n_comp_ p) c s6) as Hs6.
  { destruct Hs5 as [[] _]. by constructor. }
  exists (MkPred d 0 (snap_wr_idx_ p) (negb (tgt =? 0) && negb (Bool.eqb d (bimodal_taken s6)))), s6.
  eexists. split; [done|]. pose proof Hs5 as (_ & Hg & _).
  split; [|destruct (tgt =? 0); done].
  assert (wf b c (p1 <| snap_ring_ := <[slot (snap_wr_idx_ p) := s6]> (snap_ring_ p) |>)) as Hp2.
  { destruct Hp. constructor; simpl; try done. rewrite zlen_insert.
    split; [done|]. by apply Forall_insert. }
  destruct (tgt =? 0); [done|]. destruct Hp2. constructor; simpl; try done.
  by apply ghr_next_range.
Qed.

(** The accuracy counters, which only [on_resolved] changes. *)
Definition acc (t : TageStats) :=
  (bimodal_correct t, bimodal_mispred t, tage_correct t, tage_mispred t, tage_overrides t,
   tage_override_helpful t, tage_override_harmful t, base_used t, base_correct t,
   base_mispred t, comp_used t, comp_correct t, comp_mispred t).

(** What the table updates of [update] leave alone. *)
Definition frame p p' : Prop :=
  snap_ring_ p' = snap_ring_ p ∧ snap_wr_idx_ p' = snap_wr_idx_ p ∧ ghr_ p' = ghr_ p ∧
  ghr_mask_ p' = ghr_mask_ p ∧ n_comp_ p' = n_comp_ p ∧
  acc (tage_stats_ p') = acc (tage_stats_ p).

Lemma frame_trans p1 p2 p3 : frame p1 p2 → frame p2 p3 → frame p1 p3.
Proof. unfold frame. intros (-> & -> & -> & -> & -> & ->) (-> & -> & -> & -> & -> & ->). done. Qed.

Lemma wf_tstats p (f : TageStats → TageStats) : wf b c p →
  tstats_wf (f (tage_stats_ p)) → wf b c (p <| tage_stats_ ::= f |>).
Proof. intros [] ?. by constructor. Qed.

Lemma update_ctr_ok x t : CTR_MIN <= x <= CTR_MAX → CTR_MIN <= update_ctr x t <= CTR_MAX.
Proof. unfold update_ctr, CTR_MIN, CTR_MAX. destruct t; case_bool; lia. Qed.

Lemma update_provider_Ok p s taken : wf b c p → snap_wf (n_comp_ p) c s →
  ∃ p', update_provider p s taken = Ok p' ∧ wf b c p' ∧ frame p p'.
Proof.
  intros Hp Hs. destruct (sw_prov _ _ _ Hs) as [_ Hlt]. pose proof (sw_pidx _ _ _ Hs) as Hi.
  unfold update_provider. cbv zeta. destruct (Z.leb_spec 0 (provider s)) as [Hpv|]; [|by exists p].
  destruct (entry_at_Ok p (provider s) (provider_idx s)) as (e & -> & [He1 He2]); [done | lia | done |].
  cbn [mbind res_bind].
  destruct (entry_set_Ok p (provider s) (provider_idx s) (e <| ctr := update_ctr (ctr e) taken |>))
    as (ts & -> & Hp1); [done | lia | done | by split; [apply update_ctr_ok|] |].
  cbn [mbind res_bind]. set (p1 := p <| comp_tables_ := ts |>) in *.
  case_bool; [|by exists p1].
  destruct (entry_at_Ok p1 (provider s) (provider_idx s)) as (e2 & -> & [He3 He4]); [done | done | done |].
  cbn [mbind res_bind].
  match goal with |- context [entry_set p1 _ _ ?x] => set (e3 := x) end.
  destruct (entry_set_Ok p1 (provider s) (provider_idx s) e3) as (ts' & -> & Hp2); [done | done | done | |].
  { split; [done|]. unfold U_MAX in *. simpl. repeat case_bool; lia. }
  eexists. split; [done|]. done.
Qed.

Lemma find_victim_Ok p s comps : wf b c p → snap_wf (n_comp_ p) c s →
  Forall (λ i, 0 <= i < n_comp_ p) comps →
  ∃ v, find_victim p s comps = Ok v ∧ (v = -1 ∨ 0 <= v < n_comp_ p).
Proof.
  intros Hp Hs. pose proof (w_n b c p Hp) as Hn. unfold MAX_COMP in Hn.
  destruct (sw_fidx _ _ _ Hs) as [Hl Hf].
  induction 1 as [|i comps Hi _ IH]; cbn [find_victim]; [eauto|].
  destruct (vec_at_lt (fidx s) i) as [fi Hfi]; [lia|]. rewrite Hfi. cbn [mbind res_bind].
  pose proof (Forall_vec_at _ _ _ _ Hf Hfi) as Hr. simpl in Hr.
  destruct (entry_at_Ok p i fi Hp Hi Hr) as (e & -> & _). cbn [mbind res_bind].
  case_bool; [|done]. exists i. split; [done | by right].
Qed.

Lemma age_entry_Ok p s i : wf b c p → snap_wf (n_comp_ p) c s → 0 <= i < n_comp_ p →
  ∃ p', age_entry s i p = Ok p' ∧ wf b c p' ∧ frame p p'.
Proof.
  intros Hp Hs Hi. pose proof (w_n b c p Hp) as Hn. unfold MAX_COMP in Hn.
  destruct (sw_fidx _ _ _ Hs) as [Hl Hf]. unfold age_entry.
  destruct (vec_at_lt (fidx s) i) as [fi Hfi]; [lia|]. rewrite Hfi. cbn [mbind res_bind].
  pose proof (Forall_vec_at _ _ _ _ Hf Hfi) as Hr. simpl in Hr.
  destruct (entry_at_Ok p i fi Hp Hi Hr) as (e & -> & [He1 He2]). cbn [mbind res_bind].
  destruct (e_valid e && (0 <? u e)) eqn:Hv; [|by exists p].
  apply andb_true_iff in Hv as [_ Hv].
  destruct (entry_set_Ok p i fi (e <| u ::= Z.pred |>)) as (ts & -> & Hp1); [done | done | done | |].
  { split; [done|]. simpl. lia. }
  eexists. split; [done|]. done.
Qed.

Lemma allocate_Ok p0 s taken : wf b c p0 → snap_wf (n_comp_ p0) c s →
  ∃ p', allocate p0 s taken = Ok p' ∧ wf b c p' ∧ frame p0 p'.
Proof.
  intros Hp0 Hs. unfold allocate. cbv zeta.
  set (p := p0 <| tage_stats_ ::= (λ t, t <| alloc_tried ::= incr |>) |>).
  assert (wf b c p) as Hp by (apply wf_tstats; [done|]; destruct (w_stats b c p0 Hp0); by constructor).
  change (n_comp_ p0) with (n_comp_ p) in Hs |- *.
  destruct (sw_prov _ _ _ Hs) as [Hge Hlt]. destruct (sw_fidx _ _ _ Hs) as [Hl Hf].
  pose proof (w_n b c p Hp) as Hn. unfold MAX_COMP in Hn.
  destruct (Z.ltb_spec (provider s + 1) (n_comp_ p)) as [Hst|]; [|by exists p].
  set (comps := _ <$> zrange _).
  assert (Forall (λ i, 0 <= i < n_comp_ p) comps) as Hcs.
  { apply Forall_fmap, Forall_forall. intros i Hi.
    apply list_elem_of_In, elem_of_zrange in Hi. unfold compose. lia. }
  destruct (find_victim_Ok p s comps Hp Hs Hcs) as (v & -> & Hv). cbn [mbind res_bind].
  destruct (Z.ltb_spec v 0).
  - destruct (for_each_inv (λ q, wf b c q ∧ frame p q) comps (age_entry s) p) as (q & -> & Hq & Hfr).
    + done.
    + intros i q Hi [Hq Hfr]. pose proof Hfr as (_ & _ & _ & _ & Hnq & _).
      destruct (age_entry_Ok q s i) as (q' & Hq1 & Hq2 & Hq3); [done | by rewrite Hnq | |].
      * rewrite Hnq. rewrite Forall_forall in Hcs. by apply Hcs, list_elem_of_In.
      * exists q'. split; [done|]. split; [done|]. by eapply frame_trans.
    + cbn [mbind res_bind]. eexists. split; [done|]. split; [|exact Hfr].
      apply wf_tstats; [done|]. destruct (w_stats b c q Hq). by constructor.
  - destruct (vec_at_lt (fidx s) v) as [fi Hfi]; [lia|]. rewrite Hfi. cbn [mbind res_bind].
    pose proof (Forall_vec_at _ _ _ _ Hf Hfi) as Hr. simpl in Hr.
    destruct (vec_at_lt (ftag s) v) as [ft ->]; [rewrite (sw_ftag _ _ _ Hs); lia|].
    cbn [mbind res_bind].
    destruct (entry_set_Ok p v fi (MkEntry (if taken then 0 else -1) 0 ft true))
      as (ts & -> & Hp1); [done | lia | done | |].
    { unfold entry_ok, CTR_MIN, CTR_MAX, U_MAX. destruct taken; simpl; lia. }
    cbn [mbind res_bind]. eexists. split; [done|]. split; [|done].
    apply wf_tstats; [done|]. destruct (w_stats b c _ Hp1). by constructor.
Qed.

Lemma periodic_reset_Ok p : wf b c p → wf b c (periodic_reset p) ∧ frame p (periodic_reset p).
Proof.
  intros Hp. unfold periodic_reset. cbv zeta. case_bool; [|by destruct Hp; split].
  split; [|done]. destruct Hp. constructor; simpl; try done.
  destruct w_comps0 as [Hl Hf]. unfold zlen in *. rewrite length_map. split; [done|].
  apply Forall_map. eapply Forall_impl; [|exact Hf]. intros t [Ht1 Ht2]. split.
  - unfold zlen in *. by rewrite length_map.
  - apply Forall_map. eapply Forall_impl; [|exact Ht2]. intros e [He1 He2].
    destruct (e_valid e); [|done]. split; [done|]. simpl. unfold U_MAX in *.
    rewrite Z.shiftr_div_pow2 by lia. change (2 ^ 1) with 2.
    split; [apply Z.div_pos; lia | apply Z.div_le_upper_bound; lia].
Qed.

Lemma ring_at p id : wf b c p →
  ∃ s, vec_at (snap_ring_ p) (id mod SNAP_RING) = Ok s ∧ snap_ring_ p !! slot id = Some s ∧
       snap_wf (n_comp_ p) c s.
Proof.
  intros Hp. destruct (w_ring b c p Hp) as [Hl Hf].
  destruct (vec_at_lt (snap_ring_ p) (id mod SNAP_RING)) as [s Hs].
  { rewrite Hl. apply slot_range. }
  exists s. split; [done|]. split; [by apply vec_at_Ok in Hs as [_ ?]|].
  by apply (Forall_vec_at _ _ _ _ Hf Hs).
Qed.

Lemma wf_ring p i s : wf b c p → snap_wf (n_comp_ p) c s →
  wf b c (p <| snap_ring_ := <[i := s]> (snap_ring_ p) |>).
Proof.
  intros [] ?. constructor; simpl; try done. rewrite zlen_insert.
  split; [apply w_ring0 | apply Forall_insert; [apply w_ring0 | done]].
Qed.

(** [update] never fails; of the ring it touches at most the [valid] bit of
    the slot it consumes, and it leaves history and ring index alone. *)
Lemma tage_update_Ok p pc taken hit cnt id : wf b c p → ∃ p',
  update p pc taken hit cnt id = Ok p' ∧ wf b c p' ∧
  snap_wr_idx_ p' = snap_wr_idx_ p ∧ ghr_ p' = ghr_ p ∧ ghr_mask_ p' = ghr_mask_ p ∧
  n_comp_ p' = n_comp_ p ∧ acc (tage_stats_ p') = acc (tage_stats_ p) ∧
  (snap_ring_ p' = snap_ring_ p ∨
   ∃ s, snap_ring_ p !! slot id = Some s ∧
        snap_ring_ p' = <[slot id := s <| valid := false |>]> (snap_ring_ p)).
Proof.
  intros Hp. unfold update. destruct (snap_overwritten p id).
  { eexists. split; [done|]. split; [|splits; try done; by left].
    apply wf_tstats; [done|]. destruct (w_stats b c p Hp). by constructor. }
  destruct (ring_at p id Hp) as (s & -> & Hs & Hsw). cbn [mbind res_bind].
  destruct (negb (valid s)).
  { eexists. split; [done|]. split; [|splits; try done; by left].
    apply wf_tstats; [done|]. destruct (w_stats b c p Hp). by constructor. }
  pose proof (base_index_range p pc Hp) as Hbi.
  destruct (table_read b (base_table_ p) _ (w_base b c p Hp) Hbi) as (bc & Hbc & Hbok).
  cbv zeta. rewrite Hbc. cbn [mbind res_bind].
  destruct (table_write b (base_table_ p) _ _ (w_base b c p Hp) Hbi
    (Tournament.bump_ok taken bc Hbok)) as [-> Hbt]. cbn [mbind res_bind].
  set (p1 := p <| base_table_ := _ |>).
  assert (wf b c p1) as Hp1 by (destruct Hp; by constructor).
  destruct (update_provider_Ok p1 s taken Hp1 Hsw) as (p2 & -> & Hp2 & Hf2). cbn [mbind res_bind].
  assert (∃ p3, (if negb (Bool.eqb (tage_taken s) taken) then allocate p2 s taken else mret p2)
            = Ok p3 ∧ wf b c p3 ∧ frame p2 p3) as (p3 & -> & Hp3 & Hf3).
  { destruct (negb _); [|by exists p2]. apply allocate_Ok; [done|].
    destruct Hf2 as (_ & _ & _ & _ & -> & _). exact Hsw. }
  cbn [mbind res_bind]. destruct (periodic_reset_Ok p3 Hp3) as [Hp4 Hf4].
  set (p4 := periodic_reset p3) in *.
  assert (frame p1 p4) as (Hr & Hi & Hg & Hm & Hn & Ha)
    by (eapply frame_trans; [exact Hf2|]; by eapply frame_trans).
  rewrite vec_set_lt by (rewrite (proj1 (w_ring b c p4 Hp4)); apply slot_range).
  cbn [mbind res_bind]. fold (slot id). eexists. split; [done|]. split.
  - apply wf_ring; [done|]. rewrite Hn. destruct Hsw. by constructor.
  - splits; try done. right. exists s. split; [done|]. simpl. by rewrite Hr.
Qed.

Lemma on_mispred_Ok p actual cnt id : wf b c p → ∃ p',
  on_mispred p actual cnt id = Ok p' ∧ wf b c p' ∧
  snap_wr_idx_ p' = snap_wr_idx_ p ∧ snap_ring_ p' = snap_ring_ p ∧
  ghr_mask_ p' = ghr_mask_ p ∧ n_comp_ p' = n_comp_ p ∧
  (snap_overwritten p id = false → ∀ s, snap_ring_ p !! slot id = Some s →
    ghr_ p' = Z.land (Z.lor (u64 (Z.shiftl (snap_ghr s) 1)) (b2z actual)) (ghr_mask_ p)).
Proof.
  intros Hp. unfold on_mispred. destruct (snap_overwritten p id); [by exists p|].
  destruct (ring_at p id Hp) as (s & -> & Hs & Hsw). cbn [mbind res_bind].
  eexists. split; [done|]. split.
  - destruct Hp. constructor; simpl; try done. by apply ghr_next_range.
  - splits; try done. intros _ s' Hs'. rewrite Hs in Hs'. by injection Hs' as <-.
Qed.

Lemma incr_at_Ok l i : 0 <= i < zlen l →
  ∃ n, l !! Z.to_nat i = Some n ∧ incr_at l i = Ok (<[Z.to_nat i := incr n]> l).
Proof.
  intros Hi. destruct (vec_at_lt l i Hi) as [n Hn]. exists n.
  pose proof Hn as [_ ?]%vec_at_Ok. split; [done|].
  unfold incr_at. rewrite Hn. cbn [mbind res_bind]. by apply vec_set_lt.
Qed.

Lemma resolve_stats_Ok n s actual o t : n <= MAX_COMP → snap_wf n c s → tstats_wf t →
  ∃ t', resolve_stats s actual o t = Ok t' ∧ tstats_wf t'.
Proof.
  intros Hn Hs [Hu Hc Hm]. destruct (sw_prov _ _ _ Hs) as [Hge Hlt]. unfold MAX_COMP in Hn.
  unfold resolve_stats. cbv zeta.
  match goal with |- context [comp_used ?x] => set (t1 := x) end.
  assert (comp_used t1 = comp_used t ∧ comp_correct t1 = comp_correct t ∧
          comp_mispred t1 = comp_mispred t) as (Eu & Ec & Em).
  { unfold t1. by destruct (Bool.eqb (tage_taken s) actual),
      (Bool.eqb (bimodal_taken s) actual), o. }
  destruct (Z.ltb_spec (provider s) 0).
  - eexists. split; [done|]. destruct (Bool.eqb (tage_taken s) actual);
      constructor; simpl; by rewrite ?Eu, ?Ec, ?Em.
  - destruct (incr_at_Ok (comp_used t1) (provider s)) as (k & _ & ->); [rewrite Eu; lia|].
    cbn [mbind res_bind]. destruct (Bool.eqb (tage_taken s) actual).
    + destruct (incr_at_Ok (comp_correct t1) (provider s)) as (k' & _ & Hk); [rewrite Ec; lia|].
      cbn. rewrite Hk. cbn [mbind res_bind]. eexists. split; [done|].
      constructor; simpl; rewrite ?zlen_insert; by rewrite ?Eu, ?Ec, ?Em.
    + destruct (incr_at_Ok (comp_mispred t1) (provider s)) as (k' & _ & Hk); [rewrite Em; lia|].
      cbn. rewrite Hk. cbn [mbind res_bind]. eexists. split; [done|].
      constructor; simpl; rewrite ?zlen_insert; by rewrite ?Eu, ?Ec, ?Em.
Qed.

Lemma on_resolved_Ok p actual r : wf b c p → ∃ t',
  on_resolved p actual r = Ok (p <| tage_stats_ := t' |>) ∧ wf b c (p <| tage_stats_ := t' |>).
Proof.
  intros Hp. assert (p = p <| tage_stats_ := tage_stats_ p |>) as Hid by by destruct p.
  unfold on_resolved. cbv zeta. destruct (snap_overwritten p _).
  { exists (tage_stats_ p). by rewrite <- Hid. }
  destruct (ring_at p (ghr_snap r) Hp) as (s & -> & _ & Hsw). cbn [mbind res_bind].
  destruct (negb (valid s)). { exists (tage_stats_ p). by rewrite <- Hid. }
  destruct (resolve_stats_Ok (n_comp_ p) s actual (tage_overrode_bimodal r) (tage_stats_ p))
    as (t' & -> & Ht'); [apply (w_n b c p Hp) | done | apply (w_stats b c p Hp) |].
  exists t'. split; [done|]. by apply (wf_tstats p (λ _, t')).
Qed.

#[export] Instance tage_laws : DirPredictorLaws TagePredictor (wf b c).
Proof.
  split; simpl.
  - intros p pc tgt Hp _.
    destruct (tage_predict_Ok p pc tgt Hp) as (r & s & p' & -> & Hp' & E1 & E2 & _).
    exists r, p'. split; [done|]. split; [done|]. rewrite E1, E2.
    split; [lia | apply (w_idx b c p Hp)].
  - intros p pc taken hit cnt ghr Hp _ _.
    destruct (tage_update_Ok p pc taken hit cnt ghr Hp) as (p' & ? & ? & _). eauto.
  - intros p taken cnt ghr Hp _.
    destruct (on_mispred_Ok p taken cnt ghr Hp) as (p' & ? & ? & _). eauto.
  - intros p taken r Hp _. destruct (on_resolved_Ok p taken r Hp) as (t' & ? & ?). eauto.
  - intros p Hp. destruct Hp. by constructor.
Qed.
End safety.

(** ** Sequences of operations *)

Inductive op : Type :=
| OPredict (pc tgt : Z)
| OUpdate (pc : Z) (taken hit : bool) (cnt id : Z)
| OMispred (taken : bool) (cnt id : Z)
| OResolved (taken : bool) (r : BranchResult).

Definition apply_op (p : TagePredictor) (o : op) : res TagePredictor :=
  match o with
  | OPredict pc tgt => snd <$> predict p pc tgt
  | OUpdate pc taken hit cnt id => update p pc taken hit cnt id
  | OMispred taken cnt id => on_mispred p taken cnt id
  | OResolved taken r => on_resolved p taken r
  end.

Fixpoint run (p : TagePredictor) (ops : list op) : res TagePredictor :=
  match ops with [] => mret p | o :: ops => p' ← apply_op p o; run p' ops end.

Definition is_predict (o : op) : bool := match o with OPredict _ _ => true | _ => false end.

Lemma u32_add_mod a k : u32 (u32 a + k) = u32 (a + k).
Proof. unfold u32. apply Zplus_mod_idemp_l. Qed.

Lemma u32_mod_ring a : u32 a mod SNAP_RING = a mod SNAP_RING.
Proof.
  unfold u32, SNAP_RING. apply Z.mod_mod_divide.
  exists (2 ^ 23). lia.
Qed.

(** [k] predictions after the snapshot [id] was taken, its slot still holds the
    history [g] of that moment. *)
Definition holds (b c id g m k : Z) (p : TagePredictor) : Prop :=
  wf b c p ∧ ghr_mask_ p = m ∧ snap_wr_idx_ p = u32 (id + 1 + k) ∧
  ∃ s, snap_ring_ p !! slot id = Some s ∧ snap_ghr s = g.

Lemma apply_op_holds b c id g m k p o :
  0 <= k → k + b2z (is_predict o) <= 510 → holds b c id g m k p →
  ∃ p', apply_op p o = Ok p' ∧ holds b c id g m (k + b2z (is_predict o)) p'.
Proof.
  intros Hk Hlim (Hp & Hm & Hi & s & Hs & Hg).
  destruct o as [pc tgt | pc taken hit cnt id' | taken cnt id' | taken r]; simpl in *;
    rewrite ?Z.add_0_r.
  - destruct (tage_predict_Ok b c p pc tgt Hp)
      as (r & s' & p' & -> & Hp' & _ & _ & Hi' & Hr' & _ & _ & _ & _ & _ & Hm' & _).
    exists p'. split; [done|]. split; [done|]. split; [by rewrite Hm'|]. split.
    + rewrite Hi', Hi, u32_add_mod. f_equal. lia.
    + exists s. split; [|done]. rewrite Hr', list_lookup_insert_ne; [done|].
      unfold slot. rewrite Hi, u32_mod_ring.
      pose proof (slot_range (id + 1 + k)). pose proof (slot_range id).
      intros E. apply Z2Nat.inj in E; [|lia|lia].
      apply (f_equal (λ z, (z - id mod SNAP_RING) mod SNAP_RING)) in E.
      rewrite Z.sub_diag, <- Zminus_mod, Zmod_0_l in E.
      replace (id + 1 + k - id) with (1 + k) in E by lia.
      rewrite Z.mod_small in E; unfold SNAP_RING in *; lia.
  - destruct (tage_update_Ok b c p pc taken hit cnt id' Hp)
      as (p' & -> & Hp' & Hi' & _ & Hm' & _ & _ & Hr').
    exists p'. split; [done|]. split; [done|]. split; [by rewrite Hm'|].
    split; [by rewrite Hi'|]. destruct Hr' as [-> | (s' & Hs' & ->)]; [by exists s|].
    destruct (decide (slot id' = slot id)) as [E|E].
    + rewrite E in Hs' |- *. rewrite Hs in Hs'. injection Hs' as <-.
      eexists. rewrite list_lookup_insert_eq by (by eapply lookup_lt_Some). by split.
    + exists s. by rewrite list_lookup_insert_ne by done.
  - destruct (on_mispred_Ok b c p taken cnt id' Hp) as (p' & -> & Hp' & Hi' & Hr' & Hm' & _).
    exists p'. split; [done|]. split; [done|]. rewrite Hm', Hi', Hr'. eauto.
  - destruct (on_resolved_Ok b c p taken r Hp) as (t' & -> & Hp').
    eexists. split; [done|]. split; [done|]. simpl. eauto.
Qed.

Lemma run_holds b c id g m ops k p :
  0 <= k → k + countb is_predict ops <= 510 → holds b c id g m k p →
  ∃ p', run p ops = Ok p' ∧ holds b c id g m (k + countb is_predict ops) p'.
Proof.
  revert k p. induction ops as [|o ops IH]; intros k p Hk Hlim Hp; simpl in *.
  - rewrite Z.add_0_r. eauto.
  - pose proof (countb_nonneg is_predict ops).
    destruct (apply_op_holds b c id g m k p o) as (p1 & -> & Hp1); [done | lia | done |].
    cbn [mbind res_bind]. rewrite Z.add_assoc. apply IH; [|lia|done].
    destruct (is_predict o); simpl; lia.
Qed.

(** C17: misprediction recovery.  After a prediction, any number of updates,
    resolutions and recoveries of other branches and up to 510 further
    predictions all succeed, and [on_mispred] with the id the prediction handed
    out then restores exactly the history of the moment of prediction with the
    branch's actual direction shifted in. *)
Theorem tage_recovery b c p pc tgt ops actual :
  wf b c p → countb is_predict ops <= 510 →
  ∃ r p1 p2 q, predict p pc tgt = Ok (r, p1) ∧ run p1 ops = Ok p2 ∧
    on_mispred p2 actual (pr_bht_cnt r) (pr_ghr_snap r) = Ok q ∧
    ghr_ q = Z.land (Z.lor (u64 (Z.shiftl (ghr_ p) 1)) (b2z actual)) (ghr_mask_ p).
Proof.
  intros Hp Hn.
  destruct (tage_predict_Ok b c p pc tgt Hp)
    as (r & s & p1 & Hpr & Hp1 & Hid & _ & Hi & Hr & _ & _ & Hg & _ & _ & Hm & _).
  set (id := snap_wr_idx_ p) in *.
  destruct (run_holds b c id (ghr_ p) (ghr_mask_ p) ops 0 p1) as (p2 & Hrun & Hp2 & Hm2 & Hi2 & s2 & Hs2 & Hg2).
  { lia. } { lia. }
  { split; [done|]. split; [done|]. split; [by rewrite Z.add_0_r|].
    exists s. split; [|done]. rewrite Hr. apply list_lookup_insert_eq.
    destruct (w_ring b c p Hp) as [Hl _]. pose proof (slot_range id). unfold slot, zlen in *. lia. }
  destruct (on_mispred_Ok b c p2 actual (pr_bht_cnt r) (pr_ghr_snap r) Hp2)
    as (q & Hq & _ & _ & _ & _ & _ & Hgq).
  exists r, p1, p2, q. split; [done|]. split; [done|]. split; [done|].
  rewrite Hid in Hgq. rewrite <- Hg2, <- Hm2. apply Hgq; [|done].
  unfold snap_overwritten. rewrite Hi2. apply Z.leb_gt.
  pose proof (countb_nonneg is_predict ops).
  replace (u32 (u32 (id + 1 + (0 + countb is_predict ops)) - id))
    with (1 + countb is_predict ops); [unfold SNAP_RING; lia|].
  unfold u32. rewrite Zminus_mod_idemp_l. symmetry.
  rewrite Z.mod_small by lia. lia.
Qed.

Definition tage_ex : TagePredictor :=
  match make 4 3 [2; 8; 32] with Ok p => p | Err _ => Mk bp_stats_zero 0 [] [] [] [] 0 [] 0 0 [] 0 0 [] 0 0 tage_stats_zero end.

Lemma tage_ex_wf : wf 4 3 tage_ex.
Proof. apply (tage_make_wf 4 3 [2; 8; 32]); [lia | lia | reflexivity]. Qed.

Lemma tage_recovery_witness :
  ∃ r p1 p2 q, predict tage_ex 0x80000010 0x80000000 = Ok (r, p1) ∧
    run p1 [OPredict 0x80000014 0x80000000; OUpdate 0x80000010 true true 0 0] = Ok p2 ∧
    on_mispred p2 true (pr_bht_cnt r) (pr_ghr_snap r) = Ok q ∧
    ghr_ q = Z.land (Z.lor (u64 (Z.shiftl (ghr_ tage_ex) 1)) (b2z true)) (ghr_mask_ tage_ex).
Proof. apply (tage_recovery 4 3); [exact tage_ex_wf | simpl; lia]. Defined.

(** C18: no sequence of operations, with whatever snapshot ids, makes a
    constructed predictor fail, and every table keeps its shape: two-bit base
    counters, three-bit signed component counters, two-bit usefulness. *)
Theorem tage_safe b c hs p ops :
  0 <= b < 30 → c < 32 → make b c hs = Ok p →
  ∃ p', run p ops = Ok p' ∧ wf b c p' ∧
        Forall cnt_ok (base_table_ p') ∧ Forall (Forall entry_ok) (comp_tables_ p').
Proof.
  intros Hb Hc Hmk. apply tage_make_wf in Hmk; [|done|done].
  assert (∃ p', run p ops = Ok p' ∧ wf b c p') as (p' & Hr & Hw).
  { clear Hb Hc. revert p Hmk. induction ops as [|o ops IH]; intros p Hp; simpl; [eauto|].
    assert (∃ p1, apply_op p o = Ok p1 ∧ wf b c p1) as (p1 & -> & Hp1); [|by apply IH].
    destruct o as [pc tgt | pc taken hit cnt id | taken cnt id | taken r]; simpl.
    - destruct (tage_predict_Ok b c p pc tgt Hp) as (r & s & p' & -> & Hp' & _). by exists p'.
    - destruct (tage_update_Ok b c p pc taken hit cnt id Hp) as (p' & ? & ? & _). by exists p'.
    - destruct (on_mispred_Ok b c p taken cnt id Hp) as (p' & ? & ? & _). by exists p'.
    - destruct (on_resolved_Ok b c p taken r Hp) as (t' & ? & ?). eauto. }
  exists p'. split; [done|]. split; [done|]. split; [apply (w_base b c p' Hw)|].
  destruct (w_comps b c p' Hw) as [_ Hf]. eapply Forall_impl; [|exact Hf]. by intros t [].
Qed.

Lemma tage_safe_witness :
  ∃ p', run tage_ex [OPredict 0x80000010 4; OUpdate 0x80000010 true true 0 0] = Ok p' ∧
        wf 4 3 p' ∧ Forall cnt_ok (base_table_ p') ∧ Forall (Forall entry_ok) (comp_tables_ p').
Proof. apply (tage_safe 4 3 [2; 8; 32]); [lia | lia | reflexivity]. Defined.

(** ** Accuracy breakdown *)

Fixpoint sum (l : list Z) : Z := match l with [] => 0 | x :: l => x + sum l end.

(** Component by component, the uses split into correct and wrong ones. *)
Definition comp_split (used correct mispred : list Z) : Prop :=
  length correct = length used ∧ length mispred = length used ∧
  ∀ i u k m, used !! i = Some u → correct !! i = Some k → mispred !! i = Some m → u64 (k + m) = u64 u.

(** The breakdowns agree, modulo 2^64. *)
Definition balanced (t : TageStats) : Prop :=
  u64 (tage_correct t + tage_mispred t) = u64 (bimodal_correct t + bimodal_mispred t) ∧
  u64 (tage_correct t + tage_mispred t) = u64 (base_used t + sum (comp_used t)) ∧
  u64 (base_correct t + base_mispred t) = u64 (base_used t) ∧
  u64 (sum (comp_correct t) + sum (comp_mispred t)) = u64 (sum (comp_used t)) ∧
  u64 (tage_override_helpful t + tage_override_harmful t) = u64 (tage_overrides t) ∧
  comp_split (comp_used t) (comp_correct t) (comp_mispred t).

Lemma incr_add_r a b : u64 (a + incr b) = u64 (a + b + 1).
Proof. rewrite Z.add_comm, incr_add_l. f_equal. lia. Qed.

Lemma sum_insert l i x : l !! i = Some x → u64 (sum (<[i := incr x]> l)) = u64 (sum l + 1).
Proof.
  revert i. induction l as [|y l IH]; intros [|i] H; simpl in *; [done | done | |].
  - injection H as ->. rewrite incr_add_l. f_equal.
  - rewrite Z.add_comm, <- u64_add_l, IH, u64_add_l by done. f_equal. lia.
Qed.

Lemma u64_add_r a b : u64 (a + u64 b) = u64 (a + b).
Proof. rewrite Z.add_comm, u64_add_l. f_equal. lia. Qed.

Lemma u64_incr a : u64 (incr a) = u64 (a + 1).
Proof. unfold incr, u64. apply Zmod_mod. Qed.

Lemma u64_succ_eq a b : u64 a = u64 b → u64 (a + 1) = u64 (b + 1).
Proof. intros H. rewrite <- (u64_add_l a), <- (u64_add_l b). by rewrite H. Qed.

Lemma incr_at_sum l i : 0 <= i < zlen l →
  ∃ n l', l !! Z.to_nat i = Some n ∧ l' = <[Z.to_nat i := incr n]> l ∧ incr_at l i = Ok l' ∧ u64 (sum l') = u64 (sum l + 1).
Proof.
  intros Hi. destruct (incr_at_Ok l i Hi) as (n & Hn & ->). exists n. eexists. split; [done|]. split; [done|]. split; [done|].
  by apply sum_insert.
Qed.

(** One step of the arithmetic: move the increments out of a sum. *)
Ltac balance :=
  simpl; rewrite ?incr_add_l, ?incr_add_r, ?u64_incr;
  repeat match goal with
  | H : u64 (sum ?l') = u64 (sum ?l + 1) |- context [sum ?l'] =>
    first [ rewrite H
          | rewrite <- (u64_add_r _ (sum l')), H, u64_add_r
          | rewrite <- (u64_add_l (sum l')), H, u64_add_l ]; clear H
  end;
  first [ assumption
        | match goal with
          | H : u64 _ = u64 _ |- _ =>
            solve [etransitivity; [|etransitivity; [exact (u64_succ_eq _ _ H)|]];
                   apply (f_equal u64); lia]
          end ].

Lemma comp_split_used cu cc cm j (ok : bool) u k m : comp_split cu cc cm →
  cu !! j = Some u → cc !! j = Some k → cm !! j = Some m →
  comp_split (<[j := incr u]> cu) (if ok then <[j := incr k]> cc else cc) (if ok then cm else <[j := incr m]> cm).
Proof.
  intros (L1 & L2 & Hs) Hu Hk Hm. pose proof (Hs _ _ _ _ Hu Hk Hm) as E. unfold comp_split. rewrite length_insert.
  split; [destruct ok; by rewrite ?length_insert|]. split; [destruct ok; by rewrite ?length_insert|].
  intros i u' k' m' Hu' Hk' Hm'. destruct (decide (i = j)) as [->|Hne].
  - rewrite list_lookup_insert_eq in Hu' by (by eapply lookup_lt_Some). injection Hu' as <-. rewrite u64_incr.
    destruct ok; [rewrite list_lookup_insert_eq in Hk' by (by eapply lookup_lt_Some); injection Hk' as <-; rewrite Hm in Hm'; injection Hm' as <-
      | rewrite list_lookup_insert_eq in Hm' by (by eapply lookup_lt_Some); injection Hm' as <-; rewrite Hk in Hk'; injection Hk' as <-];
      rewrite ?incr_add_l, ?incr_add_r; rewrite <- (u64_succ_eq _ _ E); f_equal; lia.
  - rewrite list_lookup_insert_ne in Hu' by done.
    destruct ok; [rewrite list_lookup_insert_ne in Hk' by done | rewrite list_lookup_insert_ne in Hm' by done]; by eapply Hs.
Qed.

Lemma balanced_zero : balanced tage_stats_zero.
Proof.
  unfold balanced, tage_stats_zero. splits; try done. split; [done|]. split; [done|]. intros i u k m.
  cbn [comp_used comp_correct comp_mispred].
  intros [-> _]%(lookup_replicate_1 8) [-> _]%(lookup_replicate_1 8) [-> _]%(lookup_replicate_1 8). done.
Qed.

Lemma resolve_balanced s actual o t t' : -1 <= provider s < MAX_COMP → tstats_wf t →
  balanced t → resolve_stats s actual o t = Ok t' → balanced t'.
Proof.
  intros Hp [Hu Hc Hm] (B1 & B2 & B3 & B4 & B5 & B6). unfold MAX_COMP in Hp.
  destruct t as [bc bm tc tm ov hl hf bu bk bw cu cc cm a1 a2 a3 a4 a5]. simpl in *.
  unfold resolve_stats. destruct (Z.ltb_spec (provider s) 0).
  - destruct (Bool.eqb (tage_taken s) actual), (Bool.eqb (bimodal_taken s) actual), o;
      cbn; intros [= <-]; unfold balanced; simpl; splits; balance.
  - destruct (incr_at_sum cu (provider s)) as (u & cu' & Lu & -> & Eu & Su); [lia|].
    destruct (incr_at_sum cc (provider s)) as (x & cc' & Lc & -> & Ec & Sc); [lia|].
    destruct (incr_at_sum cm (provider s)) as (y & cm' & Lm & -> & Em & Sm); [lia|].
    pose proof (comp_split_used cu cc cm _ (Bool.eqb (tage_taken s) actual) u x y B6 Lu Lc Lm) as B6'.
    destruct (Bool.eqb (tage_taken s) actual), (Bool.eqb (bimodal_taken s) actual), o;
      cbn; rewrite Eu; cbn; rewrite ?Ec, ?Em; cbn; intros [= <-]; unfold balanced;
      simpl; splits; first [exact B6' | balance].
Qed.

Lemma acc_balanced t t' : acc t' = acc t → balanced t → balanced t'.
Proof. unfold acc, balanced. intros [= -> -> -> -> -> -> -> -> -> -> -> -> ->]. done. Qed.

Lemma on_resolved_balanced b c p actual r p' : wf b c p → balanced (tage_stats_ p) →
  on_resolved p actual r = Ok p' → balanced (tage_stats_ p').
Proof.
  intros Hp Hb. unfold on_resolved. cbv zeta.
  destruct (snap_overwritten p _); [by intros [= <-]|].
  destruct (ring_at b c p (ghr_snap r) Hp) as (s & -> & _ & Hsw). cbn [mbind res_bind].
  destruct (negb (valid s)); [by intros [= <-]|].
  intros H. res_inv H. injection H as <-.
  pose proof (w_n b c p Hp). destruct (sw_prov _ _ _ Hsw).
  eapply resolve_balanced; [| apply (w_stats b c p Hp) | done | exact Ha]. lia.
Qed.

(** C35: the accuracy breakdown adds up.  After any sequence of predictions,
    updates, recoveries and resolutions on a fresh predictor of at most 2^29 base
    entries and at most 2^31 entries per component, these sums agree modulo 2^64:
    the resolutions counted by the final direction, by the bimodal direction, and
    by provider; within the base predictor, and within each component, the uses
    and the correct and wrong ones among them; the overrides and the helpful and
    harmful ones among them. *)
Theorem tage_stats_balanced b c hs p ops :
  0 <= b < 30 → c < 32 → make b c hs = Ok p →
  ∃ p', run p ops = Ok p' ∧ balanced (tage_stats_ p').
Proof.
  intros Hb Hc Hmk. assert (balanced (tage_stats_ p)) as Hbal.
  { unfold make in Hmk. do 3 res_inv Hmk. injection Hmk as <-. exact balanced_zero. }
  apply tage_make_wf in Hmk; [|done|done]. clear Hb Hc. revert p Hmk Hbal.
  induction ops as [|o ops IH]; intros p Hp Hbal; simpl; [eauto|].
  assert (∃ p1, apply_op p o = Ok p1 ∧ wf b c p1 ∧ balanced (tage_stats_ p1))
    as (p1 & -> & Hp1 & ?); [|by apply IH].
  destruct o as [pc tgt | pc taken hit cnt id | taken cnt id | taken r]; simpl.
  - destruct (tage_predict_Ok b c p pc tgt Hp)
      as (r & s & p' & -> & Hp' & _ & _ & _ & _ & _ & _ & _ & _ & _ & _ & _ & Ht).
    exists p'. splits; try done. by rewrite Ht.
  - destruct (tage_update_Ok b c p pc taken hit cnt id Hp) as (p' & ? & ? & _ & _ & _ & _ & Ha & _).
    exists p'. splits; try done. by eapply acc_balanced.
  - destruct (on_mispred_Ok b c p taken cnt id Hp) as (p' & Hm & ? & _).
    exists p'. splits; try done. unfold on_mispred in Hm.
    destruct (snap_overwritten p id); [injection Hm as <-; exact Hbal|]. res_inv Hm.
    injection Hm as <-. exact Hbal.
  - destruct (on_resolved_Ok b c p taken r Hp) as (t' & Hr & ?).
    eexists. splits; [exact Hr | done |]. exact (on_resolved_balanced b c p taken r _ Hp Hbal Hr).
Qed.

Lemma tage_stats_balanced_witness :
  ∃ p', run tage_ex [OPredict 0x80000010 4;
                     OResolved true (MkBranchResult true 4 true 0 0 false)] = Ok p' ∧
        balanced (tage_stats_ p').
Proof. apply (tage_stats_balanced 4 3 [2; 8; 32]); [lia | lia | reflexivity]. Defined.
End TAGE.
