(* ===== verification/BranchUnit.v ===== *)
(** * The branch unit

    [BranchUnit] of [src/branchSim/BranchPred.hh] and [.cc]: direction
    predictor, branch target buffer and return address stack behind one
    interface, with the one-port conflict of an SRAM target buffer.  The unit is
    generic in the predictor: its theorems use [DirPredictorLaws] only. *)

From S2P Require Import Prelude BranchPred Ras Btb.

Module BU.

Record BranchUnit (P : Type) : Type := Mk {
  stats : BPStats;
  bpu_ : P;
  btb_ : BTB.BTBBase;
  ras_ : option RAS.ReturnAddrStack;
  btb_written_this_tick_ : bool;
  btb_written_idx_ : Z;
  bypass_valid_ : bool;
  bypass_idx_ : Z
}.
Arguments Mk {P} _ _ _ _ _ _ _ _.
Arguments stats {P} _.
Arguments bpu_ {P} _.
Arguments btb_ {P} _.
Arguments ras_ {P} _.
Arguments btb_written_this_tick_ {P} _.
Arguments btb_written_idx_ {P} _.
Arguments bypass_valid_ {P} _.
Arguments bypass_idx_ {P} _.
#[global] Instance eta_BU {P} : Eta (BranchUnit P) := λ r,
  Mk r.(stats) r.(bpu_) r.(btb_) r.(ras_) r.(btb_written_this_tick_) r.(btb_written_idx_)
     r.(bypass_valid_) r.(bypass_idx_).

Section unit.
Context {P : Type} `{DirPredictor P}.
Implicit Types (b : BranchUnit P) (pred : BranchResult).

(** The constructor; a null [btb] is replaced by [NoBTB]. *)
Definition make (bpu : P) (btb : option BTB.BTBBase) (ras_depth : Z) : BranchUnit P :=
Mk bp_stats_zero bpu (default BTB.make_none btb)
   (if 0 <? ras_depth then Some (RAS.make ras_depth) else None) false 0 false 0.

Definition btb_idx b (pc : Z) : Z := Z.land (Z.shiftr pc 2) (BTB.num_entries (btb_ b) - 1).

Definition begin_tick b : BranchUnit P :=
b <| bypass_valid_ := btb_written_this_tick_ b |>
  <| bypass_idx_ := btb_written_idx_ b |>
  <| btb_written_this_tick_ := false |>.

(** The target read from the BTB, 0 when the port conflict hides it. *)
Definition btb_read b (pc : Z) : res Z :=
t ← BTB.lookup (btb_ b) pc;
mret (if BTB.has_rw_conflict (btb_ b) && bypass_valid_ b &&
         negb (btb_idx b pc =? bypass_idx_ b)
      then 0 else t).

(** Target and direction after the RAS override. *)
Definition ras_override b (pc target : Z) (taken : bool) : res (Z * bool) :=
match ras_ b with
| Some ras =>
  if negb (target =? 0) && (BTB.entry_type (btb_ b) (btb_idx b pc) =? 1) && RAS.valid ras
  then t ← RAS.top ras; mret (t, true)
  else mret (target, taken)
| None => mret (target, taken)
end.

Definition predict b (pc : Z) : res (BranchResult * BranchUnit P) :=
let b := b <| stats ::= count_access |> in
btb_target ← btb_read b pc;
'(r, bpu) ← BranchPred.predict (bpu_ b) pc btb_target;
let b := b <| bpu_ := bpu |> in
'(target, taken) ← ras_override b pc btb_target (pr_taken r);
mret (MkBranchResult taken target (taken && negb (target =? 0))
        (pr_bht_cnt r) (pr_ghr_snap r) (pr_tage_overrode r), b).

Definition predict_at_fetch b (pc : Z) (is_branch : bool) : res (BranchResult * BranchUnit P) :=
if is_branch then predict (b <| stats ::= (λ s, s <| br_accesses ::= incr |>) |>) pc
else mret (branch_result_default, b).

(** [btb_written_this_tick_ = true; btb_written_idx_ = ...] *)
Definition mark_write b (pc : Z) : BranchUnit P :=
b <| btb_written_this_tick_ := true |> <| btb_written_idx_ := btb_idx b pc |>.

Definition clear_btb_entry b (pc : Z) : res (BranchUnit P) :=
t ← BTB.clear_entry (btb_ b) pc;
mret (mark_write (b <| btb_ := t |>) pc).

Definition has_btb_hit b (pc : Z) : res bool :=
t ← BTB.lookup (btb_ b) pc; mret (negb (t =? 0)).

Definition update_bpu b (pc : Z) (taken btb_hit : bool) pred (mispred : bool) : res P :=
p ← BranchPred.on_resolved (bpu_ b) taken pred;
p ← (if btb_hit || taken
     then BranchPred.update p pc taken btb_hit (bht_cnt pred) (ghr_snap pred) else mret p);
if mispred then BranchPred.on_mispred p taken (bht_cnt pred) (ghr_snap pred) else mret p.

Definition update_btb b (pc target : Z) (is_ret : bool) : res (BranchUnit P) :=
t ← BTB.update (btb_ b) pc target;
let b := mark_write (b <| btb_ := t |>) pc in
mret (b <| btb_ := BTB.set_entry_type (btb_ b) (btb_written_idx_ b) (b2z is_ret) |>).

Definition update_ras (ras : RAS.ReturnAddrStack) (pc : Z) (is_call is_ret : bool)
  : res RAS.ReturnAddrStack :=
ras ← (if is_call then RAS.push ras (u32 (pc + 4)) else mret ras);
mret (if is_ret then RAS.pop ras else ras).

Definition update b (pc : Z) (taken : bool) (target : Z) (is_call is_ret btb_hit : bool)
  pred (mispred : bool) : res (BranchUnit P) :=
p ← update_bpu b pc taken btb_hit pred mispred;
let b := b <| bpu_ := p |> in
b ← (if taken then update_btb b pc target is_ret else mret b);
match ras_ b with
| Some ras => ras ← update_ras ras pc is_call is_ret; mret (b <| ras_ := Some ras |>)
| None => mret b
end.

Definition judge b (real_taken : bool) (real_target : Z) pred : bool * BranchUnit P :=
let count (f : BPStats → BPStats) := b <| stats ::= f |> in
let '(accurate, b) :=
  if negb real_taken && negb (will_redirect pred) then (true, b)
  else if real_taken && will_redirect pred then
    if pred_target pred =? real_target then (true, b)
    else (false, count (λ s, s <| bad_target ::= incr |>))
  else if real_taken && negb (will_redirect pred) then
    if pred_taken pred then (false, count (λ s, s <| no_target ::= incr |>))
    else (false, count (λ s, s <| bad_pred ::= incr |>))
  else (false, count (λ s, s <| bad_pred ::= incr |>)) in
(accurate, if accurate then b else b <| stats ::= (λ s, s <| misses ::= incr |>) |>).

Definition reset_stats b : BranchUnit P :=
b <| stats := bp_stats_zero |> <| bpu_ ::= bp_reset_stats |>.

Definition is_no_bpu b : bool := is_NoBPU (bpu_ b).

End unit.

(** ** Safety *)

Section laws.
Context {P : Type} `{DirPredictor P} (inv : P → Prop) `{!DirPredictorLaws P inv} (k w : Z).
Implicit Types (b : BranchUnit P) (pred : BranchResult).

Definition wf b : Prop :=
inv (bpu_ b) ∧ BTB.wf k w (btb_ b) ∧
match ras_ b with Some r => RAS.wf r | None => True end.

Definition result_ok pred : Prop := snap_ok (bht_cnt pred) (ghr_snap pred).

Lemma default_ok : result_ok branch_result_default.
Proof. unfold result_ok, snap_ok, word_ok. simpl. lia. Qed.

Lemma unit_wf_make bpu btb d : inv bpu → match btb with Some t => BTB.wf k w t | None => True end →
0 <= d < 2 ^ 63 → wf (make bpu btb d).
Proof.
intros Hi Hb Hd. unfold make. split; [done|]. simpl. split.
- destruct btb; done.
- destruct (Z.ltb_spec 0 d); [|done]. apply RAS.ras_wf_make. lia.
Qed.

Lemma btb_read_Ok b pc : wf b → ∃ t, btb_read b pc = Ok t.
Proof.
intros (_ & Hb & _). unfold btb_read. destruct (BTB.lookup_wf k w (btb_ b) pc Hb) as [t ->].
cbn [mbind res_bind]. eauto.
Qed.

Lemma ras_override_Ok b pc t d : wf b → ∃ r, ras_override b pc t d = Ok r.
Proof.
intros (_ & _ & Hr). unfold ras_override. destruct (ras_ b) as [ras|]; [|eauto].
case_bool; [|eauto]. destruct (RAS.top_spec ras Hr) as [-> _]. cbn [mbind res_bind]. eauto.
Qed.

Lemma unit_predict_Ok b pc : wf b → word_ok pc →
∃ r b', predict b pc = Ok (r, b') ∧ wf b' ∧ result_ok r.
Proof.
intros Hw Hpc. unfold predict. cbv zeta.
set (b1 := b <| stats ::= count_access |>). assert (wf b1) as Hw1 by exact Hw.
destruct (btb_read_Ok b1 pc Hw1) as [t ->]. cbn [mbind res_bind].
destruct (predict_law (bpu_ b1) pc t) as (r & p & -> & Hp & Hs); [apply Hw1 | done |].
cbn [mbind res_bind]. set (b2 := b1 <| bpu_ := p |>).
assert (wf b2) as Hw2 by (split; [done | apply Hw1]).
destruct (ras_override_Ok b2 pc t (pr_taken r) Hw2) as [[t' d] ->]. cbn [mbind res_bind].
eexists _, b2. by split.
Qed.

Lemma predict_stats b pc r b' : predict b pc = Ok (r, b') → stats b' = count_access (stats b).
Proof.
unfold predict. cbv zeta. intros E. res_inv E. destruct (BranchPred.predict _ _ _) as [[pr p]|]; [|done].
cbn [mbind res_bind] in E. res_inv E. destruct a0 as [t' d']. by injection E as <- <-.
Qed.

Lemma update_bpu_Ok b pc taken hit pred mis : wf b → word_ok pc → result_ok pred →
∃ p, update_bpu b pc taken hit pred mis = Ok p ∧ inv p.
Proof.
intros (Hi & _) Hpc Hr. unfold update_bpu.
destruct (on_resolved_law (bpu_ b) taken pred Hi Hr) as (p1 & -> & H1). cbn [mbind res_bind].
assert (∃ p2, (if hit || taken
  then BranchPred.update p1 pc taken hit (bht_cnt pred) (ghr_snap pred) else mret p1) = Ok p2 ∧ inv p2)
  as (p2 & -> & H2).
{ destruct (hit || taken); [by apply update_law | by exists p1]. }
cbn [mbind res_bind]. destruct mis; [by apply on_mispred_law | by exists p2].
Qed.

Lemma update_btb_Ok b pc tgt is_ret : wf b →
∃ b', update_btb b pc tgt is_ret = Ok b' ∧ wf b' ∧ bpu_ b' = bpu_ b ∧ ras_ b' = ras_ b ∧
      stats b' = stats b.
Proof.
intros (Hi & Hb & Hr). unfold update_btb.
destruct (BTB.apply_op_wf k w (btb_ b) (BTB.OpUpdate pc tgt) Hb) as (t & Ht & Hwt).
simpl in Ht. rewrite Ht. cbn [mbind res_bind]. eexists. split; [done|].
split; [|done]. split; [exact Hi|]. split; [|exact Hr].
destruct (BTB.apply_op_wf k w t (BTB.OpSetType (btb_idx (b <| btb_ := t |>) pc) (b2z is_ret)) Hwt)
  as (t' & Ht' & Hwt'). by injection Ht' as <-.
Qed.

Lemma update_ras_Ok ras pc c r : RAS.wf ras →
∃ ras', update_ras ras pc c r = Ok ras' ∧ RAS.wf ras'.
Proof.
intros Hr. unfold update_ras.
assert (∃ r1, (if c then RAS.push ras (u32 (pc + 4)) else mret ras) = Ok r1 ∧ RAS.wf r1)
  as (r1 & -> & H1).
{ destruct c; [|by exists ras].
  destruct (RAS.push_spec ras (u32 (pc + 4)) Hr) as (r1 & ? & ? & _). by exists r1. }
cbn [mbind res_bind]. eexists. split; [done|]. destruct r; [by apply RAS.pop_spec | done].
Qed.

Lemma unit_update_Ok b pc taken tgt c r hit pred mis : wf b → word_ok pc → result_ok pred →
∃ b', update b pc taken tgt c r hit pred mis = Ok b' ∧ wf b' ∧ stats b' = stats b.
Proof.
intros Hw Hpc Hpr. unfold update.
destruct (update_bpu_Ok b pc taken hit pred mis Hw Hpc Hpr) as (p & -> & Hp).
cbn [mbind res_bind]. set (b1 := b <| bpu_ := p |>).
assert (wf b1) as Hw1 by (split; [done | apply Hw]).
assert (∃ b2, (if taken then update_btb b1 pc tgt r else mret b1) = Ok b2 ∧ wf b2 ∧
              stats b2 = stats b) as (b2 & -> & Hw2 & Hs2).
{ destruct taken; [|by exists b1].
  destruct (update_btb_Ok b1 pc tgt r Hw1) as (b2 & ? & ? & _ & _ & ?). by exists b2. }
cbn [mbind res_bind]. destruct (ras_ b2) as [ras|] eqn:E; [|by exists b2].
pose proof Hw2 as (Hi2 & Hb2 & Hr2). rewrite E in Hr2.
destruct (update_ras_Ok ras pc c r Hr2) as (ras' & -> & Hr'). cbn [mbind res_bind].
eexists. split; [done|]. split; [|done]. by split.
Qed.

Lemma clear_Ok b pc : wf b → ∃ b', clear_btb_entry b pc = Ok b' ∧ wf b' ∧ stats b' = stats b.
Proof.
intros (Hi & Hb & Hr). unfold clear_btb_entry.
destruct (BTB.apply_op_wf k w (btb_ b) (BTB.OpClear pc) Hb) as (t & Ht & Hwt).
simpl in Ht. rewrite Ht. cbn [mbind res_bind]. eexists. split; [done|]. by split.
Qed.

(** ** Runs in which every prediction comes back

  The client keeps the predictions it got, in order; a resolution names one
  of them by its position.  This is how [Pipeline] uses the unit: the result
  of [predict_at_fetch] rides with the instruction and returns at execute. *)
Inductive op : Type :=
| Fetch (pc : Z) (is_branch : bool)
| Resolve (i : nat) (pc : Z) (taken : bool) (tgt : Z) (is_call is_ret btb_hit : bool)
| Clear (pc : Z)
| Tick
| Reset.

Definition op_ok (o : op) : Prop :=
match o with
| Fetch pc _ => word_ok pc
| Resolve _ pc _ _ _ _ _ => word_ok pc
| _ => True
end.

Definition step (s : BranchUnit P * list BranchResult) (o : op)
  : res (BranchUnit P * list BranchResult) :=
let '(b, preds) := s in
match o with
| Fetch pc br => '(r, b) ← predict_at_fetch b pc br; mret (b, preds ++ [r])
| Resolve i pc taken tgt c r hit =>
  let pred := nth i preds branch_result_default in
  let '(accurate, b) := judge b taken tgt pred in
  b ← update b pc taken tgt c r hit pred (negb accurate);
  mret (b, preds)
| Clear pc => b ← clear_btb_entry b pc; mret (b, preds)
| Tick => mret (begin_tick b, preds)
| Reset => mret (reset_stats b, preds)
end.

Fixpoint run (s : BranchUnit P * list BranchResult) (ops : list op)
  : res (BranchUnit P * list BranchResult) :=
match ops with [] => mret s | o :: ops => s' ← step s o; run s' ops end.

(** Every misprediction counted has exactly one cause counted. *)
Definition causes (s : BPStats) : Prop :=
u64 (no_target s + bad_target s + bad_pred s) = u64 (misses s).

Definition good (s : BranchUnit P * list BranchResult) : Prop :=
wf s.1 ∧ Forall result_ok s.2 ∧ causes (stats s.1).

Lemma judge_frame b taken tgt pred : wf b → causes (stats b) →
wf (judge b taken tgt pred).2 ∧ causes (stats (judge b taken tgt pred).2).
Proof.
intros Hw Hc. unfold judge. destruct b as [[a m n bt bp nb br] p t r x1 x2 x3 x4].
unfold causes in *. simpl in Hc.
destruct taken, (will_redirect pred); cbn; [case_bool | destruct (pred_taken pred) | |];
  cbn; (split; [exact Hw|]); try exact Hc; clear Hw; u64_solve.
Qed.

Lemma step_good s o : good s → op_ok o → ∃ s', step s o = Ok s' ∧ good s'.
Proof.
destruct s as [b preds]. intros (Hw & Hp & Hc) Ho. simpl in *.
destruct o as [pc br | i pc taken tgt c r hit | pc | |]; simpl in *.
- unfold predict_at_fetch. destruct br.
  + set (b1 := b <| stats ::= _ |>).
    destruct (unit_predict_Ok b1 pc) as (r & b' & Hr & Hw' & Hok); [exact Hw | done |].
    rewrite Hr. cbn [mbind res_bind]. eexists. split; [done|]. split; [done|].
    split; [apply Forall_app; split; [done | by apply Forall_singleton]|].
    cbn [fst]. rewrite (predict_stats b1 pc r b' Hr). exact Hc.
  + eexists. split; [done|]. split; [done|].
    split; [apply Forall_app; split; [done | apply Forall_singleton, default_ok] | done].
- set (pred := nth i preds branch_result_default).
  assert (result_ok pred) as Hpr.
  { unfold pred. destruct (nth_in_or_default i preds branch_result_default) as [Hin| ->].
    - rewrite Forall_forall in Hp. by apply Hp.
    - apply default_ok. }
  destruct (judge_frame b taken tgt pred Hw Hc) as [Hwj Hcj].
  destruct (judge b taken tgt pred) as [acc bj]. simpl in *.
  destruct (unit_update_Ok bj pc taken tgt c r hit pred (negb acc) Hwj Ho Hpr) as (b' & -> & Hw' & Hs).
  cbn [mbind res_bind]. eexists. split; [done|]. split; [done|]. split; [done|].
  simpl. by rewrite Hs.
- destruct (clear_Ok b pc Hw) as (b' & -> & Hw' & Hs). cbn [mbind res_bind].
  eexists. split; [done|]. split; [done|]. split; [done|]. simpl. by rewrite Hs.
- eexists. split; [done|]. split; [exact Hw|]. by split.
- eexists. split; [done|]. split; [|split; [done|]].
  + destruct Hw as (? & ? & ?). split; [by apply reset_law | by split].
  + done.
Qed.

Lemma run_good s ops : good s → Forall op_ok ops → ∃ s', run s ops = Ok s' ∧ good s'.
Proof.
intros Hs Ho. revert s Hs. induction Ho as [|o ops Ho _ IH]; intros s Hs; simpl; [eauto|].
destruct (step_good s o Hs Ho) as (s1 & -> & H1). by apply IH.
Qed.

(** C19: the branch unit never fails and accounts for every misprediction.
  Whatever lawful predictor it is built with, in every run of fetches,
  resolutions with the recorded predictions, BTB clears, ticks and
  statistics resets no assertion, bounds check or division fails, predictor,
  BTB and RAS keep their invariants, and [misses] is the sum of
  [no_target], [bad_target] and [bad_pred] modulo 2^64. *)
Theorem branch_unit_safe bpu btb d ops :
inv bpu → match btb with Some t => BTB.wf k w t | None => True end → 0 <= d < 2 ^ 63 →
Forall op_ok ops →
∃ b preds, run (make bpu btb d, []) ops = Ok (b, preds) ∧ wf b ∧
  u64 (no_target (stats b) + bad_target (stats b) + bad_pred (stats b)) =
  u64 (misses (stats b)).
Proof.
intros Hi Hb Hd Ho. destruct (run_good (make bpu btb d, []) ops) as ([b preds] & ? & ? & _ & ?).
- split; [by apply unit_wf_make | by repeat constructor].
- done.
- by exists b, preds.
Qed.
(** ** Learning targets and return addresses *)

Definition next_idx (pc : Z) : Z := BTB.idx_bits k pc.

(** What [update] of a taken branch leaves in a compressed BTB and in the RAS. *)
Lemma update_taken b pc tgt c r hit pred mis :
wf b → BTB.compressed k w (btb_ b) → word_ok pc → result_ok pred →
∃ b', update b pc true tgt c r hit pred mis = Ok b' ∧ wf b' ∧
  BTB.compressed k w (btb_ b') ∧
  BTB.has_rw_conflict (btb_ b') = BTB.has_rw_conflict (btb_ b) ∧
  (∀ pc', BTB.read k w (btb_ b') pc' =
     if next_idx pc' =? next_idx pc then
       if BTB.tag_bits k w pc' =? BTB.tag_bits k w pc then tgt else 0
     else BTB.read k w (btb_ b) pc') ∧
  (∀ pc', BTB.entry_type (btb_ b') (next_idx pc') =
     if next_idx pc' =? next_idx pc then b2z r else BTB.entry_type (btb_ b) (next_idx pc')) ∧
  btb_written_this_tick_ b' = true ∧ btb_written_idx_ b' = next_idx pc ∧
  match ras_ b with
  | Some ras => ∃ ras', update_ras ras pc c r = Ok ras' ∧ ras_ b' = Some ras'
  | None => ras_ b' = None
  end.
Proof.
intros Hw Hc Hpc Hpr. destruct (unit_update_Ok b pc true tgt c r hit pred mis Hw Hpc Hpr)
  as (b' & Hu & Hw' & _). exists b'. split; [done|]. split; [done|].
unfold update in Hu. res_inv Hu. res_inv Hu. unfold update_btb in Ha0. res_inv Ha0.
injection Ha0 as E. simpl in Ha1.
pose proof (BTB.entry_type_update _ _ _ _ 0 Ha1) as (_ & Hne & Hcf).
assert (BTB.compressed k w a1 ∧ ∀ pc', BTB.read k w a1 pc' =
  if next_idx pc' =? next_idx pc then
    if BTB.tag_bits k w pc' =? BTB.tag_bits k w pc then tgt else 0
  else BTB.read k w (btb_ b) pc') as [Hc1 Hr1].
{ destruct (BTB.apply_op_refines k w (btb_ b) (BTB.OpUpdate pc tgt) 0 Hc) as (t & Ht & ? & _).
  simpl in Ht. rewrite Ha1 in Ht. injection Ht as <-. split; [done|]. intros pc'.
  destruct (BTB.apply_op_refines k w (btb_ b) (BTB.OpUpdate pc tgt) pc' Hc) as (t & Ht & _ & Hr).
  simpl in Ht. rewrite Ha1 in Ht. injection Ht as <-. exact Hr. }
assert (btb_idx (b <| bpu_ := a |> <| btb_ := a1 |>) pc = next_idx pc) as Hidx
  by (apply (BTB.unit_index k w); exact Hc1).
assert (btb_ b' = btb_ a0 ∧ btb_written_this_tick_ b' = btb_written_this_tick_ a0 ∧
        btb_written_idx_ b' = btb_written_idx_ a0 ∧
  match ras_ b with
  | Some ras => ∃ ras', update_ras ras pc c r = Ok ras' ∧ ras_ b' = Some ras'
  | None => ras_ b' = None
  end) as (-> & -> & -> & Hras).
{ subst a0. simpl in Hu. destruct (ras_ b) as [ras|] eqn:Er.
  - res_inv Hu. injection Hu as <-. splits; try done. eauto.
  - injection Hu as <-. done. }
assert (btb_ a0 = BTB.set_entry_type a1 (next_idx pc) (b2z r) ∧
        btb_written_this_tick_ a0 = true ∧ btb_written_idx_ a0 = next_idx pc) as (-> & -> & ->).
{ subst a0. simpl in Hidx |- *. by rewrite Hidx. }
rewrite BTB.set_type_conflict.
assert (∀ pc, 0 <= next_idx pc < BTB.num_entries a1) as Hrange.
{ intros pc'. destruct Hc1 as [Hwf (? & ? & ? & Hk)]. unfold BTB.wf in Hwf. rewrite Hk in Hwf.
  destruct Hwf as (? & _ & _ & _ & _ & ->). apply BTB.idx_bits_range. lia. }
splits; try done.
- destruct (BTB.apply_op_refines k w a1 (BTB.OpSetType (next_idx pc) (b2z r)) 0 Hc1)
    as (t & Ht & ? & _). by injection Ht as <-.
- intros pc'. rewrite <- Hr1.
  destruct (BTB.apply_op_refines k w a1 (BTB.OpSetType (next_idx pc) (b2z r)) pc' Hc1)
    as (t & Ht & _ & Hr). by injection Ht as <-.
- intros pc'. rewrite BTB.entry_type_set by apply Hrange.
  case_bool; [done|]. apply (BTB.entry_type_update _ _ _ _ _ Ha1).
Qed.

(** The target the BTB shows [predict]: hidden by the port conflict, or read. *)
Definition seen b (pc : Z) : Z :=
if BTB.has_rw_conflict (btb_ b) && bypass_valid_ b && negb (next_idx pc =? bypass_idx_ b)
then 0 else BTB.read k w (btb_ b) pc.

(** The return address that overrides it, if any. *)
Definition overriding b (pc : Z) : option Z :=
match ras_ b with
| Some ras => if negb (seen b pc =? 0) && (BTB.entry_type (btb_ b) (next_idx pc) =? 1)
              then head (RAS.contents ras) else None
| None => None
end.

Lemma btb_read_compressed b pc : BTB.compressed k w (btb_ b) → btb_read b pc = Ok (seen b pc).
Proof.
intros Hc. unfold btb_read, btb_idx, seen.
rewrite (BTB.lookup_read k w), (BTB.unit_index k w) by done. done.
Qed.

Lemma ras_override_compressed b pc d : wf b → BTB.compressed k w (btb_ b) →
ras_override b pc (seen b pc) d =
Ok (match overriding b pc with Some a => (a, true) | None => (seen b pc, d) end).
Proof.
intros (_ & _ & Hr) Hc. unfold ras_override, overriding, btb_idx.
rewrite (BTB.unit_index k w) by done. fold (next_idx pc).
destruct (ras_ b) as [ras|]; [|done]. destruct (RAS.top_spec ras Hr) as [-> ->].
destruct (negb (seen b pc =? 0) && (BTB.entry_type (btb_ b) (next_idx pc) =? 1)); [|done].
by destruct (RAS.contents ras).
Qed.

Lemma predict_compressed b pc : wf b → BTB.compressed k w (btb_ b) → word_ok pc →
∃ r b', predict b pc = Ok (r, b') ∧
  will_redirect r = pred_taken r && negb (pred_target r =? 0) ∧
  match overriding b pc with
  | Some a => pred_target r = a ∧ pred_taken r = true
  | None => pred_target r = seen b pc
  end.
Proof.
intros Hw Hc Hpc. unfold predict. cbv zeta.
set (b1 := b <| stats ::= count_access |>).
rewrite (btb_read_compressed b1 pc Hc). cbn [mbind res_bind].
destruct (predict_law (bpu_ b1) pc (seen b1 pc)) as (r & p & -> & Hp & _); [apply Hw | done |].
cbn [mbind res_bind]. set (b2 := b1 <| bpu_ := p |>).
assert (wf b2) as Hw2 by (split; [done | apply Hw]).
change (seen b1 pc) with (seen b2 pc). rewrite ras_override_compressed by done.
cbn [mbind res_bind]. change (overriding b pc) with (overriding b2 pc).
change (seen b pc) with (seen b2 pc).
destruct (overriding b2 pc); cbn [mbind res_bind]; eexists _, b2; by splits.
Qed.

(** C34: a taken branch teaches the BTB its target, and the one-port SRAM loses
  the other entries for one cycle.  In the tick after a taken branch at [pc] that
  is not a return was resolved, fetching [pc] again yields the resolved target
  (for a return the return stack would override it, see [call_return_predicted]),
  and with an SRAM BTB a fetch that reads another entry is never redirected,
  whatever was stored there. *)
Theorem taken_branch_learned b pc tgt c hit pred mis :
wf b → BTB.compressed k w (btb_ b) → word_ok pc → result_ok pred →
∃ b1, update b pc true tgt c false hit pred mis = Ok b1 ∧
  (∃ r b2, predict (begin_tick b1) pc = Ok (r, b2) ∧ pred_target r = tgt ∧
           will_redirect r = pred_taken r && negb (tgt =? 0)) ∧
  (∀ pc', word_ok pc' → BTB.has_rw_conflict (btb_ b) = true →
     btb_idx b pc' ≠ btb_idx b pc →
     ∃ r b2, predict (begin_tick b1) pc' = Ok (r, b2) ∧ will_redirect r = false).
Proof.
intros Hw Hc Hpc Hpr. unfold btb_idx. rewrite (BTB.unit_index k w _ pc Hc).
destruct (update_taken b pc tgt c false hit pred mis Hw Hc Hpc Hpr)
  as (b1 & Hu & Hw1 & Hc1 & Hcf & Hrd & Hty & Hwr & Hwi & _).
exists b1. split; [done|]. assert (wf (begin_tick b1)) as Hwt by exact Hw1. split.
- destruct (predict_compressed (begin_tick b1) pc Hwt Hc1 Hpc)
    as (r & b2 & Hp & Hred & Ht).
  assert (seen (begin_tick b1) pc = tgt) as Hs.
  { unfold seen. simpl. rewrite Hwi, Z.eqb_refl, andb_false_r, Hrd. by rewrite !Z.eqb_refl. }
  assert (overriding (begin_tick b1) pc = None) as Hov.
  { unfold overriding. simpl. rewrite Hty, Z.eqb_refl, andb_false_r. by destruct (ras_ b1). }
  rewrite Hov, Hs in Ht. exists r, b2. splits; try done. by rewrite Hred, Ht.
- intros pc' Hpc' Hconf Hne. rewrite (BTB.unit_index k w _ pc' Hc) in Hne.
  destruct (predict_compressed (begin_tick b1) pc' Hwt Hc1 Hpc')
    as (r & b2 & Hp & Hred & Ht).
  assert (seen (begin_tick b1) pc' = 0) as Hs.
  { unfold seen. simpl. rewrite Hcf, Hconf, Hwr, Hwi. simpl.
    destruct (Z.eqb_spec (next_idx pc') (next_idx pc)); done. }
  assert (overriding (begin_tick b1) pc' = None) as Hov.
  { unfold overriding. rewrite Hs. by destruct (ras_ _). }
  rewrite Hov, Hs in Ht. exists r, b2. split; [done|]. by rewrite Hred, Ht, andb_false_r.
Qed.



End laws.

(** ** Witnesses: BTFNT, 16 entries in SRAM, a RAS of four *)

Definition bu_ex : BranchUnit StaticPredictor :=
  make (make_static BTFNT) (Some (BTB.make_compressed 4 16 false)) 4.
Definition sinv (p : StaticPredictor) : Prop := True.

#[export] Instance sinv_laws : DirPredictorLaws StaticPredictor sinv := static_laws.

Lemma bu_ex_wf : wf sinv 4 16 bu_ex ∧ BTB.compressed 4 16 (btb_ bu_ex).
Proof.
  assert (BTB.wf 4 16 (BTB.make_compressed 4 16 false)) by (apply BTB.btb_wf_make; lia).
  split; [apply unit_wf_make; [done | done | lia]|]. split; [done|]. by eexists _, _, _.
Qed.

Lemma branch_unit_safe_witness : ∃ b preds,
  run (make (make_static BTFNT) (Some (BTB.make_compressed 4 16 false)) 4, [])
    [Fetch 16 true; Resolve 0 16 true 8 true false false; Tick; Fetch 20 true] = Ok (b, preds) ∧
  wf sinv 4 16 b ∧
  u64 (no_target (stats b) + bad_target (stats b) + bad_pred (stats b)) = u64 (misses (stats b)).
Proof.
  apply (branch_unit_safe sinv 4 16 (make_static BTFNT) (Some (BTB.make_compressed 4 16 false)) 4
    [Fetch 16 true; Resolve 0 16 true 8 true false false; Tick; Fetch 20 true]).
  - done.
  - apply BTB.btb_wf_make; lia.
  - lia.
  - unfold op_ok, word_ok. repeat constructor; lia.
Defined.

Lemma taken_branch_learned_witness :
  ∃ b1, update bu_ex 16 true 8 false false false branch_result_default true = Ok b1 ∧
    (∃ r b2, predict (begin_tick b1) 16 = Ok (r, b2) ∧ pred_target r = 8 ∧
             will_redirect r = pred_taken r && negb (8 =? 0)) ∧
    (∀ pc', word_ok pc' → BTB.has_rw_conflict (btb_ bu_ex) = true →
       btb_idx bu_ex pc' ≠ btb_idx bu_ex 16 →
       ∃ r b2, predict (begin_tick b1) pc' = Ok (r, b2) ∧ will_redirect r = false).
Proof.
  apply (taken_branch_learned sinv 4 16); [apply bu_ex_wf | apply bu_ex_wf | | apply default_ok].
  unfold word_ok. lia.
Defined.


(** What [judge] calls accurate.  The prediction is accurate exactly when
    the next pc it stands for, the redirect target or the fall-through, is the
    resolved one; a direction predicted taken without a target counts as
    fall-through. *)
Theorem judge_accurate {P} `{DirPredictor P} (b : BranchUnit P) taken tgt pred :
  (judge b taken tgt pred).1 =
  bool_decide ((if will_redirect pred then Some (pred_target pred) else None) =
               (if taken then Some tgt else None)).
Proof.
  unfold judge. destruct taken, (will_redirect pred); simpl.
  - destruct (Z.eqb_spec (pred_target pred) tgt) as [->|Hne]; simpl.
    + by rewrite bool_decide_true.
    + rewrite bool_decide_false; [done | congruence].
  - by destruct (pred_taken pred).
  - done.
  - done.
Qed.
End BU.
