(* ===== verification/Sdram.v ===== *)
(** * SDRAM timing

    [SdramModel] of [src/cacheSim/RamModel.hh]: open rows per host and bank,
    periodic refresh, and the occupancy of each host's controller, all in device
    cycles.  The theorem shows that the state is a function of the requests so
    far, and gives that function.  [int] arithmetic is checked ([int_]). *)

From S2P Require Import Prelude.

Module Sdram.

Definition DEV_MHZ : Z := 100.
Definition N_HOSTS : Z := 3.
Definition N_BANKS : Z := 4.
Definition REFRESH_PERIOD : Z := 781.
Definition PER_WORD : Z := 2.
Definition ACT_COST : Z := 3.
Definition PRE_COST : Z := 1.
Definition RD_BASE : Z := 2.
Definition WR_BASE : Z := 0.

Record Bank : Type := MkBank { open : bool; row : Z }.
#[global] Instance eta_Bank : Eta Bank := λ r, MkBank r.(open) r.(row).

Record SdramModel : Type := Mk {
  freq_ratio_ : Z;
  ctrl_free_at_ : list Z;
  next_refresh_tick_ : Z;
  banks_ : list (list Bank);
  row_hit_ : Z;
  row_miss_ : Z;
  row_conf_ : Z;
  refresh_count_ : Z;
  ctrl_stall_ : Z
}.
#[global] Instance eta_Sdram : Eta SdramModel := λ r,
  Mk r.(freq_ratio_) r.(ctrl_free_at_) r.(next_refresh_tick_) r.(banks_) r.(row_hit_)
     r.(row_miss_) r.(row_conf_) r.(refresh_count_) r.(ctrl_stall_).

Definition free_init : list Z := replicate 3 0.
Definition banks_init : list (list Bank) := replicate 3 (replicate 4 (MkBank false 0)).

(** [SdramModel(int cpu_freq_mhz)]: the quotient truncates towards zero. *)
Definition make (cpu_freq_mhz : Z) : SdramModel :=
  Mk (Z.quot cpu_freq_mhz DEV_MHZ) free_init REFRESH_PERIOD banks_init 0 0 0 0 0.

Definition bank_of (a : Z) : Z := Z.land (Z.shiftr a 10) 0x3.
Definition row_of (a : Z) : Z := Z.land (Z.shiftr a 12) 0x1FFF.

Definition close_all : list (list Bank) → list (list Bank) :=
  map (map (λ bk, bk <| open := false |>)).

Definition check_refresh (m : SdramModel) (dev_tick : Z) : res SdramModel :=
  if dev_tick <? next_refresh_tick_ m then mret m
  else
    let m := m <| banks_ ::= close_all |> in
    elapsed ← int_ (dev_tick - next_refresh_tick_ m);
    let n_refreshes := elapsed / REFRESH_PERIOD + 1 in
    step ← int_ (n_refreshes * REFRESH_PERIOD);
    next ← int_ (next_refresh_tick_ m + step);
    mret (m <| next_refresh_tick_ := next |>
            <| refresh_count_ := u64 (refresh_count_ m + n_refreshes) |>).

(** [cur_tick] is the caller's [tick_t] narrowed to [tint_t]. *)
Definition access (m : SdramModel) (addr bst_len : Z) (is_write : bool) (cur_tick host_id : Z)
    : res (Z * SdramModel) :=
  dev ← udiv (u32 cur_tick) (u32 (freq_ratio_ m));
  let dev_tick := i32 dev in
  let host := Z.min host_id (N_HOSTS - 1) in
  m ← check_refresh m dev_tick;
  free ← vec_at (ctrl_free_at_ m) host;
  let start_dev := Z.max dev_tick free in
  m ← (if dev_tick <? start_dev then
         stall ← int_ (start_dev - dev_tick);
         mret (m <| ctrl_stall_ := u64 (ctrl_stall_ m + stall) |>)
       else mret m);
  let b := bank_of addr in
  let r := row_of addr in
  hbanks ← vec_at (banks_ m) host;
  bank ← vec_at hbanks b;
  let '(extra, m) :=
    if negb (open bank) then (ACT_COST, m <| row_miss_ ::= incr |>)
    else if negb (row bank =? r) then (PRE_COST + ACT_COST, m <| row_conf_ ::= incr |>)
    else (0, m <| row_hit_ ::= incr |>) in
  let base := if is_write then WR_BASE else RD_BASE in
  dev_cyc ← int_ (PER_WORD * bst_len + base + extra);
  done_at ← int_ (start_dev + dev_cyc);
  frees ← vec_set (ctrl_free_at_ m) host done_at;
  hbanks ← vec_set hbanks b (MkBank true r);
  banks ← vec_set (banks_ m) host hbanks;
  let m := m <| ctrl_free_at_ := frees |> <| banks_ := banks |> in
  total_dev ← int_ (done_at - dev_tick);
  lat ← int_ (total_dev * freq_ratio_ m);
  mret (u32 lat, m).

Definition reset_stats (m : SdramModel) : SdramModel :=
  m <| row_hit_ := 0 |> <| row_miss_ := 0 |> <| row_conf_ := 0 |> <| refresh_count_ := 0 |>
    <| ctrl_stall_ := 0 |> <| ctrl_free_at_ := free_init |>
    <| next_refresh_tick_ := REFRESH_PERIOD |>
    <| banks_ ::= map (map (λ bk, bk <| open := false |> <| row := 0 |>)) |>.

(** ** Specification: the state as a function of the request history *)

Record Rq : Type := MkRq {
  rq_addr : Z; rq_len : Z; rq_write : bool; rq_tick : Z; rq_host : Z
}.

Inductive row_outcome : Type := RowHit | RowMiss | RowConflict.
#[export] Instance row_outcome_eq_dec : EqDecision row_outcome.
Proof. solve_decision. Defined.

Section spec.
(** CPU cycles per device cycle. *)
Context (q : Z).
Implicit Types (r : Rq) (past : list Rq).

Definition dev r : Z := rq_tick r / q.
Definition host r : Z := Z.min (rq_host r) 2.
(** Device time is cut into epochs by the refreshes. *)
Definition epoch_of r : Z := dev r / REFRESH_PERIOD.
Definition epoch past : Z := match past with [] => 0 | r :: _ => epoch_of r end.

(** The latest request to a host's bank; histories are most recent first. *)
Definition last_same past (h b : Z) : option Rq :=
  head (filter (λ r, host r = h ∧ bank_of (rq_addr r) = b) past).

(** A row is open exactly when it was used in the current epoch. *)
Definition outcome past r : row_outcome :=
  match last_same past (host r) (bank_of (rq_addr r)) with
  | Some r' => if epoch_of r' =? epoch_of r
               then if row_of (rq_addr r') =? row_of (rq_addr r) then RowHit else RowConflict
               else RowMiss
  | None => RowMiss
  end.

Definition cost past r : Z :=
  2 * rq_len r + (if rq_write r then 0 else 2) +
  match outcome past r with RowHit => 0 | RowMiss => 3 | RowConflict => 4 end.

(** When the controller of host [h] is free again. *)
Fixpoint free_at past (h : Z) : Z :=
  match past with
  | [] => 0
  | r :: past => if host r =? h then Z.max (dev r) (free_at past h) + cost past r
                 else free_at past h
  end.

(** Waiting plus service, in CPU cycles. *)
Definition latency past r : Z := (free_at (r :: past) (host r) - dev r) * q.

Fixpoint outcomes (o : row_outcome) past : Z :=
  match past with
  | [] => 0
  | r :: past => outcomes o past + b2z (bool_decide (outcome past r = o))
  end.

Fixpoint stalls past : Z :=
  match past with
  | [] => 0
  | r :: past => stalls past + Z.max 0 (free_at past (host r) - dev r)
  end.

Definition bank past (h b : Z) : Bank :=
  match last_same past h b with
  | Some r => MkBank (epoch_of r =? epoch past) (row_of (rq_addr r))
  | None => MkBank false 0
  end.

Definition state past : SdramModel :=
  Mk q ((λ h, free_at past h) <$> [0; 1; 2]) (REFRESH_PERIOD * (epoch past + 1))
     ((λ h, (λ b, bank past h b) <$> [0; 1; 2; 3]) <$> [0; 1; 2])
     (u64 (outcomes RowHit past)) (u64 (outcomes RowMiss past))
     (u64 (outcomes RowConflict past)) (epoch past) (u64 (stalls past)).
End spec.

(** ** Lemmas *)

Lemma bank_range a : 0 <= bank_of a < 4.
Proof. apply (land_mask_range _ 2). done. Qed.

(** Arrays indexed by host and by bank. *)
Lemma grid_at {A} (n : nat) (f : Z → A) h : (n <= 4)%nat → 0 <= h < Z.of_nat n →
  vec_at (f <$> take n [0; 1; 2; 3]) h = Ok (f h).
Proof.
  intros Hn Hh. assert (h = 0 ∨ h = 1 ∨ h = 2 ∨ h = 3) as Hc by lia.
  do 5 (destruct n as [|n]; [destruct Hc as [-> | [-> | [-> | ->]]]; try lia; done|]). lia.
Qed.

Lemma grid_set {A} (n : nat) (f : Z → A) h x : (n <= 4)%nat → 0 <= h < Z.of_nat n →
  vec_set (f <$> take n [0; 1; 2; 3]) h x =
  Ok ((λ i, if i =? h then x else f i) <$> take n [0; 1; 2; 3]).
Proof.
  intros Hn Hh. assert (h = 0 ∨ h = 1 ∨ h = 2 ∨ h = 3) as Hc by lia.
  do 5 (destruct n as [|n]; [destruct Hc as [-> | [-> | [-> | ->]]]; try lia; done|]). lia.
Qed.

Section proofs.
Context (q : Z) (Hq : 1 <= q).
Implicit Types (r : Rq) (past : list Rq).

(** What a caller guarantees: ticks do not go back, and no time computed here
    leaves the range of [int]. *)
Definition rq_ok past r : Prop :=
  match past with r' :: _ => rq_tick r' <= rq_tick r | [] => True end ∧
  0 <= rq_tick r ∧ 0 <= rq_len r ∧ 0 <= rq_host r ∧
  (free_at q (r :: past) (host r) + REFRESH_PERIOD) * q < 2 ^ 31.

Fixpoint admissible past (reqs : list Rq) : Prop :=
  match reqs with
  | [] => True
  | r :: reqs => rq_ok past r ∧ admissible (r :: past) reqs
  end.

Definition ordered past : Prop := Forall (λ r, 0 <= epoch_of q r <= epoch q past) past.

Lemma cost_nonneg past r : 0 <= rq_len r → 0 <= cost q past r <= 2 * rq_len r + 6.
Proof. unfold cost. destruct (rq_write r), (outcome q past r); lia. Qed.

Lemma epoch_mono past r : rq_ok past r → epoch q past <= epoch_of q r ∧ 0 <= epoch_of q r.
Proof.
  intros (Hm & Ht & _). assert (0 <= epoch_of q r).
  { apply Z.div_pos; [apply Z.div_pos; lia | done]. }
  split; [|done]. destruct past as [|r' past]; simpl; [done|].
  apply Z.div_le_mono; [done|]. apply Z.div_le_mono; lia.
Qed.

Lemma epoch_nonneg past : ordered past → 0 <= epoch q past.
Proof. intros [|r past' Hr _]; simpl in *; [done | lia]. Qed.

Lemma ordered_cons past r : rq_ok past r → ordered past → ordered (r :: past).
Proof.
  intros Hr Ho. destruct (epoch_mono past r Hr). constructor; simpl; [lia|].
  eapply Forall_impl; [|exact Ho]. simpl. intros; lia.
Qed.

Lemma last_same_cons past r h b :
  last_same (r :: past) h b =
  if decide (host r = h ∧ bank_of (rq_addr r) = b) then Some r else last_same past h b.
Proof. unfold last_same. rewrite filter_cons. by case_decide. Qed.

Lemma last_same_in past h b r : last_same past h b = Some r → r ∈ past.
Proof.
  unfold last_same. intros H. destruct (filter _ past) as [|r' l] eqn:E; [done|].
  injection H as ->. eapply list_elem_of_filter. rewrite E. left.
Qed.

(** The banks as the refresh check leaves them: rows of earlier epochs are
    closed. *)
Definition bank_now past (e h b : Z) : Bank :=
  match last_same past h b with
  | Some r => MkBank (epoch_of q r =? e) (row_of (rq_addr r))
  | None => MkBank false 0
  end.

Definition refreshed past (e : Z) : SdramModel :=
  state q past <| next_refresh_tick_ := REFRESH_PERIOD * (e + 1) |> <| refresh_count_ := e |>
    <| banks_ := (λ h, (λ b, bank_now past e h b) <$> [0; 1; 2; 3]) <$> [0; 1; 2] |>.

Lemma bank_close past h b e : ordered past → epoch q past < e →
  MkBank false (row (bank q past h b)) = bank_now past e h b.
Proof.
  intros Ho He. unfold bank, bank_now. destruct (last_same past h b) as [r|] eqn:E; [|done].
  cbn. f_equal. apply last_same_in in E.
  unfold ordered in Ho. rewrite Forall_forall in Ho. apply list_elem_of_In, Ho in E.
  symmetry. apply Z.eqb_neq. lia.
Qed.

Lemma dev_bounds past r : rq_ok past r →
  0 <= dev q r ∧ dev q r <= free_at q (r :: past) (host r) - cost q past r ∧
  free_at q past (host r) <= free_at q (r :: past) (host r) - cost q past r ∧
  0 <= cost q past r ∧
  free_at q (r :: past) (host r) + REFRESH_PERIOD < 2 ^ 31 ∧
  free_at q (r :: past) (host r) * q < 2 ^ 31.
Proof.
  intros (_ & Ht & Hl & _ & Hb). pose proof (cost_nonneg past r Hl).
  assert (0 <= dev q r) by (apply Z.div_pos; lia).
  simpl in *. rewrite Z.eqb_refl in *. unfold REFRESH_PERIOD in *. splits; try lia; nia.
Qed.

Lemma check_refresh_state past r : rq_ok past r → ordered past →
  check_refresh (state q past) (dev q r) = Ok (refreshed past (epoch_of q r)).
Proof.
  intros Hr Ho. destruct (epoch_mono past r Hr) as [He _].
  destruct (dev_bounds past r Hr) as (Hd & Hf & _ & Hc & Hb & _).
  pose proof (epoch_nonneg past Ho) as He0. unfold epoch_of, REFRESH_PERIOD in *.
  pose proof (Z.div_mod (dev q r) 781). pose proof (Z.mod_pos_bound (dev q r) 781).
  unfold check_refresh, refreshed, epoch_of. simpl next_refresh_tick_. unfold REFRESH_PERIOD in *.
  destruct (Z.ltb_spec (dev q r) (781 * (epoch q past + 1))).
  - assert (dev q r / 781 = epoch q past) as -> by lia. done.
  - cbv zeta. change (next_refresh_tick_ (state q past <| banks_ ::= close_all |>))
      with (781 * (epoch q past + 1)).
    rewrite int_small by lia. cbn [mbind res_bind].
    assert ((dev q r - 781 * (epoch q past + 1)) / 781 + 1 = dev q r / 781 - epoch q past) as ->.
    { replace (dev q r - 781 * (epoch q past + 1)) with (dev q r + (- (epoch q past + 1)) * 781) by lia.
      rewrite Z.div_add by lia. lia. }
    do 2 (rewrite int_small by lia; cbn [mbind res_bind]).
    change (refresh_count_ (state q past <| banks_ ::= close_all |>)) with (epoch q past).
    rewrite (u64_small (_ + _)) by lia.
    replace (epoch q past + (dev q r / 781 - epoch q past)) with (dev q r / 781) by lia.
    replace (781 * (epoch q past + 1) + (dev q r / 781 - epoch q past) * 781)
      with (781 * (dev q r / 781 + 1)) by lia.
    assert (close_all (banks_ (state q past)) =
            (λ h, (λ b, bank_now past (dev q r / 781) h b) <$> [0; 1; 2; 3]) <$> [0; 1; 2]) as Hb'.
    { unfold close_all. cbn -[bank bank_now]. by rewrite !(bank_close past _ _ (dev q r / 781)) by (done || lia). }
    rewrite <- Hb'. cbn -[close_all]. done.
Qed.

Lemma bank_now_cons past r h b : rq_ok past r →
  (if h =? host r then if b =? bank_of (rq_addr r) then MkBank true (row_of (rq_addr r))
                       else bank_now past (epoch_of q r) h b
   else bank_now past (epoch_of q r) h b) = bank q (r :: past) h b.
Proof.
  intros Hr. unfold bank, bank_now. rewrite last_same_cons. simpl epoch.
  destruct (Z.eqb_spec h (host r)) as [->|?], (Z.eqb_spec b (bank_of (rq_addr r))) as [->|?];
    case_decide; try tauto; try naive_solver; try done.
  by rewrite Z.eqb_refl.
Qed.

Lemma outcome_now past r : outcome q past r =
  let bk := bank_now past (epoch_of q r) (host r) (bank_of (rq_addr r)) in
  if negb (open bk) then RowMiss
  else if negb (row bk =? row_of (rq_addr r)) then RowConflict else RowHit.
Proof.
  unfold outcome, bank_now. destruct (last_same _ _ _) as [r'|]; [|done]. simpl.
  destruct (epoch_of q r' =? epoch_of q r); [|done]. simpl.
  by destruct (row_of (rq_addr r') =? row_of (rq_addr r)).
Qed.

(** The stall counter after the controller has been waited for. *)
Lemma stall_state past r : rq_ok past r →
  let start := Z.max (dev q r) (free_at q past (host r)) in
  let m := refreshed past (epoch_of q r) in
  (if dev q r <? start then
     stall ← int_ (start - dev q r);
     mret (m <| ctrl_stall_ := u64 (ctrl_stall_ m + stall) |>)
   else mret m) =
  Ok (m <| ctrl_stall_ := u64 (stalls q (r :: past)) |>).
Proof.
  intros Hr start m. destruct (dev_bounds past r Hr) as (Hd & Hf & Hg & Hc & Hb & Hbq).
  unfold REFRESH_PERIOD in *.
  change (ctrl_stall_ m) with (u64 (stalls q past)). simpl stalls. unfold start.
  destruct (Z.ltb_spec (dev q r) (Z.max (dev q r) (free_at q past (host r)))).
  - rewrite int_small by lia. cbn [mbind res_bind].
    by rewrite u64_add_l, <- Z.sub_max_distr_r, Z.sub_diag.
  - rewrite Z.max_l by lia. by rewrite Z.add_0_r.
Qed.

(** The row outcome read off the banks, and its counter. *)
Lemma count_state past r (m : SdramModel) :
  row_hit_ m = u64 (outcomes q RowHit past) → row_miss_ m = u64 (outcomes q RowMiss past) →
  row_conf_ m = u64 (outcomes q RowConflict past) →
  let bk := bank_now past (epoch_of q r) (host r) (bank_of (rq_addr r)) in
  (if negb (open bk) then (ACT_COST, m <| row_miss_ ::= incr |>)
   else if negb (row bk =? row_of (rq_addr r))
        then (PRE_COST + ACT_COST, m <| row_conf_ ::= incr |>)
        else (0, m <| row_hit_ ::= incr |>)) =
  (match outcome q past r with RowHit => 0 | RowMiss => 3 | RowConflict => 4 end,
   m <| row_hit_ := u64 (outcomes q RowHit (r :: past)) |>
     <| row_miss_ := u64 (outcomes q RowMiss (r :: past)) |>
     <| row_conf_ := u64 (outcomes q RowConflict (r :: past)) |>).
Proof.
  destruct m as [f1 f2 f3 f4 f5 f6 f7 f8 f9]. simpl. intros -> -> ->.
  rewrite outcome_now. cbv zeta.
  destruct (bank_now _ _ _ _) as [o k]. simpl.
  destruct o, (k =? row_of (rq_addr r)); simpl; rewrite ?Z.add_0_r; cbn; by rewrite ?incr_u64.
Qed.

Lemma access_state past r : rq_ok past r → ordered past →
  access (state q past) (rq_addr r) (rq_len r) (rq_write r) (rq_tick r) (rq_host r) =
  Ok (latency q past r, state q (r :: past)).
Proof.
  intros Hr Ho. destruct (dev_bounds past r Hr) as (Hd & Hf & Hg & Hc & Hb & Hbq).
  pose proof Hr as (_ & Ht & Hl & Hh & Hbq'). unfold REFRESH_PERIOD in *.
  assert (q < 2 ^ 31 ∧ rq_tick r < 2 ^ 31) as [Hq31 Ht31].
  { pose proof (Z.mul_div_le (rq_tick r) q). pose proof (Z.mod_pos_bound (rq_tick r) q).
    pose proof (Z.div_mod (rq_tick r) q). unfold dev in *. nia. }
  unfold access. cbv zeta. change (freq_ratio_ (state q past)) with q.
  rewrite !u32_small by lia. unfold udiv. rewrite (proj2 (Z.eqb_neq q 0)) by lia.
  cbn [mbind res_bind]. fold (dev q r). rewrite i32_small by lia.
  rewrite check_refresh_state by done. cbn [mbind res_bind].
  change (Z.min (rq_host r) (N_HOSTS - 1)) with (host r).
  assert (0 <= host r < 3) as Hhr by (unfold host; lia).
  change (ctrl_free_at_ (refreshed past (epoch_of q r)))
    with ((λ h, free_at q past h) <$> take 3 [0; 1; 2; 3]).
  rewrite grid_at by lia. cbn [mbind res_bind].
  rewrite (stall_state past r Hr). cbn [mbind res_bind].
  set (start := Z.max (dev q r) (free_at q past (host r))).
  set (m1 := refreshed past (epoch_of q r) <| ctrl_stall_ := _ |>).
  change (banks_ m1) with ((λ h, (λ b, bank_now past (epoch_of q r) h b) <$> take 4 [0; 1; 2; 3])
                           <$> take 3 [0; 1; 2; 3]).
  pose proof (bank_range (rq_addr r)) as Hbr.
  rewrite grid_at by lia. cbn [mbind res_bind]. rewrite grid_at by lia. cbn [mbind res_bind].
  rewrite (count_state past r m1) by done.
  set (extra := match outcome q past r with RowHit => 0 | RowMiss => 3 | RowConflict => 4 end).
  cbn [mbind res_bind].
  assert (PER_WORD * rq_len r + (if rq_write r then WR_BASE else RD_BASE) + extra = cost q past r)
    as -> by done.
  rewrite int_small by lia. cbn [mbind res_bind].
  assert (start + cost q past r = free_at q (r :: past) (host r)) as Hdone.
  { simpl. by rewrite Z.eqb_refl. }
  rewrite Hdone, int_small by lia. cbn [mbind res_bind].
  set (m2 := m1 <| row_hit_ := _ |> <| row_miss_ := _ |> <| row_conf_ := _ |>).
  change (ctrl_free_at_ m2) with ((λ h, free_at q past h) <$> take 3 [0; 1; 2; 3]).
  change (banks_ m2) with ((λ h, (λ b, bank_now past (epoch_of q r) h b) <$> take 4 [0; 1; 2; 3])
                           <$> take 3 [0; 1; 2; 3]).
  change (freq_ratio_ (m2 <| ctrl_free_at_ := _ |> <| banks_ := _ |>)) with q.
  rewrite grid_set by lia. cbn [mbind res_bind]. rewrite grid_set by lia. cbn [mbind res_bind].
  rewrite grid_set by lia. cbn [mbind res_bind]. rewrite int_small by lia. cbn [mbind res_bind].
  rewrite int_small by nia. cbn [mbind res_bind].
  fold (latency q past r). rewrite u32_small by (unfold latency; nia).
  do 2 f_equal.
  assert (((λ i, if i =? host r then free_at q (r :: past) (host r) else free_at q past i)
           <$> take 3 [0; 1; 2; 3]) = ctrl_free_at_ (state q (r :: past))) as ->.
  { apply list_fmap_ext. intros _ h _. simpl. rewrite Z.eqb_refl.
    destruct (Z.eqb_spec h (host r)) as [->|Hne]; [by rewrite Z.eqb_refl|].
    by rewrite (proj2 (Z.eqb_neq (host r) h)) by lia. }
  set (bs := _ <$> take 3 [0; 1; 2; 3]).
  assert (bs = banks_ (state q (r :: past))) as ->; [|done].
  apply list_fmap_ext. intros _ h _. destruct (Z.eqb_spec h (host r)) as [->|Hne];
    apply list_fmap_ext; intros _ b _; rewrite <- (bank_now_cons past r) by done.
  - rewrite Z.eqb_refl. done.
  - by rewrite (proj2 (Z.eqb_neq h (host r)) Hne).
Qed.
End proofs.

Fixpoint run (m : SdramModel) (reqs : list Rq) : res (list Z * SdramModel) :=
  match reqs with
  | [] => mret ([], m)
  | r :: reqs =>
    '(lat, m) ← access m (rq_addr r) (rq_len r) (rq_write r) (rq_tick r) (rq_host r);
    '(lats, m) ← run m reqs;
    mret (lat :: lats, m)
  end.

(** The latencies the specification gives to [reqs] after [past]. *)
Fixpoint latencies (q : Z) (past reqs : list Rq) : list Z :=
  match reqs with
  | [] => []
  | r :: reqs => latency q past r :: latencies q (r :: past) reqs
  end.

Lemma make_state freq : 100 <= freq → make freq = state (freq / 100) [].
Proof. intros. unfold make, DEV_MHZ. by rewrite Z.quot_div_nonneg by lia. Qed.

Lemma run_state q past reqs : 1 <= q → ordered q past → admissible q past reqs →
  run (state q past) reqs = Ok (latencies q past reqs, state q (rev reqs ++ past)).
Proof.
  intros Hq. revert past. induction reqs as [|r reqs IH]; intros past Ho Ha; [done|].
  destruct Ha as [Hr Ha]. cbn [run]. rewrite access_state by done. cbn [mbind res_bind].
  rewrite IH by (done || by apply ordered_cons). cbn [mbind res_bind]. simpl.
  by rewrite <- (assoc_L (++)).
Qed.

(** C21: the SDRAM model is a function of the request history.  Ticks not
    decreasing and times within [int], every access succeeds; it takes the time
    its controller is still busy plus two device cycles per word, two for a
    read, and three or four for opening the row unless the last request to the
    same bank was to the same row and in the same refresh epoch; and the final
    state is the one the history prescribes, its counters included: the refresh
    count is the last device tick divided by the period. *)
Theorem sdram_refines freq reqs : 100 <= freq →
  admissible (freq / 100) [] reqs →
  run (make freq) reqs = Ok (latencies (freq / 100) [] reqs, state (freq / 100) (rev reqs)).
Proof.
  intros Hf Ha. rewrite make_state, run_state by (done || constructor || apply Z.div_le_lower_bound; lia).
  by rewrite app_nil_r.
Qed.

(** At 600 MHz: a miss, a hit, a conflict, a write after a refresh. *)
Lemma sdram_refines_witness :
  run (make 600) [MkRq 0x1000 4 false 60 0; MkRq 0x1010 4 false 200 0;
                  MkRq 0x2000 4 false 400 0; MkRq 0x2000 1 true 6000 2] =
  Ok ([78; 60; 84; 30], state 6 (rev
     [MkRq 0x1000 4 false 60 0; MkRq 0x1010 4 false 200 0;
      MkRq 0x2000 4 false 400 0; MkRq 0x2000 1 true 6000 2])).
Proof.
  apply (sdram_refines 600 [MkRq 0x1000 4 false 60 0; MkRq 0x1010 4 false 200 0;
    MkRq 0x2000 4 false 400 0; MkRq 0x2000 1 true 6000 2]); [lia|].
  vm_compute. repeat split; discriminate.
Defined.

(** Resetting the statistics also resets the timing.  After any admissible
    run, [reset_stats] leaves the power-up state: all rows closed, the
    controllers free and the next refresh due at device tick 781, although
    simulated time goes on.  The first access after the reset, at device tick
    [d], therefore counts [d / 781] refreshes: all those before the reset. *)
Theorem reset_is_power_up freq reqs r lats m : 100 <= freq →
  admissible (freq / 100) [] reqs → run (make freq) reqs = Ok (lats, m) →
  rq_ok (freq / 100) [] r →
  reset_stats m = make freq ∧
  ∃ lat m', access (reset_stats m) (rq_addr r) (rq_len r) (rq_write r) (rq_tick r) (rq_host r)
              = Ok (lat, m') ∧ refresh_count_ m' = rq_tick r / (freq / 100) / REFRESH_PERIOD.
Proof.
  intros Hf Ha Hrun Hr. assert (1 <= freq / 100) as Hq by (apply Z.div_le_lower_bound; lia).
  rewrite make_state, run_state in Hrun by (done || constructor). injection Hrun as <- <-.
  assert (reset_stats (state (freq / 100) (rev reqs ++ [])) = state (freq / 100) []) as -> by done.
  split; [by rewrite make_state|]. rewrite access_state by (done || constructor). eauto.
Qed.

Lemma reset_is_power_up_witness :
  reset_stats (state 6 [MkRq 0x1000 4 false 60000 0]) = make 600 ∧
  ∃ lat m', access (reset_stats (state 6 [MkRq 0x1000 4 false 60000 0])) 0x1000 4 false 60060 0
              = Ok (lat, m') ∧ refresh_count_ m' = 12.
Proof.
  apply (reset_is_power_up 600 [MkRq 0x1000 4 false 60000 0] (MkRq 0x1000 4 false 60060 0) [78]);
    [lia | | reflexivity |]; vm_compute; repeat split; discriminate.
Defined.

(** Device time is computed from 32 bits of the tick.  At 1 GHz, two reads
    of the same word ten CPU cycles apart, with the 64-bit tick passing 2^32 in
    between: device time falls back to 0 and the second request is made to wait
    for the 429,496,736th device cycle, which in CPU cycles leaves the range of
    [int]. *)
Theorem tick_truncation :
  ∃ m, access (make 1000) 0x1000 1 false (2 ^ 32 - 6) 0 = Ok (70, m) ∧
       ctrl_free_at_ m !! 0%nat = Some 429496736 ∧
       access m 0x1000 1 false (2 ^ 32 + 4) 0 = Err SignedOverflow.
Proof. eexists. split; [vm_compute; reflexivity|]. by vm_compute. Qed.

End Sdram.
