(* ===== verification/Repl.v ===== *)
(** * Cache lines and replacement policies

    [CacheLine] of [src/cacheSim/CacheLine.hh] and the four policies of
    [src/cacheSim/ReplPolicy.hh] and [.cc].  A [CacheLine*] is a way of a set;
    the policy class hierarchy is the sum type [ReplPolicy]. *)

From stdpp Require Import strings.
From S2P Require Import Prelude.

Module Line.

Record CacheLine : Type := Mk {
  tag : Z;
  valid : bool;
  dirty : bool;
  data : list Z;
  stamp : Z;
  is_prefetched : bool
}.
#[global] Instance eta_CacheLine : Eta CacheLine := λ r,
  Mk r.(tag) r.(valid) r.(dirty) r.(data) r.(stamp) r.(is_prefetched).

(** [CacheLine(line_size)] *)
Definition make (line_size : Z) : CacheLine :=
  Mk 0 false false (replicate (Z.to_nat (Z.shiftr line_size WordShift)) 0) 0 false.

Definition invalidate (l : CacheLine) : CacheLine :=
  l <| tag := 0 |> <| stamp := 0 |> <| valid := false |>.
Definition activate (now : Z) (l : CacheLine) : CacheLine :=
  l <| valid := true |> <| dirty := false |> <| stamp := now |>.
Definition setTag (t : Z) (l : CacheLine) : CacheLine := l <| tag := t |>.
Definition setDirty (l : CacheLine) : CacheLine := l <| dirty := true |>.

(** [setVecData] is empty in the timing-only build. *)
Definition setVecData (input : list Z) (l : CacheLine) : CacheLine := l.

Definition atAligned (l : CacheLine) (off : Z) : res Z :=
  vec_at (data l) (Z.shiftr off WordShift).
Definition set_atAligned (l : CacheLine) (off v : Z) : res CacheLine :=
  d ← vec_set (data l) (Z.shiftr off WordShift) v; mret (l <| data := d |>).

(** [l.isValid() && l.getTag() == tag] *)
Definition matches (t : Z) (l : CacheLine) : bool := valid l && (tag l =? t).

End Line.
Export Line (CacheLine).

Module Repl.
Import Line.

Inductive ReplPolicy : Type :=
| LRU
| SRRIP
| RoundRobin (assoc_ : Z) (ptr_ : list Z)
| PLRU (assoc_ : Z) (bits_ : list Z).

Definition make_rr (assoc num_sets : Z) : ReplPolicy :=
  RoundRobin assoc (replicate (Z.to_nat num_sets) 0).
Definition make_plru (assoc num_sets : Z) : ReplPolicy :=
  PLRU assoc (replicate (Z.to_nat num_sets) 0).

(** [std::min_element] and [std::max_element]: the first of the extreme ones.
    [best] at index [bi] leads; [l] starts at index [i]. *)
Fixpoint extreme (better : Z → Z → bool) (best : Z) (bi i : nat) (l : list Z) : nat :=
  match l with
  | [] => bi
  | x :: l => if better x best then extreme better x i (S i) l
              else extreme better best bi (S i) l
  end.

Definition min_stamp (set : list CacheLine) : res Z :=
  match stamp <$> set with
  | [] => Err AssertFailed
  | s :: l => mret (Z.of_nat (extreme Z.ltb s 0 1 l))
  end.
Definition max_stamp (set : list CacheLine) : res Z :=
  match stamp <$> set with
  | [] => Err AssertFailed
  | s :: l => mret (Z.of_nat (extreme (λ x best, best <? x) s 0 1 l))
  end.

Definition plru_assoc_ok (assoc : Z) : bool := (assoc =? 1) || (assoc =? 2) || (assoc =? 4).

(** [PLRUReplPolicy::victim_way] *)
Definition victim_way (assoc : Z) (bits_ : list Z) (set_idx : Z) : res Z :=
  _ ← assert_ (plru_assoc_ok assoc);
  if assoc =? 1 then mret 0
  else
    bits ← vec_at bits_ set_idx;
    let b0 := Z.testbit bits 0 in
    let b1 := Z.testbit bits 1 in
    let b2 := Z.testbit bits 2 in
    if assoc =? 2 then mret (if b0 then 0 else 1)
    else mret (if b0 then (if b1 then 0 else 1) else (if b2 then 2 else 3)).

(** [PLRUReplPolicy::update_bits] *)
Definition update_bits (assoc : Z) (bits_ : list Z) (set_idx way_idx : Z) : res (list Z) :=
  _ ← assert_ (plru_assoc_ok assoc);
  if assoc =? 1 then vec_set bits_ set_idx 0
  else if assoc =? 2 then vec_set bits_ set_idx (u8 (Z.land way_idx 1))
  else
    bits ← vec_at bits_ set_idx;
    let b1 := Z.land (Z.shiftr bits 1) 1 in
    let b2 := Z.land (Z.shiftr bits 2) 1 in
    let w0 := Z.land way_idx 1 in
    let w1 := Z.land (Z.shiftr way_idx 1) 1 in
    let newB0 := w1 in
    let newB1 := if w1 =? 0 then w0 else b1 in
    let newB2 := if w1 =? 0 then b2 else w0 in
    vec_set bits_ set_idx (u8 (Z.lor (Z.lor newB0 (Z.shiftl newB1 1)) (Z.shiftl newB2 2))).

(** [getVictim(set_idx, set)]: the way of the returned line. *)
Definition getVictim (p : ReplPolicy) (set_idx : Z) (set : list CacheLine) : res Z :=
  _ ← assert_ (negb (zlen set =? 0));
  match p with
  | LRU => min_stamp set
  | SRRIP => max_stamp set
  | RoundRobin assoc ptr =>
    k ← vec_at ptr set_idx; idx ← umod k assoc; _ ← vec_at set idx; mret idx
  | PLRU assoc bits => idx ← victim_way assoc bits set_idx; _ ← vec_at set idx; mret idx
  end.

Definition onHit (p : ReplPolicy) (now set_idx way_idx : Z) (line : CacheLine)
    : res (ReplPolicy * CacheLine) :=
  match p with
  | LRU => mret (p, line <| stamp := now |>)
  | SRRIP => mret (p, line <| stamp := 0 |>)
  | RoundRobin _ _ => mret (p, line)
  | PLRU assoc bits => bits ← update_bits assoc bits set_idx way_idx; mret (PLRU assoc bits, line)
  end.

Definition onFill (p : ReplPolicy) (now set_idx way_idx : Z) (line : CacheLine)
    : res (ReplPolicy * CacheLine) :=
  match p with
  | LRU => mret (p, line <| stamp := now |>)
  | SRRIP => mret (p, line <| stamp := 2 |>)
  | RoundRobin assoc ptr =>
    k ← vec_at ptr set_idx; k' ← umod (k + 1) assoc; ptr ← vec_set ptr set_idx k';
    mret (RoundRobin assoc ptr, line)
  | PLRU assoc bits => bits ← update_bits assoc bits set_idx way_idx; mret (PLRU assoc bits, line)
  end.

(** [make_repl_policy]; the text after the failing assertion is unreachable. *)
Definition make_repl_policy (name : string) (assoc num_sets : Z) : res ReplPolicy :=
  if decide (name = "plru"%string) then mret (make_plru assoc num_sets)
  else if decide (name = "lru"%string) then mret LRU
  else if decide (name = "srrip"%string) then mret SRRIP
  else if decide (name = "rr"%string) then mret (make_rr assoc num_sets)
  else Err AssertFailed.

(** ** What the cache relies on *)

(** [ok n a p]: [p] serves [n] sets of [a] ways. *)
Definition ok (n a : Z) (p : ReplPolicy) : Prop :=
  match p with
  | LRU | SRRIP => True
  | RoundRobin assoc ptr => assoc = a ∧ zlen ptr = n ∧ Forall (λ k, 0 <= k < a) ptr
  | PLRU assoc bits => assoc = a ∧ plru_assoc_ok a = true ∧ zlen bits = n ∧ Forall byte_ok bits
  end.

Lemma make_repl_ok name assoc sets : name ∈ ["plru"; "lru"; "srrip"; "rr"]%string → 0 < assoc → 0 <= sets →
  (name = "plru"%string → plru_assoc_ok assoc = true) →
  ∃ p, make_repl_policy name assoc sets = Ok p ∧ ok sets assoc p.
Proof.
  intros Hn Ha Hs Hp. rewrite !elem_of_cons, elem_of_nil in Hn.
  destruct Hn as [-> | [-> | [-> | [-> | []]]]]; (eexists; split; [reflexivity|]); try done; unfold make_plru, make_rr; simpl.
  - split; [done|]. split; [by apply Hp|]. split; [by apply zlen_replicate|]. by apply Forall_replicate.
  - split; [done|]. split; [by apply zlen_replicate|]. apply Forall_replicate. lia.
Qed.

Lemma extreme_range better best bi i l n :
  (bi < n)%nat → (i + length l <= n)%nat → (extreme better best bi i l < n)%nat.
Proof.
  revert best bi i. induction l as [|x l IH]; intros best bi i Hb Hi; simpl in *; [done|].
  destruct (better x best); apply IH; lia.
Qed.

Lemma getVictim_ok n a p si (set : list CacheLine) :
  ok n a p → 0 < a → zlen set = a → 0 <= si < n →
  ∃ w, getVictim p si set = Ok w ∧ 0 <= w < a.
Proof.
  intros Hp Ha Hl Hs. unfold getVictim.
  destruct (Z.eqb_spec (zlen set) 0) as [|_]; [lia|]. cbn [negb assert_ mbind res_bind].
  assert (∀ f b, ∃ w, match stamp <$> set with
      | [] => Err AssertFailed | s :: l => mret (Z.of_nat (extreme f s b 1 l)) end = Ok w ∧
      (b = 0%nat → 0 <= w < a)) as Hext.
  { intros f b. unfold zlen in Hl. destruct set as [|x set]; [simpl in Hl; lia|].
    rewrite fmap_cons. eexists. split; [done|]. intros ->. rewrite length_cons in Hl.
    assert (extreme f (stamp x) 0 1 (stamp <$> set) < S (length set))%nat; [|lia].
    apply extreme_range; [lia|]. rewrite length_fmap. lia. }
  destruct p as [| | assoc ptr | assoc bits].
  - destruct (Hext Z.ltb 0%nat) as (w & ? & ?). eauto.
  - destruct (Hext (λ x best, best <? x) 0%nat) as (w & ? & ?). eauto.
  - destruct Hp as (-> & Hn & Hf). destruct (vec_at_lt ptr si) as [k Hk]; [lia|].
    rewrite Hk. cbn [mbind res_bind]. unfold umod. rewrite (proj2 (Z.eqb_neq a 0)) by lia.
    cbn [mbind res_bind]. assert (0 <= k mod a < a) by (apply Z.mod_pos_bound; lia).
    destruct (vec_at_lt set (k mod a)) as [x ->]; [lia|]. cbn [mbind res_bind]. eauto.
  - destruct Hp as (-> & Hok & Hn & Hf). unfold victim_way. rewrite Hok. cbn [assert_ mbind res_bind].
    unfold plru_assoc_ok in Hok.
    destruct (vec_at_lt bits si) as [k Hk]; [lia|]. rewrite Hk.
    assert (∃ w, 0 <= w < a ∧ (if a =? 1 then mret 0 else
      bits0 ← Ok k;
      if a =? 2 then mret (if Z.testbit bits0 0 then 0 else 1)
      else mret (if Z.testbit bits0 0 then (if Z.testbit bits0 1 then 0 else 1)
                 else (if Z.testbit bits0 2 then 2 else 3))) = Ok w) as (w & Hw & ->).
    { destruct (Z.eqb_spec a 1), (Z.eqb_spec a 2), (Z.eqb_spec a 4); try done; try lia;
        eexists; (split; [|reflexivity]); repeat case_match; lia. }
    cbn [mbind res_bind]. destruct (vec_at_lt set w) as [x ->]; [lia|]. cbn [mbind res_bind]. eauto.
Qed.

Lemma update_bits_ok n a bits si w : plru_assoc_ok a = true → zlen bits = n →
  Forall byte_ok bits → 0 <= si < n →
  ∃ b, update_bits a bits si w = Ok (<[Z.to_nat si := b]> bits) ∧ byte_ok b.
Proof.
  intros Ha Hn Hf Hs. unfold update_bits. rewrite Ha. cbn [assert_ mbind res_bind].
  assert (∀ x, byte_ok (u8 x)) as Hu by (intros; by apply Z.mod_pos_bound).
  destruct (vec_at_lt bits si) as [k Hk]; [lia|].
  repeat case_bool; rewrite ?Hk; cbn [mbind res_bind]; rewrite vec_set_lt by lia;
    eexists; (split; [done|]); auto; unfold byte_ok; lia.
Qed.

Lemma onHit_ok n a p now si w line : ok n a p → 0 <= si < n →
  ∃ p' line', onHit p now si w line = Ok (p', line') ∧ ok n a p' ∧
    tag line' = tag line ∧ valid line' = valid line ∧ dirty line' = dirty line ∧
    data line' = data line ∧ is_prefetched line' = is_prefetched line.
Proof.
  intros Hp Hs. destruct p as [| | assoc ptr | assoc bits]; simpl; [by eexists _, _ ..|].
  destruct Hp as (-> & Ha & Hn & Hf).
  destruct (update_bits_ok n a bits si w Ha Hn Hf Hs) as (b & -> & Hb). cbn [mbind res_bind].
  eexists _, _. splits; try done. split; [done|]. split; [done|].
  rewrite zlen_insert. split; [done|]. by apply Forall_insert.
Qed.

Lemma onFill_ok n a p now si w line : ok n a p → 0 < a → 0 <= si < n →
  ∃ p' line', onFill p now si w line = Ok (p', line') ∧ ok n a p' ∧
    tag line' = tag line ∧ valid line' = valid line ∧ dirty line' = dirty line ∧
    data line' = data line ∧ is_prefetched line' = is_prefetched line.
Proof.
  intros Hp Ha0 Hs. destruct p as [| | assoc ptr | assoc bits]; simpl; [by eexists _, _ .. | |].
  - destruct Hp as (-> & Hn & Hf). destruct (vec_at_lt ptr si) as [k ->]; [lia|].
    cbn [mbind res_bind]. unfold umod. rewrite (proj2 (Z.eqb_neq a 0)) by lia.
    cbn [mbind res_bind]. rewrite vec_set_lt by lia. cbn [mbind res_bind].
    eexists _, _. splits; try done. split; [done|]. rewrite zlen_insert. split; [done|].
    apply Forall_insert; [done|]. apply Z.mod_pos_bound. lia.
  - destruct Hp as (-> & Ha & Hn & Hf).
    destruct (update_bits_ok n a bits si w Ha Hn Hf Hs) as (b & -> & Hb). cbn [mbind res_bind].
    eexists _, _. splits; try done. split; [done|]. split; [done|].
    rewrite zlen_insert. split; [done|]. by apply Forall_insert.
Qed.

(** ** Miss sequences

    [fills k p now si set]: [k] times in a row, choose a victim of set [si] and
    fill it; the ways chosen, in order. *)
Definition fill_one (p : ReplPolicy) (now si : Z) (set : list CacheLine)
    : res (Z * ReplPolicy * list CacheLine) :=
  w ← getVictim p si set;
  line ← vec_at set w;
  '(p, line) ← onFill p now si w (activate now (invalidate line));
  set ← vec_set set w line;
  mret (w, p, set).

Fixpoint fills (k : nat) (p : ReplPolicy) (now si : Z) (set : list CacheLine)
    : res (list Z * ReplPolicy * list CacheLine) :=
  match k with
  | O => mret ([], p, set)
  | S k =>
    '(w, p, set) ← fill_one p now si set;
    '(ws, p, set) ← fills k p (now + 1) si set;
    mret (w :: ws, p, set)
  end.

(** *** PLRU *)

Lemma bit_value k i : 0 <= i → Z.land (Z.shiftr k i) 1 = b2z (Z.testbit k i).
Proof.
  intros. change 1 with (2 ^ 1 - 1). rewrite land_mask_mod, Z.shiftr_div_pow2 by lia.
  change (2 ^ 1) with 2. rewrite <- Z.testbit_spec' by done. by destruct (Z.testbit k i).
Qed.

(** The tree of four ways, as its three bits. *)
Definition plru4 (b0 b1 b2 : bool) : Z := b2z b0 + 2 * b2z b1 + 4 * b2z b2.
Definition victim4 (b0 b1 b2 : bool) : Z := if b0 then (if b1 then 0 else 1) else (if b2 then 2 else 3).

Lemma victim_way4 bits si k : vec_at bits si = Ok k →
  victim_way 4 bits si = Ok (victim4 (Z.testbit k 0) (Z.testbit k 1) (Z.testbit k 2)).
Proof. intros H. unfold victim_way. simpl. rewrite H. cbn [mbind res_bind]. by repeat case_match. Qed.

Lemma update_bits4 bits si k w : vec_at bits si = Ok k → 0 <= w < 4 →
  update_bits 4 bits si w =
    Ok (<[Z.to_nat si := plru4 (2 <=? w) (if 2 <=? w then Z.testbit k 1 else Z.odd w)
                                         (if 2 <=? w then Z.odd w else Z.testbit k 2)]> bits).
Proof.
  intros Hk Hw. unfold update_bits. change (plru_assoc_ok 4) with true.
  change (4 =? 1) with false. change (4 =? 2) with false. cbn [assert_ mbind res_bind].
  rewrite Hk. cbn [mbind res_bind]. rewrite !(bit_value k) by done.
  assert (w = 0 ∨ w = 1 ∨ w = 2 ∨ w = 3) as Hc by lia.
  rewrite vec_set_lt by (by apply vec_at_range in Hk).
  by destruct (Z.testbit k 1), (Z.testbit k 2), Hc as [-> | [-> | [-> | ->]]].
Qed.

Lemma testbit_plru4 b0 b1 b2 : Z.testbit (plru4 b0 b1 b2) 0 = b0 ∧
  Z.testbit (plru4 b0 b1 b2) 1 = b1 ∧ Z.testbit (plru4 b0 b1 b2) 2 = b2.
Proof. by destruct b0, b1, b2. Qed.

(** Tree pseudo-LRU never picks the way it used last.  For two and four
    ways, after a hit or a fill of way [w] of a set, the next victim of that set
    is another way. *)
Theorem plru_protects_mru n a bits now si w line p' line' set :
  ok n a (PLRU a bits) → a ≠ 1 → 0 <= si < n → 0 <= w < a → zlen set = a →
  onHit (PLRU a bits) now si w line = Ok (p', line') →
  ∃ v, getVictim p' si set = Ok v ∧ v ≠ w.
Proof.
  intros Hok Ha Hs Hw Hl Hh. pose proof Hok as (_ & Hpa & Hn & _).
  destruct (onHit_ok n a _ now si w line Hok Hs) as (p1 & l1 & H1 & Hok1 & _).
  rewrite Hh in H1. injection H1 as <- <-.
  destruct (getVictim_ok n a p' si set Hok1) as (v & Hv & _); [lia | done | done |].
  exists v. split; [done|]. intros ->. unfold getVictim in Hv. res_inv Hv.
  simpl in Hh. res_inv Hh. injection Hh as <- <-. res_inv Hv. res_inv Hv. injection Hv as ->.
  destruct (vec_at_lt bits si) as [k Hk]; [lia|]. unfold plru_assoc_ok in Hpa.
  destruct (Z.eqb_spec a 1) as [|_]; [done|]. destruct (Z.eqb_spec a 2) as [->|].
  - change (update_bits 2 bits si w) with (vec_set bits si (u8 (Z.land w 1))) in Ha1.
    rewrite vec_set_lt in Ha1 by lia.
    injection Ha1 as <-. unfold victim_way in Ha2. simpl in Ha2.
    rewrite vec_at_set_eq in Ha2 by lia. cbn [mbind res_bind] in Ha2.
    assert (w = 0 ∨ w = 1) as [-> | ->] by lia; done.
  - destruct (Z.eqb_spec a 4) as [->|]; [|done].
    rewrite (update_bits4 bits si k w Hk Hw) in Ha1.
    injection Ha1 as <-. erewrite victim_way4 in Ha2 by (apply vec_at_set_eq; lia).
    match type of Ha2 with context [plru4 ?b0 ?b1 ?b2] =>
      destruct (testbit_plru4 b0 b1 b2) as (E0 & E1 & E2); rewrite E0, E1, E2 in Ha2 end.
    assert (w = 0 ∨ w = 1 ∨ w = 2 ∨ w = 3) as Hc by lia.
    destruct Hc as [-> | [-> | [-> | ->]]]; unfold victim4 in Ha2; simpl in Ha2;
      repeat case_match; congruence.
Qed.

Lemma plru_protects_mru_witness :
  ∃ v, getVictim (PLRU 4 [0; 3]) 1 (replicate 4 (make 16)) = Ok v ∧ v ≠ 2.
Proof.
  apply (plru_protects_mru 2 4 [0; 3] 9 1 2 (make 16) (PLRU 4 [0; 3]) (make 16)); try done.
  split; [done|]. split; [done|]. split; [done|]. unfold byte_ok. repeat constructor; lia.
Defined.

(** *** Rotation *)

Lemma fill_one_eq p now si set w line p' line' :
  getVictim p si set = Ok w → vec_at set w = Ok line →
  onFill p now si w (activate now (invalidate line)) = Ok (p', line') →
  fill_one p now si set = Ok (w, p', <[Z.to_nat w := line']> set).
Proof.
  intros Hv Hl Hf. unfold fill_one. rewrite Hv. cbn [mbind res_bind]. rewrite Hl.
  cbn [mbind res_bind]. rewrite Hf. cbn [mbind res_bind].
  by rewrite vec_set_lt by (by eapply vec_at_range).
Qed.

Lemma nonempty_assert {A} (l : list A) : 0 < zlen l → assert_ (negb (zlen l =? 0)) = Ok tt.
Proof. intros. by rewrite (proj2 (Z.eqb_neq (zlen l) 0)) by lia. Qed.

Lemma rr_fill a ptr k now si set : 0 < a → vec_at ptr si = Ok k → 0 <= k < a → zlen set = a →
  ∃ set', fill_one (RoundRobin a ptr) now si set =
    Ok (k, RoundRobin a (<[Z.to_nat si := (k + 1) mod a]> ptr), set') ∧ zlen set' = a.
Proof.
  intros Ha Hk Hr Hl. destruct (vec_at_lt set k) as [line Hline]; [lia|].
  eexists. split; [|by rewrite zlen_insert]. eapply fill_one_eq; [| exact Hline |].
  - unfold getVictim. rewrite nonempty_assert by lia. cbn [mbind res_bind]. rewrite Hk.
    cbn [mbind res_bind]. unfold umod. rewrite (proj2 (Z.eqb_neq a 0)) by lia.
    cbn [mbind res_bind]. rewrite Z.mod_small by lia. by rewrite Hline.
  - simpl. rewrite Hk. cbn [mbind res_bind]. unfold umod.
    rewrite (proj2 (Z.eqb_neq a 0)) by lia. cbn [mbind res_bind].
    by rewrite vec_set_lt by (by eapply vec_at_range).
Qed.

Lemma rr_fills j a ptr k now si set : 0 < a → vec_at ptr si = Ok k → 0 <= k < a → zlen set = a →
  ∃ p' set', fills j (RoundRobin a ptr) now si set =
    Ok ((λ i, (k + Z.of_nat i) mod a) <$> seq 0 j, p', set').
Proof.
  intros Ha. revert ptr k now set. induction j as [|j IH]; intros ptr k now set Hk Hr Hl; [by eexists _, _|].
  destruct (rr_fill a ptr k now si set Ha Hk Hr Hl) as (set1 & H1 & Hl1).
  cbn [fills]. rewrite H1. cbn [mbind res_bind].
  destruct (IH (<[Z.to_nat si := (k + 1) mod a]> ptr) ((k + 1) mod a) (now + 1) set1)
    as (p' & set' & ->); [| by apply Z.mod_pos_bound | done |].
  { apply vec_at_set_eq. by eapply vec_at_range. }
  cbn [mbind res_bind]. eexists _, _. do 3 f_equal.
  change (seq 0 (S j)) with (0%nat :: seq 1 j). rewrite fmap_cons, <- fmap_S_seq, <- list_fmap_compose.
  f_equal; [by rewrite Z.add_0_r, Z.mod_small|].
  apply list_fmap_ext. intros _ i _. unfold compose.
  rewrite Zplus_mod_idemp_l. f_equal. lia.
Qed.

(** The tree of a set of four after one fill. *)
Definition plru_next (b0 b1 b2 : bool) : bool * bool * bool :=
  let w := victim4 b0 b1 b2 in
  (2 <=? w, if 2 <=? w then b1 else Z.odd w, if 2 <=? w then Z.odd w else b2).

Fixpoint plru_ways (j : nat) (b0 b1 b2 : bool) : list Z :=
  match j with
  | O => []
  | S j => let '(c0, c1, c2) := plru_next b0 b1 b2 in victim4 b0 b1 b2 :: plru_ways j c0 c1 c2
  end.

Lemma plru4_fills j bits k now si set : vec_at bits si = Ok k → zlen set = 4 →
  ∃ p' set', fills j (PLRU 4 bits) now si set =
    Ok (plru_ways j (Z.testbit k 0) (Z.testbit k 1) (Z.testbit k 2), p', set').
Proof.
  revert bits k now set. induction j as [|j IH]; intros bits k now set Hk Hl; [by eexists _, _|].
  set (w := victim4 (Z.testbit k 0) (Z.testbit k 1) (Z.testbit k 2)).
  assert (0 <= w < 4) as Hw by (unfold w, victim4; repeat case_match; lia).
  destruct (vec_at_lt set w) as [line Hline]; [lia|].
  assert (fill_one (PLRU 4 bits) now si set = Ok (w,
    PLRU 4 (<[Z.to_nat si := plru4 (2 <=? w) (if 2 <=? w then Z.testbit k 1 else Z.odd w)
                                   (if 2 <=? w then Z.odd w else Z.testbit k 2)]> bits),
    <[Z.to_nat w := activate now (invalidate line)]> set)) as H1.
  { eapply fill_one_eq; [| exact Hline |].
    - unfold getVictim. rewrite nonempty_assert by lia. cbn [mbind res_bind].
      rewrite (victim_way4 bits si k Hk). cbn [mbind res_bind]. fold w. by rewrite Hline.
    - cbn [onFill]. rewrite (update_bits4 bits si k w Hk Hw). done. }
  cbn [fills]. rewrite H1. clear H1.
  cbn [mbind res_bind].
  edestruct IH as (p' & set' & ->); [apply vec_at_set_eq; by eapply vec_at_range | by rewrite zlen_insert |].
  cbn [mbind res_bind]. eexists _, _. do 3 f_equal.
  match goal with |- context [plru4 ?b0 ?b1 ?b2] =>
    destruct (testbit_plru4 b0 b1 b2) as (-> & -> & ->) end.
  done.
Qed.

Lemma plru2_fill bits k now si set : vec_at bits si = Ok k → zlen set = 2 →
  let w := if Z.testbit k 0 then 0 else 1 in
  ∃ set', fill_one (PLRU 2 bits) now si set =
    Ok (w, PLRU 2 (<[Z.to_nat si := w]> bits), set') ∧ zlen set' = 2.
Proof.
  intros Hk Hl w. assert (0 <= w < 2) as Hw by (unfold w; case_match; lia).
  destruct (vec_at_lt set w) as [line Hline]; [lia|].
  eexists. split; [|by rewrite zlen_insert]. eapply fill_one_eq; [| exact Hline |].
  - unfold getVictim. rewrite nonempty_assert by lia. cbn [mbind res_bind].
    unfold victim_way. change (plru_assoc_ok 2) with true. change (2 =? 1) with false.
    change (2 =? 2) with true. cbn [assert_ mbind res_bind]. rewrite Hk.
    cbn [mbind res_bind mret res_ret]. fold w. by rewrite Hline.
  - cbn [onFill]. change (update_bits 2 bits si w) with (vec_set bits si (u8 (Z.land w 1))).
    rewrite vec_set_lt by (by eapply vec_at_range). cbn [mbind res_bind].
    do 5 f_equal. unfold w. by case_match.
Qed.

(** Adding a constant permutes the residues. *)
Lemma rotation_permutation a k : 0 < a →
  (λ i, (k + Z.of_nat i) mod a) <$> seq 0 (Z.to_nat a) ≡ₚ zrange a.
Proof.
  intros Ha. unfold zrange.
  apply NoDup_Permutation_bis.
  - apply NoDup_ListNoDup, NoDup_fmap_2_strong; [|apply NoDup_ListNoDup, seq_NoDup]. intros i j Hi Hj E.
    apply elem_of_seq in Hi, Hj. apply (f_equal (λ z, (z - k) mod a)) in E.
    rewrite !Zminus_mod_idemp_l in E. replace (k + Z.of_nat i - k) with (Z.of_nat i) in E by lia.
    replace (k + Z.of_nat j - k) with (Z.of_nat j) in E by lia.
    rewrite !Z.mod_small in E by lia. lia.
  - by rewrite !length_fmap, !length_seq.
  - intros x Hx%list_elem_of_In. apply list_elem_of_fmap in Hx as (i & -> & _).
    apply list_elem_of_In, elem_of_zrange. apply Z.mod_pos_bound. lia.
Qed.

(** Round robin and tree pseudo-LRU rotate.  Whatever their state, filling a
    set as many times in a row as it has ways evicts every way exactly once. *)
Theorem fills_rotate n a p now si set :
  ok n a p → 0 < a → 0 <= si < n → zlen set = a →
  match p with RoundRobin _ _ | PLRU _ _ => True | _ => False end →
  ∃ ws p' set', fills (Z.to_nat a) p now si set = Ok (ws, p', set') ∧ ws ≡ₚ zrange a.
Proof.
  intros Hok Ha Hs Hl Hp. destruct p as [| | a' ptr | a' bits]; try done.
  - destruct Hok as (-> & Hn & Hf). destruct (vec_at_lt ptr si) as [k Hk]; [lia|].
    pose proof (Forall_vec_at _ _ _ _ Hf Hk) as Hr. simpl in Hr.
    destruct (rr_fills (Z.to_nat a) a ptr k now si set Ha Hk Hr Hl) as (p' & set' & ->).
    eexists _, _, _. split; [done|]. apply rotation_permutation. lia.
  - destruct Hok as (-> & Hpa & Hn & Hf). destruct (vec_at_lt bits si) as [k Hk]; [lia|].
    unfold plru_assoc_ok in Hpa.
    destruct (Z.eqb_spec a 1) as [->|_]; [|destruct (Z.eqb_spec a 2) as [->|_];
      [|destruct (Z.eqb_spec a 4) as [->|]; [|done]]].
    + destruct (vec_at_lt set 0) as [line Hline]; [lia|].
      eexists [0], _, _. split; [|done]. change (Z.to_nat 1) with 1%nat. cbn [fills].
      erewrite fill_one_eq; [done | | exact Hline |].
      * unfold getVictim. rewrite nonempty_assert by lia. cbn -[vec_at]. by rewrite Hline.
      * cbn -[vec_set]. by rewrite vec_set_lt by lia.
    + destruct (plru2_fill bits k now si set Hk Hl) as (set1 & H1 & Hl1).
      set (w := if Z.testbit k 0 then 0 else 1) in *.
      destruct (plru2_fill (<[Z.to_nat si := w]> bits) w (now + 1) si set1) as (set2 & H2 & _);
        [by apply vec_at_set_eq; lia | done |].
      eexists _, _, _. split.
      * change (Z.to_nat 2) with 2%nat. cbn [fills]. rewrite H1. cbn [mbind res_bind].
        rewrite H2. done.
      * unfold w. destruct (Z.testbit k 0); vm_compute; solve_Permutation.
    + destruct (plru4_fills (Z.to_nat 4) bits k now si set Hk Hl) as (p' & set' & ->).
      eexists _, _, _. split; [done|].
      destruct (Z.testbit k 0), (Z.testbit k 1), (Z.testbit k 2); vm_compute; solve_Permutation.
Qed.

Lemma fills_rotate_witness :
  ∃ ws p' set', fills 4 (PLRU 4 [5; 6]) 100 1 (replicate 4 (make 16)) = Ok (ws, p', set') ∧
                ws ≡ₚ [0; 1; 2; 3].
Proof.
  apply (fills_rotate 2 4 (PLRU 4 [5; 6]) 100 1 (replicate 4 (make 16))); try done; try lia.
  split; [done|]. split; [done|]. split; [done|]. unfold byte_ok. repeat constructor; lia.
Defined.

(** *** LRU *)

(** The first minimum: no later element is smaller, every earlier one greater. *)
Lemma extreme_min l l0 best bi : l0 !! bi = Some best →
  (∀ j x, l0 !! j = Some x → best <= x ∧ ((j < bi)%nat → best < x)) →
  ∃ m, (l0 ++ l) !! extreme Z.ltb best bi (length l0) l = Some m ∧
       ∀ j x, (l0 ++ l) !! j = Some x →
         m <= x ∧ ((j < extreme Z.ltb best bi (length l0) l)%nat → m < x).
Proof.
  revert l0 best bi. induction l as [|y l IH]; intros l0 best bi Hb Hm; cbn [extreme].
  { exists best. by rewrite app_nil_r. }
  rewrite cons_middle, (assoc_L (++)).
  assert (S (length l0) = length (l0 ++ [y])) as -> by (rewrite length_app; simpl; lia).
  assert ((l0 ++ [y]) !! length l0 = Some y) as Hy by (by apply list_lookup_middle).
  destruct (Z.ltb_spec y best); apply IH.
  - done.
  - intros j x Hj. apply lookup_app_Some in Hj as [Hj | [Hj Hx]].
    + destruct (Hm j x Hj). lia.
    + destruct (j - length l0)%nat eqn:E; simplify_eq/=. lia.
  - by apply lookup_app_l_Some.
  - intros j x Hj. apply lookup_app_Some in Hj as [Hj | [Hj Hx]].
    + by apply Hm.
    + apply lookup_lt_Some in Hb. destruct (j - length l0)%nat eqn:E; simplify_eq/=. lia.
Qed.

Lemma min_stamp_spec (set : list CacheLine) : set ≠ [] →
  ∃ v l, min_stamp set = Ok v ∧ 0 <= v ∧ set !! Z.to_nat v = Some l ∧
    ∀ j x, set !! j = Some x →
      stamp l <= stamp x ∧ (Z.of_nat j < v → stamp l < stamp x).
Proof.
  intros Hne. unfold min_stamp. destruct set as [|x0 set]; [done|]. rewrite fmap_cons.
  destruct (extreme_min (stamp <$> set) [stamp x0] (stamp x0) 0) as (m & Hm & Hall).
  { done. }
  { intros [|j] x Hj; simplify_eq/=. lia. }
  change ([stamp x0] ++ (stamp <$> set)) with (stamp <$> (x0 :: set)) in *.
  change (length [stamp x0]) with 1%nat in *.
  apply list_lookup_fmap_Some in Hm as (l & Hl & Hm).
  eexists _, l. split; [done|]. split; [lia|]. rewrite Nat2Z.id. split; [exact Hm|].
  intros j x Hj. destruct (Hall j (stamp x)) as [H1 H2]; [by rewrite list_lookup_fmap, Hj|].
  subst m. split; [done|]. intros. apply H2. simpl in *. lia.
Qed.

Definition touch (p : ReplPolicy) (si : Z) (set : list CacheLine) (w now : Z)
    : res (ReplPolicy * list CacheLine) :=
  line ← vec_at set w;
  '(p, line) ← onHit p now si w line;
  set ← vec_set set w line;
  mret (p, set).

Fixpoint touches (p : ReplPolicy) (si : Z) (set : list CacheLine) (hist : list (Z * Z))
    : res (ReplPolicy * list CacheLine) :=
  match hist with
  | [] => mret (p, set)
  | (w, now) :: hist => '(p, set) ← touch p si set w now; touches p si set hist
  end.

(** The tick of the last use of way [w], 0 when it has not been used. *)
Definition last_use (hist : list (Z * Z)) (w : Z) : Z :=
  foldl (λ t e, if e.1 =? w then e.2 else t) 0 hist.

Lemma lru_touches si set hist : Forall (λ e, 0 <= e.1 < zlen set) hist →
  ∃ set', touches LRU si set hist = Ok (LRU, set') ∧ zlen set' = zlen set ∧
    ∀ j x', set' !! j = Some x' → ∃ x, set !! j = Some x ∧
      stamp x' = foldl (λ t e, if e.1 =? Z.of_nat j then e.2 else t) (stamp x) hist.
Proof.
  intros Hf. revert set Hf. induction hist as [|[w now] hist IH]; intros set Hf.
  - exists set. split; [done|]. split; [done|]. eauto.
  - inversion Hf as [|? ? Hw Hf']; subst. simpl in Hw.
    destruct (vec_at_lt set w Hw) as [line Hline]. cbn [touches]. unfold touch. rewrite Hline.
    cbn [onHit mbind res_bind mret res_ret]. rewrite vec_set_lt by done. cbn [mbind res_bind mret res_ret].
    match goal with |- context [touches LRU si ?s hist] =>
      destruct (IH s) as (set' & -> & Hl & Hs) end.
    { by rewrite zlen_insert. }
    rewrite zlen_insert in Hl. exists set'. split; [done|]. split; [done|].
    intros j x' Hj. destruct (Hs j x' Hj) as (x & Hx & Hst). cbn [foldl fst snd].
    apply vec_at_Ok in Hline as [_ Hline].
    destruct (Z.eqb_spec w (Z.of_nat j)) as [->|Hne].
    + rewrite Nat2Z.id in *. rewrite list_lookup_insert_eq in Hx by (by eapply lookup_lt_Some).
      simplify_eq. exists line. split; [done | exact Hst].
    + rewrite list_lookup_insert_ne in Hx by lia. eauto.
Qed.

(** LRU evicts the least recently used way.  In a set of fresh lines on
    which any ways have been used at any ticks, the victim's last use is the
    earliest one (0 for a way never used), and among equals the first way goes. *)
Theorem lru_evicts_least_recent si assoc line_size hist :
  0 < assoc → Forall (λ e, 0 <= e.1 < assoc) hist →
  ∃ set v, touches LRU si (replicate (Z.to_nat assoc) (make line_size)) hist = Ok (LRU, set) ∧
    getVictim LRU si set = Ok v ∧ 0 <= v < assoc ∧
    ∀ w, 0 <= w < assoc →
      last_use hist v <= last_use hist w ∧ (w < v → last_use hist v < last_use hist w).
Proof.
  intros Ha Hf. set (set0 := replicate (Z.to_nat assoc) (make line_size)).
  assert (zlen set0 = assoc) as Hl0 by (apply zlen_replicate; lia).
  destruct (lru_touches si set0 hist) as (set & Ht & Hl & Hs); [by rewrite Hl0|].
  assert (∀ j x, set !! j = Some x → stamp x = last_use hist (Z.of_nat j)) as Hst.
  { intros j x Hj. destruct (Hs j x Hj) as (x0 & Hx0 & ->).
    apply lookup_replicate in Hx0 as [-> _]. done. }
  destruct (min_stamp_spec set) as (v & l & Hv & Hv0 & Hvl & Hmin).
  { intros ->. unfold zlen in *. simpl in *. lia. }
  exists set, v. split; [done|]. rewrite Hl0 in Hl. split.
  { unfold getVictim. by rewrite nonempty_assert by lia. }
  assert (v < assoc) by (apply lookup_lt_Some in Hvl; unfold zlen in Hl; lia).
  split; [lia|]. intros w Hw. destruct (vec_at_lt set w) as [x Hx]; [lia|].
  apply vec_at_Ok in Hx as [_ Hx]. destruct (Hmin _ _ Hx) as [H1 H2].
  rewrite (Hst _ _ Hvl), (Hst _ _ Hx), !Z2Nat.id in * by lia. done.
Qed.

Lemma lru_evicts_least_recent_witness :
  ∃ set v, touches LRU 0 (replicate 4 (make 16)) [(0, 5); (3, 6); (1, 7); (2, 8); (0, 9)]
             = Ok (LRU, set) ∧
    getVictim LRU 0 set = Ok v ∧ 0 <= v < 4 ∧
    ∀ w, 0 <= w < 4 →
      last_use [(0, 5); (3, 6); (1, 7); (2, 8); (0, 9)] v <=
      last_use [(0, 5); (3, 6); (1, 7); (2, 8); (0, 9)] w ∧
      (w < v → last_use [(0, 5); (3, 6); (1, 7); (2, 8); (0, 9)] v <
               last_use [(0, 5); (3, 6); (1, 7); (2, 8); (0, 9)] w).
Proof.
  apply (lru_evicts_least_recent 0 4 16 [(0, 5); (3, 6); (1, 7); (2, 8); (0, 9)]); [lia|].
  repeat (apply List.Forall_cons; [simpl; lia|]). apply List.Forall_nil.
Defined.

(** *** SRRIP *)

Definition gtb (x best : Z) : bool := best <? x.

Lemma extreme_zeros best bi i l : 0 <= best → Forall (λ x, x = 0) l →
  extreme gtb best bi i l = bi.
Proof.
  intros Hb Hl. revert i. induction Hl as [|x l -> _ IH]; intros i; cbn [extreme]; [done|].
  unfold gtb at 1. destruct (Z.ltb_spec best 0); [lia | apply IH].
Qed.

Lemma extreme_peak i l1 x l2 : Forall (λ x, x = 0) l1 → Forall (λ x, x = 0) l2 → 0 < x →
  extreme gtb 0 0 i (l1 ++ x :: l2) = (i + length l1)%nat.
Proof.
  intros H1 H2 Hx. revert i. induction H1 as [|y l1 -> _ IH]; intros i; simpl.
  - unfold gtb at 1. destruct (Z.ltb_spec 0 x); [|lia]. rewrite extreme_zeros by (done || lia). lia.
  - rewrite IH. lia.
Qed.

(** A set in which only way [w] has a positive stamp. *)
Definition peak (w : nat) (set : list CacheLine) : Prop :=
  ∃ l1 x l2, set = l1 ++ x :: l2 ∧ length l1 = w ∧ 0 < stamp x ∧
    Forall (λ l, stamp l = 0) l1 ∧ Forall (λ l, stamp l = 0) l2.

Lemma max_stamp_peak w set : peak w set → max_stamp set = Ok (Z.of_nat w).
Proof.
  intros (l1 & x & l2 & -> & <- & Hx & H1 & H2). unfold max_stamp.
  assert (∀ l : list CacheLine, Forall (λ l, stamp l = 0) l → Forall (λ x, x = 0) (stamp <$> l)) as Hf
    by (intros; by apply Forall_fmap).
  destruct l1 as [|y l1].
  - simpl app. rewrite fmap_cons. unfold mret, res_ret. do 2 f_equal.
    apply (extreme_zeros (stamp x)); [lia | by apply Hf].
  - inversion H1 as [|? ? Hy H1']; subst. simpl app. rewrite fmap_cons, fmap_app, fmap_cons, Hy.
    unfold mret, res_ret. do 2 f_equal.
    transitivity (1 + length (stamp <$> l1))%nat;
      [apply extreme_peak; auto | by rewrite length_fmap].
Qed.

(** SRRIP never ages a line, so it does not adapt.  When all lines of a set
    but one have been hit since they were filled, every further miss of the set
    replaces that one way, however many misses there are. *)
Theorem srrip_thrashes k w now si set : peak w set →
  ∃ p' set', fills k SRRIP now si set = Ok (replicate k (Z.of_nat w), p', set').
Proof.
  revert now set. induction k as [|k IH]; intros now set Hp; [by eexists _, _|].
  pose proof Hp as (l1 & x & l2 & -> & Hl & Hx & H1 & H2).
  assert (vec_at (l1 ++ x :: l2) (Z.of_nat w) = Ok x) as Hat.
  { apply vec_at_Ok. rewrite Nat2Z.id. split; [lia|]. subst w. by apply list_lookup_middle. }
  cbn [fills]. erewrite fill_one_eq; [| | exact Hat | reflexivity].
  - cbn [mbind res_bind mret res_ret]. match goal with |- context [fills k SRRIP _ si ?s] =>
      destruct (IH (now + 1) s) as (p' & set' & ->) end; [|by eexists _, _].
    eexists l1, _, l2. subst w. rewrite Nat2Z.id, insert_app_r_alt, Nat.sub_diag by done.
    split; [reflexivity|]. by repeat split.
  - unfold getVictim. rewrite nonempty_assert; [by apply max_stamp_peak|].
    unfold zlen. rewrite length_app. simpl. lia.
Qed.

Lemma srrip_thrashes_witness : ∃ p' set',
  fills 5 SRRIP 100 0 [make 16; make 16; make 16 <| stamp := 2 |>; make 16] =
  Ok ([2; 2; 2; 2; 2], p', set').
Proof.
  apply (srrip_thrashes 5 2). exists [make 16; make 16], (make 16 <| stamp := 2 |>), [make 16].
  split; [done|]. split; [done|]. split; [done|]. by repeat constructor.
Defined.
End Repl.
