(* ===== verification/Prefetcher.v ===== *)
(** * Prefetchers

    [Prefetcher] and its three subclasses ([src/cacheSim/Prefetcher.hh] and
    [.cc]): the subclass is the value of [kind]. *)

From S2P Require Import Prelude.

Module Pf.

Inductive PfKind : Type :=
| NextLine
| Stride (last_addr last_stride : Z)
| Tagged.

Record Prefetcher : Type := Mk {
  kind : PfKind;
  blkSize_ : Z;
  prefetch_issued : Z;
  prefetch_useful : Z
}.
#[global] Instance eta_Pf : Eta Prefetcher := λ r,
  Mk r.(kind) r.(blkSize_) r.(prefetch_issued) r.(prefetch_useful).

Definition make (k : PfKind) : Prefetcher := Mk k 64 0 0.
Definition setBlockSize (p : Prefetcher) (size : Z) : Prefetcher := p <| blkSize_ := size |>.
Definition reset_stats (p : Prefetcher) : Prefetcher :=
  p <| prefetch_issued := 0 |> <| prefetch_useful := 0 |>.

(** The address to prefetch, if any. *)
Definition probe (p : Prefetcher) (addr : Z) (is_hit : bool) : option Z * Prefetcher :=
  match kind p with
  | NextLine => (Some (u32 (addr + blkSize_ p)), p)
  | Tagged => ((if is_hit then None else Some (u32 (addr + blkSize_ p))), p)
  | Stride last_addr last_stride =>
    let stride := i32 (u32 (addr - last_addr)) in
    let ret := if negb (stride =? 0) && (stride =? last_stride)
               then Some (u32 (addr + stride)) else None in
    (ret, p <| kind := Stride addr stride |>)
  end.

Lemma probe_word p addr h a : (probe p addr h).1 = Some a → word_ok a.
Proof.
  unfold probe. destruct (kind p); simpl; try (destruct h; simpl);
    try destruct (_ && _); simpl; intros [= <-]; apply u32_range.
Qed.

Fixpoint probes (p : Prefetcher) (addrs : list Z) : list (option Z) :=
  match addrs with [] => [] | a :: addrs => (probe p a true).1 :: probes (probe p a true).2 addrs end.

Lemma i32_u32 z : i32 (u32 z) = i32 z.
Proof. unfold i32, u32. rewrite Zplus_mod_idemp_l. done. Qed.

Lemma u32_i32 a z : u32 (a + i32 z) = u32 (a + z).
Proof. unfold i32, u32. Z.to_euclidean_division_equations. lia. Qed.

(** The stride prefetcher follows strides.  On an address sequence with a
    constant stride that fits in [int] and is not zero, it requests nothing for
    the first two accesses at most and from the third on exactly the next
    address of the sequence, modulo 2^32; forwards or backwards. *)
Theorem stride_follows p last0 stride0 a d (n : nat) :
  kind p = Stride last0 stride0 → - 2 ^ 31 <= d < 2 ^ 31 → d ≠ 0 →
  let seq := (λ i, u32 (a + d * Z.of_nat i)) <$> seq 0 n in
  ∀ i, (2 <= i)%nat → (i < n)%nat →
    probes p seq !! i = Some (Some (u32 (a + d * Z.of_nat (S i)))).
Proof.
  intros Hk Hd Hz.
  assert (∀ m j q, kind q = Stride (u32 (a + d * (Z.of_nat j - 1))) d →
    ∀ i, (i < m)%nat →
      probes q ((λ i, u32 (a + d * Z.of_nat i)) <$> seq j m) !! i =
      Some (Some (u32 (a + d * Z.of_nat (S (j + i)))))) as Hstep.
  { intros m. induction m as [|m IH]; intros j q Hq i Hi; [lia|].
    change (seq j (S m)) with (j :: seq (S j) m). rewrite fmap_cons. cbn [probes].
    assert (probe q (u32 (a + d * Z.of_nat j)) true =
      (Some (u32 (a + d * Z.of_nat (S j))), q <| kind := Stride (u32 (a + d * Z.of_nat j)) d |>)) as ->.
    { unfold probe. rewrite Hq.
      assert (i32 (u32 (u32 (a + d * Z.of_nat j) - u32 (a + d * (Z.of_nat j - 1)))) = d) as ->.
      { rewrite i32_u32. unfold i32, u32. Z.to_euclidean_division_equations. lia. }
      rewrite Z.eqb_refl, (proj2 (Z.eqb_neq d 0)) by done. cbn [negb andb].
      assert (u32 (u32 (a + d * Z.of_nat j) + d) = u32 (a + d * Z.of_nat (S j))) as ->; [|done].
      unfold u32. rewrite Zplus_mod_idemp_l. f_equal. lia. }
    destruct i as [|i]; simpl; [by rewrite Nat.add_0_r|]. rewrite IH; [| | lia].
    - do 3 f_equal. lia.
    - cbn. do 2 f_equal. lia. }
  intros sq i Hi Hn. destruct n as [|[|n]]; [lia | lia |]. destruct i as [|[|i]]; [lia | lia |].
  unfold sq. change (seq 0 (S (S n))) with (0%nat :: 1%nat :: seq 2 n). rewrite !fmap_cons.
  cbn [probes]. cbn [lookup list_lookup]. rewrite Hstep; [done | | lia].
  unfold probe at 2. rewrite Hk. unfold probe. cbn [kind over snd]. f_equal.
  rewrite i32_u32. unfold i32, u32. Z.to_euclidean_division_equations. lia.
Qed.

Lemma stride_follows_witness :
  probes (make (Stride 0 0)) [256; 240; 224; 208] !! 3%nat = Some (Some 192).
Proof.
  exact (stride_follows (make (Stride 0 0)) 0 0 256 (-16) 4 eq_refl
           ltac:(lia) ltac:(lia) 3%nat ltac:(lia) ltac:(lia)).
Defined.

End Pf.
