(* ===== verification/CacheBase.v ===== *)
(** * The set-associative lookup structure of every cache

    [CacheBase] of [src/cacheSim/CacheBase.hh] and [.cc]: geometry, tag check,
    victim choice, fill, and the prefetch fill of [PipeCache].  A [CacheLine*]
    is a pair of a set index and a way.  Ticks are arguments ([now] is
    [curr_tick()]). *)

From S2P Require Import Prelude Repl Prefetcher.

Module CB.
Import Line.

Record CacheStats : Type := MkStats { accesses : Z; hits : Z; misses : Z }.
#[global] Instance eta_CacheStats : Eta CacheStats := λ r,
  MkStats r.(accesses) r.(hits) r.(misses).
Definition stats_zero : CacheStats := MkStats 0 0 0.

Record CacheBase : Type := Mk {
  stats : CacheStats;
  lineBytes_ : Z;
  offsetBits_ : Z;
  sets_ : Z;
  assoc_ : Z;
  cache_id_ : Z;
  victim_way_lag_ : bool;
  lag_set_idx_ : Z;
  lag_set_valid_ : bool;
  setsArr_ : list (list CacheLine);
  prefetcher_ : option Pf.Prefetcher;
  repl_policy_ : Repl.ReplPolicy
}.
#[global] Instance eta_CacheBase : Eta CacheBase := λ r,
  Mk r.(stats) r.(lineBytes_) r.(offsetBits_) r.(sets_) r.(assoc_) r.(cache_id_)
     r.(victim_way_lag_) r.(lag_set_idx_) r.(lag_set_valid_) r.(setsArr_)
     r.(prefetcher_) r.(repl_policy_).

Definition isPowerOf2 (x : Z) : bool := negb (x =? 0) && (Z.land x (x - 1) =? 0).

Definition floorLog2 (x : Z) : res Z := _ ← assert_ (0 <? x); mret (Z.log2 x).

(** The constructor.  [isPowerOf2] takes an [addr_t]: its arguments are narrowed. *)
Definition make (size_bytes line_bytes assoc : Z) (prefetcher : option Pf.Prefetcher)
    (cache_id : Z) (repl : option Repl.ReplPolicy) (lag : bool) : res CacheBase :=
  offset_bits ← floorLog2 line_bytes;
  sets ← udiv size_bytes (u64 (line_bytes * assoc));
  let arr := replicate (Z.to_nat sets)
               (replicate (Z.to_nat assoc) (Line.make line_bytes)) in
  _ ← assert_ (size_bytes mod u64 (line_bytes * assoc) =? 0);
  _ ← assert_ ((1 <? sets) && isPowerOf2 (u32 sets));
  _ ← assert_ (isPowerOf2 (u32 line_bytes));
  mret (Mk stats_zero line_bytes offset_bits sets assoc cache_id lag 0 false arr
          ((λ p, Pf.setBlockSize p line_bytes) <$> prefetcher)
          (default (Repl.make_plru assoc sets) repl)).

Definition blockAddrOf (c : CacheBase) (addr : Z) : Z :=
  Z.land addr (Z.lnot (lineBytes_ c - 1)).
Definition tagOf (c : CacheBase) (addr : Z) : Z := blockAddrOf c addr.
Definition setIndexOf (c : CacheBase) (addr : Z) : Z :=
  Z.land (Z.shiftr addr (offsetBits_ c)) (sets_ c - 1).
Definition offsetOf (c : CacheBase) (addr : Z) : Z := Z.land addr (lineBytes_ c - 1).
Definition size (c : CacheBase) : Z := u64 (sets_ c * assoc_ c * lineBytes_ c).

Definition strbExtend (strb : Z) : Z :=
  Z.lor (Z.lor (Z.lor (if Z.testbit strb 0 then 0x000000ff else 0)
                      (if Z.testbit strb 1 then 0x0000ff00 else 0))
               (if Z.testbit strb 2 then 0x00ff0000 else 0))
        (if Z.testbit strb 3 then 0xff000000 else 0).

(** [(~m & old) | (m & new)] on words. *)
Definition merge (m old new : Z) : Z :=
  Z.lor (Z.land (Z.lxor m (2 ^ 32 - 1)) old) (Z.land m new).

(** First way of a set that satisfies [P]. *)
Fixpoint find_from (P : CacheLine → bool) (i : Z) (set : list CacheLine) : option Z :=
  match set with
  | [] => None
  | l :: set => if P l then Some i else find_from P (i + 1) set
  end.
Definition find_way (P : CacheLine → bool) (set : list CacheLine) : option Z := find_from P 0 set.

Definition line_at (c : CacheBase) (si way : Z) : res CacheLine :=
  set ← vec_at (setsArr_ c) si; vec_at set way.
Definition set_line (c : CacheBase) (si way : Z) (l : CacheLine) : res CacheBase :=
  set ← vec_at (setsArr_ c) si;
  set ← vec_set set way l;
  arr ← vec_set (setsArr_ c) si set;
  mret (c <| setsArr_ := arr |>).

(** A free way, else the policy's victim. *)
Definition free_or_victim (c : CacheBase) (si : Z) (set : list CacheLine) : res Z :=
  match find_way (λ l, negb (valid l)) set with
  | Some i => mret i
  | None => Repl.getVictim (repl_policy_ c) si set
  end.
Definition select_victim : CacheBase → Z → list CacheLine → res Z := free_or_victim.

Definition miss_victim_way (c : CacheBase) (si : Z) (set : list CacheLine) : res Z :=
  if negb (victim_way_lag_ c) then free_or_victim c si set
  else
    let lag_si := if lag_set_valid_ c then lag_set_idx_ c else si in
    lag_set ← vec_at (setsArr_ c) lag_si;
    free_or_victim c lag_si lag_set.

Definition note_lag (c : CacheBase) (si : Z) : CacheBase :=
  if victim_way_lag_ c then c <| lag_set_idx_ := si |> <| lag_set_valid_ := true |> else c.

Definition probe (c : CacheBase) (addr : Z) : res bool :=
  set ← vec_at (setsArr_ c) (setIndexOf c addr);
  mret (match find_way (matches (tagOf c addr)) set with Some _ => true | None => false end).

(** The useful-prefetch account of a hit. *)
Definition credit_prefetch (l : CacheLine) (pf : option Pf.Prefetcher)
    : CacheLine * option Pf.Prefetcher :=
  match pf with
  | Some p => if is_prefetched l
              then (l <| is_prefetched := false |>, Some (p <| Pf.prefetch_useful ::= incr |>))
              else (l, pf)
  | None => (l, None)
  end.

(** [access(addr)]: the way of the returned line in set [setIndexOf(addr)]; on
    a miss that line has been invalidated. *)
Definition access (c : CacheBase) (now addr : Z) : res (Z * CacheBase) :=
  let c := c <| stats ::= (λ s, s <| accesses ::= incr |>) |> in
  let tag := tagOf c addr in
  let si := setIndexOf c addr in
  set ← vec_at (setsArr_ c) si;
  match find_way (matches tag) set with
  | Some i =>
    l ← vec_at set i;
    let c := note_lag c si in
    '(p, l) ← Repl.onHit (repl_policy_ c) now si i l;
    let c := c <| repl_policy_ := p |> <| stats ::= (λ s, s <| hits ::= incr |>) |> in
    let '(l, pf) := credit_prefetch l (prefetcher_ c) in
    c ← set_line (c <| prefetcher_ := pf |>) si i l;
    mret (i, c)
  | None =>
    let c := c <| stats ::= (λ s, s <| misses ::= incr |>) |> in
    v ← miss_victim_way c si set;
    way ← umod v (assoc_ c);
    victim ← vec_at set way;
    c ← set_line (note_lag c si) si way (invalidate victim);
    mret (way, c)
  end.

(** [handle_fill(blk, addr, ret)] for the line [blk] at [bsi], [bway]. *)
Definition handle_fill (c : CacheBase) (now bsi bway addr : Z) (ret : list Z) : res CacheBase :=
  blk ← line_at c bsi bway;
  let blk := setTag (tagOf c addr) (activate now blk) in
  let si := setIndexOf c addr in
  set ← vec_at (setsArr_ c) si;
  _ ← assert_ ((bsi =? si) && (bway <? zlen set));
  '(p, blk) ← Repl.onFill (repl_policy_ c) now si bway blk;
  set_line (c <| repl_policy_ := p |>) bsi bway (setVecData ret blk).

(** [PipeCache::handle_prefetch]; the result says whether a line was filled. *)
Definition handle_prefetch (c : CacheBase) (now addr : Z) (is_hit : bool) : res (bool * CacheBase) :=
  match prefetcher_ c with
  | None => mret (false, c)
  | Some pf =>
    let '(maybe, pf) := Pf.probe pf addr is_hit in
    let c := c <| prefetcher_ := Some pf |> in
    match maybe with
    | None => mret (false, c)
    | Some paddr =>
      let tag := tagOf c paddr in
      let si := setIndexOf c paddr in
      set ← vec_at (setsArr_ c) si;
      match find_way (matches tag) set with
      | Some _ => mret (false, c)
      | None =>
        let c := c <| prefetcher_ := Some (pf <| Pf.prefetch_issued ::= incr |>) |> in
        way ← select_victim c si set;
        victim ← vec_at set way;
        let victim := activate now (setTag tag victim) in
        '(p, victim) ← Repl.onFill (repl_policy_ c) now si way victim;
        c ← set_line (c <| repl_policy_ := p |>) si way (victim <| is_prefetched := true |>);
        mret (true, c)
      end
    end
  end.

(** [handle_flush]'s loop over the lines. *)
Definition invalidate_all (c : CacheBase) : CacheBase :=
  c <| setsArr_ ::= map (map invalidate) |>.

Definition reset_stats (c : CacheBase) : CacheBase := c <| stats := stats_zero |>.

(** ** Byte strobes *)

Lemma testbit_merge m old new i : 0 <= i < 32 →
  Z.testbit (merge m old new) i = if Z.testbit m i then Z.testbit new i else Z.testbit old i.
Proof.
  intros Hi. unfold merge. rewrite Z.lor_spec, !Z.land_spec, Z.lxor_spec.
  change (2 ^ 32 - 1) with (Z.ones 32). rewrite Z.ones_spec_low by done.
  by destruct (Z.testbit m i), (Z.testbit new i), (Z.testbit old i).
Qed.

Lemma testbit_strb strb k j : 0 <= k < 4 → 0 <= j < 8 →
  Z.testbit (strbExtend strb) (8 * k + j) = Z.testbit strb k.
Proof.
  intros Hk Hj. unfold strbExtend. rewrite !Z.lor_spec.
  assert (k = 0 ∨ k = 1 ∨ k = 2 ∨ k = 3) as Hc by lia.
  assert (j = 0 ∨ j = 1 ∨ j = 2 ∨ j = 3 ∨ j = 4 ∨ j = 5 ∨ j = 6 ∨ j = 7) as Hd by lia.
  destruct (Z.testbit strb 0) eqn:E0, (Z.testbit strb 1) eqn:E1,
    (Z.testbit strb 2) eqn:E2, (Z.testbit strb 3) eqn:E3;
    destruct Hc as [-> | [-> | [-> | ->]]]; rewrite ?E0, ?E1, ?E2, ?E3;
    by destruct Hd as [-> | [-> | [-> | [-> | [-> | [-> | [-> | ->]]]]]]].
Qed.

(** Byte-masked writes.  Writing [new] over [old] under a strobe replaces
    byte [k] of the word exactly when bit [k] of the strobe is set. *)
Theorem merge_bytes strb old new k : 0 <= k < 4 → word_ok old → word_ok new →
  let w := merge (strbExtend strb) old new in
  w / 2 ^ (8 * k) mod 2 ^ 8 =
  (if Z.testbit strb k then new else old) / 2 ^ (8 * k) mod 2 ^ 8.
Proof.
  intros Hk _ _ w. apply Z.bits_inj'. intros i Hi.
  destruct (Z.ltb_spec i 8).
  - rewrite !Z.mod_pow2_bits_low, !Z.div_pow2_bits by lia. unfold w.
    rewrite testbit_merge, (Z.add_comm i), testbit_strb by lia. by destruct (Z.testbit strb k).
  - by rewrite !Z.mod_pow2_bits_high by lia.
Qed.

Lemma merge_bytes_witness :
  let w := merge (strbExtend 5) 0x11223344 0xaabbccdd in
  w / 2 ^ (8 * 1) mod 2 ^ 8 = 0x11223344 / 2 ^ (8 * 1) mod 2 ^ 8.
Proof. apply (merge_bytes 5 0x11223344 0xaabbccdd 1); unfold word_ok; lia. Defined.

(** ** Searching a set *)

Lemma find_from_Some P i set w : find_from P i set = Some w →
  i <= w ∧ ∃ l, set !! Z.to_nat (w - i) = Some l ∧ P l = true ∧
  ∀ j l, set !! j = Some l → Z.of_nat j < w - i → P l = false.
Proof.
  revert i. induction set as [|x set IH]; intros i H; [done|]. simpl in H.
  destruct (P x) eqn:E.
  - injection H as <-. split; [lia|]. rewrite Z.sub_diag. exists x. split; [done|].
    split; [done|]. intros; lia.
  - destruct (IH (i + 1) H) as (Hi & l & Hl & HP & Hall). split; [lia|]. exists l.
    replace (Z.to_nat (w - i)) with (S (Z.to_nat (w - (i + 1)))) by lia. split; [done|].
    split; [done|]. intros [|j] l' Hj Hlt; simplify_eq/=; [done|].
    apply (Hall j); [done | lia].
Qed.

Lemma find_way_Some P set w : find_way P set = Some w →
  ∃ l, vec_at set w = Ok l ∧ P l = true.
Proof.
  intros H. apply find_from_Some in H as (Hw & l & Hl & HP & _). exists l.
  split; [|done]. apply vec_at_Ok. rewrite Z.sub_0_r in Hl. auto.
Qed.

Lemma find_way_None P set : find_way P set = None ↔ ∀ j l, set !! j = Some l → P l = false.
Proof.
  unfold find_way. generalize 0. induction set as [|x set IH]; intros i; simpl; [done|].
  destruct (P x) eqn:E.
  - split; [done|]. intros H. by rewrite (H 0%nat x) in E.
  - rewrite IH. split.
    + intros H [|j] l Hj; simplify_eq/=; eauto.
    + intros H j l Hj. by apply (H (S j)).
Qed.

(** ** Invariant *)

(** [2^s] sets of [a] ways of [2^o] bytes. *)
Record wf (s o a : Z) (c : CacheBase) : Prop := {
  w_s : 1 <= s < 32;
  w_o : 0 <= o < 32;
  w_a : 0 < a;
  w_line : lineBytes_ c = 2 ^ o;
  w_off : offsetBits_ c = o;
  w_sets : sets_ c = 2 ^ s;
  w_assoc : assoc_ c = a;
  w_arr : zlen (setsArr_ c) = 2 ^ s;
  w_set : Forall (λ set, zlen set = a ∧
                    Forall (λ l, zlen (data l) = Z.shiftr (2 ^ o) WordShift) set) (setsArr_ c);
  w_lag : 0 <= lag_set_idx_ c < 2 ^ s;
  w_repl : Repl.ok (2 ^ s) a (repl_policy_ c)
}.

Section invariant.
Context (s o a : Z).
Implicit Types c : CacheBase.

Definition line_ok (l : CacheLine) : Prop := zlen (data l) = Z.shiftr (2 ^ o) WordShift.

Lemma setIndexOf_eq c addr : wf s o a c → setIndexOf c addr = addr / 2 ^ o mod 2 ^ s.
Proof.
  intros Hw. destruct (w_s s o a c Hw), (w_o s o a c Hw). unfold setIndexOf.
  rewrite (w_off s o a c Hw), (w_sets s o a c Hw), land_mask_mod, Z.shiftr_div_pow2 by lia. done.
Qed.

Lemma setIndexOf_range c addr : wf s o a c → 0 <= setIndexOf c addr < 2 ^ s.
Proof.
  intros Hw. rewrite setIndexOf_eq by done. destruct (w_s s o a c Hw).
  apply Z.mod_pos_bound. lia.
Qed.

Lemma blockAddrOf_eq c addr : wf s o a c → blockAddrOf c addr = addr / 2 ^ o * 2 ^ o.
Proof.
  intros Hw. destruct (w_o s o a c Hw). unfold blockAddrOf. rewrite (w_line s o a c Hw).
  rewrite <- Z.ldiff_land. replace (2 ^ o - 1) with (Z.ones o) by (rewrite Z.ones_equiv; lia).
  rewrite Z.ldiff_ones_r, Z.shiftl_mul_pow2, Z.shiftr_div_pow2 by lia. done.
Qed.

Lemma setIndexOf_block c addr : wf s o a c →
  setIndexOf c (blockAddrOf c addr) = setIndexOf c addr.
Proof.
  intros Hw. rewrite !setIndexOf_eq, blockAddrOf_eq by done. destruct (w_o s o a c Hw).
  by rewrite Z.div_mul by lia.
Qed.

Lemma set_exists c si : wf s o a c → 0 <= si < 2 ^ s →
  ∃ set, vec_at (setsArr_ c) si = Ok set ∧ zlen set = a ∧ Forall line_ok set.
Proof.
  intros Hw Hs. destruct (vec_at_lt (setsArr_ c) si) as [set Hset].
  { by rewrite (w_arr s o a c Hw). }
  exists set. split; [done|]. apply (Forall_vec_at _ _ _ _ (w_set s o a c Hw) Hset).
Qed.

(** The array after one line has been replaced. *)
Definition put c (si way : Z) (l : CacheLine) : CacheBase :=
  c <| setsArr_ ::= alter (<[Z.to_nat way := l]>) (Z.to_nat si) |>.

Lemma set_line_Ok c si way l : wf s o a c → 0 <= si < 2 ^ s → 0 <= way < a → line_ok l →
  set_line c si way l = Ok (put c si way l) ∧ wf s o a (put c si way l).
Proof.
  intros Hw Hs Hway Hl. destruct (set_exists c si Hw Hs) as (set & Hset & Hlen & Hf).
  unfold set_line. rewrite Hset. cbn [mbind res_bind]. rewrite vec_set_lt by lia.
  cbn [mbind res_bind]. rewrite vec_set_lt by (by rewrite (w_arr s o a c Hw)).
  cbn [mbind res_bind]. apply vec_at_Ok in Hset as [_ Hset].
  assert (<[Z.to_nat si := <[Z.to_nat way := l]> set]> (setsArr_ c) =
          alter (<[Z.to_nat way := l]>) (Z.to_nat si) (setsArr_ c)) as E.
  { symmetry. apply list_eq. intros j. destruct (decide (j = Z.to_nat si)) as [->|Hne].
    - rewrite list_lookup_alter, decide_True, Hset by done. simpl.
      by rewrite list_lookup_insert_eq by (by eapply lookup_lt_Some).
    - by rewrite list_lookup_alter, decide_False, list_lookup_insert_ne by done. }
  split.
  - unfold put. rewrite E. done.
  - destruct Hw. unfold put. constructor; simpl; rewrite <- ?E; try done.
    + by rewrite zlen_insert.
    + apply Forall_insert; [done|]. rewrite zlen_insert. split; [done|]. by apply Forall_insert.
Qed.

(** ** Contents *)

Definition line_of c (si way : Z) : option CacheLine :=
  setsArr_ c !! Z.to_nat si ≫= λ set, set !! Z.to_nat way.

(** The geometry of a cache, which no operation changes. *)
Definition geom c := (lineBytes_ c, offsetBits_ c, sets_ c, assoc_ c, cache_id_ c, victim_way_lag_ c).

Lemma geom_index c c' : geom c' = geom c →
  setIndexOf c' = setIndexOf c ∧ blockAddrOf c' = blockAddrOf c ∧ tagOf c' = tagOf c.
Proof. unfold geom, tagOf, setIndexOf, blockAddrOf. by intros [= -> -> -> _ _ _]. Qed.

Lemma line_of_set c si way set : vec_at (setsArr_ c) si = Ok set → line_of c si way = set !! Z.to_nat way.
Proof. intros [_ H]%vec_at_Ok. unfold line_of. by rewrite H. Qed.

Lemma line_exists c si way : wf s o a c → 0 <= si < 2 ^ s → 0 <= way < a →
  ∃ l, line_at c si way = Ok l ∧ line_of c si way = Some l ∧ line_ok l.
Proof.
  intros Hw Hs Hway. destruct (set_exists c si Hw Hs) as (set & Hset & Hlen & Hf).
  destruct (vec_at_lt set way) as [l Hl]; [lia|]. exists l. unfold line_at. rewrite Hset.
  split; [done|]. rewrite (line_of_set _ _ _ _ Hset).
  pose proof (Forall_vec_at _ _ _ _ Hf Hl). by apply vec_at_Ok in Hl as [_ ?].
Qed.

Lemma line_of_put c si way l si' way' :
  wf s o a c → 0 <= si < 2 ^ s → 0 <= way < a → 0 <= si' → 0 <= way' →
  line_of (put c si way l) si' way' =
  if decide ((si', way') = (si, way)) then Some l else line_of c si' way'.
Proof.
  intros Hw Hs Hway Hs' Hway'. destruct (set_exists c si Hw Hs) as (set & Hset & Hlen & _).
  apply vec_at_Ok in Hset as [_ Hset]. unfold line_of, put. simpl.
  rewrite list_lookup_alter. case_decide as E1; case_decide as E2; [| | |done].
  - injection E2 as -> ->. rewrite Hset. simpl. apply list_lookup_insert_eq. unfold zlen in Hlen. lia.
  - assert (si' = si) as -> by lia. rewrite Hset. simpl.
    apply list_lookup_insert_ne. intros ?. apply E2. f_equal. lia.
  - injection E2 as -> ->. done.
Qed.

(** A block is resident when a valid line of its set carries its tag. *)
Definition resident c (b : Z) : Prop :=
  ∃ way l, 0 <= way ∧ line_of c (setIndexOf c b) way = Some l ∧ matches (tagOf c b) l = true.

(** The tag check finds exactly the resident blocks. *)
Lemma find_resident c b set : vec_at (setsArr_ c) (setIndexOf c b) = Ok set →
  match find_way (matches (tagOf c b)) set with
  | Some w => 0 <= w ∧ ∃ l, vec_at set w = Ok l ∧ matches (tagOf c b) l = true
  | None => ¬ resident c b
  end.
Proof.
  intros Hset. destruct (find_way _ set) as [w|] eqn:E.
  - apply find_way_Some in E as (l & Hl & Hm). split; [|eauto]. apply vec_at_range in Hl. lia.
  - rewrite find_way_None in E. intros (way & l & Hway & Hl & Hm).
    rewrite (line_of_set _ _ _ _ Hset) in Hl. by rewrite (E _ _ Hl) in Hm.
Qed.

Lemma probe_spec c b : wf s o a c → ∃ r, probe c b = Ok r ∧ (r = true ↔ resident c b).
Proof.
  intros Hw. destruct (set_exists c _ Hw (setIndexOf_range c b Hw)) as (set & Hset & _ & _).
  unfold probe. rewrite Hset. cbn [mbind res_bind]. pose proof (find_resident c b set Hset) as H.
  eexists. split; [done|]. destruct (find_way _ set); [|by split].
  split; [|done]. intros _. destruct H as (Hw0 & l & Hl & Hm). eexists _, l.
  split; [exact Hw0|]. split; [|done]. rewrite (line_of_set _ _ _ _ Hset). by apply vec_at_Ok in Hl as [_ ?].
Qed.

(** ** Victims *)

Lemma free_or_victim_Ok c si set : wf s o a c → 0 <= si < 2 ^ s → zlen set = a →
  ∃ w, free_or_victim c si set = Ok w ∧ 0 <= w < a.
Proof.
  intros Hw Hs Hl. unfold free_or_victim. destruct (find_way _ set) as [w|] eqn:E.
  - apply find_way_Some in E as (l & Hv & _). apply vec_at_range in Hv. exists w. split; [done | lia].
  - apply (Repl.getVictim_ok (2 ^ s) a); [apply (w_repl s o a c Hw) | apply (w_a s o a c Hw) | done | done].
Qed.

Lemma miss_victim_way_Ok c si set : wf s o a c → 0 <= si < 2 ^ s → zlen set = a →
  ∃ w, miss_victim_way c si set = Ok w ∧ 0 <= w < a.
Proof.
  intros Hw Hs Hl. unfold miss_victim_way. destruct (victim_way_lag_ c); simpl.
  - assert (0 <= (if lag_set_valid_ c then lag_set_idx_ c else si) < 2 ^ s) as Hlag
      by (destruct (lag_set_valid_ c); [apply (w_lag s o a c Hw) | done]).
    destruct (set_exists c _ Hw Hlag) as (lset & -> & Hll & _). cbn [mbind res_bind].
    by apply free_or_victim_Ok.
  - by apply free_or_victim_Ok.
Qed.

(** ** What an operation on one line leaves alone *)

Definition frame c c' (si way : Z) : Prop :=
  geom c' = geom c ∧
  ∀ si' way', 0 <= si' → 0 <= way' → (si', way') ≠ (si, way) →
    line_of c' si' way' = line_of c si' way'.

Lemma frame_put c si way l : wf s o a c → 0 <= si < 2 ^ s → 0 <= way < a →
  frame c (put c si way l) si way.
Proof.
  intros Hw Hs Hway. split; [done|]. intros si' way' H1 H2 Hne.
  rewrite line_of_put by done. by rewrite decide_False.
Qed.

Lemma note_lag_wf c si : wf s o a c → 0 <= si < 2 ^ s → wf s o a (note_lag c si).
Proof. intros Hw Hs. unfold note_lag. destruct (victim_way_lag_ c); [|done]. destruct Hw. by constructor. Qed.

Lemma note_lag_view c si : setsArr_ (note_lag c si) = setsArr_ c ∧ geom (note_lag c si) = geom c ∧
  stats (note_lag c si) = stats c ∧ repl_policy_ (note_lag c si) = repl_policy_ c ∧
  prefetcher_ (note_lag c si) = prefetcher_ c.
Proof. unfold note_lag. by destruct (victim_way_lag_ c). Qed.

Lemma wf_ext c c' : wf s o a c → geom c' = geom c → setsArr_ c' = setsArr_ c →
  0 <= lag_set_idx_ c' < 2 ^ s → Repl.ok (2 ^ s) a (repl_policy_ c') → wf s o a c'.
Proof.
  intros [] Hg Ha Hl Hr. unfold geom in Hg. injection Hg as E1 E2 E3 E4 E5 E6.
  constructor; rewrite ?E1, ?E2, ?E3, ?E4, ?Ha; done.
Qed.

Lemma line_of_ext c c' si way : setsArr_ c' = setsArr_ c → line_of c' si way = line_of c si way.
Proof. unfold line_of. by intros ->. Qed.

(** ** [access] *)

Definition count_hit (st : CacheStats) : CacheStats :=
  st <| accesses ::= incr |> <| hits ::= incr |>.
Definition count_miss (st : CacheStats) : CacheStats :=
  st <| accesses ::= incr |> <| misses ::= incr |>.

(** The two outcomes: the line of the block, or a line cleared for it. *)
Inductive accessed c (now addr way : Z) c' : Prop :=
| AHit l l1 l' : line_of c (setIndexOf c addr) way = Some l →
    line_of c' (setIndexOf c addr) way = Some l' →
    matches (tagOf c addr) l = true → matches (tagOf c addr) l' = true →
    dirty l' = dirty l → data l' = data l → stats c' = count_hit (stats c) →
    Repl.onHit (repl_policy_ c) now (setIndexOf c addr) way l = Ok (repl_policy_ c', l1) →
    stamp l' = stamp l1 → accessed c now addr way c'
| AMiss l set : line_of c (setIndexOf c addr) way = Some l → ¬ resident c addr →
    line_of c' (setIndexOf c addr) way = Some (invalidate l) →
    stats c' = count_miss (stats c) → vec_at (setsArr_ c) (setIndexOf c addr) = Ok set →
    miss_victim_way c (setIndexOf c addr) set = Ok way →
    repl_policy_ c' = repl_policy_ c → accessed c now addr way c'.

(** A line of [c] replaced, after changes of [c] outside its sets. *)
Lemma put_over c cc si way l : wf s o a cc → setsArr_ cc = setsArr_ c → geom cc = geom c →
  0 <= si < 2 ^ s → 0 <= way < a → line_ok l →
  set_line cc si way l = Ok (put cc si way l) ∧ wf s o a (put cc si way l) ∧ frame c (put cc si way l) si way ∧
  line_of (put cc si way l) si way = Some l.
Proof.
  intros Hw El Eg Hs Hway Hl. destruct (set_line_Ok cc si way l Hw Hs Hway Hl) as [-> Hw'].
  destruct (frame_put cc si way l Hw Hs Hway) as [Hg Hfr]. split; [done|]. split; [done|]. split.
  - split; [by rewrite Hg | intros; by rewrite Hfr, (line_of_ext c cc)].
  - rewrite line_of_put by (done || lia). by rewrite decide_True.
Qed.

Lemma credit_view l pf l' pf' : credit_prefetch l pf = (l', pf') →
  tag l' = tag l ∧ valid l' = valid l ∧ dirty l' = dirty l ∧ data l' = data l ∧ stamp l' = stamp l.
Proof. unfold credit_prefetch. intros E. by destruct pf, (is_prefetched l); injection E as <- _. Qed.

Lemma access_hit c now addr set way : wf s o a c → vec_at (setsArr_ c) (setIndexOf c addr) = Ok set →
  Forall line_ok set → zlen set = a → find_way (matches (tagOf c addr)) set = Some way →
  ∃ c', access c now addr = Ok (way, c') ∧ wf s o a c' ∧ 0 <= way < a ∧
    frame c c' (setIndexOf c addr) way ∧ accessed c now addr way c'.
Proof.
  intros Hw Hset Hf Hlen Hfw. pose proof (setIndexOf_range c addr Hw) as Hs.
  pose proof (find_resident c addr set Hset) as Hfind. rewrite Hfw in Hfind. destruct Hfind as (_ & l & Hl & Hm).
  pose proof (vec_at_range _ _ _ Hl) as Hwr. pose proof (Forall_vec_at _ _ _ _ Hf Hl) as Hd. unfold line_ok in Hd.
  unfold access. cbv zeta. set (c1 := c <| stats ::= _ |>).
  change (tagOf c1) with (tagOf c). change (setIndexOf c1) with (setIndexOf c).
  change (setsArr_ c1) with (setsArr_ c). rewrite Hset. cbn [mbind res_bind]. rewrite Hfw, Hl. cbn [mbind res_bind].
  set (si := setIndexOf c addr) in *.
  assert (wf s o a (note_lag c1 si)) as Hwl by (apply note_lag_wf; [apply (wf_ext c); try done; apply Hw | done]).
  destruct (note_lag_view c1 si) as (El & Eg & Es & Er & _).
  destruct (Repl.onHit_ok (2 ^ s) a (repl_policy_ (note_lag c1 si)) now si way l)
    as (p & l1 & Hhit & Hp & E1 & E2 & E3 & E4 & _); [apply (w_repl s o a _ Hwl) | done |].
  rewrite Hhit. rewrite Er in Hhit. cbn [mbind res_bind].
  destruct (credit_prefetch l1 _) as [l2 pf] eqn:Ecr. apply credit_view in Ecr as (F1 & F2 & F3 & F4 & F5).
  set (c3 := _ <| prefetcher_ := pf |>).
  assert (wf s o a c3) as Hw3 by (apply (wf_ext (note_lag c1 si)); try done; apply Hwl).
  destruct (put_over c c3 si way l2 Hw3 El Eg Hs) as (-> & Hw4 & Hfr & Hl2);
    [lia | unfold line_ok; by rewrite F4, E4 |].
  cbn [mbind res_bind]. eexists. split; [done|]. split; [done|]. split; [lia|]. split; [done|].
  apply (AHit _ _ _ _ _ l l1 l2); try done; try congruence.
  - rewrite (line_of_set _ _ _ _ Hset). by apply vec_at_Ok in Hl as [_ ?].
  - unfold matches in *. by rewrite F1, F2, E1, E2.
  - change (stats (put c3 si way l2)) with (stats (note_lag c1 si) <| hits ::= incr |>). by rewrite Es.
Qed.

Lemma access_miss c now addr set : wf s o a c → vec_at (setsArr_ c) (setIndexOf c addr) = Ok set →
  Forall line_ok set → zlen set = a → find_way (matches (tagOf c addr)) set = None →
  ∃ way c', access c now addr = Ok (way, c') ∧ wf s o a c' ∧ 0 <= way < a ∧
    frame c c' (setIndexOf c addr) way ∧ accessed c now addr way c'.
Proof.
  intros Hw Hset Hf Hlen Hfw. pose proof (setIndexOf_range c addr Hw) as Hs.
  pose proof (find_resident c addr set Hset) as Hfind. rewrite Hfw in Hfind.
  unfold access. cbv zeta. set (c1 := c <| stats ::= _ |>).
  change (tagOf c1) with (tagOf c). change (setIndexOf c1) with (setIndexOf c).
  change (setsArr_ c1) with (setsArr_ c). rewrite Hset. cbn [mbind res_bind]. rewrite Hfw.
  set (si := setIndexOf c addr) in *. set (c2 := c1 <| stats ::= _ |>).
  assert (wf s o a c2) as Hw2 by (apply (wf_ext c); try done; apply Hw).
  destruct (miss_victim_way_Ok c2 si set Hw2 Hs Hlen) as (v & Hvict & Hv).
  rewrite Hvict. cbn [mbind res_bind].
  change (assoc_ c2) with (assoc_ c). unfold umod. rewrite (w_assoc s o a c Hw).
  rewrite (proj2 (Z.eqb_neq a 0)) by lia. cbn [mbind res_bind]. rewrite Z.mod_small by lia.
  destruct (vec_at_lt set v) as [l Hl]; [lia|]. rewrite Hl. cbn [mbind res_bind].
  destruct (note_lag_view c2 si) as (El & Eg & Es & Er & _).
  destruct (put_over c (note_lag c2 si) si v (invalidate l) (note_lag_wf c2 si Hw2 Hs) El Eg Hs Hv) as (-> & Hw4 & Hfr & Hl2);
    [by apply (Forall_vec_at _ _ _ _ Hf Hl)|].
  cbn [mbind res_bind]. eexists v, _. split; [done|]. split; [done|]. split; [done|]. split; [done|].
  apply (AMiss _ _ _ _ _ l set); try done.
  rewrite (line_of_set _ _ _ _ Hset). by apply vec_at_Ok in Hl as [_ ?].
Qed.

Lemma access_Ok c now addr : wf s o a c →
  ∃ way c', access c now addr = Ok (way, c') ∧ wf s o a c' ∧ 0 <= way < a ∧
    frame c c' (setIndexOf c addr) way ∧ accessed c now addr way c'.
Proof.
  intros Hw. destruct (set_exists c _ Hw (setIndexOf_range c addr Hw)) as (set & Hset & Hlen & Hf).
  destruct (find_way (matches (tagOf c addr)) set) as [way|] eqn:Hfw.
  - destruct (access_hit c now addr set way) as (c' & Hc'); [done..|]. by exists way, c'.
  - by apply (access_miss c now addr set).
Qed.

(** ** [handle_fill] *)

Lemma fill_Ok c now way addr ret : wf s o a c → 0 <= way < a →
  ∃ c' l l', handle_fill c now (setIndexOf c addr) way addr ret = Ok c' ∧ wf s o a c' ∧
    line_of c (setIndexOf c addr) way = Some l ∧
    Repl.onFill (repl_policy_ c) now (setIndexOf c addr) way
      (setTag (tagOf c addr) (activate now l)) = Ok (repl_policy_ c', l') ∧
    frame c c' (setIndexOf c addr) way ∧ stats c' = stats c ∧
    line_of c' (setIndexOf c addr) way = Some l' ∧ matches (tagOf c addr) l' = true ∧
    dirty l' = false.
Proof.
  intros Hw Hway. pose proof (setIndexOf_range c addr Hw) as Hs.
  destruct (set_exists c _ Hw Hs) as (set & Hset & Hlen & Hf).
  destruct (line_exists c _ way Hw Hs Hway) as (l & Hl & Hlof & Hd).
  unfold handle_fill. rewrite Hl. cbn [mbind res_bind]. rewrite Hset. cbn [mbind res_bind].
  rewrite Z.eqb_refl, (proj2 (Z.ltb_lt way (zlen set))) by lia. cbn [andb assert_ mbind res_bind].
  set (si := setIndexOf c addr) in *. set (l1 := setTag (tagOf c addr) (activate now l)).
  destruct (Repl.onFill_ok (2 ^ s) a (repl_policy_ c) now si way l1)
    as (p & l2 & Hfill & Hp & E1 & E2 & E3 & E4 & _);
    [apply (w_repl s o a c Hw) | apply (w_a s o a c Hw) | done |].
  rewrite Hfill. cbn [mbind res_bind]. set (c1 := c <| repl_policy_ := p |>).
  assert (wf s o a c1) as Hw1 by (apply (wf_ext c); try done; apply Hw).
  assert (line_ok l2) as Hd2 by (unfold line_ok; by rewrite E4).
  destruct (set_line_Ok c1 si way l2 Hw1 Hs Hway Hd2) as [Hset' Hw2].
  eexists _, l, l2. split; [exact Hset'|]. split; [done|]. split; [done|]. split; [exact Hfill|].
  split; [exact (frame_put c1 si way l2 Hw1 Hs Hway)|].
  split; [done|]. split; [rewrite line_of_put by (done || lia); by rewrite decide_True|].
  split; [|by rewrite E3]. unfold matches. rewrite E1, E2. simpl. apply Z.eqb_refl.
Qed.

(** ** Coherence: every valid line is in its set, under a tag of its own *)

Definition coherent c : Prop :=
  ∀ si way l, 0 <= si → 0 <= way → line_of c si way = Some l → valid l = true →
    setIndexOf c (tag l) = si ∧ tagOf c (tag l) = tag l ∧
    ∀ way' l', 0 <= way' → line_of c si way' = Some l' → matches (tag l) l' = true → way' = way.

Lemma matches_true t l : matches t l = true ↔ valid l = true ∧ tag l = t.
Proof. unfold matches. rewrite andb_true_iff, Z.eqb_eq. done. Qed.

Lemma coherent_update c c' si way l' : 0 <= si → 0 <= way → coherent c → frame c c' si way →
  line_of c' si way = Some l' →
  (valid l' = true → setIndexOf c (tag l') = si ∧ tagOf c (tag l') = tag l' ∧
     ∀ way2 l2, 0 <= way2 → line_of c si way2 = Some l2 → matches (tag l') l2 = true → way2 = way) →
  coherent c'.
Proof.
  intros Hsi Hway Hc [Hg Hfr] Hl' Hnew si1 way1 l1 H1 H2 Hl1 Hv1.
  destruct (geom_index c c' Hg) as (-> & _ & ->).
  destruct (decide ((si1, way1) = (si, way))) as [E|E].
  - injection E as -> ->. rewrite Hl' in Hl1. injection Hl1 as <-.
    destruct (Hnew Hv1) as (? & ? & Hu). split; [done|]. split; [done|].
    intros way2 l2 Hw2 Hl2 Hm2. destruct (decide (way2 = way)) as [|Hne]; [done|].
    rewrite Hfr in Hl2 by (done || congruence). by apply (Hu way2 l2).
  - rewrite Hfr in Hl1 by done. destruct (Hc si1 way1 l1 H1 H2 Hl1 Hv1) as (? & ? & Hu).
    split; [done|]. split; [done|]. intros way2 l2 Hw2 Hl2 Hm2.
    destruct (decide ((si1, way2) = (si, way))) as [E2|E2].
    + injection E2 as -> ->. rewrite Hl' in Hl2. injection Hl2 as <-.
      apply matches_true in Hm2 as [Hv2 Ht2]. destruct (Hnew Hv2) as (_ & _ & Hu2).
      symmetry. apply (Hu2 way1 l1); [done | done |]. apply matches_true. done.
    + rewrite Hfr in Hl2 by done. by apply (Hu way2 l2).
Qed.

(** The line of a resident block is unique. *)
Lemma coherent_unique c b way1 l1 way2 l2 : wf s o a c → coherent c →
  0 <= way1 → line_of c (setIndexOf c b) way1 = Some l1 → matches (tagOf c b) l1 = true →
  0 <= way2 → line_of c (setIndexOf c b) way2 = Some l2 → matches (tagOf c b) l2 = true →
  way2 = way1.
Proof.
  intros Hw Hc H1 Hl1 Hm1 H2 Hl2 Hm2. pose proof Hm1 as [Hv1 Ht1]%matches_true.
  pose proof (setIndexOf_range c b Hw).
  destruct (Hc (setIndexOf c b) way1 l1) as (_ & _ & Hu); [lia | done..|].
  apply (Hu way2 l2); [done | done | by rewrite Ht1].
Qed.

Lemma tagOf_idem c b : wf s o a c → tagOf c (tagOf c b) = tagOf c b ∧
  setIndexOf c (tagOf c b) = setIndexOf c b.
Proof.
  intros Hw. split; [|by apply setIndexOf_block]. unfold tagOf. rewrite !blockAddrOf_eq by done.
  destruct (w_o s o a c Hw). by rewrite Z.div_mul by lia.
Qed.

Lemma access_coherent c now addr way c' : wf s o a c → coherent c → 0 <= way →
  frame c c' (setIndexOf c addr) way → accessed c now addr way c' → coherent c'.
Proof.
  intros Hw Hc Hway Hfr Ha. pose proof (setIndexOf_range c addr Hw).
  destruct Ha as [l l1 l' Hl Hl' Hm Hm' _ _ _ _ _ | l set Hl Hnr Hl' _ _ _ _].
  - apply (coherent_update c c' (setIndexOf c addr) way l'); [lia | done | done | done | done |]. intros _.
    apply matches_true in Hm' as [Hv' ->]. destruct (tagOf_idem c addr Hw) as [-> ->].
    split; [done|]. split; [done|]. intros way2 l2 H2 Hl2 Hm2.
    by eapply (coherent_unique c addr way l).
  - apply (coherent_update c c' (setIndexOf c addr) way (invalidate l)); [lia | done | done | done | done |]. done.
Qed.

Lemma fill_coherent c addr way c' l' : wf s o a c → coherent c → ¬ resident c addr → 0 <= way →
  frame c c' (setIndexOf c addr) way → line_of c' (setIndexOf c addr) way = Some l' →
  matches (tagOf c addr) l' = true → coherent c'.
Proof.
  intros Hw Hc Hnr Hway Hfr Hl' Hm'. pose proof (setIndexOf_range c addr Hw).
  apply (coherent_update c c' (setIndexOf c addr) way l'); [lia | done | done | done | done |]. intros _.
  apply matches_true in Hm' as [Hv' ->]. destruct (tagOf_idem c addr Hw) as [-> ->].
  split; [done|]. split; [done|]. intros way2 l2 H2 Hl2 Hm2.
  destruct Hnr. by exists way2, l2.
Qed.

(** Residency when one line changes. *)
Lemma resident_frame c c' si way b : wf s o a c → frame c c' si way → resident c' b →
  resident c b ∨ setIndexOf c b = si ∧
    ∃ l', line_of c' si way = Some l' ∧ matches (tagOf c b) l' = true.
Proof.
  intros Hw [Hg Hfr] (way1 & l1 & H1 & Hl1 & Hm1). pose proof (setIndexOf_range c b Hw).
  destruct (geom_index c c' Hg) as (E1 & _ & E2). rewrite E1 in Hl1. rewrite E2 in Hm1.
  destruct (decide ((setIndexOf c b, way1) = (si, way))) as [E|E].
  - injection E as E3 E4. right. split; [done|]. exists l1. by rewrite <- E3, <- E4.
  - left. exists way1, l1. split; [done|]. split; [|done].
    rewrite <- Hfr; [done | lia | done | done].
Qed.

Lemma resident_keep c c' si way b l l' : wf s o a c → frame c c' si way →
  line_of c si way = Some l → line_of c' si way = Some l' →
  (matches (tagOf c b) l = true → matches (tagOf c b) l' = true) →
  resident c b → resident c' b.
Proof.
  intros Hw [Hg Hfr] Hl Hl' Hm (way1 & l1 & H1 & Hl1 & Hm1). pose proof (setIndexOf_range c b Hw).
  destruct (geom_index c c' Hg) as (E1 & _ & E2). unfold resident. rewrite E1, E2.
  destruct (decide ((setIndexOf c b, way1) = (si, way))) as [E|E].
  - injection E as E3 E4. rewrite E3, E4 in *. rewrite Hl in Hl1. injection Hl1 as <-.
    exists way, l'. rewrite <- E4 in *. auto.
  - exists way1, l1. rewrite Hfr by (done || lia). done.
Qed.

(** ** A demand access: look up, and on a miss fill the cleared line *)

Definition demand c (now addr : Z) : res (bool * CacheBase) :=
  '(way, c) ← access c now addr;
  l ← line_at c (setIndexOf c addr) way;
  if valid l then mret (true, c)
  else c ← handle_fill c now (setIndexOf c addr) way addr []; mret (false, c).

Lemma line_at_of c si way l : 0 <= si → 0 <= way → line_of c si way = Some l → line_at c si way = Ok l.
Proof.
  unfold line_of, line_at. intros H1 H2 H.
  destruct (setsArr_ c !! Z.to_nat si) as [set|] eqn:E; [|done]. simpl in H.
  assert (vec_at (setsArr_ c) si = Ok set) as -> by (by apply vec_at_Ok).
  cbn [mbind res_bind]. by apply vec_at_Ok.
Qed.

(** The result is "hit" exactly for resident blocks; afterwards the block is
    resident, and so is nothing else that was not before; a hit loses nothing. *)
Lemma demand_Ok c now addr : wf s o a c → coherent c →
  ∃ hit c', demand c now addr = Ok (hit, c') ∧ wf s o a c' ∧ coherent c' ∧ geom c' = geom c ∧
    (hit = true ↔ resident c addr) ∧ resident c' addr ∧
    stats c' = (if hit then count_hit else count_miss) (stats c) ∧
    (∀ b, resident c' b → resident c b ∨ tagOf c b = tagOf c addr) ∧
    (hit = true → ∀ b, resident c b → resident c' b).
Proof.
  intros Hw Hc. destruct (access_Ok c now addr Hw) as (way & c1 & Ha & Hw1 & Hway & Hfr1 & Hacc).
  pose proof (setIndexOf_range c addr Hw) as Hs. pose proof Hfr1 as [Hg1 _].
  destruct (geom_index c c1 Hg1) as (Ei & Eb & Et).
  unfold demand. rewrite Ha. cbn [mbind res_bind]. rewrite Ei.
  assert (coherent c1) as Hc1 by (eapply access_coherent; [exact Hw | done | apply Hway | done | done]).
  destruct Hacc as [l l1 l' Hl Hl' Hm Hm' _ _ Hst _ _ | l set Hl Hnr Hl' Hst _ _ _].
  - rewrite (line_at_of c1 _ way l') by (done || lia). cbn [mbind res_bind].
    pose proof Hm' as [-> Ht']%matches_true. eexists true, c1. split; [done|].
    split; [done|]. split; [done|]. split; [done|].
    assert (resident c addr) as Hr by (exists way, l; split; [lia | done]).
    assert (∀ b, resident c b → resident c1 b) as Hkeep.
    { intros b. eapply (resident_keep c c1); [done | exact Hfr1 | exact Hl | exact Hl' |].
      rewrite !matches_true. apply matches_true in Hm as [_ Ht]. intros [_ ?].
      apply matches_true in Hm' as [? _]. split; [done | congruence]. }
    splits; try done; [by auto|].
    intros b Hb. apply (resident_frame c c1 (setIndexOf c addr) way b Hw Hfr1) in Hb.
    destruct Hb as [Hb | (_ & l2 & Hl2 & Hm2)]; [by left|]. right.
    rewrite Hl' in Hl2. injection Hl2 as <-. apply matches_true in Hm2 as [_ ?].
    congruence.
  - rewrite (line_at_of c1 _ way (invalidate l)) by (done || lia). cbn [mbind res_bind].
    cbn [invalidate valid over]. 
    assert (¬ resident c1 addr) as Hnr1.
    { intros Hr. apply (resident_frame c c1 (setIndexOf c addr) way addr Hw Hfr1) in Hr.
      destruct Hr as [|(_ & l2 & Hl2 & Hm2)]; [done|]. rewrite Hl' in Hl2. by injection Hl2 as <-. }
    destruct (fill_Ok c1 now way addr [] Hw1 Hway)
      as (c2 & l1 & l2 & Hf & Hw2 & _ & _ & Hfr2 & Hst2 & Hl2 & Hm2 & _).
    rewrite Ei in *. rewrite Hf. cbn [mbind res_bind].
    pose proof Hfr2 as [Hg2 _]. destruct (geom_index c1 c2 Hg2) as (Ei2 & _ & Et2).
    eexists false, c2. split; [done|]. split; [done|].
    split. { rewrite <- Ei in Hfr2, Hl2. eapply (fill_coherent c1); [done | done | exact Hnr1 | | exact Hfr2 | exact Hl2 | exact Hm2]. lia. }
    split; [by rewrite Hg2|]. split; [by split|].
    split. { exists way, l2. rewrite Ei2, Ei, Et2. split; [lia | done]. }
    split; [by rewrite Hst2|]. split; [|done].
    intros b Hb. apply (resident_frame c1 c2 (setIndexOf c addr) way b Hw1 Hfr2) in Hb.
    destruct Hb as [Hb | (_ & l3 & Hl3 & Hm3)].
    + apply (resident_frame c c1 (setIndexOf c addr) way b Hw Hfr1) in Hb.
      destruct Hb as [Hb | (_ & l4 & Hl4 & Hm4)]; [by left|].
      rewrite Hl' in Hl4. by injection Hl4 as <-.
    + right. rewrite Hl2 in Hl3. injection Hl3 as <-. rewrite Et in *.
      apply matches_true in Hm2 as [_ ?], Hm3 as [_ ?]. congruence.
Qed.

Lemma prefetch_Ok c now addr h : wf s o a c → coherent c →
  ∃ r c', handle_prefetch c now addr h = Ok (r, c') ∧ wf s o a c' ∧ coherent c' ∧
    geom c' = geom c ∧ stats c' = stats c.
Proof.
  intros Hw Hc. unfold handle_prefetch. destruct (prefetcher_ c) as [pf|]; [|by eexists _, c].
  destruct (Pf.probe pf addr h) as [maybe pf'].
  assert (∀ q, wf s o a (c <| prefetcher_ := q |>)) as Hwq
    by (intros; apply (wf_ext c); try done; apply Hw).
  destruct maybe as [paddr|].
  2: { eexists _, _. split; [done|]. split; [apply Hwq|]. split; [exact Hc | done]. }
  cbv zeta. set (c1 := c <| prefetcher_ := Some pf' |>).
  change (setIndexOf c1) with (setIndexOf c). change (tagOf c1) with (tagOf c).
  change (setsArr_ c1) with (setsArr_ c).
  pose proof (setIndexOf_range c paddr Hw) as Hs.
  destruct (set_exists c _ Hw Hs) as (set & Hset & Hlen & Hf). rewrite Hset. cbn [mbind res_bind].
  pose proof (find_resident c paddr set Hset) as Hfind.
  destruct (find_way _ set).
  { eexists _, _. split; [done|]. split; [apply Hwq|]. split; [exact Hc | done]. }
  set (c2 := c1 <| prefetcher_ := _ |>). assert (wf s o a c2) as Hw2 by apply Hwq.
  set (si := setIndexOf c paddr) in *.
  destruct (free_or_victim_Ok c2 si set Hw2 Hs Hlen) as (w & Hv & Hwr).
  unfold select_victim. rewrite Hv. cbn [mbind res_bind].
  destruct (vec_at_lt set w) as [l Hl]; [lia|]. rewrite Hl. cbn [mbind res_bind].
  set (l1 := activate now (setTag (tagOf c paddr) l)).
  destruct (Repl.onFill_ok (2 ^ s) a (repl_policy_ c2) now si w l1)
    as (p & l2 & -> & Hp & E1 & E2 & E3 & E4 & _);
    [apply (w_repl s o a c2 Hw2) | apply (w_a s o a c Hw) | done |].
  cbn [mbind res_bind]. set (c3 := c2 <| repl_policy_ := p |>). set (l3 := l2 <| is_prefetched := true |>).
  assert (wf s o a c3) as Hw3 by (apply (wf_ext c2); try done; apply Hw2).
  pose proof (Forall_vec_at _ _ _ _ Hf Hl) as Hd.
  assert (line_ok l3) as Hd3 by (unfold line_ok, l3; simpl; by rewrite E4).
  destruct (set_line_Ok c3 si w l3 Hw3 Hs Hwr Hd3) as [-> Hw4]. cbn [mbind res_bind].
  eexists _, _. split; [done|]. split; [done|]. split; [|done].
  apply (fill_coherent c paddr w _ l3); [done | done | done | lia | | |].
  - exact (frame_put c3 si w l3 Hw3 Hs Hwr).
  - fold si. rewrite line_of_put by (done || lia). by rewrite decide_True.
  - unfold matches, l3. simpl. rewrite E1, E2. simpl. apply Z.eqb_refl.
Qed.

Lemma invalidate_all_Ok c : wf s o a c →
  wf s o a (invalidate_all c) ∧ coherent (invalidate_all c) ∧ ∀ b, ¬ resident (invalidate_all c) b.
Proof.
  intros Hw. assert (∀ si way l, line_of (invalidate_all c) si way = Some l → valid l = false) as Hinv.
  { intros si way l. unfold line_of, invalidate_all. simpl.
    change (map (map invalidate) (setsArr_ c)) with (map invalidate <$> setsArr_ c).
    rewrite list_lookup_fmap. destruct (setsArr_ c !! _) as [set|]; [|done]. simpl.
    change (map invalidate set) with (invalidate <$> set). rewrite list_lookup_fmap.
    destruct (set !! _); [|done]. by intros [= <-]. }
  split; [|split].
  - destruct Hw. constructor; simpl; try done.
    + unfold zlen in *. by rewrite length_map.
    + apply Forall_map. eapply Forall_impl; [|exact w_set0]. intros set [Hl Hf].
      unfold compose. split; [unfold zlen in *; by rewrite length_map|].
      apply Forall_map. eapply Forall_impl; [|exact Hf]. done.
  - intros si way l _ _ Hl Hv. by rewrite (Hinv _ _ _ Hl) in Hv.
  - intros b (way & l & _ & Hl & [Hv _]%matches_true). by rewrite (Hinv _ _ _ Hl) in Hv.
Qed.
End invariant.

(** ** Construction *)

Lemma pow2_of_and n : 0 < n → isPowerOf2 n = true → ∃ k, 0 <= k ∧ n = 2 ^ k.
Proof.
  intros Hn H. unfold isPowerOf2 in H. apply andb_true_iff in H as [_ H%Z.eqb_eq].
  exists (Z.log2 n). split; [apply Z.log2_nonneg | by apply land_pred_pow2].
Qed.

(** The constructor's assertions are what the invariant needs. *)
Lemma cache_make_wf size_bytes line_bytes assoc pf id rp lag c :
  0 <= size_bytes < 2 ^ 32 → 0 < assoc → 0 < line_bytes → line_bytes * assoc < 2 ^ 32 →
  match rp with
  | Some p => Repl.ok (size_bytes / (line_bytes * assoc)) assoc p
  | None => Repl.plru_assoc_ok assoc = true
  end →
  make size_bytes line_bytes assoc pf id rp lag = Ok c →
  ∃ s o, wf s o assoc c ∧ coherent c ∧ stats c = stats_zero ∧
         line_bytes = 2 ^ o ∧ size_bytes = 2 ^ s * (2 ^ o * assoc) ∧ ∀ b, ¬ resident c b.
Proof.
  intros Hsz Ha Hl Hla Hrp H. unfold make, floorLog2 in H. res_inv H. res_inv Ha0. injection Ha0 as <-.
  res_inv H. unfold udiv in Ha0. rewrite u64_small in Ha0 by nia.
  rewrite (proj2 (Z.eqb_neq (line_bytes * assoc) 0)) in Ha0 by nia. injection Ha0 as <-.
  do 3 (res_inv H). injection H as <-.
  apply assert_Ok_inv in Ha0, Ha2, Ha3. rewrite u64_small in Ha0 by nia.
  apply andb_true_iff in Ha2 as [Hgt%Z.ltb_lt Hp2].
  assert (0 <= size_bytes / (line_bytes * assoc) <= size_bytes) as Hq
    by (split; [apply Z.div_pos; nia | apply Z.div_le_upper_bound; nia]).
  rewrite u32_small in Hp2, Ha3 by nia.
  apply pow2_of_and in Hp2 as (s & Hs0 & Es); [|lia]. apply pow2_of_and in Ha3 as (o & Ho0 & Eo); [|lia].
  assert (s < 32) by (apply (Z.pow_lt_mono_r_iff 2); lia).
  assert (1 <= s) by (destruct (decide (s = 0)) as [->|]; [rewrite Es in Hgt; simpl in Hgt|]; lia).
  assert (o < 32) by (apply (Z.pow_lt_mono_r_iff 2); nia).
  exists s, o. rewrite Es in *. subst line_bytes.
  match goal with |- wf _ _ _ ?c0 ∧ _ => set (c := c0) end.
  assert (∀ si way l, line_of c si way = Some l → valid l = false) as Hinv.
  { intros si way l. unfold line_of, c. simpl. destruct (replicate _ _ !! _) as [set|] eqn:E; [|done].
    apply lookup_replicate in E as [-> _]. simpl. intros [-> _]%lookup_replicate. done. }
  splits; try done.
  - constructor; simpl; try done; try lia.
    + apply Z.log2_pow2. lia.
    + apply zlen_replicate. lia.
    + apply Forall_replicate. split; [apply zlen_replicate; lia|]. apply Forall_replicate.
      unfold make, Line.make. simpl. apply zlen_replicate. apply Z.shiftr_nonneg. lia.
    + destruct rp as [p|]; [exact Hrp|]. split; [done|]. split; [done|].
      split; [apply zlen_replicate; lia | apply Forall_replicate; unfold byte_ok; lia].
  - intros si way l _ _ Hl' Hv. by rewrite (Hinv _ _ _ Hl') in Hv.
  - apply Z.eqb_eq in Ha0. pose proof (Z.div_mod size_bytes (2 ^ o * assoc)). nia.
  - intros b (way & l & _ & Hl' & [Hv _]%matches_true). by rewrite (Hinv _ _ _ Hl') in Hv.
Qed.

(** And they hold for every such geometry. *)
Lemma cache_make_Ok s o assoc pf id rp lag : 1 <= s → 0 <= o → 0 < assoc → 2 ^ s * (2 ^ o * assoc) < 2 ^ 32 →
  ∃ c, make (2 ^ s * (2 ^ o * assoc)) (2 ^ o) assoc pf id rp lag = Ok c.
Proof.
  intros Hs Ho Ha Hsz. assert (2 ^ 1 <= 2 ^ s) by (apply Z.pow_le_mono_r; lia). assert (0 < 2 ^ o) by lia.
  assert (∀ k, 0 <= k → isPowerOf2 (2 ^ k) = true) as Hp2.
  { intros k Hk. unfold isPowerOf2. rewrite pow2_land_pred by done. assert (0 < 2 ^ k) by lia.
    by rewrite (proj2 (Z.eqb_neq (2 ^ k) 0)) by lia. }
  unfold make, floorLog2. rewrite (proj2 (Z.ltb_lt 0 (2 ^ o))) by lia. cbn [assert_ mbind res_bind].
  rewrite (u64_small (2 ^ o * assoc)) by nia. unfold udiv. rewrite (proj2 (Z.eqb_neq (2 ^ o * assoc) 0)) by nia.
  rewrite Z.div_mul, Z.mod_mul by nia. cbn [assert_ mbind res_bind]. change (0 =? 0) with true.
  rewrite !u32_small by nia. rewrite !Hp2 by lia. rewrite (proj2 (Z.ltb_lt 1 (2 ^ s))) by lia.
  cbn [andb assert_ mbind res_bind]. by eexists.
Qed.

(** ** Runs *)

Inductive op : Type := Demand (addr : Z) | Prefetch (addr : Z) (is_hit : bool) | FlushAll.

Definition step (c : CacheBase) (e : Z * op) : res (option bool * CacheBase) :=
  match e.2 with
  | Demand addr => '(hit, c) ← demand c e.1 addr; mret (Some hit, c)
  | Prefetch addr h => '(_, c) ← handle_prefetch c e.1 addr h; mret (None, c)
  | FlushAll => mret (None, invalidate_all c)
  end.

(** The hit or miss results of the demand accesses, and the final state. *)
Fixpoint run (c : CacheBase) (es : list (Z * op)) : res (list bool * CacheBase) :=
  match es with
  | [] => mret ([], c)
  | e :: es =>
    '(r, c) ← step c e;
    '(rs, c) ← run c es;
    mret (match r with Some hit => hit :: rs | None => rs end, c)
  end.

Lemma run_Ok s o a c es : wf s o a c → coherent c →
  ∃ rs c', run c es = Ok (rs, c') ∧ wf s o a c' ∧ coherent c' ∧
    u64 (hits (stats c')) = u64 (hits (stats c) + countb (λ h, h) rs) ∧
    u64 (misses (stats c')) = u64 (misses (stats c) + countb negb rs) ∧
    u64 (accesses (stats c')) = u64 (accesses (stats c) + zlen rs).
Proof.
  revert c. induction es as [|e es IH]; intros c Hw Hc; cbn [run].
  { exists [], c. unfold zlen. simpl. rewrite !Z.add_0_r. done. }
  assert (∃ r c1, step c e = Ok (r, c1) ∧ wf s o a c1 ∧ coherent c1 ∧
    stats c1 = match r with
               | Some hit => (if hit then count_hit else count_miss) (stats c)
               | None => stats c end) as (r & c1 & -> & Hw1 & Hc1 & Hst).
  { destruct e as [now [addr | addr h |]]; unfold step; simpl.
    - destruct (demand_Ok s o a c now addr Hw Hc) as (hit & c1 & -> & ? & ? & _ & _ & _ & ? & _).
      cbn [mbind res_bind]. by eexists _, c1.
    - destruct (prefetch_Ok s o a c now addr h Hw Hc) as (r & c1 & -> & ? & ? & _ & ?).
      cbn [mbind res_bind]. by eexists _, c1.
    - destruct (invalidate_all_Ok s o a c Hw) as (? & ? & _). by eexists _, _. }
  cbn [mbind res_bind].
  destruct (IH c1 Hw1 Hc1) as (rs & c' & -> & ? & ? & Hh & Hm & Ha). cbn [mbind res_bind].
  eexists _, c'. split; [done|]. split; [done|]. split; [done|]. rewrite Hst in Hh, Hm, Ha.
  destruct r as [[]|]; simpl in *; unfold zlen in *; simpl in *; splits; try done; u64_solve.
Qed.

(** C14: a cache never holds a block twice and counts every access once.  Take a
    cache the constructor accepts, of a size below 2^32, with any policy of the
    source that serves its associativity: tree pseudo-LRU, the default, serves one,
    two or four ways only, and fails on the first miss of an 8-way cache, which the
    constructor accepts too ([plru_eight_ways_fail]).  Any sequence of demand
    accesses, prefetches and flushes, at any ticks, succeeds; then every valid line
    is in the set its tag selects and no two lines carry the same block, and
    [accesses], [hits] and [misses] count the demand accesses and their results,
    modulo 2^64. *)
Theorem cache_coherent size_bytes line_bytes assoc pf id rp lag c es :
  0 <= size_bytes < 2 ^ 32 → 0 < assoc → 0 < line_bytes → line_bytes * assoc < 2 ^ 32 →
  match rp with
  | Some p => Repl.ok (size_bytes / (line_bytes * assoc)) assoc p
  | None => Repl.plru_assoc_ok assoc = true
  end →
  make size_bytes line_bytes assoc pf id rp lag = Ok c →
  ∃ rs c', run c es = Ok (rs, c') ∧
    (∀ si1 way1 l1 si2 way2 l2, 0 <= si1 → 0 <= way1 → 0 <= si2 → 0 <= way2 →
       line_of c' si1 way1 = Some l1 → line_of c' si2 way2 = Some l2 →
       valid l1 = true → valid l2 = true → tag l1 = tag l2 →
       si1 = si2 ∧ way1 = way2 ∧ setIndexOf c' (tag l1) = si1) ∧
    u64 (hits (stats c')) = u64 (countb (λ h, h) rs) ∧
    u64 (misses (stats c')) = u64 (countb negb rs) ∧
    u64 (accesses (stats c')) = u64 (zlen rs).
Proof.
  intros Hsz Ha Hl Hla Hrp Hmk.
  destruct (cache_make_wf _ _ _ _ _ _ _ _ Hsz Ha Hl Hla Hrp Hmk) as (s & o & Hw & Hc & Hst & _).
  destruct (run_Ok s o assoc c es Hw Hc) as (rs & c' & Hr & Hw' & Hc' & Hh & Hm & Hac).
  rewrite Hst in *. exists rs, c'. split; [done|]. split; [|done].
  intros si1 way1 l1 si2 way2 l2 H1 H2 H3 H4 Hl1 Hl2 Hv1 Hv2 Ht.
  destruct (Hc' si1 way1 l1 H1 H2 Hl1 Hv1) as (E1 & _ & Hu).
  destruct (Hc' si2 way2 l2 H3 H4 Hl2 Hv2) as (E2 & _ & _).
  assert (si1 = si2) as Hsi by congruence. rewrite <- Hsi in Hl2. split; [done|]. split; [|done].
  symmetry. apply (Hu way2 l2); [done | done |]. apply matches_true. by split.
Qed.

(** Eight ways under tree pseudo-LRU: the cache is built, and its first access fails. *)
Lemma plru_eight_ways_fail : match make 1024 16 8 None 0 None false with
  | Ok c => run c [(1, Demand 0x80000000)] = Err AssertFailed
  | Err _ => False
  end.
Proof. by vm_compute. Qed.

(** The instruction cache of the default configuration: 1 KiB, direct mapped. *)
Lemma cache_coherent_witness : ∃ c rs c',
  make 1024 16 1 (Some (Pf.make Pf.NextLine)) 0 None false = Ok c ∧
  run c [(1, Demand 0x80000000); (2, Prefetch 0x80000000 false); (3, Demand 0x80000010);
         (4, Demand 0x80000400); (5, FlushAll); (6, Demand 0x80000010)] = Ok (rs, c') ∧
  u64 (misses (stats c')) = u64 (countb negb rs).
Proof.
  destruct (make 1024 16 1 (Some (Pf.make Pf.NextLine)) 0 None false) as [c|] eqn:E;
    [|by vm_compute in E].
  destruct (cache_coherent 1024 16 1 (Some (Pf.make Pf.NextLine)) 0 None false c
    [(1, Demand 0x80000000); (2, Prefetch 0x80000000 false); (3, Demand 0x80000010);
     (4, Demand 0x80000400); (5, FlushAll); (6, Demand 0x80000010)])
    as (rs & c' & Hr & _ & _ & Hm & _); try lia; try done. by exists c, rs, c'.
Defined.

(** C31: what one demand access does to the contents.  It hits exactly when the
    block is resident; afterwards the block is resident and nothing else has
    been added; a hit evicts nothing, a miss at most one block, from the same
    set. *)
Theorem demand_contents s o a c now addr : wf s o a c → coherent c →
  ∃ hit c', demand c now addr = Ok (hit, c') ∧ (hit = true ↔ resident c addr) ∧
    resident c' addr ∧
    (∀ b, resident c' b → resident c b ∨ tagOf c b = tagOf c addr) ∧
    (∀ b1 b2, resident c b1 → resident c b2 → ¬ resident c' b1 → ¬ resident c' b2 →
       hit = false ∧ tagOf c b1 = tagOf c b2 ∧ setIndexOf c b1 = setIndexOf c addr).
Proof.
  intros Hw Hc. destruct (demand_Ok s o a c now addr Hw Hc)
    as (hit & c' & Hd & _ & _ & _ & Hh & Hr & _ & Hnew & Hkeep).
  exists hit, c'. splits; try done; try apply Hh. intros b1 b2 R1 R2 N1 N2.
  destruct hit; [by destruct N1; apply Hkeep|]. split; [done|].
  clear Hkeep Hnew Hh. 
  destruct (access_Ok s o a c now addr Hw) as (way & c1 & Ha & Hw1 & Hway & Hfr1 & Hacc).
  unfold demand in Hd. rewrite Ha in Hd. cbn [mbind res_bind] in Hd.
  pose proof Hfr1 as [Hg1 _]. destruct (geom_index c c1 Hg1) as (Ei & _ & Et).
  pose proof (setIndexOf_range s o a c addr Hw) as Hs. rewrite Ei in Hd.
  destruct Hacc as [l l1 l' Hl Hl' Hm Hm' _ _ _ _ _ | l set Hl Hnr Hl' _ _ _ _].
  { rewrite (line_at_of c1 _ way l') in Hd by (done || lia). cbn [mbind res_bind] in Hd.
    apply matches_true in Hm' as [Hv _]. rewrite Hv in Hd. done. }
  rewrite (line_at_of c1 _ way (invalidate l)) in Hd by (done || lia).
  cbn [mbind res_bind invalidate valid over] in Hd.
  destruct (fill_Ok s o a c1 now way addr [] Hw1 Hway) as (c2 & l1 & l2 & Hf & _ & _ & _ & Hfr2 & _ & Hl2 & _).
  rewrite Ei in *. rewrite Hf in Hd. cbn [mbind res_bind] in Hd. injection Hd as <-.
  assert (∀ b, resident c b → ¬ resident c2 b →
    setIndexOf c b = setIndexOf c addr ∧ matches (tagOf c b) l = true) as Hlost.
  { intros b Hb Hnb. destruct (decide (setIndexOf c b = setIndexOf c addr ∧ matches (tagOf c b) l = true))
      as [|Hn]; [done|]. destruct Hnb.
    destruct Hb as (way1 & l3 & H1 & Hl3 & Hm3).
    assert ((setIndexOf c b, way1) ≠ (setIndexOf c addr, way)) as Hne.
    { intros E. injection E as E1 E2. rewrite E1, E2, Hl in Hl3. injection Hl3 as <-. by apply Hn. }
    pose proof (setIndexOf_range s o a c b Hw). destruct Hfr1 as [_ Hfr1], Hfr2 as [Hg2 Hfr2].
    destruct (geom_index c1 c2 Hg2) as (Ei2 & _ & Et2).
    exists way1, l3. rewrite Ei2, Ei, Et2, Et. split; [done|]. split; [|done].
    rewrite Hfr2, Hfr1 by (done || lia). done. }
  destruct (Hlost b1 R1 N1) as [S1 [_ M1]%matches_true].
  destruct (Hlost b2 R2 N2) as [_ [_ M2]%matches_true]. split; [congruence | done].
Qed.

Definition cache_ex : CacheBase :=
  match make 1024 16 1 None 0 None false with Ok c => c | Err _ =>
    Mk stats_zero 0 0 0 0 0 false 0 false [] None Repl.LRU end.

Lemma cache_ex_wf : wf 6 4 1 cache_ex ∧ coherent cache_ex.
Proof.
  destruct (cache_make_wf 1024 16 1 None 0 None false cache_ex) as (s & o & Hw & Hc & _ & E1 & E2 & _);
    [lia | lia | lia | lia | done | done |].
  assert (o = 4) as -> by (apply (Z.pow_inj_r 2); [lia | apply Hw | lia | lia]).
  assert (s = 6) as -> by (apply (Z.pow_inj_r 2); [lia | destruct (w_s _ _ _ _ Hw); lia | lia | lia]).
  done.
Qed.

Lemma demand_contents_witness :
  ∃ hit c', demand cache_ex 5 0x80000010 = Ok (hit, c') ∧
    (hit = true ↔ resident cache_ex 0x80000010) ∧ resident c' 0x80000010.
Proof.
  destruct (demand_contents 6 4 1 cache_ex 5 0x80000010) as (hit & c' & ? & ? & ? & _);
    [apply cache_ex_wf | apply cache_ex_wf | exists hit, c'; split; [assumption|]; split; assumption].
Defined.

End CB.
