(* ===== verification/LruCache.v ===== *)
(** * LRU caches as recency lists

    A refinement of [CacheBase] with [LRUReplPolicy] ([src/cacheSim/]): each set
    of the concrete cache, with its ways, valid bits and time stamps, implements
    a list of at most [assoc] tags, the most recently used first. *)

From stdpp Require Import sorting.
From S2P Require Import Prelude Repl Prefetcher CacheBase.
Import stdpp.list_relations.
#[local] Open Scope Z_scope.

Module LruCache.
Import Line CB.

(** ** The specification *)

(** A set is a list of tags; a demand access moves or brings its tag to the
    front and drops what exceeds the associativity. *)
Definition touch_list (a : Z) (t : Z) (L : list Z) : list Z :=
  take (Z.to_nat a) (t :: filter (λ t', t' ≠ t) L).

Definition Sets : Type := Z → list Z.

Definition spec_step (c : CacheBase) (M : Sets) (addr : Z) : bool * Sets :=
  let si := setIndexOf c addr in
  let t := tagOf c addr in
  (bool_decide (t ∈ M si), λ i, if i =? si then touch_list (assoc_ c) t (M si) else M i).

Fixpoint spec_run (c : CacheBase) (M : Sets) (addrs : list Z) : list bool :=
  match addrs with
  | [] => []
  | addr :: addrs => let '(h, M) := spec_step c M addr in h :: spec_run c M addrs
  end.

(** ** The abstraction of one set *)

(** [E]: the valid lines with their ways, the most recently stamped first. *)
Record recency (now : Z) (set : list CacheLine) (E : list (nat * CacheLine)) : Prop := {
  r_mem w l : (w, l) ∈ E ↔ set !! w = Some l ∧ valid l = true;
  r_ways : NoDup E.*1;
  r_tags : NoDup (tag <$> E.*2);
  r_sorted : StronglySorted (λ e1 e2, stamp e2.2 < stamp e1.2) E;
  r_now : Forall (λ e, stamp e.2 < now) E
}.

Definition tags (E : list (nat * CacheLine)) : list Z := tag <$> E.*2.

Lemma StronglySorted_filter_sub {A} (R : A → A → Prop) (P : A → Prop) `{∀ x, Decision (P x)} l :
  StronglySorted R l → StronglySorted R (filter P l).
Proof.
  induction 1 as [|x l Hs IH Hf]; [constructor|]. rewrite filter_cons. case_decide; [|done].
  constructor; [done|]. apply Forall_forall. rewrite Forall_forall in Hf. intros y Hy.
  apply Hf. by apply list_elem_of_filter in Hy as [_ Hy].
Qed.

Lemma NoDup_fmap_filter {A B} (f : A → B) (P : A → Prop) `{∀ x, Decision (P x)} l :
  base.NoDup (f <$> l) → base.NoDup (f <$> filter P l).
Proof.
  induction l as [|x l IH]; [done|]. rewrite filter_cons, fmap_cons.
  intros [Hx Hl]%NoDup_cons. case_decide; [|by apply IH]. rewrite fmap_cons. constructor.
  - intros Hin. apply Hx. apply list_elem_of_fmap in Hin as (y & -> & Hy).
    apply list_elem_of_filter in Hy as [_ Hy]. by apply list_elem_of_fmap_2.
  - by apply IH.
Qed.

(** Entry [w] used at [now] with line [l']: it goes to the front. *)
Lemma recency_use now set E w l' : recency now set E → (w < length set)%nat →
  valid l' = true → stamp l' = now →
  Forall (λ e, e.1 ≠ w → tag e.2 ≠ tag l') E →
  recency (now + 1) (<[w := l']> set) ((w, l') :: filter (λ e, e.1 ≠ w) E).
Proof.
  intros [Hm Hw Ht Hs Hn] Hlt Hv Hst Hd. rewrite Forall_forall in Hd, Hn. constructor.
  - intros w2 l2. rewrite elem_of_cons, list_elem_of_filter, Hm. simpl.
    destruct (decide (w2 = w)) as [->|Hne].
    + rewrite list_lookup_insert_eq by done. split; [intros [E0|[? _]]|intros [E0 _]];
        [by simplify_eq | done | left; congruence].
    + rewrite list_lookup_insert_ne by done. split; [intros [E0|[_ ?]]|]; naive_solver.
  - rewrite fmap_cons. constructor; [|by apply NoDup_fmap_filter].
    intros Hin. apply list_elem_of_fmap in Hin as ([w2 l2] & E0 & Hin).
    apply list_elem_of_filter in Hin as [Hne _]. simpl in *. congruence.
  - rewrite !fmap_cons. rewrite <- list_fmap_compose in *. constructor; [|by apply NoDup_fmap_filter].
    intros Hin. apply list_elem_of_fmap in Hin as ([w2 l2] & E0 & Hin).
    apply list_elem_of_filter in Hin as [Hne Hin].
    apply (Hd _ Hin Hne). done.
  - constructor; [by apply StronglySorted_filter_sub|]. apply Forall_forall. intros e He.
    apply list_elem_of_filter in He as [_ He].
    specialize (Hn e He). simpl in *. lia.
  - constructor; [simpl; lia|]. apply Forall_forall. intros e He.
    apply list_elem_of_filter in He as [_ He].
    specialize (Hn e He). simpl in *. lia.
Qed.

Lemma recency_later now now' set E : now <= now' → recency now set E → recency now' set E.
Proof. intros ? []. constructor; try done. eapply Forall_impl; [exact r_now0|]. simpl. intros. lia. Qed.

Lemma tags_filter_way E w t : NoDup (tags E) →
  (∀ e, e ∈ E → e.1 = w ↔ tag e.2 = t) →
  tags (filter (λ e, e.1 ≠ w) E) = filter (λ t', t' ≠ t) (tags E).
Proof.
  intros _. induction E as [|e E IH]; intros He; [done|]. unfold tags in *.
  rewrite filter_cons, !fmap_cons, filter_cons.
  pose proof (He e ltac:(left)) as Hiff. rewrite <- IH by (intros; apply He; by right).
  repeat case_decide; naive_solver.
Qed.

Lemma elem_of_tags E t : t ∈ tags E ↔ ∃ w l, (w, l) ∈ E ∧ tag l = t.
Proof.
  unfold tags. rewrite <- list_fmap_compose, list_elem_of_fmap. split.
  - intros ([w l] & -> & H). eauto.
  - intros (w & l & H & <-). by exists (w, l).
Qed.

Lemma recency_length now set E : recency now set E → (length E <= length set)%nat.
Proof.
  intros [Hm Hw _ _ _]. rewrite <- (length_fmap fst), <- (length_seq (length set) 0).
  apply submseteq_length, NoDup_submseteq; [done|]. intros w Hin.
  apply list_elem_of_fmap in Hin as ([w' l] & -> & Hin). apply Hm in Hin as [Hl _].
  apply elem_of_seq. apply lookup_lt_Some in Hl. simpl. lia.
Qed.

(** When every line is valid the list is full, and it ends in the line with the
    least stamp. *)
Lemma recency_full now set E v lv : recency now set E →
  (∀ j l, set !! j = Some l → valid l = true) → set !! v = Some lv →
  (∀ j l, set !! j = Some l → stamp lv <= stamp l) →
  length E = length set ∧ ∃ E0, E = E0 ++ [(v, lv)].
Proof.
  intros HR Hall Hv Hmin. pose proof HR as [Hm Hw _ Hs _]. split.
  - apply Nat.le_antisymm; [by eapply recency_length|].
    rewrite <- (length_fmap fst E), <- (length_seq (length set) 0).
    apply submseteq_length, NoDup_submseteq; [apply NoDup_seq|]. intros w Hin.
    apply elem_of_seq in Hin. destruct (lookup_lt_is_Some_2 set w) as [l Hl]; [lia|].
    apply list_elem_of_fmap. exists (w, l). split; [done|]. apply Hm. eauto.
  - assert ((v, lv) ∈ E) as Hin by (apply Hm; eauto).
    destruct E as [|[w' l'] E0 _] using rev_ind; [by apply not_elem_of_nil in Hin|].
    exists E0. apply elem_of_app in Hin as [Hin | Hin].
    + apply sorting.StronglySorted_app in Hs as (Hs & _ & _).
      specialize (Hs _ (w', l') Hin ltac:(left)). simpl in Hs.
      assert (set !! w' = Some l') as Hl' by (apply Hm, elem_of_app; right; left).
      specialize (Hmin _ _ Hl'). lia.
    + apply list_elem_of_singleton in Hin. by rewrite Hin.
Qed.

Lemma filter_all {A} (P : A → Prop) `{∀ x, Decision (P x)} l : Forall P l → filter P l = l.
Proof. induction 1 as [|x l Hx _ IH]; [done|]. by rewrite filter_cons_True, IH by done. Qed.

(** ** The refinement *)

Section refinement.
Context (s o a : Z).
Implicit Types (c : CacheBase) (M : Sets).

Definition lru c : Prop := repl_policy_ c = Repl.LRU ∧ victim_way_lag_ c = false.

Definition implements (now : Z) c M : Prop :=
  ∀ si, 0 <= si < 2 ^ s →
    ∃ set E, vec_at (setsArr_ c) si = Ok set ∧ recency now set E ∧ M si = tags E.

Lemma frame_sets c c' si way l' si' set :
  wf s o a c → wf s o a c' → frame c c' si way → 0 <= si < 2 ^ s → 0 <= way < a →
  line_of c' si way = Some l' → 0 <= si' < 2 ^ s → vec_at (setsArr_ c) si' = Ok set →
  vec_at (setsArr_ c') si' = Ok (if si' =? si then <[Z.to_nat way := l']> set else set).
Proof.
  intros Hw Hw' [_ Hfr] Hs Hway Hl' Hs' Hset.
  destruct (set_exists s o a c si' Hw Hs') as (set0 & Hset0 & Hlen & _).
  rewrite Hset in Hset0. injection Hset0 as <-.
  destruct (set_exists s o a c' si' Hw' Hs') as (set' & Hset' & Hlen' & _).
  rewrite Hset'. f_equal. unfold zlen in *. apply list_eq. intros w.
  pose proof (line_of_set c' si' (Z.of_nat w) set' Hset') as E1.
  pose proof (line_of_set c si' (Z.of_nat w) set Hset) as E2. rewrite Nat2Z.id in *.
  destruct (Z.eqb_spec si' si) as [->|Hne].
  - destruct (decide (w = Z.to_nat way)) as [->|Hnw].
    + rewrite Z2Nat.id in E1 by lia. rewrite list_lookup_insert_eq by lia. congruence.
    + rewrite list_lookup_insert_ne by done. rewrite <- E1, <- E2.
      apply Hfr; [lia | lia |]. intros [= ?]. lia.
  - rewrite <- E1, <- E2. apply Hfr; [lia | lia |]. congruence.
Qed.

Lemma spec_index c c' M addr : geom c' = geom c → spec_step c' M addr = spec_step c M addr.
Proof.
  intros Hg. destruct (geom_index c c' Hg) as (E1 & _ & E2). unfold spec_step.
  rewrite E1, E2. unfold geom in Hg. by injection Hg as _ _ _ -> _ _.
Qed.

(** Both outcomes end by putting a line of the accessed block, stamped now, in
    front of the recency list of its set. *)
Lemma implements_use now c c' M si way l' t set E :
  wf s o a c → wf s o a c' → frame c c' si way → 0 <= si < 2 ^ s → 0 <= way < a →
  line_of c' si way = Some l' → valid l' = true → stamp l' = now → tag l' = t →
  implements now c M → vec_at (setsArr_ c) si = Ok set → recency now set E → M si = tags E →
  Forall (λ e, e.1 ≠ Z.to_nat way → tag e.2 ≠ t) E →
  tags (filter (λ e, e.1 ≠ Z.to_nat way) E) = take (Z.to_nat a - 1) (filter (λ t', t' ≠ t) (tags E)) →
  implements (now + 1) c' (λ i, if i =? si then touch_list a t (M si) else M i).
Proof.
  intros Hw Hw' Hfr Hs Hway Hl' Hv Hst Ht HR Hset Hrec HM Hd Htk si' Hs'.
  destruct (set_exists s o a c si Hw Hs) as (set0 & Hset0 & Hlen & _).
  rewrite Hset in Hset0. injection Hset0 as <-. unfold zlen in Hlen.
  destruct (HR si' Hs') as (set1 & E1 & Hset1 & Hrec1 & HM1).
  pose proof (frame_sets c c' si way l' si' set1 Hw Hw' Hfr Hs Hway Hl' Hs' Hset1) as Hset1'.
  destruct (Z.eqb_spec si' si) as [->|Hne].
  - rewrite Hset in Hset1. injection Hset1 as <-.
    eexists _, ((Z.to_nat way, l') :: filter (λ e, e.1 ≠ Z.to_nat way) E).
    split; [exact Hset1'|]. split.
    + apply recency_use; [done | lia | done | done | by rewrite Ht].
    + unfold touch_list. rewrite HM. change (tags (?e :: ?l)) with (tag e.2 :: tags l).
      destruct (Z.to_nat a) as [|n] eqn:En; [lia|]. simpl. rewrite Ht. f_equal.
      rewrite Htk. f_equal. lia.
  - exists set1, E1. split; [done|]. split; [|done]. eapply recency_later; [|done]. lia.
Qed.

(** Tags of the entries of a set, and residency of their block. *)
Lemma entry_matches c si now set E w l addr : vec_at (setsArr_ c) si = Ok set →
  recency now set E → si = setIndexOf c addr → (w, l) ∈ E →
  line_of c (setIndexOf c addr) (Z.of_nat w) = Some l ∧
  (tag l = tagOf c addr ↔ matches (tagOf c addr) l = true).
Proof.
  intros Hset Hrec -> Hin. apply (r_mem _ _ _ Hrec) in Hin as [Hl Hv]. split.
  - rewrite (line_of_set _ _ _ _ Hset). by rewrite Nat2Z.id.
  - rewrite matches_true. naive_solver.
Qed.

Lemma resident_tags c now set E addr : wf s o a c → vec_at (setsArr_ c) (setIndexOf c addr) = Ok set →
  recency now set E → resident c addr ↔ tagOf c addr ∈ tags E.
Proof.
  intros Hw Hset Hrec. rewrite elem_of_tags. split.
  - intros (way & l & Hway & Hl & [Hv Ht]%matches_true). rewrite (line_of_set _ _ _ _ Hset) in Hl.
    exists (Z.to_nat way), l. split; [|done]. by apply (r_mem _ _ _ Hrec).
  - intros (w & l & Hin & Ht).
    destruct (entry_matches c _ now set E w l addr Hset Hrec eq_refl Hin) as [Hl Hm].
    exists (Z.of_nat w), l. split; [lia|]. split; [done | by apply Hm].
Qed.

Lemma demand_hit now c c' M addr way l l' set E :
  wf s o a c → wf s o a c' → coherent c → implements now c M → 0 <= way < a →
  frame c c' (setIndexOf c addr) way →
  vec_at (setsArr_ c) (setIndexOf c addr) = Ok set → recency now set E →
  M (setIndexOf c addr) = tags E →
  line_of c (setIndexOf c addr) way = Some l → matches (tagOf c addr) l = true →
  line_of c' (setIndexOf c addr) way = Some l' → matches (tagOf c addr) l' = true →
  stamp l' = now → implements (now + 1) c' (spec_step c M addr).2.
Proof.
  intros Hw Hw' Hc HR Hway Hfr Hset Hrec HM Hl Hm Hl' Hm' Hst.
  pose proof (setIndexOf_range s o a c addr Hw) as Hs.
  assert (∀ e, e ∈ E → e.1 = Z.to_nat way ↔ tag e.2 = tagOf c addr) as Huniq.
  { intros [w1 l1] Hin. destruct (entry_matches c _ now set E w1 l1 addr Hset Hrec eq_refl Hin)
      as [Hl1 Hm1]. simpl. split.
    - intros ->. rewrite Z2Nat.id, Hl in Hl1 by lia. injection Hl1 as <-.
      by apply matches_true in Hm as [_ ?].
    - intros Ht%Hm1.
      assert (Z.of_nat w1 = way); [|lia].
      apply (coherent_unique s o a c addr way l (Z.of_nat w1) l1); try done; lia. }
  apply matches_true in Hm' as [Hv' Ht'].
  unfold spec_step. cbn [snd]. rewrite (w_assoc s o a c Hw).
  eapply (implements_use now c c' M _ way l' _ set E); try done.
  - apply Forall_forall. intros e He Hne Ht. by apply Hne, Huniq.
  - rewrite (tags_filter_way E _ (tagOf c addr)); [| apply Hrec | done].
    rewrite take_ge; [done|].
    assert (tagOf c addr ∈ tags E) as Hin.
    { apply (resident_tags c now set E addr Hw Hset Hrec). exists way, l. split; [lia | done]. }
    pose proof (recency_length now set E Hrec) as Hlen.
    destruct (set_exists s o a c _ Hw Hs) as (set0 & Hset0 & Hla & _).
    rewrite Hset in Hset0. injection Hset0 as <-. unfold zlen in Hla.
    assert (length (filter (λ t', t' ≠ tagOf c addr) (tags E)) < length (tags E))%nat.
    { apply length_filter_lt with (tagOf c addr); [done|]. by intros ?. }
    unfold tags in *. rewrite !length_fmap in *. lia.
Qed.

Lemma demand_miss now c c' M addr way l set E :
  wf s o a c → wf s o a c' → lru c → implements now c M → 0 <= way < a →
  frame c c' (setIndexOf c addr) way → ¬ resident c addr →
  vec_at (setsArr_ c) (setIndexOf c addr) = Ok set → recency now set E →
  M (setIndexOf c addr) = tags E →
  miss_victim_way c (setIndexOf c addr) set = Ok way →
  line_of c' (setIndexOf c addr) way = Some l → matches (tagOf c addr) l = true →
  stamp l = now → implements (now + 1) c' (spec_step c M addr).2.
Proof.
  intros Hw Hw' [Hlru Hlag] HR Hway Hfr Hnr Hset Hrec HM Hvict Hl Hm Hst.
  pose proof (setIndexOf_range s o a c addr Hw) as Hs.
  destruct (set_exists s o a c _ Hw Hs) as (set0 & Hset0 & Hla & _).
  rewrite Hset in Hset0. injection Hset0 as <-. unfold zlen in Hla.
  assert (tagOf c addr ∉ tags E) as Hnin by (by rewrite <- (resident_tags c now set E addr)).
  apply matches_true in Hm as [Hv Ht].
  unfold spec_step. cbn [snd]. rewrite (w_assoc s o a c Hw).
  eapply (implements_use now c c' M _ way l _ set E); try done.
  - apply Forall_forall. intros [w1 l1] He _ Ht1. apply Hnin, elem_of_tags. eauto.
  - rewrite (filter_all _ (tags E)) by (apply Forall_forall; intros ? ? ->; done).
    unfold miss_victim_way in Hvict. rewrite Hlag in Hvict. cbn [negb] in Hvict.
    unfold free_or_victim in Hvict. rewrite Hlru in Hvict.
    destruct (find_way _ set) as [i|] eqn:Ef.
    + injection Hvict as ->. apply find_way_Some in Ef as (lf & Hlf & Hif).
      apply vec_at_Ok in Hlf as [_ Hlf]. apply negb_true_iff in Hif.
      assert (Forall (λ e, e.1 ≠ Z.to_nat way) E) as Hall.
      { apply Forall_forall. intros [w1 l1] He. simpl. intros ->.
        apply (r_mem _ _ _ Hrec) in He as [Hl1 Hv1]. congruence. }
      rewrite filter_all by done. rewrite take_ge; [done|].
      assert (recency (now + 1) (<[Z.to_nat way := l]> set)
                ((Z.to_nat way, l) :: filter (λ e, e.1 ≠ Z.to_nat way) E)) as Hrec'.
      { apply recency_use; [done | lia | done | done |]. apply Forall_forall.
        intros [w1 l1] He _ Ht1. apply Hnin, elem_of_tags. exists w1, l1. split; [done|].
        simpl in *. congruence. }
      apply recency_length in Hrec'. rewrite length_insert, filter_all in Hrec' by done.
      unfold tags. rewrite !length_fmap. simpl in Hrec'. lia.
    + rewrite find_way_None in Ef.
      unfold Repl.getVictim in Hvict. res_inv Hvict.
      destruct (Repl.min_stamp_spec set) as (v & lv & Hmin & Hv0 & Hlv & Hle).
      { intros ->. simpl in Hla. lia. }
      rewrite Hmin in Hvict. injection Hvict as ->.
      destruct (recency_full now set E (Z.to_nat way) lv) as [HlenE [E0 ->]]; [done | | done | |].
      { intros j lj Hj. specialize (Ef j lj Hj). by apply negb_false_iff in Ef. }
      { intros j lj Hj. by apply (Hle j lj). }
      assert (Forall (λ e, e.1 ≠ Z.to_nat way) E0) as Hall.
      { apply Forall_forall. intros [w1 l1] He Heq. simpl in Heq. subst w1.
        pose proof (r_ways _ _ _ Hrec) as Hnd. rewrite fmap_app in Hnd.
        apply NoDup_app in Hnd as (_ & Hd & _). apply (Hd (Z.to_nat way)); [|left].
        apply list_elem_of_fmap. by exists (Z.to_nat way, l1). }
      rewrite filter_app, filter_all, filter_cons_False by (done || (simpl; tauto)).
      rewrite filter_nil, app_nil_r. rewrite length_app in HlenE. simpl in HlenE.
      unfold tags. rewrite !fmap_app, take_app_le, take_ge; [done | |]; rewrite !length_fmap; lia.
Qed.

Lemma demand_refines now c M addr :
  wf s o a c → coherent c → lru c → implements now c M →
  ∃ c', demand c now addr = Ok ((spec_step c M addr).1, c') ∧ wf s o a c' ∧ coherent c' ∧
    lru c' ∧ geom c' = geom c ∧ implements (now + 1) c' (spec_step c M addr).2.
Proof.
  intros Hw Hc Hlru HR.
  destruct (demand_Ok s o a c now addr Hw Hc)
    as (hit & c' & Hd & Hw' & Hc' & Hg' & Hhit & Hres' & _).
  pose proof (setIndexOf_range s o a c addr Hw) as Hs.
  destruct (HR _ Hs) as (set & E & Hset & Hrec & HM).
  assert (hit = (spec_step c M addr).1) as Eh.
  { unfold spec_step. cbn [fst]. rewrite HM. symmetry.
    destruct hit.
    - apply bool_decide_true. rewrite <- (resident_tags c now set E) by done. by apply Hhit.
    - apply bool_decide_false. rewrite <- (resident_tags c now set E) by done.
      intros Hr. by apply Hhit in Hr. }
  exists c'. rewrite <- Eh. splits; try done;
    destruct (access_Ok s o a c now addr Hw) as (way & c1 & Ha & Hw1 & Hway & Hfr1 & Hacc);
    unfold demand in Hd; rewrite Ha in Hd; cbn [mbind res_bind] in Hd;
    pose proof Hfr1 as [Hg1 Hf1]; destruct (geom_index c c1 Hg1) as (Ei & _ & Et);
    destruct Hlru as [Hpol Hlag]; rewrite Ei in Hd;
    (destruct Hacc as [l l1 l' Hl Hl' Hm Hm' _ _ _ Hon Hst | l set1 Hl Hnr Hl' _ Hset1 Hvict Hrp];
     [ rewrite (line_at_of c1 _ way l') in Hd by (done || lia); cbn [mbind res_bind] in Hd;
       pose proof Hm' as [Hv' _]%matches_true; rewrite Hv' in Hd; injection Hd as _ <-;
       rewrite Hpol in Hon; injection Hon as Hp1 <-
     | rewrite (line_at_of c1 _ way (invalidate l)) in Hd by (done || lia);
       cbn [mbind res_bind invalidate valid over] in Hd;
       destruct (fill_Ok s o a c1 now way addr [] Hw1 Hway)
         as (c2 & l3 & l4 & Hf & _ & _ & Hfill & [Hg2 Hf2] & _ & Hl4 & Hm4 & _);
       rewrite Ei in *; rewrite Hf in Hd; cbn [mbind res_bind] in Hd; injection Hd as _ <-;
       rewrite Hrp, Hpol in Hfill; injection Hfill as Hp2 Hl4e ]).
  - split; [done|]. unfold geom in Hg1. by injection Hg1 as _ _ _ _ _ ->.
  - split; [done|]. unfold geom in Hg'. by injection Hg' as _ _ _ _ _ ->.
  - by apply (demand_hit now c c1 M addr way l l' set E).
  - rewrite Hset in Hset1. injection Hset1 as <-.
    apply (demand_miss now c c2 M addr way l4 set E); try done.
    + split; [done|]. intros si' way' H1 H2 Hne. by rewrite Hf2, Hf1.
    + by rewrite <- Et.
    + by rewrite <- Hl4e.
Qed.
End refinement.

Lemma implements_later s now now' c M : now <= now' → implements s now c M → implements s now' c M.
Proof.
  intros Hle HR si Hs. destruct (HR si Hs) as (set & E & ? & ? & ?). exists set, E.
  split; [done|]. split; [|done]. by eapply recency_later.
Qed.

Fixpoint demands (c : CacheBase) (es : list (Z * Z)) : res (list bool * CacheBase) :=
  match es with
  | [] => mret ([], c)
  | (now, addr) :: es =>
    '(hit, c) ← demand c now addr;
    '(hits, c) ← demands c es;
    mret (hit :: hits, c)
  end.

(** Ticks that only go up. *)
Fixpoint increasing (now : Z) (es : list (Z * Z)) : Prop :=
  match es with [] => True | e :: es => now <= e.1 ∧ increasing (e.1 + 1) es end.

Lemma spec_run_geom c c' M addrs : geom c' = geom c → spec_run c' M addrs = spec_run c M addrs.
Proof.
  intros Hg. revert M. induction addrs as [|addr addrs IH]; intros M; [done|]. cbn [spec_run].
  rewrite (spec_index c c') by done. destruct (spec_step c M addr). by rewrite IH.
Qed.

(** C15: an LRU cache, of a size below 2^32, that chooses its victim in the set it
    fills, one without the victim lag, is its recency lists.  Starting empty, with one access per tick
    at most, the set-associative cache hits exactly when the accessed tag is in its
    set's recency list: the list, most recent first and cut to the associativity,
    of the tags of that set.  The set-associative write-back caches of [PipeCache],
    such as the data cache of [main] with more than one way, have the lag, which
    takes the victim's way from the set accessed before, and do not refine the
    lists ([lag_breaks_recency]). *)
Theorem lru_refines_recency size_bytes line_bytes assoc pf id c es :
  0 <= size_bytes < 2 ^ 32 → 0 < assoc → 0 < line_bytes → line_bytes * assoc < 2 ^ 32 →
  make size_bytes line_bytes assoc pf id (Some Repl.LRU) false = Ok c →
  increasing 0 es →
  ∃ c', demands c es = Ok (spec_run c (λ _, []) (snd <$> es), c').
Proof.
  intros Hsz Ha Hl Hla Hmk Hinc.
  destruct (cache_make_wf size_bytes line_bytes assoc pf id (Some Repl.LRU) false c)
    as (s & o & Hw & Hc & _ & _ & _ & Hempty); try done.
  assert (lru c) as Hlru.
  { unfold make in Hmk. do 5 res_inv Hmk. by injection Hmk as <-. }
  assert (implements s 0 c (λ _, [])) as HR.
  { intros si Hs. destruct (set_exists s o assoc c si Hw Hs) as (set & Hset & _).
    exists set, []. split; [done|]. split; [|done]. constructor; try constructor.
    - intros Hin. by apply not_elem_of_nil in Hin.
    - intros [Hl' Hv]. exfalso.
      assert (line_of c si (Z.of_nat w) = Some l) as Hlo
        by (rewrite (line_of_set _ _ _ _ Hset); by rewrite Nat2Z.id).
      destruct (Hc si (Z.of_nat w) l) as (E1 & E2 & _); [lia | lia | done | done |].
      apply (Hempty (tag l)). exists (Z.of_nat w), l. rewrite E1. split; [lia|].
      split; [done|]. by apply matches_true. }
  revert HR Hinc. generalize (λ _ : Z, @nil Z) as M. generalize 0 as now. clear Hempty Hmk.
  revert c Hw Hc Hlru. induction es as [|[t addr] es IH]; intros c Hw Hc Hlru now M HR Hinc.
  { by exists c. }
  destruct Hinc as [Hle Hinc]. simpl in Hle, Hinc.
  destruct (demand_refines s o assoc t c M addr Hw Hc Hlru) as (c1 & Hd & Hw1 & Hc1 & Hl1 & Hg1 & HR1).
  { by eapply implements_later. }
  cbn [demands]. rewrite Hd. cbn [mbind res_bind].
  destruct (IH c1 Hw1 Hc1 Hl1 (t + 1) _ HR1 Hinc) as (c' & Hd'). rewrite Hd'. cbn [mbind res_bind].
  exists c'. rewrite (spec_run_geom c c1) by done. rewrite fmap_cons. cbn [spec_run snd].
  by destruct (spec_step c M addr).
Qed.

Definition lru_ex : CacheBase :=
  match make 64 16 2 None 0 (Some Repl.LRU) false with Ok c => c | Err _ => cache_ex end.

(** Two sets of two ways: the third block of a set evicts the least recent. *)
Lemma lru_refines_recency_witness : ∃ c',
  demands lru_ex [(1, 0x00); (2, 0x20); (3, 0x00); (5, 0x40); (6, 0x08); (7, 0x20); (8, 0x10)] =
  Ok ([false; false; true; false; true; false; false], c').
Proof.
  apply (lru_refines_recency 64 16 2 None 0 lru_ex
    [(1, 0x00); (2, 0x20); (3, 0x00); (5, 0x40); (6, 0x08); (7, 0x20); (8, 0x10)]);
    try lia; [done | simpl; lia].
Defined.

(** With the victim lag the way is that of the set accessed before, here an empty
    one, and the block just used is evicted. *)
Lemma lag_breaks_recency : match make 64 16 2 None 0 (Some Repl.LRU) true with
  | Ok c => let es := [(1, 0x00); (2, 0x10); (3, 0x40); (4, 0x00)] in
      fst <$> demands c es = Ok [false; false; false; false] ∧ spec_run c (λ _, []) (snd <$> es) = [false; false; false; true]
  | Err _ => False
  end.
Proof. by vm_compute. Qed.
End LruCache.
