(* ===== verification/CacheEnv.v ===== *)
(** * What a cache sees of the rest of the system

    A cache of [src/cacheSim/] holds pointers to the memory arbiter
    ([mem_side_]) and to two handlers of the processor ([cpu_resp_recv_],
    [cpu_ack_recv_]), and reads the global tick.  [CacheEnv] is that interface;
    the caches are generic in it.  [Log] is the implementation that records the
    calls, for which the properties of a cache on its own are stated. *)

From S2P Require Import Prelude Types.

Class CacheEnv (E : Type) : Type := {
  curr_tick : E → Z;
  mem_recv_req : MemTrans → ST E unit;
  cpu_resp_recv : CpuTrans → ST E unit;
  cpu_ack_recv : AckTrans → ST E unit
}.

(** ** Methods of an object in an environment *)

Section methods.
Context {C E : Type}.

(** The object's own state. *)
Definition self : ST (C * E) C := gets fst.
Definition modify_self (f : C → C) : ST (C * E) unit := modify (λ s, (f s.1, s.2)).
(** A call out of the object. *)
Definition env {A} (m : ST E A) : ST (C * E) A := λ s,
  match m s.2 with Ok (a, e) => Ok (a, (s.1, e)) | Err x => Err x end.
(** The tick the call happens at. *)
Definition tick `{CacheEnv E} : ST (C * E) Z := gets (λ s, curr_tick s.2).
(** A fallible change of the object. *)
Definition update_self {A} (f : C → res (A * C)) : ST (C * E) A := λ s,
  match f s.1 with Ok (a, c) => Ok (a, (c, s.2)) | Err x => Err x end.

Lemma wp_self Q (s : C * E) : wp self Q s ↔ Q s.1 s.
Proof. done. Qed.
Lemma wp_modify_self (f : C → C) Q (s : C * E) : wp (modify_self f) Q s ↔ Q tt (f s.1, s.2).
Proof. done. Qed.
Lemma wp_tick `{CacheEnv E} Q (s : C * E) : wp tick Q s ↔ Q (curr_tick s.2) s.
Proof. done. Qed.
Lemma wp_env {A} (m : ST E A) Q (s : C * E) :
  wp (env m) Q s ↔ wp m (λ a e, Q a (s.1, e)) s.2.
Proof. unfold wp, env. by destruct (m s.2) as [[??]|?]. Qed.
Lemma wp_update_self {A} (f : C → res (A * C)) Q (s : C * E) :
  wp (update_self f) Q s ↔ ∃ a c, f s.1 = Ok (a, c) ∧ Q a (c, s.2).
Proof.
  unfold wp, update_self. destruct (f s.1) as [[a c]|x]; split; [eauto | | done |].
  - intros (? & ? & [= -> ->] & ?); done.
  - by intros (? & ? & ? & ?).
Qed.
End methods.
#[export] Hint Rewrite @wp_self @wp_modify_self @wp_tick @wp_env @wp_update_self : wp.

(** *** Fields a method never writes *)

Section keeps.
Context {C E F : Type} (f : C → F).

Definition keeps {A} (m : ST (C * E) A) : Prop := ∀ s a s', m s = Ok (a, s') → f s'.1 = f s.1.

Lemma keeps_ret {A} (a : A) : keeps (mret a).
Proof. by intros s a' s' [= _ <-]. Qed.
Lemma keeps_bind {A B} (m : ST (C * E) A) (k : A → ST (C * E) B) : keeps m → (∀ a, keeps (k a)) → keeps (m ≫= k).
Proof.
  intros Hm Hk s b s2 Hr. unfold mbind, ST_bind in Hr. destruct (m s) as [[a s1]|] eqn:E1; [|done].
  etransitivity; [by eapply Hk | by eapply Hm].
Qed.
Lemma keeps_self : keeps self.
Proof. by intros s a s' [= _ <-]. Qed.
Lemma keeps_tick `{CacheEnv E} : keeps tick.
Proof. by intros s a s' [= _ <-]. Qed.
Lemma keeps_env {A} (m : ST E A) : keeps (env m).
Proof. intros s a s'. unfold env. destruct (m s.2) as [[x e]|]; [|done]. by intros [= _ <-]. Qed.
Lemma keeps_modify g : (∀ c, f (g c) = f c) → keeps (modify_self g).
Proof. intros Hg s a s' [= _ <-]. apply Hg. Qed.
Lemma keeps_lift {A} (m : res A) : keeps (lift m).
Proof. intros s a s'. unfold lift. destruct m; [|done]. by intros [= _ <-]. Qed.
Lemma keeps_fail {A} e : keeps (fail (A := A) e).
Proof. done. Qed.
Lemma keeps_when b m : keeps m → keeps (when b m).
Proof. destruct b; [done | intros _; apply keeps_ret]. Qed.
End keeps.
Create HintDb keeps.
#[export] Hint Resolve keeps_ret keeps_bind keeps_self keeps_tick keeps_env keeps_lift keeps_fail keeps_when : keeps.

(** [keeps_tac]: walk through a method, deciding each branch. *)
Ltac keeps_tac := repeat first
  [ apply keeps_bind; [|intros ?] | apply keeps_when | apply keeps_modify; intros ?; done
  | solve [eauto with keeps] | case_match ].

(** ** [CacheBase]'s virtual interface

    The methods the rest of the system calls on a cache of any class. *)

Class Cache (C : Type) : Type := {
  ca_ready : C → bool * bool;
  ca_read {E} `{CacheEnv E} : Z → ST (C * E) unit;
  ca_write {E} `{CacheEnv E} : Z → Z → Z → ST (C * E) unit;
  ca_resp {E} `{CacheEnv E} : MemTrans → ST (C * E) unit;
  ca_flush {E} `{CacheEnv E} : ST (C * E) unit;
  ca_update {E} `{CacheEnv E} : ST (C * E) unit;
  ca_reset : C → C
}.

(** ** The contract of a cache

    [Port] is the environment a cache is promised: at most one outstanding
    request per memory channel, as [RAMArbiter::recv_req] asserts, and no
    response without a request.  It accepts only what the cache is to send:
    requests, responses and acknowledgements under its own id [p_id], bursts of
    at most [p_words] words, and write responses only where stores are allowed. *)
Record Port : Type := MkPort {
  p_tick : Z;
  p_rd : option MemTrans;
  p_wr : option MemTrans;
  p_cpu : Z;
  p_id : Z;
  p_words : Z;
  p_stores : bool
}.
#[global] Instance eta_Port : Eta Port := λ r,
  MkPort r.(p_tick) r.(p_rd) r.(p_wr) r.(p_cpu) r.(p_id) r.(p_words) r.(p_stores).

(** A request the port may send: to memory, and under the cache's id. *)
Definition req_allowed (p : Port) (req : MemTrans) : bool :=
  (mt_id req =? p_id p) && (1 <=? mt_bst_len req) && (mt_bst_len req <=? p_words p).

Definition port_req (req : MemTrans) : ST Port unit := λ p,
  if req_allowed p req then
    match mt_mop req, p_rd p, p_wr p with
    | Read, None, _ => Ok (tt, p <| p_rd := Some req |>)
    | Write, _, None => Ok (tt, p <| p_wr := Some req |>)
    | _, _, _ => Err AssertFailed
    end
  else Err AssertFailed.

Definition resp_allowed (p : Port) (r : CpuTrans) : bool :=
  (0 <? p_cpu p) && (ct_id r =? p_id p) && (is_Read (ct_mop r) || p_stores p).

Definition port_resp (r : CpuTrans) : ST Port unit := λ p,
  if resp_allowed p r then Ok (tt, p <| p_cpu ::= Z.pred |>) else Err AssertFailed.

Definition port_ack (a : AckTrans) : ST Port unit := λ p,
  if ack_id a =? p_id p then Ok (tt, p) else Err AssertFailed.

#[export] Instance port_env : CacheEnv Port := {|
  curr_tick := p_tick;
  mem_recv_req := port_req;
  cpu_resp_recv := port_resp;
  cpu_ack_recv := port_ack
|}.

(** Nothing outstanding. *)
Definition idle_port (t id words : Z) (stores : bool) : Port := MkPort t None None 0 id words stores.

Lemma port_read_wp p req Q : req_allowed p req = true → mt_mop req = Read → p_rd p = None →
  Q tt (p <| p_rd := Some req |>) → wp (mem_recv_req req) Q p.
Proof. intros Ha Hm Hr HQ. unfold wp, mem_recv_req, port_env, port_req. by rewrite Ha, Hm, Hr. Qed.

Lemma port_write_wp p req Q : req_allowed p req = true → mt_mop req = Write → p_wr p = None →
  Q tt (p <| p_wr := Some req |>) → wp (mem_recv_req req) Q p.
Proof. intros Ha Hm Hr HQ. unfold wp, mem_recv_req, port_env, port_req. rewrite Ha, Hm, Hr. by destruct (p_rd p). Qed.

Lemma port_ack_wp p a Q : ack_id a = p_id p → Q tt p → wp (cpu_ack_recv a) Q p.
Proof. intros E HQ. unfold wp, cpu_ack_recv, port_env, port_ack. by rewrite E, Z.eqb_refl. Qed.

(** The same while the processor is the caller: a cache must not call it back. *)
Record Quiet : Type := MkQuiet { q_port : Port }.

Definition quiet_req (req : MemTrans) : ST Quiet unit := λ q,
  match port_req req (q_port q) with Ok (_, p) => Ok (tt, MkQuiet p) | Err x => Err x end.

#[export] Instance quiet_env : CacheEnv Quiet | 10 := {|
  curr_tick q := p_tick (q_port q);
  mem_recv_req := quiet_req;
  cpu_resp_recv _ := fail Reentrant;
  cpu_ack_recv _ := fail Reentrant
|}.

(** ** The recording environment *)

Inductive event : Type :=
| EvMem (req : MemTrans)
| EvResp (r : CpuTrans)
| EvAck (a : AckTrans).

Record Log : Type := MkLog { log_tick : Z; events : list event }.
#[global] Instance eta_Log : Eta Log := λ r, MkLog r.(log_tick) r.(events).

(** Events in the order they happened. *)
Definition emit (ev : event) : ST Log unit := modify (λ e, e <| events ::= (λ l, l ++ [ev]) |>).

#[export] Instance log_env : CacheEnv Log | 10 := {|
  curr_tick := log_tick;
  mem_recv_req req := emit (EvMem req);
  cpu_resp_recv r := emit (EvResp r);
  cpu_ack_recv a := emit (EvAck a)
|}.

Definition is_mem (mop : MemRWOpt) (ev : event) : bool :=
  match ev with EvMem req => bool_decide (mt_mop req = mop) | _ => false end.
Definition is_resp (ev : event) : bool := match ev with EvResp _ => true | _ => false end.
Definition is_ack (ev : event) : bool := match ev with EvAck _ => true | _ => false end.
