(* ===== verification/EnvSim.v ===== *)
(** * Methods in related environments

    The methods of the caches and of the core are generic in their environment.
    [sim R R' m1 m2]: whenever [m1] ends well in one environment, [m2] does the
    same in a related one and leaves related environments.  For every generic
    method this follows from its text, by the rules below; so a property proved
    in a contract environment ([Port], [Ports]) holds in the real system. *)

From S2P Require Import Prelude Types CacheEnv.

Section sim.
Context {C E1 E2 : Type}.
Implicit Types R : E1 → E2 → Prop.

Definition sim {A} (R R' : E1 → E2 → Prop) (m1 : ST (C * E1) A) (m2 : ST (C * E2) A) : Prop :=
  ∀ c e1 e2 a c' e1', R e1 e2 → m1 (c, e1) = Ok (a, (c', e1')) →
    ∃ e2', m2 (c, e2) = Ok (a, (c', e2')) ∧ R' e1' e2'.

(** A call of the environment. *)
Definition esim {A} (R R' : E1 → E2 → Prop) (m1 : ST E1 A) (m2 : ST E2 A) : Prop :=
  ∀ e1 e2 a e1', R e1 e2 → m1 e1 = Ok (a, e1') → ∃ e2', m2 e2 = Ok (a, e2') ∧ R' e1' e2'.

Lemma sim_wp {A} R R' (m1 : ST (C * E1) A) m2 Q c e1 e2 : sim R R' m1 m2 → R e1 e2 →
  wp m1 Q (c, e1) → wp m2 (λ a s', ∃ e1', R' e1' s'.2 ∧ Q a (s'.1, e1')) (c, e2).
Proof.
  intros Hs HR. unfold wp. destruct (m1 (c, e1)) as [[a [c' e1']]|] eqn:E; [|done]. intros HQ.
  destruct (Hs _ _ _ _ _ _ HR E) as (e2' & -> & HR'). by exists e1'.
Qed.

Lemma sim_post {A} R R1 R2 (m1 : ST (C * E1) A) m2 : (∀ e1 e2, R1 e1 e2 → R2 e1 e2) → sim R R1 m1 m2 → sim R R2 m1 m2.
Proof. intros Hi Hs c e1 e2 a c' e1' HR E. destruct (Hs _ _ _ _ _ _ HR E) as (e2' & ? & ?). eauto. Qed.

Lemma sim_ret {A} R (a : A) : sim R R (mret a) (mret a).
Proof. intros c e1 e2 a' c' e1' HR [= <- <- <-]. by exists e2. Qed.

Lemma sim_bind {A B} R1 R2 R3 (m1 : ST (C * E1) A) m2 (k1 : A → ST (C * E1) B) k2 :
  sim R1 R2 m1 m2 → (∀ a, sim R2 R3 (k1 a) (k2 a)) → sim R1 R3 (m1 ≫= k1) (m2 ≫= k2).
Proof.
  intros Hm Hk c e1 e2 b c' e1' HR E. unfold mbind, ST_bind in E.
  destruct (m1 (c, e1)) as [[a [c1 e1a]]|] eqn:Em; [|done].
  destruct (Hm _ _ _ _ _ _ HR Em) as (e2a & Em2 & HR2). destruct (Hk _ _ _ _ _ _ _ HR2 E) as (e2' & Ek & HR3).
  exists e2'. split; [|done]. unfold mbind, ST_bind. by rewrite Em2.
Qed.

Lemma sim_self R : sim R R self self.
Proof. intros c e1 e2 a c' e1' HR [= <- <- <-]. by exists e2. Qed.

Lemma sim_modify R (f : C → C) : sim R R (modify_self f) (modify_self f).
Proof. intros c e1 e2 a c' e1' HR [= <- <- <-]. by exists e2. Qed.

Lemma sim_update {A} R (f : C → res (A * C)) : sim R R (update_self f) (update_self f).
Proof.
  intros c e1 e2 a c' e1' HR. unfold update_self. simpl. destruct (f c) as [[b d]|]; [|done].
  intros [= <- <- <-]. by exists e2.
Qed.

Lemma sim_lift {A} R (m : res A) : sim R R (lift m) (lift m).
Proof. intros c e1 e2 a c' e1' HR. unfold lift. destruct m; [|done]. intros [= <- <- <-]. by exists e2. Qed.

Lemma sim_fail {A} R x : sim R R (fail (A := A) x) (fail x).
Proof. done. Qed.

Lemma sim_when R b m1 m2 : sim R R m1 m2 → sim R R (when b m1) (when b m2).
Proof. destruct b; [done | intros _; apply sim_ret]. Qed.

(** A reading of the environment. *)
Lemma sim_gets {A} R (f1 : E1 → A) f2 : (∀ e1 e2, R e1 e2 → f1 e1 = f2 e2) →
  sim R R (gets (λ s, f1 s.2)) (gets (λ s, f2 s.2)).
Proof. intros Hf c e1 e2 a c' e1' HR [= <- <- <-]. exists e2. simpl. unfold gets. simpl. by rewrite (Hf _ _ HR). Qed.

Lemma sim_env {A} R R' (m1 : ST E1 A) m2 : esim R R' m1 m2 → sim R R' (env m1) (env m2).
Proof.
  intros Hm c e1 e2 a c' e1' HR. unfold env. simpl. destruct (m1 e1) as [[b x]|] eqn:E; [|done].
  intros [= <- <- <-]. destruct (Hm _ _ _ _ HR E) as (e2' & -> & HR'). by exists e2'.
Qed.
End sim.

(** ** Environments of caches *)

(** [R] relates a contract environment to a real one: what the first allows, the
    second does. *)
Record env_sim {E1 E2} `{CacheEnv E1, CacheEnv E2} (R : E1 → E2 → Prop) : Prop := {
  es_tick e1 e2 : R e1 e2 → curr_tick e1 = curr_tick e2;
  es_mem req : esim R R (mem_recv_req req) (mem_recv_req req);
  es_resp r : esim R R (cpu_resp_recv r) (cpu_resp_recv r);
  es_ack a : esim R R (cpu_ack_recv a) (cpu_ack_recv a)
}.

Section cache_env.
Context {C E1 E2 : Type} `{CacheEnv E1, CacheEnv E2} (R : E1 → E2 → Prop) (HR : env_sim R).

Lemma sim_tick : sim (C := C) R R tick tick.
Proof. apply sim_gets. apply (es_tick R HR). Qed.
Lemma sim_mem req : sim (C := C) R R (env (mem_recv_req req)) (env (mem_recv_req req)).
Proof. apply sim_env, (es_mem R HR). Qed.
Lemma sim_resp r : sim (C := C) R R (env (cpu_resp_recv r)) (env (cpu_resp_recv r)).
Proof. apply sim_env, (es_resp R HR). Qed.
Lemma sim_ack a : sim (C := C) R R (env (cpu_ack_recv a)) (env (cpu_ack_recv a)).
Proof. apply sim_env, (es_ack R HR). Qed.
End cache_env.

Create HintDb sim.
#[export] Hint Resolve sim_ret sim_self sim_modify sim_update sim_lift sim_fail sim_tick sim_mem sim_resp sim_ack : sim.

(** [sim_tac]: walk through a method under one relation, deciding each branch. *)
Ltac sim_tac := repeat first
  [ solve [eauto with sim] | progress cbv zeta
  | match goal with |- sim ?R _ (_ ≫= _) _ => apply (sim_bind R R R); [|intros ?] end
  | apply sim_when | case_match ].
