(* ===== verification/PipeCache.v ===== *)
(** * The pipelined cache

    [PipeCache] of [src/cacheSim/CacheBase.hh] and [.cc], in the timing-only
    build ([ACTIVE_MODE = 1]): a lookup pipeline in front of [CacheBase], with
    the miss, eviction and replay states of its last stage. *)

From S2P Require Import Prelude Types Repl Prefetcher CacheBase CacheEnv.

Module PipeCache.

(** [CachePipeEntry]; [line] is a set and a way, or null. *)
Record CachePipeEntry : Type := MkEntry {
  addr : Z;
  line : option (Z * Z);
  mop : MemRWOpt;
  wrstrb : Z;
  wrdata : Z
}.
#[global] Instance eta_Entry : Eta CachePipeEntry := λ r,
  MkEntry r.(addr) r.(line) r.(mop) r.(wrstrb) r.(wrdata).

Record PipeCache : Type := Mk {
  base : CB.CacheBase;
  pipe_ : list (option CachePipeEntry);
  sram_dff_ : bool;
  write_back_ : bool;
  cwf_ : bool;
  wb_hit_resp_delay_ : Z;
  r_waiting_ : bool;
  w_waiting_ : bool;
  is_shifted_ : bool;
  is_replay_ : bool;
  pending_flush_ : bool;
  pending_fill_req_ : bool;
  pending_evict_ : bool;
  evict_addr_ : Z;
  evict_data_ : list Z;
  blocked_until_ : Z;
  sched_hit_time_ : Z;
  sched_hit_resp_ : CpuTrans
}.
#[global] Instance eta_PipeCache : Eta PipeCache := λ r,
  Mk r.(base) r.(pipe_) r.(sram_dff_) r.(write_back_) r.(cwf_) r.(wb_hit_resp_delay_) r.(r_waiting_)
     r.(w_waiting_) r.(is_shifted_) r.(is_replay_) r.(pending_flush_) r.(pending_fill_req_)
     r.(pending_evict_) r.(evict_addr_) r.(evict_data_) r.(blocked_until_)
     r.(sched_hit_time_) r.(sched_hit_resp_).

(** The constructor. *)
Definition make (pipe_depth size_bytes line_bytes assoc : Z) (pf : option Pf.Prefetcher)
    (cache_id : Z) (sram_dff write_back cwf : bool) (wb_hit_resp_delay : Z)
    (repl : option Repl.ReplPolicy) : res PipeCache :=
  b ← CB.make size_bytes line_bytes assoc pf cache_id repl (write_back && (1 <? assoc));
  mret (Mk b (replicate (Z.to_nat pipe_depth) None) sram_dff write_back cwf wb_hit_resp_delay
           false false true false false false false 0 [] 0 InfTime (MkCpuTrans 0 0 0 Read)).

Definition cache_id (c : PipeCache) : Z := CB.cache_id_ (base c).

(** Read and write channel ready. *)
Definition is_ready (c : PipeCache) : bool * bool :=
  let r := is_shifted_ c && negb (pending_flush_ c) in
  let r := if write_back_ c
           then r && negb (r_waiting_ c) && negb (w_waiting_ c) && negb (pending_fill_req_ c)
                  && negb (is_replay_ c) && (sched_hit_time_ c =? InfTime)
           else r in
  (r, if write_back_ c then r else negb (pending_flush_ c) && negb (w_waiting_ c)).

Definition next_update (c : PipeCache) : Z :=
  if r_waiting_ c && negb (pending_fill_req_ c) then sched_hit_time_ c
  else Z.min (blocked_until_ c) (sched_hit_time_ c).

(** [pipe_.back()] and [pipe_.front()]. *)
Definition back_idx (c : PipeCache) : Z := zlen (pipe_ c) - 1.
Definition back (c : PipeCache) : res (option CachePipeEntry) := vec_at (pipe_ c) (back_idx c).
Definition set_back (c : PipeCache) (e : option CachePipeEntry) : res PipeCache :=
  p ← vec_set (pipe_ c) (back_idx c) e; mret (c <| pipe_ := p |>).
Definition front (c : PipeCache) : res (option CachePipeEntry) := vec_at (pipe_ c) 0.
Definition set_front (c : PipeCache) (e : CachePipeEntry) : res PipeCache :=
  p ← vec_set (pipe_ c) 0 (Some e); mret (c <| pipe_ := p |>).

(** [it->atAligned(0)], [it->atAligned(4)], ... *)
Fixpoint read_words (l : CacheLine) (ks : list Z) : res (list Z) :=
  match ks with
  | [] => mret []
  | k :: ks => w ← Line.atAligned l (4 * k); ws ← read_words l ks; mret (w :: ws)
  end.

(** [save_evict_info(req_addr)] *)
Definition save_evict_info (c : PipeCache) (req_addr : Z) : res PipeCache :=
  let c := c <| pending_evict_ := false |> in
  if negb (write_back_ c) then mret c
  else
    let si := CB.setIndexOf (base c) req_addr in
    set ← vec_at (CB.setsArr_ (base c)) si;
    v ← CB.miss_victim_way (base c) si set;
    way ← umod v (CB.assoc_ (base c));
    it ← vec_at set way;
    if Line.valid it && Line.dirty it then
      words ← read_words it (zrange (CB.lineBytes_ (base c) / 4));
      mret (c <| pending_evict_ := true |> <| evict_addr_ := Line.tag it |> <| evict_data_ := words |>)
    else mret c.

(** [save_evict_info(bk->addr); bk->line = access(bk->addr);] on the entry at the
    end of the pipeline. *)
Definition lookup_back (now : Z) (bk : CachePipeEntry) (c : PipeCache) : res (CachePipeEntry * PipeCache) :=
  c ← save_evict_info c (addr bk);
  '(way, b) ← CB.access (base c) now (addr bk);
  let bk := bk <| line := Some (CB.setIndexOf b (addr bk), way) |> in
  c ← set_back (c <| base := b |>) (Some bk);
  mret (bk, c).

Definition the_line (c : PipeCache) (bk : CachePipeEntry) : res CacheLine :=
  match line bk with Some (si, way) => CB.line_at (base c) si way | None => Err NullDeref end.

Section methods.
Context {E : Type} `{CacheEnv E}.

Definition respond (t : CpuTrans) : ST (PipeCache * E) unit :=
  c ← self;
  now ← tick;
  if write_back_ c && negb (wb_hit_resp_delay_ c =? 0) then
    modify_self (λ c, c <| sched_hit_resp_ := t |>
                        <| sched_hit_time_ := u64 (now + wb_hit_resp_delay_ c) |>)
  else env (cpu_resp_recv t).

(** [handle_hit(bk)].  On a write [dt] is a reference to [bk->wrdata] itself, so
    the masked merge leaves it as it is and the line's words are not written. *)
Definition handle_hit (bk : CachePipeEntry) : ST (PipeCache * E) unit :=
  c ← self;
  now ← tick;
  l ← lift (the_line c bk);
  match mop bk with
  | Read =>
    dt ← lift (Line.atAligned l (CB.offsetOf (base c) (addr bk)));
    modify_self (λ c, c <| blocked_until_ := u64 (now + 1) |>);;
    respond (MkCpuTrans (addr bk) dt (cache_id c) Read)
  | Write =>
    modify_self (λ c, c <| blocked_until_ := u64 (now + 1) |>);;
    let dt := CB.merge (CB.strbExtend (wrstrb bk)) (wrdata bk) (wrdata bk) in
    update_self (λ c,
      match line bk with
      | Some (si, way) => b ← CB.set_line (base c) si way (Line.setDirty l);
                          mret (tt, c <| base := b |>)
      | None => Err NullDeref
      end);;
    respond (MkCpuTrans (addr bk) dt (cache_id c) Write)
  end.

Definition handle_prefetch (a : Z) (is_hit : bool) : ST (PipeCache * E) bool :=
  now ← tick;
  update_self (λ c, '(r, b) ← CB.handle_prefetch (base c) now a is_hit; mret (r, c <| base := b |>)).

Definition recv_mem_resp (trans : MemTrans) : ST (PipeCache * E) unit :=
  c ← self;
  now ← tick;
  match mt_mop trans with
  | Read =>
    assertM (r_waiting_ c);;
    modify_self (λ c, c <| r_waiting_ := false |>);;
    update_self (λ c,
      bk ← back c;
      match bk with
      | Some (MkEntry _ (Some (si, way)) _ _ _) =>
        b ← CB.handle_fill (base c) now si way (mt_addr trans) (mt_data trans);
        mret (tt, c <| base := b |>)
      | _ => Err NullDeref
      end);;
    modify_self (λ c, c <| blocked_until_ :=
      u64 (now + (if cwf_ c then 1 else if write_back_ c then 2 else 1)) |>)
  | Write =>
    assertM (w_waiting_ c);;
    modify_self (λ c, c <| w_waiting_ := false |>);;
    if negb (write_back_ c)
    then modify_self (λ c, c <| blocked_until_ := u64 (now + 2) |>)
    else mret tt
  end.

Definition handle_flush : ST (PipeCache * E) unit :=
  now ← tick;
  modify_self (λ c,
    c <| base ::= CB.invalidate_all |> <| pipe_ ::= map (λ _, None) |>
      <| is_shifted_ := true |> <| is_replay_ := false |> <| r_waiting_ := false |>
      <| w_waiting_ := false |> <| pending_flush_ := false |> <| pending_fill_req_ := false |>
      <| pending_evict_ := false |> <| sched_hit_time_ := InfTime |>
      <| blocked_until_ := u64 (now + 1) |>).

(** [blocked_until_ = curr_tick() + 1; return;] *)
Definition block : ST (PipeCache * E) bool :=
  now ← tick; modify_self (λ c, c <| blocked_until_ := u64 (now + 1) |>);; mret true.

(** The miss branch for the entry [bk]; it always returns from [update_impl]. *)
Definition serve_miss (bk : CachePipeEntry) : ST (PipeCache * E) bool :=
  c ← self;
  if negb (pending_fill_req_ c) then
    modify_self (λ c, c <| pending_fill_req_ := true |>);; block
  else if pending_evict_ c then
    if w_waiting_ c then block
    else
      env (mem_recv_req (mk_req Write (evict_addr_ c) (cache_id c)
                           (u16 (zlen (evict_data_ c))) (evict_data_ c) []));;
      modify_self (λ c, c <| evict_data_ := [] |> <| w_waiting_ := true |>
                          <| pending_evict_ := false |>);;
      block
  else if w_waiting_ c then block
  else
    modify_self (λ c, c <| pending_fill_req_ := false |>);;
    env (mem_recv_req (mk_req Read (addr bk) (cache_id c)
                         (u16 (CB.lineBytes_ (base c) / 4)) [] []));;
    modify_self (λ c, c <| r_waiting_ := true |> <| is_replay_ := true |>);;
    mret true.

(** The block of [update_impl] for the last pipeline entry; the result says
    whether [update_impl] returns. *)
Definition serve_back : ST (PipeCache * E) bool :=
  c ← self;
  now ← tick;
  obk ← lift (back c);
  match obk with
  | None => mret false
  | Some bk =>
    bk ← (match line bk with
          | None => update_self (lookup_back now bk)
          | Some _ => mret bk
          end);
    c ← self;
    l ← lift (the_line c bk);
    assertM (negb (is_replay_ c) || Line.valid l);;
    let was_miss := is_replay_ c in
    modify_self (λ c, c <| is_replay_ := false |>);;
    if Line.valid l then
      handle_hit bk;;
      c ← self;
      (if is_Read (mop bk) && negb (r_waiting_ c)
       then handle_prefetch (addr bk) (negb was_miss);; mret tt else mret tt);;
      update_self (λ c, c ← set_back c None; mret (tt, c));;
      mret false
    else serve_miss bk
  end.

(** [for (i = size - 1; i > 0; --i) pipe_[i] = std::move(pipe_[i - 1]);] *)
Definition shift (p : list (option CachePipeEntry)) : list (option CachePipeEntry) :=
  match p with [] | [_] => p | _ => None :: removelast p end.

(** The probe of the new last entry; the result says whether [update_impl]
    returns. *)
Definition probe_back : ST (PipeCache * E) bool :=
  c ← self;
  now ← tick;
  obk ← lift (back c);
  match obk with
  | Some bk =>
    match line bk with
    | None =>
      present ← lift (CB.probe (base c) (addr bk));
      if negb present then
        update_self (lookup_back now bk);;
        modify_self (λ c, c <| pending_fill_req_ := true |>);;
        block
      else mret false
    | Some _ => mret false
    end
  | None => mret false
  end.

Definition update_impl : ST (PipeCache * E) unit :=
  c ← self;
  now ← tick;
  (if sched_hit_time_ c <=? now then
     env (cpu_resp_recv (sched_hit_resp_ c));;
     modify_self (λ c, c <| sched_hit_time_ := InfTime |>)
   else mret tt);;
  returned ← serve_back;
  if returned : bool then mret tt
  else
    c ← self;
    if pending_flush_ c && forallb (λ p, match p with None => true | Some _ => false end) (pipe_ c)
    then handle_flush
    else
      modify_self (λ c, c <| pipe_ ::= shift |>);;
      returned ← probe_back;
      if returned : bool then mret tt
      else
        modify_self (λ c, c <| is_shifted_ := true |>);;
        c ← self;
        env (cpu_ack_recv (MkAckTrans (cache_id c) Read));;
        env (cpu_ack_recv (MkAckTrans (cache_id c) Write)).

(** [ClockedObject::do_update] *)
Definition do_update : ST (PipeCache * E) unit :=
  c ← self;
  now ← tick;
  if next_update c <=? now then update_impl else mret tt.

(** [pipe_.front() = std::move(req)] with its two assertions. *)
Definition enqueue (e : CachePipeEntry) : ST (PipeCache * E) unit :=
  c ← self;
  now ← tick;
  assertM (is_shifted_ c);;
  f ← lift (front c);
  assertM (match f with None => true | Some _ => false end);;
  update_self (λ c, c ← set_front c e; mret (tt, c));;
  modify_self (λ c, c <| blocked_until_ := u64 (now + 1) |> <| is_shifted_ := false |>).

Definition read_req (a : Z) : ST (PipeCache * E) unit := enqueue (MkEntry a None Read 0 0).

(** Write-through, no allocation: a present line's word is merged. *)
Definition write_through (a data mask : Z) : ST (PipeCache * E) unit :=
  now ← tick;
  update_self (λ c,
    present ← CB.probe (base c) a;
    if present : bool then
      '(way, b) ← CB.access (base c) now a;
      let si := CB.setIndexOf b a in
      l ← CB.line_at b si way;
      if Line.valid l then
        w ← Line.atAligned l (CB.offsetOf b a);
        l ← Line.set_atAligned l (CB.offsetOf b a) (CB.merge (CB.strbExtend mask) w data);
        b ← CB.set_line b si way l;
        mret (tt, c <| base := b |>)
      else mret (tt, c <| base := b |>)
    else mret (tt, c));;
  c ← self;
  env (mem_recv_req (mk_req Write a (cache_id c) 1 [data] [mask]));;
  modify_self (λ c, c <| w_waiting_ := true |>);;
  env (cpu_resp_recv (MkCpuTrans a 0 (cache_id c) Write)).

Definition write_req (a data mask : Z) : ST (PipeCache * E) unit :=
  c ← self;
  if write_back_ c then enqueue (MkEntry a None Write mask data)
  else write_through a data mask.

Definition flush_all : ST (PipeCache * E) unit := modify_self (λ c, c <| pending_flush_ := true |>).

(** [pollute(addr)]: the line is activated but its tag stays the 0 that
    [invalidate] left. *)
Definition pollute (a : Z) : ST (PipeCache * E) unit :=
  now ← tick;
  update_self (λ c,
    present ← CB.probe (base c) a;
    if present : bool then mret (tt, c)
    else
      '(way, b) ← CB.access (base c) now a;
      let si := CB.setIndexOf b a in
      l ← CB.line_at b si way;
      b ← CB.set_line b si way (Line.activate now l);
      mret (tt, c <| base := b |>)).
End methods.

Definition reset_stats (c : PipeCache) : PipeCache := c <| base ::= CB.reset_stats |>.

#[export] Instance pipe_cache : Cache PipeCache := {|
  ca_ready := is_ready;
  ca_read _ _ := read_req;
  ca_write _ _ := write_req;
  ca_resp _ _ := recv_mem_resp;
  ca_flush _ _ := flush_all;
  ca_update _ _ := do_update;
  ca_reset := reset_stats
|}.

(** ** The contract with memory and processor

    [Port] is the environment; what can happen to a cache in it.  A request is made only when the channel is
    ready, a memory response only when a request is outstanding; the cache's
    [do_update] may come at any time, also several times per tick. *)
Inductive op : Type :=
| OTick
| OUpdate
| ORead (a : Z)
| OWrite (a data mask : Z)
| OMemRead
| OMemWrite
| OFlush.

Definition step (o : op) : ST (PipeCache * Port) unit := λ s,
  let '(c, p) := s in
  match o with
  | OTick => Ok (tt, (c, p <| p_tick ::= Z.succ |>))
  | OUpdate => do_update s
  | ORead a => if (is_ready c).1 then read_req a (c, p <| p_cpu ::= Z.succ |>) else Ok (tt, s)
  | OWrite a d m => if (is_ready c).2 then write_req a d m (c, p <| p_cpu ::= Z.succ |>) else Ok (tt, s)
  | OMemRead =>
    match p_rd p with
    | Some req => recv_mem_resp (req <| mt_dir := Resp |>) (c, p <| p_rd := None |>)
    | None => Ok (tt, s)
    end
  | OMemWrite =>
    match p_wr p with
    | Some req => recv_mem_resp (req <| mt_dir := Resp |>) (c, p <| p_wr := None |>)
    | None => Ok (tt, s)
    end
  | OFlush => flush_all s
  end.

Fixpoint run (ops : list op) : ST (PipeCache * Port) unit :=
  match ops with [] => mret tt | o :: ops => step o;; run ops end.

(** Requests in the pipeline. *)
Definition in_pipe (c : PipeCache) : Z :=
  countb (λ p, match p with Some _ => true | None => false end) (pipe_ c).

(** ** Words of a line *)

Lemma read_words_range l (i n : nat) : (i + n)%nat = length (Line.data l) →
  read_words l (Z.of_nat <$> seq i n) = Ok (drop i (Line.data l)).
Proof.
  revert i. induction n as [|n IH]; intros i Hi; simpl.
  { rewrite drop_ge by lia. done. }
  unfold Line.atAligned. rewrite Z.mul_comm, (Z.shiftr_div_pow2 _ WordShift) by done.
  change (2 ^ WordShift) with 4. rewrite Z.div_mul by done.
  destruct (lookup_lt_is_Some_2 (Line.data l) i) as [w Hw]; [lia|].
  assert (vec_at (Line.data l) (Z.of_nat i) = Ok w) as -> by (apply vec_at_Ok; by rewrite Nat2Z.id; split; [lia|]).
  cbn [mbind res_bind]. change (list_fmap _ _ Z.of_nat (seq (S i) n)) with (Z.of_nat <$> seq (S i) n).
  rewrite IH by lia. cbn [mbind res_bind]. rewrite (drop_S _ w i Hw). done.
Qed.

Lemma read_words_all l : read_words l (zrange (zlen (Line.data l))) = Ok (Line.data l).
Proof. unfold zrange, zlen. rewrite Nat2Z.id. by rewrite read_words_range by done. Qed.

(** ** The ends of the pipeline *)

Lemma back_app c fr ob : pipe_ c = fr ++ [ob] → back c = Ok ob.
Proof.
  intros E. unfold back, back_idx. rewrite E. apply vec_at_Ok. unfold zlen.
  rewrite length_app. simpl. split; [lia|].
  rewrite lookup_app_r by lia. by replace (_ - _)%nat with 0%nat by lia.
Qed.

Lemma set_back_app c fr ob e : pipe_ c = fr ++ [ob] →
  set_back c e = Ok (c <| pipe_ := fr ++ [e] |>).
Proof.
  intros E. unfold set_back, back_idx. rewrite E, vec_set_lt; unfold zlen; rewrite length_app; simpl; [|lia].
  cbn [mbind res_bind]. rewrite insert_app_r_alt by lia.
  by replace (_ - _)%nat with 0%nat by lia.
Qed.

Lemma shift_app fr ob : shift (fr ++ [ob]) = match fr with [] => [ob] | _ => None :: fr end.
Proof.
  destruct fr as [|x fr]; [done|]. unfold shift. simpl. destruct (fr ++ [ob]) eqn:E; [by destruct fr|].
  by rewrite <- E, removelast_last.
Qed.

(** ** Invariant *)

(** The fields that the lookup of an entry leaves alone. *)
Definition ctl (c : PipeCache) :=
  (write_back_ c, wb_hit_resp_delay_ c, r_waiting_ c, w_waiting_ c, is_shifted_ c, is_replay_ c,
   pending_flush_ c, pending_fill_req_ c, (blocked_until_ c, sched_hit_time_ c, cwf_ c)).

(** ** Remaining work

    Eight units per stage an entry still has to pass; the last entry gives units
    back as its miss is served. *)
Fixpoint weight (l : list (option CachePipeEntry)) : Z :=
  match l with
  | [] => 0
  | e :: l => (match e with Some _ => 8 * (zlen l + 1) | None => 0 end) + weight l
  end.

Definition slack (c : PipeCache) (ob : option CachePipeEntry) : Z :=
  match ob with
  | Some (MkEntry _ (Some _) _ _ _) =>
    if pending_fill_req_ c then 5 - 2 * b2z (pending_evict_ c) - b2z (w_waiting_ c)
    else if r_waiting_ c then 6 else 7
  | _ => 0
  end.

Definition work (c : PipeCache) : Z := weight (pipe_ c) - slack c (default None (list.last (pipe_ c))).

Definition occupied (e : option CachePipeEntry) : bool := match e with Some _ => true | None => false end.

Lemma weight_app fr ob : weight (fr ++ [ob]) =
  weight fr + 8 * countb occupied fr + match ob with Some _ => 8 | None => 0 end.
Proof.
  induction fr as [|e fr IH]; simpl; [destruct ob; unfold zlen; simpl; lia|]. rewrite IH.
  assert (zlen (fr ++ [ob]) = zlen fr + 1) as -> by (unfold zlen; rewrite length_app; simpl; lia).
  unfold occupied at 2. destruct e; simpl; lia.
Qed.

Lemma slack_range c ob : 0 <= slack c ob <= 7 ∧ (ob = None → slack c ob = 0).
Proof.
  unfold slack, b2z. destruct ob as [[? [] ? ? ?]|]; [|by split; [lia|]..].
  split; [|done]. destruct (pending_fill_req_ c), (pending_evict_ c), (w_waiting_ c), (r_waiting_ c); lia.
Qed.

Lemma work_app c fr ob : pipe_ c = fr ++ [ob] →
  work c = weight fr + 8 * countb occupied fr + match ob with Some _ => 8 | None => 0 end - slack c ob.
Proof. intros E. unfold work. rewrite E, weight_app, list.last_snoc. done. Qed.

Lemma in_pipe_app c fr ob : pipe_ c = fr ++ [ob] → in_pipe c = countb occupied fr + b2z (occupied ob).
Proof.
  intros E. unfold in_pipe. rewrite E. change (λ p, _) with occupied. rewrite countb_app. simpl. lia.
Qed.

Lemma weight_nonneg l : 0 <= weight l.
Proof. induction l as [|e l IH]; simpl; [lia|]. pose proof (zlen_nonneg l). destruct e; lia. Qed.

Section safety.
Context (s o a : Z) (wb : bool).

(** The line an entry points to. *)
Definition points (b : CB.CacheBase) (bk : CachePipeEntry) (l : CacheLine) : Prop :=
  ∃ way, line bk = Some (CB.setIndexOf b (addr bk), way) ∧ 0 <= way < a ∧
    CB.line_of b (CB.setIndexOf b (addr bk)) way = Some l.

(** The line of an entry that missed: cleared, and its block absent. *)
Definition missing (b : CB.CacheBase) (bk : CachePipeEntry) : Prop :=
  ∃ l, points b bk l ∧ Line.valid l = false ∧ ¬ CB.resident b (addr bk).

(** The line of an entry whose fill has arrived. *)
Definition filled (b : CB.CacheBase) (bk : CachePipeEntry) : Prop :=
  ∃ l, points b bk l ∧ Line.valid l = true.

(** The data cache's write channel. *)
Definition wr_state (c : PipeCache) (p : Port) : Prop :=
  match p_wr p with
  | Some req => w_waiting_ c = true ∧ write_back_ c = true ∧ mt_mop req = Write
  | None => w_waiting_ c = false
  end.

(** The state of the last entry: empty, not looked up, missed (the eviction of
    a dirty victim included), waiting for memory, filled. *)
Inductive back_state (c : PipeCache) (p : Port) : option CachePipeEntry → Prop :=
| BEmpty : r_waiting_ c = false → is_replay_ c = false →
    pending_fill_req_ c = false → p_rd p = None → p_wr p = None → back_state c p None
| BNew bk : line bk = None → r_waiting_ c = false → is_replay_ c = false →
    pending_fill_req_ c = false → p_rd p = None → p_wr p = None →
    back_state c p (Some bk)
| BMiss bk : missing (base c) bk → r_waiting_ c = false → is_replay_ c = false →
    pending_fill_req_ c = true → p_rd p = None →
    (pending_evict_ c = true → write_back_ c = true) → back_state c p (Some bk)
| BWait bk req : missing (base c) bk → r_waiting_ c = true →
    is_replay_ c = true → pending_fill_req_ c = false → p_rd p = Some req → p_wr p = None →
    mt_mop req = Read → mt_addr req = addr bk → back_state c p (Some bk)
| BFilled bk : filled (base c) bk → r_waiting_ c = false →
    is_replay_ c = true → pending_fill_req_ c = false → p_rd p = None → p_wr p = None →
    back_state c p (Some bk).

Record base_ok (c : PipeCache) : Prop := {
  b_wf : CB.wf s o a (base c);
  b_line : 2 <= o;
  b_coh : CB.coherent (base c)
}.

Definition new_entry (e : option CachePipeEntry) : Prop :=
  match e with Some bk => line bk = None | None => True end.

(** The configurations [main] builds: a write-through instruction cache that is
    never written, and a write-back data cache without response delay. *)
Definition config_ok (c : PipeCache) : Prop :=
  write_back_ c = wb ∧ (wb = true → wb_hit_resp_delay_ c = 0).

(** What keeps the calls of the cache within the contract: its id, the length of
    its bursts, the words of a pending eviction, and no store in a cache that
    takes none. *)
Definition fits (e : option CachePipeEntry) : Prop :=
  match e with Some bk => wb = false → mop bk = Read | None => True end.

Record calls_ok (c : PipeCache) (p : Port) : Prop := {
  k_id : cache_id c = p_id p;
  k_stores : p_stores p = wb;
  k_words : p_words p = 2 ^ o / 4 ∧ o < 18;
  k_evict : pending_evict_ c = true → zlen (evict_data_ c) = 2 ^ o / 4;
  k_reads : Forall fits (pipe_ c)
}.

Record inv (c : PipeCache) (p : Port) : Prop := {
  i_base : base_ok c;
  i_cfg : config_ok c;
  i_sched : sched_hit_time_ c = InfTime;
  i_tick : 0 <= p_tick p < InfTime;
  i_blocked : 0 <= blocked_until_ c <= p_tick p + 2;
  i_pipe : ∃ fr ob, pipe_ c = fr ++ [ob] ∧ Forall new_entry fr ∧ back_state c p ob;
  i_shifted : is_shifted_ c = true → pipe_ c !! 0%nat = Some None;
  i_wr : wr_state c p;
  i_cpu : p_cpu p = in_pipe c;
  i_calls : calls_ok c p
}.

Lemma calls_ext c c' p p' : calls_ok c p → cache_id c' = cache_id c → Forall fits (pipe_ c') →
  (pending_evict_ c' = true → pending_evict_ c = true ∧ evict_data_ c' = evict_data_ c) →
  (p_id p', p_words p', p_stores p') = (p_id p, p_words p, p_stores p) → calls_ok c' p'.
Proof.
  intros [H1 H2 H3 H4 H5] E1 Hf He [= E2 E3 E4].
  constructor; [congruence | congruence | by rewrite E3 | | done].
  intros [H E]%He. rewrite E. by apply H4.
Qed.

Lemma calls_same c c' p p' : calls_ok c p →
  (cache_id c', pipe_ c', pending_evict_ c', evict_data_ c') = (cache_id c, pipe_ c, pending_evict_ c, evict_data_ c) →
  (p_id p', p_words p', p_stores p') = (p_id p, p_words p, p_stores p) → calls_ok c' p'.
Proof.
  intros H [= E1 E2 E3 E4] Hp. apply (calls_ext c c' p p' H); [done | | | done].
  - rewrite E2. apply H.
  - by rewrite E3, E4.
Qed.

(** *** Lookup *)

Lemma words_of_line l : 2 <= o < 32 → CB.line_ok o l →
  read_words l (zrange (2 ^ o / 4)) = Ok (Line.data l).
Proof.
  intros Ho Hl. unfold CB.line_ok in Hl. rewrite Z.shiftr_div_pow2 in Hl by done.
  change (2 ^ WordShift) with 4 in Hl. rewrite <- Hl. apply read_words_all.
Qed.

(** The victim whose words are saved is the line [access] is about to clear. *)
Lemma save_evict_Ok c req_addr : base_ok c →
  ∃ c' set way l, save_evict_info c req_addr = Ok c' ∧ base c' = base c ∧ pipe_ c' = pipe_ c ∧
    ctl c' = ctl c ∧ vec_at (CB.setsArr_ (base c)) (CB.setIndexOf (base c) req_addr) = Ok set ∧
    CB.miss_victim_way (base c) (CB.setIndexOf (base c) req_addr) set = Ok way ∧
    vec_at set way = Ok l ∧ pending_evict_ c' = write_back_ c && (Line.valid l && Line.dirty l) ∧
    (pending_evict_ c' = true → evict_addr_ c' = Line.tag l ∧ evict_data_ c' = Line.data l) ∧
    CB.line_ok o l.
Proof.
  intros [Hw Ho Hc]. unfold save_evict_info. cbv zeta.
  set (c0 := c <| pending_evict_ := false |>).
  change (write_back_ c0) with (write_back_ c). change (base c0) with (base c). set (b := base c) in *.
  pose proof (CB.setIndexOf_range s o a b req_addr Hw) as Hs.
  destruct (CB.set_exists s o a b _ Hw Hs) as (set & Hset & Hlen & Hf). rewrite Hset. cbn [mbind res_bind].
  destruct (CB.miss_victim_way_Ok s o a b _ set Hw Hs Hlen) as (way & Hv & Hway).
  destruct (vec_at_lt set way) as [l Hl]; [lia|].
  assert (CB.line_ok o l) as Hlok by exact (Forall_vec_at _ _ _ _ Hf Hl).
  destruct (write_back_ c); cbn [negb andb]; [|by eexists c0, set, way, l].
  rewrite Hv. cbn [mbind res_bind]. unfold umod. rewrite (CB.w_assoc s o a b Hw).
  rewrite (proj2 (Z.eqb_neq a 0)) by lia. cbn [mbind res_bind]. rewrite Z.mod_small by lia.
  rewrite Hl. cbn [mbind res_bind].
  destruct (Line.valid l && Line.dirty l) eqn:E.
  - rewrite (CB.w_line s o a b Hw).
    destruct (CB.w_o s o a b Hw). rewrite words_of_line by (try lia; done).
    cbn [mbind res_bind]. by eexists _, set, way, l.
  - by eexists _, set, way, l.
Qed.

Lemma lookup_back_Ok c now bk fr ob : base_ok c → pipe_ c = fr ++ [ob] →
  ∃ bk' c', lookup_back now bk c = Ok (bk', c') ∧ base_ok c' ∧ ctl c' = ctl c ∧
    CB.geom (base c') = CB.geom (base c) ∧
    pipe_ c' = fr ++ [Some bk'] ∧ addr bk' = addr bk ∧ mop bk' = mop bk ∧
    (pending_evict_ c' = true → write_back_ c = true ∧ zlen (evict_data_ c') = 2 ^ o / 4) ∧
    (filled (base c') bk' ∧ CB.resident (base c) (addr bk) ∨
     missing (base c') bk' ∧ ¬ CB.resident (base c) (addr bk)).
Proof.
  intros Hb Hp. destruct (save_evict_Ok c (addr bk) Hb) as (c1 & _ & _ & l0 & H1 & Hb1 & Hp1 & Hk1 & _ & _ & _ & Hpe & Hed & Hlok).
  unfold lookup_back. rewrite H1. cbn [mbind res_bind]. rewrite Hb1.
  destruct Hb as [Hw Ho Hc]. set (b := base c) in *.
  destruct (CB.access_Ok s o a b now (addr bk) Hw) as (way & b' & Ha & Hw' & Hway & Hfr & Hacc).
  rewrite Ha. cbn [mbind res_bind].
  pose proof Hfr as [Hg _]. destruct (CB.geom_index b b' Hg) as (Ei & _ & Et).
  set (bk' := bk <| line := _ |>).
  assert (pipe_ (c1 <| base := b' |>) = fr ++ [ob]) as Hp2 by (simpl; by rewrite Hp1).
  rewrite (set_back_app _ _ _ _ Hp2). cbn [mbind res_bind].
  eexists bk', _. split; [done|]. assert (CB.coherent b') as Hc'.
  { apply (CB.access_coherent s o a b now (addr bk) way b'); try done; lia. }
  split; [by split|]. split; [exact Hk1|]. split; [exact Hg|]. split; [done|]. split; [done|]. split; [done|].
  split.
  { change (pending_evict_ c1 = true → write_back_ c = true ∧ zlen (evict_data_ c1) = 2 ^ o / 4). intros H.
    destruct (Hed H) as [_ ->]. split; [rewrite Hpe in H; by destruct (write_back_ c)|].
    rewrite <- (Z.shiftr_div_pow2 _ 2) by done. exact Hlok. }
  change (base _) with b'. pose proof (CB.setIndexOf_range s o a b (addr bk) Hw).
  destruct Hacc as [l l1 l' Hl Hl' Hm Hm' _ _ _ _ _ | l set Hl Hnr Hl' _ _ _ _].
  - left. split.
    + exists l'. split; [|by apply CB.matches_true in Hm' as [? _]]. exists way.
      split; [done|]. split; [done|]. change (addr bk') with (addr bk). by rewrite Ei.
    + exists way, l. split; [lia | done].
  - right. split; [|done]. exists (Line.invalidate l). split; [|split; [done|]].
    + exists way. split; [done|]. split; [done|]. change (addr bk') with (addr bk). by rewrite Ei.
    + change (addr bk') with (addr bk). intros Hr.
      destruct (CB.resident_frame s o a b b' _ way (addr bk) Hw Hfr Hr) as [|[_ (l' & Hl2 & Hm2)]]; [done|].
      rewrite Hl' in Hl2. injection Hl2 as <-. by apply CB.matches_true in Hm2 as [? _].
Qed.
(** C32: a dirty victim is saved before it is cleared.  When a write-back cache
    looks up an absent block, the line it clears for it is the one whose state
    [save_evict_info] examined: an eviction is pending exactly when that line
    was valid and dirty, and then carries its block address and its words. *)
Theorem evict_saves_victim c now bk fr ob : base_ok c → pipe_ c = fr ++ [ob] →
  write_back_ c = true → ¬ CB.resident (base c) (addr bk) →
  ∃ bk' c' way l, let si := CB.setIndexOf (base c) (addr bk) in
    lookup_back now bk c = Ok (bk', c') ∧ line bk' = Some (si, way) ∧
    CB.line_of (base c) si way = Some l ∧
    CB.line_of (base c') si way = Some (Line.invalidate l) ∧
    pending_evict_ c' = Line.valid l && Line.dirty l ∧
    (pending_evict_ c' = true → evict_addr_ c' = Line.tag l ∧ evict_data_ c' = Line.data l).
Proof.
  intros Hb Hp Hwb Hnr.
  destruct (save_evict_Ok c (addr bk) Hb)
    as (c1 & set & way & l & H1 & Hb1 & Hp1 & Hk1 & Hset & Hv & Hl & Hpe & Hev & _).
  unfold lookup_back. rewrite H1. cbn [mbind res_bind]. rewrite Hb1.
  destruct Hb as [Hw Ho Hc]. set (b := base c) in *.
  destruct (CB.access_Ok s o a b now (addr bk) Hw) as (way' & b' & Ha & Hw' & Hway & Hfr & Hacc).
  rewrite Ha. cbn [mbind res_bind]. pose proof Hfr as [Hg _]. destruct (CB.geom_index b b' Hg) as (Ei & _ & _).
  pose proof (CB.setIndexOf_range s o a b (addr bk) Hw).
  destruct Hacc as [? ? ? Hl0 ? Hm _ _ _ _ _ _ | l' set' Hl0 _ Hl' _ Hset' Hv' _].
  { destruct Hnr. eexists way', _. split; [lia|]. by split. }
  assert (set' = set) as -> by congruence. assert (way' = way) as -> by congruence.
  rewrite (CB.line_of_set _ _ _ _ Hset) in Hl0. apply vec_at_Ok in Hl as [_ Hl].
  assert (l' = l) as -> by congruence.
  rewrite (set_back_app _ fr ob) by (simpl; by rewrite Hp1). cbn [mbind res_bind].
  eexists _, _, way, l. cbv zeta. split; [done|]. split; [simpl; by rewrite Ei|].
  split; [by rewrite (CB.line_of_set _ _ _ _ Hset)|]. split; [done|]. rewrite Hwb in Hpe. done.
Qed.

(** *** Hits *)

Lemma points_line c bk l : base_ok c → points (base c) bk l →
  the_line c bk = Ok l ∧ CB.line_ok o l.
Proof.
  intros [Hw _ _] (way & Hb & Hway & Hl). pose proof (CB.setIndexOf_range s o a (base c) (addr bk) Hw).
  unfold the_line. rewrite Hb.
  destruct (CB.line_exists s o a (base c) (CB.setIndexOf (base c) (addr bk)) way) as (l' & E1 & E2 & E3); try done.
  rewrite Hl in E2. injection E2 as <-. done.
Qed.

Lemma offset_word c x l : base_ok c → CB.line_ok o l →
  ∃ w, Line.atAligned l (CB.offsetOf (base c) x) = Ok w.
Proof.
  intros [Hw Ho _] Hl. apply vec_at_lt. rewrite Hl. unfold CB.offsetOf.
  destruct (CB.w_o s o a _ Hw). rewrite (CB.w_line s o a _ Hw).
  pose proof (land_mask_range x o ltac:(lia)). rewrite !Z.shiftr_div_pow2 by done.
  change (2 ^ WordShift) with 4. split; [apply Z.div_pos; lia|].
  apply Z.div_lt_upper_bound; [done|].
  replace (4 * (2 ^ o / 4)) with (2 ^ o); [lia|].
  replace o with (2 + (o - 2)) by lia. rewrite Z.pow_add_r by lia. change (2 ^ 2) with 4.
  rewrite (Z.mul_comm 4 (2 ^ _)), Z.div_mul by lia. lia.
Qed.

(** Setting the dirty bit of a line keeps the contents coherent. *)
Lemma set_dirty_Ok c bk l : base_ok c → points (base c) bk l → Line.valid l = true →
  ∃ b', match line bk with
        | Some (si, way) => b ← CB.set_line (base c) si way (Line.setDirty l);
                            mret (tt, c <| base := b |>)
        | None => Err NullDeref
        end = Ok (tt, c <| base := b' |>) ∧ base_ok (c <| base := b' |>) ∧
        CB.geom b' = CB.geom (base c).
Proof.
  intros Hb Hp Hv. destruct (points_line c bk l Hb Hp) as [_ Hok].
  destruct Hb as [Hw Ho Hc]. destruct Hp as (way & -> & Hway & Hl).
  pose proof (CB.setIndexOf_range s o a (base c) (addr bk) Hw) as Hs.
  set (si := CB.setIndexOf (base c) (addr bk)) in *.
  destruct (CB.set_line_Ok s o a (base c) si way (Line.setDirty l) Hw Hs Hway Hok) as [-> Hw'].
  cbn [mbind res_bind]. eexists. split; [done|].
  pose proof (CB.frame_put s o a (base c) si way (Line.setDirty l) Hw Hs Hway) as Hfr.
  split; [|exact (proj1 Hfr)]. split; [exact Hw' | done |].
  apply (CB.coherent_update (base c) (CB.put (base c) si way (Line.setDirty l)) si way (Line.setDirty l)); [lia | lia | done | exact Hfr | |].
  - rewrite (CB.line_of_put s o a) by (done || lia). by rewrite decide_True.
  - intros _. apply (Hc si way l); [lia | lia | done | done].
Qed.

Lemma allowed_resp c p r : calls_ok c p → 0 < p_cpu p → ct_id r = cache_id c →
  (wb = false → ct_mop r = Read) → resp_allowed p r = true.
Proof.
  intros Hcl Hcpu Hid Hm. unfold resp_allowed.
  rewrite (proj2 (Z.ltb_lt _ _) Hcpu), Hid, (k_id _ _ Hcl), Z.eqb_refl, (k_stores _ _ Hcl).
  destruct wb; [apply orb_true_r|]. by rewrite Hm.
Qed.

Lemma respond_wp c p t Q : config_ok c → resp_allowed p t = true →
  Q tt (c, p <| p_cpu ::= Z.pred |>) → wp (respond t) Q (c, p).
Proof.
  intros Hcfg Hcpu HQ. unfold respond. wp_step. cbn [fst snd curr_tick port_env].
  assert (write_back_ c && negb (wb_hit_resp_delay_ c =? 0) = false) as ->.
  { destruct Hcfg as [-> Hd]. destruct wb; [|done]. by rewrite Hd. }
  rewrite wp_env. unfold wp, cpu_resp_recv, port_env, port_resp. cbn [fst snd].
  by rewrite Hcpu.
Qed.

Lemma handle_hit_wp c p bk Q : base_ok c → config_ok c → calls_ok c p → fits (Some bk) →
  filled (base c) bk → 0 < p_cpu p →
  (∀ b', base_ok (c <| base := b' |>) → CB.geom b' = CB.geom (base c) →
     Q tt (c <| base := b' |> <| blocked_until_ := u64 (p_tick p + 1) |>, p <| p_cpu ::= Z.pred |>)) →
  wp (handle_hit bk) Q (c, p).
Proof.
  intros Hb Hcfg Hcl Hfit (l & Hpt & Hv) Hcpu HQ. unfold handle_hit. wp_step. cbn [fst snd curr_tick port_env].
  destruct (points_line c bk l Hb Hpt) as [Hl Hok]. exists l. split; [done|].
  assert (∀ x d m, (wb = false → m = Read) → resp_allowed p (MkCpuTrans x d (cache_id c) m) = true) as Hresp
    by (intros; by apply (allowed_resp c)).
  cbn [fits] in Hfit. destruct (mop bk); wp_step.
  - destruct (offset_word c (addr bk) l Hb Hok) as [w Hw]. exists w. split; [done|].
    wp_step. apply respond_wp; [exact Hcfg | by apply Hresp |]. apply (HQ (base c)); [by destruct Hb | done].
  - cbn [fst snd]. destruct (set_dirty_Ok c bk l Hb Hpt Hv) as (b' & E & Hb' & Hg).
    exists tt, (c <| blocked_until_ := u64 (p_tick p + 1) |> <| base := b' |>). split.
    { change (base (c <| blocked_until_ := _ |>)) with (base c).
      destruct (line bk) as [[si way]|]; [|done].
      destruct (CB.set_line (base c) si way (Line.setDirty l)) as [b1|]; [|done].
      cbn [mbind res_bind] in *. injection E as E. by rewrite E. }
    apply respond_wp; [exact Hcfg | by apply Hresp |]. by apply HQ.
Qed.

Lemma handle_prefetch_wp c p x h Q : base_ok c →
  (∀ r b', base_ok (c <| base := b' |>) → CB.geom b' = CB.geom (base c) →
     Q r (c <| base := b' |>, p)) →
  wp (handle_prefetch x h) Q (c, p).
Proof.
  intros [Hw Ho Hc] HQ. unfold handle_prefetch. wp_step. cbn [fst snd].
  destruct (CB.prefetch_Ok s o a (base c) (curr_tick p) x h Hw Hc) as (r & b' & E & Hw' & Hc' & Hg & _).
  exists r, (c <| base := b' |>). rewrite E. split; [done|]. apply HQ; [by split | done].
Qed.

(** *** The last stage *)

Lemma filled_missing b bk : filled b bk → missing b bk → False.
Proof.
  intros (l1 & (w1 & E1 & _ & H1) & V1) (l2 & (w2 & E2 & _ & H2) & V2 & _). congruence.
Qed.

Lemma base_ok_ext c c' : base c' = base c → base_ok c → base_ok c'.
Proof. intros E []. split; by rewrite ?E. Qed.

Lemma u64_soon now k : 0 <= now → 0 <= k <= 2 → 0 <= u64 (now + k) <= now + 2.
Proof. unfold u64. intros. Z.to_euclidean_division_equations. lia. Qed.

Lemma zlast_occupied (fr : list (option CachePipeEntry)) : 0 <= countb occupied fr.
Proof. apply countb_nonneg. Qed.

(** An entry whose line is valid, about to be answered. *)
Record hit_ready (c : PipeCache) (p : Port) (fr : list (option CachePipeEntry))
    (bk : CachePipeEntry) : Prop := {
  h_base : base_ok c;
  h_cfg : config_ok c;
  h_sched : sched_hit_time_ c = InfTime;
  h_tick : 0 <= p_tick p < InfTime;
  h_pipe : pipe_ c = fr ++ [Some bk];
  h_new : Forall new_entry fr;
  h_fill : filled (base c) bk;
  h_r : r_waiting_ c = false;
  h_pf : pending_fill_req_ c = false;
  h_rd : p_rd p = None;
  h_wrn : p_wr p = None;
  h_shifted : is_shifted_ c = true → pipe_ c !! 0%nat = Some None;
  h_wr : wr_state c p;
  h_cpu : p_cpu p = in_pipe c;
  h_calls : calls_ok c p
}.

Lemma geom_id b b' : CB.geom b' = CB.geom b → CB.cache_id_ b' = CB.cache_id_ b.
Proof. by intros [= _ _ _ _ -> _]. Qed.

Lemma fits_back fr ob ob' : Forall fits (fr ++ [ob]) → fits ob' → Forall fits (fr ++ [ob']).
Proof. intros [H _]%Forall_app H'. apply Forall_app. split; [done | by apply Forall_singleton]. Qed.

(** A served hit leaves the last stage empty. *)
Lemma inv_served c p b' fr bk : hit_ready c p fr bk → base_ok (c <| base := b' |>) →
  CB.geom b' = CB.geom (base c) →
  inv (c <| is_replay_ := false |> <| base := b' |> <| blocked_until_ := u64 (p_tick p + 1) |>
         <| pipe_ := fr ++ [None] |>) (p <| p_cpu ::= Z.pred |>).
Proof.
  intros [Hb Hcfg Hsch Htk E Hnew Hf Hr Hpf H1 H2 Hsh Hwr Hcpu Hcl] Hb' Hg.
  constructor.
  - by apply (base_ok_ext (c <| base := b' |>)).
  - exact Hcfg.
  - exact Hsch.
  - exact Htk.
  - apply (u64_soon (p_tick p) 1); lia.
  - exists fr, None. split; [done|]. split; [done|]. by constructor.
  - intros Hs. rewrite E in Hsh. destruct fr; [done|]. exact (Hsh Hs).
  - exact Hwr.
  - change (Z.pred (p_cpu p) = countb occupied (fr ++ [None])).
    rewrite Hcpu, (in_pipe_app c fr _ E), countb_app. simpl. lia.
  - apply (calls_ext c _ p); [done | by apply geom_id | | done | done].
    apply (fits_back fr (Some bk)); [|done]. rewrite <- E. apply Hcl.
Qed.

(** A missed entry, before or after the miss has been noted. *)
Record miss_ready (c : PipeCache) (p : Port) (fr : list (option CachePipeEntry))
    (bk : CachePipeEntry) : Prop := {
  m_base : base_ok c;
  m_cfg : config_ok c;
  m_sched : sched_hit_time_ c = InfTime;
  m_tick : 0 <= p_tick p < InfTime;
  m_blocked : 0 <= blocked_until_ c <= p_tick p + 2;
  m_pipe : pipe_ c = fr ++ [Some bk];
  m_new : Forall new_entry fr;
  m_miss : missing (base c) bk;
  m_r : r_waiting_ c = false;
  m_replay : is_replay_ c = false;
  m_rd : p_rd p = None;
  m_evict : pending_evict_ c = true → write_back_ c = true;
  m_shifted : is_shifted_ c = true → pipe_ c !! 0%nat = Some None;
  m_wr : wr_state c p;
  m_cpu : p_cpu p = in_pipe c;
  m_calls : calls_ok c p
}.

Lemma inv_missed c p fr bk : miss_ready c p fr bk → pending_fill_req_ c = true → inv c p.
Proof.
  intros [] Hpf. constructor; try done. exists fr, (Some bk). split; [done|]. split; [done|].
  by apply BMiss.
Qed.

(** A missed entry again, after a change to the miss registers. *)
Lemma miss_ready_ext c p fr bk c' : miss_ready c p fr bk →
  base c' = base c → write_back_ c' = write_back_ c → wb_hit_resp_delay_ c' = wb_hit_resp_delay_ c →
  sched_hit_time_ c' = sched_hit_time_ c → pipe_ c' = pipe_ c → r_waiting_ c' = r_waiting_ c →
  is_replay_ c' = is_replay_ c → is_shifted_ c' = is_shifted_ c → pending_evict_ c' = pending_evict_ c →
  w_waiting_ c' = w_waiting_ c → evict_data_ c' = evict_data_ c →
  0 <= blocked_until_ c' <= p_tick p + 2 → miss_ready c' p fr bk.
Proof.
  intros [] E1 E2 E3 E4 E5 E6 E7 E8 E9 E10 E11 ?.
  constructor; rewrite ?E1, ?E2, ?E3, ?E4, ?E5, ?E6, ?E7, ?E8, ?E9, ?E10; try done.
  - by apply (base_ok_ext c).
  - unfold config_ok. by rewrite E2, E3.
  - unfold wr_state. by rewrite E2, E10.
  - unfold in_pipe. by rewrite E5.
  - apply (calls_ext c _ p); [done | unfold cache_id; by rewrite E1 | rewrite E5; apply m_calls0 | by rewrite E9, E11 | done].
Qed.

Definition missed_slack (c : PipeCache) : Z := 5 - 2 * b2z (pending_evict_ c) - b2z (w_waiting_ c).

Lemma missing_line b bk : missing b bk → ∃ e, line bk = Some e.
Proof. intros (l & (way & -> & _) & _). eauto. Qed.

Lemma slack_missed c bk : missing (base c) bk → pending_fill_req_ c = true →
  slack c (Some bk) = missed_slack c.
Proof. intros [e He]%missing_line E. destruct bk; simpl in *. by rewrite He, E. Qed.

(** A burst of one line, as the cache sends it. *)
Lemma allowed_line c p m x d st : base_ok c → calls_ok c p →
  u16 (2 ^ o / 4) = 2 ^ o / 4 ∧
  req_allowed p (mk_req m x (cache_id c) (2 ^ o / 4) d st) = true.
Proof.
  intros [_ Ho _] [Hid _ [Hw Hlt] _ _].
  assert (1 <= 2 ^ o / 4 < 2 ^ 16) as Hr.
  { replace o with (2 + (o - 2)) by lia. rewrite Z.pow_add_r by lia. change (2 ^ 2) with 4.
    rewrite (Z.mul_comm 4), Z.div_mul by lia. split; [pose proof (Z.pow_pos_nonneg 2 (o - 2)); lia|].
    apply Z.pow_lt_mono_r; lia. }
  split; [by apply Z.mod_small; lia|]. unfold req_allowed. cbn [mk_req mt_id mt_bst_len].
  rewrite Hid, Hw, Z.eqb_refl. by rewrite (proj2 (Z.leb_le 1 _)), (proj2 (Z.leb_le (2 ^ o / 4) _)) by lia.
Qed.

Lemma serve_miss_wp c p fr bk (Q : bool → PipeCache * Port → Prop) : miss_ready c p fr bk →
  (∀ c' p', inv c' p' → p_tick p' = p_tick p → pipe_ c' = pipe_ c →
     (if pending_fill_req_ c then missed_slack c <= slack c' (Some bk) ∧
        (w_waiting_ c = false → missed_slack c < slack c' (Some bk))
      else slack c' (Some bk) = missed_slack c) → Q true (c', p')) →
  wp (serve_miss bk) Q (c, p).
Proof.
  intros Hm HQ. pose proof Hm as [Hb Hcfg Hsch Htk Hbl Hp Hnew Hmi Hr Hre Hrd Hev Hsh Hwr Hcpu Hcl].
  pose proof (u64_soon (p_tick p) 1 ltac:(lia) ltac:(lia)) as Hsoon.
  destruct (missing_line _ _ Hmi) as [e Hline].
  unfold serve_miss, block. wp_step. cbn [fst snd].
  destruct (pending_fill_req_ c) eqn:Hpf; cbn [negb].
  2:{ wp_step. cbn [fst snd curr_tick port_env].
      set (c1 := c <| pending_fill_req_ := true |> <| blocked_until_ := _ |>).
      assert (miss_ready c1 p fr bk) as Hm1 by (by apply (miss_ready_ext c)).
      apply (HQ c1 p); [by apply (inv_missed c1 p fr bk) | done | done |].
      by apply (slack_missed c1). }
  assert (w_waiting_ c = true → wp
    (now ← tick; modify_self (λ c, c <| blocked_until_ := u64 (now + 1) |>);; mret true) Q (c, p)) as Hblock.
  { intros Hw. wp_step. cbn [fst snd curr_tick port_env].
    set (c1 := c <| blocked_until_ := _ |>).
    assert (miss_ready c1 p fr bk) as Hm1 by (by apply (miss_ready_ext c)).
    apply (HQ c1 p); [by apply (inv_missed c1 p fr bk) | done | done |].
    rewrite (slack_missed c1) by done. unfold missed_slack. simpl. rewrite Hw. split; [lia | done]. }
  unfold wr_state in Hwr.
  destruct (pending_evict_ c) eqn:Hpe.
  - destruct (w_waiting_ c) eqn:Hww; [by apply Hblock|]. destruct (p_wr p) as [?|] eqn:Ew; [by destruct Hwr|].
    wp_step. cbn [fst snd]. rewrite (k_evict _ _ Hcl Hpe).
    destruct (allowed_line c p Write (evict_addr_ c) (evict_data_ c) [] Hb Hcl) as [-> Hal].
    apply port_write_wp; [done..|]. wp_step. cbn [fst snd curr_tick port_env].
    set (c1 := c <| evict_data_ := [] |> <| w_waiting_ := true |> <| pending_evict_ := false |>
                 <| blocked_until_ := _ |>).
    match goal with |- Q true (c1, ?p2) => set (p1 := p2) end.
    assert (miss_ready c1 p1 fr bk) as Hm1.
    { constructor; try done; [by apply (base_ok_ext c) | by split; [|split; [apply Hev|]] |].
      by apply (calls_ext c c1 p p1); [| | apply Hcl | |]. }
    apply (HQ c1 p1); [by apply (inv_missed c1 p1 fr bk) | done | done |].
    rewrite (slack_missed c1) by done. unfold missed_slack. rewrite Hpe, Hww. simpl. lia.
  - destruct (w_waiting_ c) eqn:Hww; [by apply Hblock|]. destruct (p_wr p) as [?|] eqn:Ew; [by destruct Hwr|].
    wp_step. cbn [fst snd]. rewrite (CB.w_line s o a _ (b_wf _ Hb)).
    destruct (allowed_line c p Read (addr bk) [] [] Hb Hcl) as [-> Hal].
    apply port_read_wp; [done..|]. wp_step. cbn [fst snd].
    match goal with |- Q true (?c2, ?p2) => set (c1 := c2); set (p1 := p2) end.
    apply (HQ c1 p1); [|done|done|].
    + constructor; try done; try (by apply (base_ok_ext c)).
      * exists fr, (Some bk). split; [done|]. split; [done|]. by eapply BWait.
      * unfold wr_state. change (p_wr p1) with (p_wr p). by rewrite Ew.
      * apply (calls_ext c c1 p p1); [done | done | apply Hcl | | done]. intros H. by split.
    + unfold missed_slack. rewrite Hpe, Hww. destruct bk; simpl in *. rewrite Hline. simpl. lia.
Qed.

(** What [lookup_back] makes of an entry not looked up yet. *)
Lemma lookup_new c p fr bk now : inv c p → pipe_ c = fr ++ [Some bk] → line bk = None →
  ∃ bk' c', lookup_back now bk c = Ok (bk', c') ∧ addr bk' = addr bk ∧ mop bk' = mop bk ∧
    pipe_ c' = fr ++ [Some bk'] ∧ base_ok c' ∧ ctl c' = ctl c ∧ in_pipe c' = in_pipe c ∧
    r_waiting_ c = false ∧ is_replay_ c = false ∧ pending_fill_req_ c = false ∧
    p_rd p = None ∧ p_wr p = None ∧
    (hit_ready c' p fr bk' ∧ CB.resident (base c) (addr bk) ∨
     miss_ready c' p fr bk' ∧ ¬ CB.resident (base c) (addr bk)).
Proof.
  intros [Hb Hcfg Hsch Htk Hbl (fr' & ob' & Hp & Hnew & Hbk) Hsh Hwr Hcpu Hcl] E Hl.
  rewrite E in Hp. apply app_inj_tail in Hp as [<- <-].
  inversion Hbk as [|bk1 _ Hr Hre Hpf H1 H2|bk1 Hm|bk1 req Hm|bk1 Hf]; subst bk1;
    [| by apply missing_line in Hm as [? ?]; congruence
     | by apply missing_line in Hm as [? ?]; congruence
     | by destruct Hf as (? & (? & ? & _) & _); congruence].
  destruct (lookup_back_Ok c now bk fr (Some bk) Hb E)
    as (bk' & c' & Hlk & Hb' & Hk & Hg & Hp' & Ha & Hmop & Hev & Hcase).
  unfold ctl in Hk. injection Hk as K1 K2 K3 K4 K5 K6 K7 K8 K9 K10 K11.
  assert (in_pipe c' = in_pipe c) as Hin by (rewrite (in_pipe_app c' _ _ Hp'), (in_pipe_app c _ _ E); done).
  exists bk', c'. splits; try done; [unfold ctl; congruence|].
  assert (config_ok c') as Hcfg' by (unfold config_ok; by rewrite K1, K2).
  assert (wr_state c' p) as Hwr' by (unfold wr_state in *; by rewrite K1, K4).
  assert (is_shifted_ c' = true → pipe_ c' !! 0%nat = Some None) as Hsh'.
  { rewrite K5, Hp'. rewrite E in Hsh. intros Hs. specialize (Hsh Hs). by destruct fr. }
  assert (calls_ok c' p) as Hcl'.
  { destruct Hcl as [C1 C2 C3 C4 C5]. constructor; [by rewrite <- C1; apply geom_id | done | done | intros H; by apply Hev |].
    rewrite Hp'. rewrite E in C5. apply (fits_back fr (Some bk)); [done|]. apply Forall_app in C5 as [_ C5].
    apply Forall_cons_iff in C5 as [C5 _]. unfold fits. rewrite Hmop. exact C5. }
  destruct Hcase as [[Hf ?] | [Hm ?]]; [left | right]; (split; [|done]);
    constructor; rewrite ?K1, ?K2, ?K3, ?K6, ?K8, ?K10, ?K9, ?Hin; try done.
  by intros [? _]%Hev.
Qed.

Definition served (c : PipeCache) (p : Port) (c' : PipeCache) (p' : Port) : Prop :=
  inv c' p' ∧ p_tick p' = p_tick p ∧ zlen (pipe_ c') = zlen (pipe_ c) ∧ work c' <= work c.

Lemma hit_of_filled c p fr bk : inv c p → pipe_ c = fr ++ [Some bk] → filled (base c) bk →
  hit_ready c p fr bk ∧ is_replay_ c = true.
Proof.
  intros [Hb Hcfg Hsch Htk Hbl (fr' & ob' & Hp & Hnew & Hbk) Hsh Hwr Hcpu Hcl] E Hf.
  rewrite E in Hp. apply app_inj_tail in Hp as [<- <-].
  inversion Hbk as [|bk1 Hl|bk1 Hm|bk1 req Hm|]; subst; try done; exfalso;
    try by apply (filled_missing (base c) bk).
  by destruct Hf as (? & (? & ? & _) & _); congruence.
Qed.

(** The hit branch: respond, prefetch, leave. *)
Lemma serve_hit_wp c p fr bk (was_miss : bool) (Q : bool → PipeCache * Port → Prop) :
  hit_ready c p fr bk →
  (∀ c' p', inv c' p' → p_tick p' = p_tick p → pipe_ c' = fr ++ [None] → Q false (c', p')) →
  wp (handle_hit bk;;
      c ← self;
      (if is_Read (mop bk) && negb (r_waiting_ c)
       then handle_prefetch (addr bk) (negb was_miss);; mret tt else mret tt);;
      update_self (λ c, c ← set_back c None; mret (tt, c));;
      mret false) Q (c <| is_replay_ := false |>, p).
Proof.
  intros Hh HQ. pose proof Hh as [Hb Hcfg Hsch Htk Hp Hnew Hf Hr Hpf H1 H2 Hsh Hwr Hcpu Hcl].
  assert (0 < p_cpu p) as Hpos.
  { rewrite Hcpu, (in_pipe_app c fr _ Hp). simpl. pose proof (countb_nonneg occupied fr). lia. }
  set (c0 := c <| is_replay_ := false |>).
  assert (fits (Some bk)) as Hfit.
  { pose proof (k_reads _ _ Hcl) as Hall. rewrite Hp in Hall. by apply Forall_app in Hall as [_ [? _]%Forall_cons_iff]. }
  rewrite wp_bind. apply handle_hit_wp; [by apply (base_ok_ext c) | done | | done | done | done |].
  { by apply (calls_same c c0 p p). }
  intros b1 Hb1 Hg1.
  wp_step. cbn [fst snd].
  assert (∀ b', base_ok (c <| base := b' |>) → CB.geom b' = CB.geom (base c) → wp
    (update_self (λ c, c ← set_back c None; mret (tt, c));; mret false) Q
    (c0 <| base := b' |> <| blocked_until_ := u64 (p_tick p + 1) |>, p <| p_cpu ::= Z.pred |>)) as Hend.
  { intros b' Hb' Hg'. wp_step. cbn [fst snd].
    set (c1 := c0 <| base := b' |> <| blocked_until_ := _ |>). eexists tt, _.
    rewrite (set_back_app c1 fr (Some bk)) by done. cbn [mbind res_bind]. split; [done|].
    apply HQ; [exact (inv_served c p b' fr bk Hh Hb' Hg') | done | done]. }
  set (c1 := c0 <| base := b1 |> <| blocked_until_ := _ |>).
  change (r_waiting_ c1) with (r_waiting_ c).
  destruct (is_Read (mop bk) && negb (r_waiting_ c)).
  - wp_step. apply handle_prefetch_wp; [by apply (base_ok_ext (c0 <| base := b1 |>))|].
    intros r b2 Hb2 Hg2. wp_step. cbn [fst snd]. specialize (Hend b2). revert Hend. wp_step. intros Hend.
    apply Hend; [by apply (base_ok_ext (c1 <| base := b2 |>)) | by rewrite Hg2].
  - assert (base_ok (c <| base := b1 |>)) as Hb2 by (by apply (base_ok_ext (c0 <| base := b1 |>))).
    specialize (Hend b1 Hb2 Hg1). revert Hend. by wp_step.
Qed.

Lemma work_served c c' fr bk : pipe_ c = fr ++ [Some bk] → pipe_ c' = fr ++ [None] → work c' < work c.
Proof.
  intros E E'. rewrite (work_app c _ _ E), (work_app c' _ _ E').
  pose proof (slack_range c (Some bk)). pose proof (slack_range c' None). lia.
Qed.

Lemma work_missed c c' p p' fr bk bk' : inv c p → inv c' p' → pipe_ c = fr ++ [Some bk] →
  pipe_ c' = fr ++ [Some bk'] → slack c (Some bk) < slack c' (Some bk') → work c' < work c.
Proof. intros _ _ E E'. rewrite (work_app c _ _ E), (work_app c' _ _ E'). lia. Qed.

(** The last stage: either it is empty afterwards, an entry that was there
    having been answered, or [update_impl] returns with the miss one step on,
    unless an eviction still occupies the write channel. *)
Lemma serve_back_wp c p (Q : bool → PipeCache * Port → Prop) : inv c p → r_waiting_ c = false →
  (∀ c' p' fr, inv c' p' → p_tick p' = p_tick p → pipe_ c' = fr ++ [None] →
     zlen (pipe_ c') = zlen (pipe_ c) → work c' < work c ∨ c' = c ∧ p' = p → Q false (c', p')) →
  (∀ c' p', served c p c' p' → (w_waiting_ c = false → work c' < work c) → Q true (c', p')) →
  wp serve_back Q (c, p).
Proof.
  intros Hi Hrw HQ1 HQ2. pose proof Hi as [Hb Hcfg Hsch Htk Hbl (fr & ob & Hp & Hnew & Hbk) Hsh Hwr Hcpu Hcl].
  unfold serve_back. wp_step. cbn [fst snd curr_tick port_env].
  exists ob. split; [by apply (back_app c fr)|].
  assert (∀ l1 l2 : list (option CachePipeEntry), ∀ x y, l1 = fr ++ [x] → l2 = fr ++ [y] → zlen l1 = zlen l2) as Hzlen
    by (intros ? ? ? ? -> ->; unfold zlen; by rewrite !length_app).
  destruct ob as [bk|]; [|wp_step; by apply (HQ1 c p fr); try right].
  destruct (line bk) as [e|] eqn:Hline.
  - wp_step. cbn [fst snd].
    assert (filled (base c) bk ∧ hit_ready c p fr bk ∨ missing (base c) bk ∧ pending_fill_req_ c = true ∧ miss_ready c p fr bk) as Hcase.
    { inversion Hbk as [|bk1 Hn|bk1 Hm|bk1 req Hm|bk1 Hf]; subst bk1; [congruence | right | congruence | left].
      - split; [done|]. split; [done|]. by constructor.
      - split; [done|]. by apply hit_of_filled. }
    destruct Hcase as [[Hf Hh] | (Hm & Hpf & Hmr)].
    + destruct (hit_of_filled c p fr bk Hi Hp Hf) as [_ Hre]. pose proof Hf as (l & Hpt & Hv).
      destruct (points_line c bk l Hb Hpt) as [Hl _]. exists l. split; [done|]. wp_step. cbn [fst snd]. rewrite Hv, Hre.
      split; [done|]. wp_step. cbn [fst snd]. rewrite <- !wp_bind. apply (serve_hit_wp c p fr); [done|].
      intros c' p' Hi' Ht Hp'. apply (HQ1 c' p' fr); [done | done | done | by eapply Hzlen |].
      left. by apply (work_served c c' fr bk).
    + pose proof Hm as (l & Hpt & Hv & _). destruct (points_line c bk l Hb Hpt) as [Hl _]. exists l.
      split; [done|]. wp_step. cbn [fst snd]. rewrite Hv, (m_replay _ _ _ _ Hmr). split; [done|]. wp_step. cbn [fst snd].
      set (c0 := c <| is_replay_ := false |>).
      assert (miss_ready c0 p fr bk) as Hmr0 by (apply (miss_ready_ext c); try done; exact (eq_sym (m_replay _ _ _ _ Hmr))).
      apply (serve_miss_wp c0 p fr bk); [done|]. change (pending_fill_req_ c0) with (pending_fill_req_ c).
      rewrite Hpf. intros c' p' Hi' Ht Hp' [Hs1 Hs2]. change (missed_slack c0) with (missed_slack c) in *.
      rewrite <- (slack_missed c bk Hm Hpf) in *.
      assert (pipe_ c' = fr ++ [Some bk]) as Hp2 by (by rewrite Hp').
      apply HQ2; [split; [done|]; split; [done|]; split; [by eapply Hzlen|]|];
        rewrite (work_app c _ _ Hp), (work_app c' _ _ Hp2); [lia|]. intros Hw. specialize (Hs2 Hw). lia.
  - wp_step. cbn [fst snd].
    destruct (lookup_new c p fr bk (p_tick p) Hi Hp Hline)
      as (bk' & c1 & Hlk & Ha & Hmop & Hp1 & Hb1 & Hk & Hin & Hr & Hre & Hpf & H1 & H2 & Hcase).
    exists bk', c1. split; [done|]. wp_step. cbn [fst snd].
    unfold ctl in Hk. injection Hk as K1 K2 K3 K4 K5 K6 K7 K8 K9 K10 K11.
    destruct Hcase as [[Hh _] | [Hmr _]].
    + pose proof (h_fill _ _ _ _ Hh) as (l & Hpt & Hv). destruct (points_line c1 bk' l Hb1 Hpt) as [Hl _].
      exists l. split; [done|]. wp_step. cbn [fst snd]. rewrite Hv, K6, Hre. split; [done|]. wp_step. cbn [fst snd].
      rewrite <- !wp_bind. apply (serve_hit_wp c1 p fr); [done|].
      intros c' p' Hi' Ht Hp'. apply (HQ1 c' p' fr); [done | done | done | by eapply Hzlen |].
      left. by apply (work_served c c' fr bk).
    + pose proof (m_miss _ _ _ _ Hmr) as Hm. pose proof Hm as (l & Hpt & Hv & _).
      destruct (points_line c1 bk' l Hb1 Hpt) as [Hl _]. exists l. split; [done|].
      wp_step. cbn [fst snd]. rewrite Hv, K6, Hre. split; [done|]. wp_step. cbn [fst snd].
      set (c0 := c1 <| is_replay_ := false |>).
      assert (miss_ready c0 p fr bk') as Hmr0 by (apply (miss_ready_ext c1); try done; [exact (eq_sym (m_replay _ _ _ _ Hmr)) | apply (m_blocked _ _ _ _ Hmr)]).
      apply (serve_miss_wp c0 p fr bk'); [done|]. change (pending_fill_req_ c0) with (pending_fill_req_ c1).
      rewrite K8, Hpf. intros c' p' Hi' Ht Hp' Hs.
      assert (pipe_ c' = fr ++ [Some bk']) as Hp2 by (by rewrite Hp').
      assert (w_waiting_ c1 = false) as Hww by (rewrite K4; unfold wr_state in Hwr; by rewrite H2 in Hwr).
      assert (slack c (Some bk) < slack c' (Some bk')) as Hlt.
      { rewrite Hs. unfold missed_slack. change (w_waiting_ c0) with (w_waiting_ c1). rewrite Hww.
        destruct bk as [? ln ? ? ?]; simpl in Hline; subst ln. simpl. destruct (pending_evict_ c1); simpl; lia. }
      pose proof (work_missed c c' p p' fr bk bk' Hi Hi' Hp Hp2 Hlt).
      apply HQ2; [split; [done|]; split; [done|]; split; [by eapply Hzlen | lia] | done].
Qed.

(** *** Flush, shift and probe *)

Lemma empty_pipe c p fr : inv c p → pipe_ c = fr ++ [None] →
  r_waiting_ c = false ∧ is_replay_ c = false ∧ pending_fill_req_ c = false ∧ p_rd p = None ∧
  p_wr p = None ∧ Forall new_entry fr.
Proof.
  intros [_ _ _ _ _ (fr' & ob' & Hp & Hnew & Hbk) _ _ _ _] E.
  rewrite E in Hp. apply app_inj_tail in Hp as [<- <-]. by inversion Hbk.
Qed.

Lemma countb_none (l : list (option CachePipeEntry)) : countb occupied (map (λ _, None) l) = 0.
Proof. by induction l. Qed.

Lemma weight_none (l : list (option CachePipeEntry)) : weight (map (λ _, None) l) = 0.
Proof. by induction l. Qed.

Lemma work_nonneg c p : inv c p → 0 <= work c.
Proof.
  intros [_ _ _ _ _ (fr & ob & Hp & _) _ _ _ _]. rewrite (work_app c fr ob Hp).
  pose proof (weight_nonneg fr). pose proof (countb_nonneg occupied fr).
  destruct (slack_range c ob) as [? Hs]. destruct ob; [lia|]. rewrite Hs by done. lia.
Qed.

Lemma handle_flush_wp c p fr (Q : unit → PipeCache * Port → Prop) : inv c p → pipe_ c = fr ++ [None] →
  forallb (λ p, match p with None => true | Some _ => false end) (pipe_ c) = true →
  (∀ c', served c p c' p → in_pipe c = 0 → Q tt (c', p)) →
  wp handle_flush Q (c, p).
Proof.
  intros Hi E Hall HQ. destruct (empty_pipe c p fr Hi E) as (Hr & Hre & Hpf & H1 & H2 & Hnew).
  pose proof Hi as [[Hw Ho Hc] Hcfg Hsch Htk Hbl _ Hsh Hwr Hcpu Hcl].
  destruct (CB.invalidate_all_Ok s o a (base c) Hw) as (Hw' & Hc' & _).
  assert (pipe_ c = map (λ _, None) (pipe_ c)) as Hmap.
  { clear -Hall. revert Hall. generalize (pipe_ c). intros l.
    induction l as [|[x|] l IH]; simpl; [done | done |]. intros Hall. f_equal. by apply IH. }
  assert (in_pipe c = 0) as Hin by (unfold in_pipe; rewrite Hmap; apply countb_none).
  unfold handle_flush. wp_step. cbn [fst snd curr_tick port_env].
  match goal with |- Q tt (?c2, p) => set (c1 := c2) end.
  assert (pipe_ c1 = fr ++ [None]) as E1 by (change (map (λ _, None) (pipe_ c) = fr ++ [None]); by rewrite <- Hmap).
  apply (HQ c1); [|done].
  assert (inv c1 p) as Hi1.
  { constructor; try done.
    - apply (u64_soon (p_tick p) 1); lia.
    - exists fr, None. split; [done|]. split; [done|]. by constructor.
    - intros _. rewrite E1. rewrite E in Hmap. rewrite Hmap. by destruct fr.
    - unfold wr_state. by rewrite H2.
    - rewrite Hcpu, Hin. symmetry. change (countb occupied (map (λ _, None) (pipe_ c)) = 0). apply countb_none.
    - apply (calls_ext c c1 p p); [done | done | | done | done].
      change (Forall fits (map (λ _, None) (pipe_ c))). rewrite <- Hmap. apply Hcl. }
  split; [done|]. split; [done|]. split; [by rewrite E1, E|]. pose proof (work_nonneg c p Hi).
  pose proof (work_app c1 fr None E1) as W1. pose proof (work_app c fr None E) as W.
  unfold slack in *. lia.
Qed.

Lemma fits_shift fr ob : Forall fits (fr ++ [ob]) → Forall fits (shift (fr ++ [ob])).
Proof. intros H. rewrite shift_app. destruct fr; [done|]. apply Forall_app in H as [H _]. by apply Forall_cons_iff. Qed.

Lemma inv_shift c p fr : inv c p → pipe_ c = fr ++ [None] →
  inv (c <| pipe_ ::= shift |>) p ∧ zlen (shift (pipe_ c)) = zlen (pipe_ c) ∧
  shift (pipe_ c) !! 0%nat = Some None ∧ work (c <| pipe_ ::= shift |>) = work c - 8 * in_pipe c ∧
  ∃ fr' ob, shift (pipe_ c) = fr' ++ [ob] ∧ new_entry ob.
Proof.
  intros Hi E. destruct (empty_pipe c p fr Hi E) as (Hr & Hre & Hpf & H1 & H2 & Hnew).
  pose proof Hi as [Hb Hcfg Hsch Htk Hbl _ Hsh Hwr Hcpu Hcl].
  set (c1 := c <| pipe_ ::= shift |>).
  assert (∃ fr' ob, shift (pipe_ c) = fr' ++ [ob] ∧ Forall new_entry fr' ∧ new_entry ob ∧
    zlen (shift (pipe_ c)) = zlen (pipe_ c) ∧ shift (pipe_ c) !! 0%nat = Some None ∧
    countb occupied fr' + b2z (occupied ob) = countb occupied fr ∧
    weight (shift (pipe_ c)) = weight fr)
    as (fr' & ob & Hp' & Hnew' & Hob & Hlen & H0 & Hcnt & Hwt).
  { rewrite E, shift_app. destruct fr as [|x fr]; [by exists [], None|].
    destruct (exists_last (l:=x :: fr)) as (fr0 & ob & E2); [done|]. rewrite E2 in *.
    exists (None :: fr0), ob. apply Forall_app in Hnew as [? Hl]. splits; try done.
    - by constructor.
    - by inversion Hl.
    - unfold zlen. simpl. rewrite !length_app. simpl. lia.
    - rewrite countb_app. simpl. lia. }
  assert (in_pipe c1 = in_pipe c) as Hin.
  { rewrite (in_pipe_app c fr None E). rewrite (in_pipe_app c1 fr' ob Hp'). simpl. lia. }
  splits; try done.
  - constructor; try done.
    + by apply (base_ok_ext c).
    + exists fr', ob. split; [done|]. split; [done|]. destruct ob; [by apply BNew | by apply BEmpty].
    + by rewrite Hin.
    + apply (calls_ext c c1 p p); [done | done | | done | done].
      change (Forall fits (shift (pipe_ c))). rewrite E. apply fits_shift. rewrite <- E. apply Hcl.
  - unfold work at 1. change (pipe_ c1) with (shift (pipe_ c)). rewrite Hwt.
    rewrite Hp' at 1. rewrite list.last_snoc. change (default None (Some ob)) with ob.
    rewrite (work_app c fr None E), (in_pipe_app c fr None E).
    assert (slack c1 ob = 0) as -> by (destruct ob as [[? ln ? ? ?]|]; [simpl in Hob; by subst|done]).
    simpl. lia.
  - by exists fr', ob.
Qed.

(** The probe of a new last entry: an absent block is looked up at once. *)
Lemma probe_back_wp c p fr ob (Q : bool → PipeCache * Port → Prop) : inv c p →
  pipe_ c = fr ++ [ob] → new_entry ob →
  Q false (c, p) →
  (∀ c', served c p c' p → Q true (c', p)) →
  wp probe_back Q (c, p).
Proof.
  intros Hi E Hnew HQ1 HQ2. pose proof Hi as [Hb Hcfg Hsch Htk Hbl _ Hsh Hwr Hcpu Hcl].
  unfold probe_back, block. wp_step. cbn [fst snd curr_tick port_env].
  exists ob. split; [by apply (back_app c fr)|]. destruct ob as [bk|]; [|by wp_step].
  simpl in Hnew. rewrite Hnew. wp_step. cbn [fst snd].
  destruct (CB.probe_spec s o a (base c) (addr bk)) as (r & Hr & Hres); [apply Hb|].
  exists r. split; [done|]. destruct r; cbn [negb]; [by wp_step|]. wp_step. cbn [fst snd].
  destruct (lookup_new c p fr bk (p_tick p) Hi E Hnew)
    as (bk' & c1 & Hlk & Ha & Hmop & Hp1 & Hb1 & Hk & Hin & Hr1 & Hre & Hpf & H1 & H2 & Hcase).
  destruct Hcase as [[_ Hyes] | [Hmr _]]; [by apply Hres in Hyes|].
  exists bk', c1. split; [done|]. wp_step. cbn [fst snd curr_tick port_env].
  set (c2 := c1 <| pending_fill_req_ := true |> <| blocked_until_ := _ |>).
  pose proof (u64_soon (p_tick p) 1 ltac:(lia) ltac:(lia)).
  assert (miss_ready c2 p fr bk') as Hm2 by (by apply (miss_ready_ext c1)).
  apply HQ2. split; [by apply (inv_missed c2 p fr bk')|]. split; [done|].
  split; [change (pipe_ c2) with (pipe_ c1); rewrite Hp1, E; unfold zlen; by rewrite !length_app|].
  rewrite (work_app c _ _ E), (work_app c2 fr _ Hp1).
  pose proof (slack_range c2 (Some bk')). assert (slack c (Some bk) = 0) as ->; [|lia].
  destruct bk as [? ln ? ? ?]. simpl in Hnew. by subst ln.
Qed.

Lemma back_state_ext c c' p p' ob : back_state c p ob → base c' = base c →
  (r_waiting_ c', is_replay_ c', pending_fill_req_ c', pending_evict_ c', write_back_ c') =
  (r_waiting_ c, is_replay_ c, pending_fill_req_ c, pending_evict_ c, write_back_ c) →
  p_rd p' = p_rd p → p_wr p' = p_wr p → back_state c' p' ob.
Proof.
  intros Hbk Eb [= E1 E2 E3 E4 E5] F1 F2.
  inversion Hbk; subst; [by apply BEmpty; congruence | apply BNew | apply BMiss | eapply BWait | apply BFilled];
    rewrite ?Eb, ?E1, ?E2, ?E3, ?E4, ?E5, ?F1, ?F2; done.
Qed.

(** *** The operations *)

Lemma update_impl_wp c p : inv c p → r_waiting_ c = false →
  wp update_impl (λ _ s', served c p s'.1 s'.2 ∧
    (w_waiting_ c = false → 0 < in_pipe c → work s'.1 < work c)) (c, p).
Proof.
  intros Hi Hr. pose proof (i_sched _ _ Hi) as Hsch. pose proof (i_tick _ _ Hi) as Htk.
  unfold update_impl. wp_step. cbn [fst snd curr_tick port_env].
  rewrite Hsch, (proj2 (Z.leb_gt InfTime (p_tick p))) by lia. wp_step. cbn [fst snd].
  apply serve_back_wp; [done | done | |]; [|intros c' p' ? Hlt; wp_step; split; [done | intros; by apply Hlt]].
  intros c1 p1 fr Hi1 Ht1 E1 Hlen1 Hw1. wp_step. cbn [fst snd].
  assert (0 <= in_pipe c1) as Hnn by apply countb_nonneg.
  assert (work c1 <= work c ∧ (0 < in_pipe c → work c1 - 8 * in_pipe c1 < work c)) as [Hle Hlt]
    by (destruct Hw1 as [? | [-> ->]]; split; lia).
  assert (∀ c' p', served c1 p1 c' p' → work c' <= work c1 - 8 * in_pipe c1 →
    served c p c' p' ∧ (w_waiting_ c = false → 0 < in_pipe c → work c' < work c)) as Hdone.
  { intros c' p' (H1 & H2 & H3 & H4) H5. split; [|lia].
    split; [done|]. split; [congruence|]. split; [congruence | lia]. }
  destruct (pending_flush_ c1 && forallb _ (pipe_ c1)) eqn:Hfl.
  - apply andb_true_iff in Hfl as [_ Hall]. apply (handle_flush_wp c1 p1 fr); [done..|].
    intros c' Hs Hz. apply (Hdone c' p1); [done|]. destruct Hs as (_ & _ & _ & ?). lia.
  - wp_step. cbn [fst snd].
    destruct (inv_shift c1 p1 fr Hi1 E1) as (Hi2 & Hlen2 & H0 & Hwk & fr' & ob & E2 & Hob).
    set (c2 := c1 <| pipe_ ::= shift |>) in *.
    apply (probe_back_wp c2 p1 fr' ob); [done..| |].
    + wp_step. cbn [fst snd]. set (c3 := c2 <| is_shifted_ := true |>). assert (work c3 = work c2) as Hw3 by done.
      assert (cache_id c3 = p_id p1) as Hid by apply (k_id _ _ (i_calls _ _ Hi2)).
      apply port_ack_wp; [done|]. wp_step. apply port_ack_wp; [done|]. cbn [fst snd].
      apply (Hdone c3 p1); [|lia].
      split; [|split; [done|]; split; [done|lia]]. destruct Hi2 as [? ? ? ? ? (fr2 & ob2 & ? & ? & ?) ? ? ? Hcl2].
      constructor; try done; [by apply (base_ok_ext c2)| |by apply (calls_same c2 c3 p1 p1)].
      exists fr2, ob2. split; [done|]. split; [done|]. by apply (back_state_ext c2 c3 p1 p1).
    + intros c' Hs. wp_step. apply (Hdone c' p1); destruct Hs as (? & ? & Hl & ?); [|lia].
      split; [done|]. split; [done|]. split; [by rewrite Hl|lia].
Qed.

(** A request that finds its channel ready, in any environment: it calls nobody. *)
Lemma enqueue_wp {E} `{CacheEnv E} c p (x : E) e : inv c p → is_shifted_ c = true → line e = None →
  fits (Some e) → curr_tick x = p_tick p →
  wp (enqueue e) (λ _ s', s'.2 = x ∧ inv s'.1 (p <| p_cpu ::= Z.succ |>) ∧ zlen (pipe_ s'.1) = zlen (pipe_ c)) (c, x).
Proof.
  intros Hi Hs He Hfe Hx. pose proof Hi as [Hb Hcfg Hsch Htk Hbl (fr & ob & Hp & Hnew & Hbk) Hsh Hwr Hcpu Hcl].
  specialize (Hsh Hs). unfold enqueue. wp_step. cbn [fst snd]. rewrite Hx. split; [done|].
  wp_step. cbn [fst snd]. exists None. split; [by apply vec_at_Ok|]. wp_step. split; [done|]. wp_step. cbn [fst snd].
  assert (vec_set (pipe_ c) 0 (Some e) = Ok (<[0%nat:=Some e]> (pipe_ c))) as Hset.
  { apply vec_set_lt. apply lookup_lt_Some in Hsh. unfold zlen. lia. }
  unfold set_front. rewrite Hset. cbn [mbind res_bind]. eexists tt, _. split; [done|]. wp_step. cbn [fst snd].
  split; [done|]. split; [|apply zlen_insert]. rewrite Hp in *.
  assert (in_pipe c + 1 = countb occupied (<[0%nat:=Some e]> (fr ++ [ob]))) as Hcnt.
  { rewrite (in_pipe_app c fr ob Hp). destruct fr as [|y fr]; simpl in Hsh; injection Hsh as ->; simpl; [lia|].
    rewrite countb_app. simpl. lia. }
  pose proof (u64_soon (p_tick p) 1 ltac:(lia) ltac:(lia)).
  constructor; try done; [by apply (base_ok_ext c) | | change (Z.succ (p_cpu p) = countb occupied (<[0%nat:=Some e]> (fr ++ [ob]))); lia |].
  2:{ apply (calls_ext c _ p); [done | done | | done | done]. apply Forall_insert; [rewrite <- Hp; apply Hcl | done]. }
  destruct fr as [|y fr]; simpl in Hsh; injection Hsh as ->.
  - exists [], (Some e). split; [done|]. split; [done|]. inversion Hbk. by apply BNew.
  - exists (Some e :: fr), ob. split; [done|]. inversion Hnew as [|? ? ? Hnew1]; subst. split; [by constructor|].
    by apply (back_state_ext c _ p _).
Qed.

Lemma mem_read_wp c p req : inv c p → p_rd p = Some req →
  wp (recv_mem_resp (req <| mt_dir := Resp |>)) (λ _ s', served c p s'.1 s'.2 ∧ work s'.1 < work c ∧
    p_rd s'.2 = None ∧ p_wr s'.2 = p_wr p) (c, p <| p_rd := None |>).
Proof.
  intros Hi Hrd. pose proof Hi as [[Hw Ho Hc] Hcfg Hsch Htk Hbl (fr & ob & E & Hnew & Hbk) Hsh Hwr Hcpu Hcl].
  inversion Hbk as [|? ? ? ? ? ? Hrd' |? ? ? ? ? Hrd' |bk req' Hm Hr Hre Hpf Hrd' H2 Hmop Ha|? ? ? ? ? Hrd'];
    subst; try congruence.
  rewrite Hrd in Hrd'. injection Hrd' as <-. clear Hbk.
  destruct Hm as (l & (way & Hline & Hway & Hl) & Hv & Hnr).
  destruct (CB.fill_Ok s o a (base c) (p_tick p) way (addr bk) (mt_data req) Hw Hway)
    as (b' & l0 & l' & Hfill & Hw' & _ & _ & Hfr & _ & Hl' & Hmt & _).
  assert (CB.coherent b') as Hc' by (eapply (CB.fill_coherent s o a (base c) (addr bk) way); try done; lia).
  pose proof Hfr as [Hg _]. destruct (CB.geom_index (base c) b' Hg) as (Ei & _ & _).
  unfold recv_mem_resp. wp_step. cbn [fst snd curr_tick port_env].
  change (mt_mop (req <| mt_dir := Resp |>)) with (mt_mop req).
  change (mt_addr (req <| mt_dir := Resp |>)) with (mt_addr req).
  change (mt_data (req <| mt_dir := Resp |>)) with (mt_data req).
  change (p_tick (p <| p_rd := None |>)) with (p_tick p).
  rewrite Hmop, Ha. wp_step. split; [done|]. wp_step. cbn [fst snd].
  set (c1 := c <| r_waiting_ := false |>).
  rewrite (back_app c1 fr (Some bk) E). cbn [mbind res_bind]. destruct bk as [ba bl bm bs bd]. simpl in Hline, Hl.
  subst bl. change (base c1) with (base c). cbn [addr] in *. rewrite Hfill. cbn [mbind res_bind].
  eexists tt, _. split; [done|]. wp_step. cbn [fst snd].
  match goal with |- served _ _ ?c2' ?p2' ∧ _ => set (c2 := c2'); set (p2 := p2') end.
  set (bk := MkEntry ba _ bm bs bd) in *.
  assert (pipe_ c2 = fr ++ [Some bk]) as E2 by done.
  assert (0 <= u64 (p_tick p + (if cwf_ c then 1 else if write_back_ c then 2 else 1)) <= p_tick p + 2)
    by (apply u64_soon; [lia | destruct (cwf_ c), (write_back_ c); lia]).
  assert (inv c2 p2) as Hi2.
  { constructor; try done; [|by apply (calls_ext c c2 p p2); [|apply geom_id|apply Hcl|by split|]].
    exists fr, (Some bk). split; [done|]. split; [done|]. apply BFilled; try done.
    exists l'. split; [|by apply CB.matches_true in Hmt as [? _]]. exists way. split; [|split; [done|]].
    - simpl. by rewrite Ei.
    - change (CB.line_of b' (CB.setIndexOf b' ba) way = Some l'). by rewrite Ei. }
  assert (work c2 < work c) as Hlt.
  { rewrite (work_app c2 _ _ E2), (work_app c _ _ E). unfold slack, bk.
    change (pending_fill_req_ c2) with (pending_fill_req_ c). rewrite Hpf, Hr.
    assert (r_waiting_ c2 = false) as -> by done. lia. }
  split; [split; [done|]; split; [done|]; split; [done|lia]|]. done.
Qed.

Lemma mem_write_wp c p req : inv c p → p_wr p = Some req →
  wp (recv_mem_resp (req <| mt_dir := Resp |>)) (λ _ s', served c p s'.1 s'.2 ∧ work s'.1 < work c ∧
    p_rd s'.2 = p_rd p ∧ p_wr s'.2 = None) (c, p <| p_wr := None |>).
Proof.
  intros Hi Hw2. pose proof Hi as [Hb Hcfg Hsch Htk Hbl (fr & ob & E & Hnew & Hbk) Hsh Hwr Hcpu Hcl].
  unfold wr_state in Hwr. rewrite Hw2 in Hwr. destruct Hwr as (Hww & Hwb & Hmop).
  inversion Hbk as [|? ? ? ? ? ? ?|bk Hm Hr Hre Hpf Hrd Hev| |]; subst; try congruence.
  unfold recv_mem_resp. wp_step. cbn [fst snd].
  change (mt_mop (req <| mt_dir := Resp |>)) with (mt_mop req). rewrite Hmop.
  wp_step. split; [done|]. wp_step. cbn [fst snd]. change (write_back_ (c <| w_waiting_ := false |>)) with (write_back_ c).
  rewrite Hwb. cbn [negb]. wp_step. cbn [fst snd].
  match goal with |- served _ _ ?c2' ?p2' ∧ _ => set (c2 := c2'); set (p2 := p2') end.
  assert (inv c2 p2) as Hi2.
  { constructor; try done; [by apply (base_ok_ext c)| |by apply (calls_same c c2 p p2)].
    exists fr, (Some bk). split; [done|]. split; [done|]. by apply BMiss. }
  assert (work c2 < work c) as Hlt.
  { rewrite (work_app c2 fr _ E), (work_app c _ _ E), (slack_missed c) by done.
    rewrite (slack_missed c2) by done. unfold missed_slack. rewrite Hww.
    assert (w_waiting_ c2 = false) as -> by done. assert (pending_evict_ c2 = pending_evict_ c) as -> by done.
    simpl. lia. }
  split; [split; [done|]; split; [done|]; split; [done|lia]|]. done.
Qed.

(** Stores reach a cache only when it writes back. *)
Definition op_ok (x : op) : Prop := match x with OWrite _ _ _ => wb = true | _ => True end.

Lemma r_waiting_iff c p : inv c p → (r_waiting_ c = true ↔ p_rd p ≠ None).
Proof.
  intros [_ _ _ _ _ (fr & ob & _ & _ & Hbk) _ _ _ _].
  inversion Hbk; split; congruence.
Qed.

Lemma w_waiting_iff c p : inv c p → (w_waiting_ c = true ↔ p_wr p ≠ None).
Proof. intros [_ _ _ _ _ _ _ Hwr _ _]. unfold wr_state in Hwr. destruct (p_wr p); [destruct Hwr as [-> _] | rewrite Hwr]; by split. Qed.

Lemma in_pipe_work c p : inv c p → in_pipe c <= work c ∧ (in_pipe c = 0 → work c = 0).
Proof.
  intros [_ _ _ _ _ (fr & ob & E & _) _ _ _ _]. rewrite (in_pipe_app c _ _ E), (work_app c _ _ E).
  pose proof (countb_nonneg occupied fr). pose proof (weight_nonneg fr).
  destruct (slack_range c ob) as [? Hs].
  assert (countb occupied fr = 0 → weight fr = 0) as Hz.
  { clear. induction fr as [|[x|] fr IH]; simpl; [done | |done]. pose proof (countb_nonneg occupied fr). lia. }
  destruct ob as [bk|]; cbn [occupied b2z]; [lia|]. rewrite Hs by done. lia.
Qed.

Lemma tick_inv c p : inv c p → p_tick p + 1 < InfTime → inv c (p <| p_tick ::= Z.succ |>).
Proof.
  intros [Hb Hcfg Hsch Htk Hbl (fr & ob & E & Hnew & Hbk) Hsh Hwr Hcpu Hcl] Ht.
  constructor; try done.
  - change (0 <= Z.succ (p_tick p) < InfTime). lia.
  - change (0 <= blocked_until_ c <= Z.succ (p_tick p) + 2). lia.
  - exists fr, ob. split; [done|]. split; [done|]. by apply (back_state_ext c c p).
  - by apply (calls_same c c p).
Qed.

Lemma do_update_wp c p : inv c p → wp do_update (λ _ s', served c p s'.1 s'.2 ∧
  (r_waiting_ c = false → w_waiting_ c = false → 0 < in_pipe c →
     work s'.1 < work c ∨ s' = (c, p) ∧ p_tick p < blocked_until_ c)) (c, p).
Proof.
  intros Hi. unfold do_update. wp_step. cbn [fst snd curr_tick port_env]. unfold next_update.
  pose proof (i_tick _ _ Hi). rewrite (i_sched _ _ Hi).
  assert (served c p c p) as Hs by (split; [done|]; split; [done|]; split; [done | lia]).
  destruct (r_waiting_ c) eqn:Hr.
  - assert (pending_fill_req_ c = false) as ->.
    { destruct Hi as [_ _ _ _ _ (fr & ob & _ & _ & Hbk) _ _ _ _]. inversion Hbk; congruence. }
    cbn [negb andb]. rewrite (proj2 (Z.leb_gt InfTime (p_tick p))) by lia. by wp_step.
  - cbn [andb]. destruct (Z.leb_spec (Z.min (blocked_until_ c) InfTime) (p_tick p)).
    + eapply wp_mono; [by apply update_impl_wp|]. intros _ s' [Hs' Hlt]. split; [done|]. intros. left. by apply Hlt.
    + wp_step. split; [done|]. intros. right. split; [done | lia].
Qed.

Lemma step_wp c p x : inv c p → p_tick p + 1 < InfTime → op_ok x →
  wp (step x) (λ _ s', inv s'.1 s'.2 ∧ p_tick s'.2 <= p_tick p + 1 ∧
    zlen (pipe_ s'.1) = zlen (pipe_ c)) (c, p).
Proof.
  intros Hi Ht Hx. assert (∀ c' p', served c p c' p' →
    inv c' p' ∧ p_tick p' <= p_tick p + 1 ∧ zlen (pipe_ c') = zlen (pipe_ c)) as Hserved
    by (intros ? ? (? & ? & ? & _); split; [done | lia]).
  destruct x as [| |x|x d m| | |]; unfold step.
  - split; [by apply tick_inv|]. split; [|done]. change (Z.succ (p_tick p) <= p_tick p + 1). lia.
  - eapply wp_mono; [by apply do_update_wp|]. intros _ [c' p'] [Hs _]. by apply Hserved.
  - unfold wp. destruct ((is_ready c).1) eqn:Hrd; [|split; [done | split; [simpl; lia | done]]].
    assert (is_shifted_ c = true) as Hs.
    { unfold is_ready in Hrd. simpl in Hrd. by destruct (is_shifted_ c), (pending_flush_ c), (write_back_ c). }
    pose proof (enqueue_wp c p (p <| p_cpu ::= Z.succ |>) (MkEntry x None Read 0 0) Hi Hs eq_refl ltac:(done) eq_refl) as Hw.
    unfold wp in Hw. unfold read_req. destruct (enqueue _ _) as [[? [c' p']]|]; [|done].
    destruct Hw as (Ep & ? & ?). cbn [snd] in Ep. subst p'. split; [done | split; [simpl; lia | done]].
  - unfold wp. destruct ((is_ready c).2) eqn:Hrd; [|split; [done | split; [simpl; lia | done]]].
    pose proof (i_cfg _ _ Hi) as [Hwb _]. simpl in Hx. rewrite Hx in Hwb.
    assert (is_shifted_ c = true) as Hs.
    { unfold is_ready in Hrd. simpl in Hrd. rewrite Hwb in Hrd. by destruct (is_shifted_ c), (pending_flush_ c). }
    pose proof (enqueue_wp c p (p <| p_cpu ::= Z.succ |>) (MkEntry x None Write m d) Hi Hs eq_refl ltac:(unfold fits; by rewrite Hx) eq_refl) as Hw.
    unfold wp in Hw. unfold write_req, mbind, ST_bind, self, gets. cbn [fst]. rewrite Hwb.
    destruct (enqueue _ _) as [[? [c' p']]|]; [|done].
    destruct Hw as (Ep & ? & ?). cbn [snd] in Ep. subst p'. split; [done | split; [simpl; lia | done]].
  - unfold wp. destruct (p_rd p) as [req|] eqn:Hrd; [|split; [done | split; [simpl; lia | done]]].
    pose proof (mem_read_wp c p req Hi Hrd) as Hw. unfold wp in Hw.
    destruct (recv_mem_resp _ _) as [[? [c' p']]|]; [|done]. destruct Hw as [Hs _]. by apply Hserved.
  - unfold wp. destruct (p_wr p) as [req|] eqn:Hwr; [|split; [done | split; [simpl; lia | done]]].
    pose proof (mem_write_wp c p req Hi Hwr) as Hw. unfold wp in Hw.
    destruct (recv_mem_resp _ _) as [[? [c' p']]|]; [|done]. destruct Hw as [Hs _]. by apply Hserved.
  - change (inv (c <| pending_flush_ := true |>) p ∧ p_tick p <= p_tick p + 1 ∧ zlen (pipe_ c) = zlen (pipe_ c)).
    split; [|split; [lia | done]].
    destruct Hi as [Hb Hcfg Hsch Htk Hbl (fr & ob & E & Hnew & Hbk) Hsh Hwr Hcpu Hcl].
    constructor; try done; [by apply (base_ok_ext c)| |by apply (calls_same c _ p p)].
    exists fr, ob. split; [done|]. split; [done|]. by apply (back_state_ext c _ p).
Qed.

Lemma run_wp c p ops : inv c p → p_tick p + zlen ops < InfTime → Forall op_ok ops →
  wp (run ops) (λ _ s', inv s'.1 s'.2 ∧ p_tick s'.2 <= p_tick p + zlen ops ∧
    zlen (pipe_ s'.1) = zlen (pipe_ c)) (c, p).
Proof.
  revert c p. induction ops as [|x ops IH]; intros c p Hi Ht Hok; cbn [run].
  { wp_step. cbn [fst snd]. split; [done|]. split; [unfold zlen; simpl; lia | done]. }
  assert (zlen (x :: ops) = zlen ops + 1) as El by (unfold zlen; simpl; lia).
  inversion Hok; subst. wp_step. pose proof (zlen_nonneg ops).
  eapply wp_mono; [apply step_wp; [done | lia | done]|].
  intros _ [c1 p1] (Hi1 & Ht1 & Hl1). simpl in *. eapply wp_mono; [apply IH; [done | lia | done]|].
  intros _ [c2 p2] (Hi2 & Ht2 & Hl2). simpl in *. split; [done | lia].
Qed.

(** *** Progress *)

(** The units left plus the time the cache is still blocked. *)
Definition debt (c : PipeCache) (p : Port) : Z := 3 * work c + Z.max 0 (blocked_until_ c - p_tick p).

Definition round : list op := [OTick; OMemRead; OMemWrite; OUpdate].

(** One of the two memory responses, if outstanding. *)
Lemma mem_step_wp c p x : inv c p → x = OMemRead ∨ x = OMemWrite →
  wp (step x) (λ _ s', served c p s'.1 s'.2 ∧ (work s'.1 < work c ∨ s' = (c, p)) ∧
    (x = OMemRead → p_rd s'.2 = None) ∧ (p_rd p = None → p_rd s'.2 = None) ∧
    (x = OMemWrite → p_wr s'.2 = None)) (c, p).
Proof.
  intros Hi Hx. unfold step, wp.
  assert (served c p c p) as Hs by (split; [done|]; split; [done|]; split; [done|lia]).
  destruct Hx as [-> | ->].
  - destruct (p_rd p) as [req|] eqn:Hrd; [|by split; [|split; [right|]]].
    pose proof (mem_read_wp c p req Hi Hrd) as Hw. unfold wp in Hw.
    destruct (recv_mem_resp _ _) as [[? [c' p']]|]; [|done]. destruct Hw as (? & ? & ? & ?).
    split; [done|]. split; [by left | done].
  - destruct (p_wr p) as [req|] eqn:Hwr; [|by split; [|split; [right|]]].
    pose proof (mem_write_wp c p req Hi Hwr) as Hw. unfold wp in Hw.
    destruct (recv_mem_resp _ _) as [[? [c' p']]|]; [|done]. destruct Hw as (? & ? & Hrd' & ?).
    split; [done|]. split; [by left|]. split; [done|]. split; [congruence | done].
Qed.

Lemma round_wp c p : inv c p → p_tick p + 1 < InfTime →
  wp (run round) (λ _ s', inv s'.1 s'.2 ∧ p_tick s'.2 = p_tick p + 1 ∧ work s'.1 <= work c ∧
    (0 < in_pipe c → in_pipe s'.1 = 0 ∨ debt s'.1 s'.2 < debt c p)) (c, p).
Proof.
  intros Hi Ht. unfold round. cbn [run]. rewrite wp_bind. unfold step at 1. unfold wp at 1.
  pose proof (tick_inv c p Hi Ht) as Hi1. set (p1 := p <| p_tick ::= Z.succ |>) in *.
  assert (p_tick p1 = p_tick p + 1) as Ht1 by (change (Z.succ (p_tick p) = p_tick p + 1); lia).
  rewrite wp_bind. eapply wp_mono; [by apply (mem_step_wp c p1); [|left]|].
  intros _ [c2 p2] ((Hi2 & Ht2 & _ & Hw2) & Hch2 & Hrd2 & _). cbn [fst snd] in *. specialize (Hrd2 eq_refl).
  rewrite wp_bind. eapply wp_mono; [by apply (mem_step_wp c2 p2); [|right]|].
  intros _ [c3 p3] ((Hi3 & Ht3 & _ & Hw3) & Hch3 & _ & Hrd3 & Hwr3). cbn [fst snd] in *.
  specialize (Hrd3 Hrd2). specialize (Hwr3 eq_refl).
  assert (r_waiting_ c3 = false) as Hr.
  { destruct (r_waiting_ c3) eqn:E; [|done]. by apply (r_waiting_iff c3 p3) in E. }
  assert (w_waiting_ c3 = false) as Hw.
  { destruct (w_waiting_ c3) eqn:E; [|done]. by apply (w_waiting_iff c3 p3) in E. }
  rewrite wp_bind. eapply wp_mono; [by apply (do_update_wp c3 p3)|].
  intros _ [c4 p4] ((Hi4 & Ht4 & _ & Hw4) & Hch4). wp_step. cbn [fst snd] in *.
  split; [done|]. split; [lia|]. split; [lia|]. intros Hin.
  destruct (decide (in_pipe c3 = 0)) as [Hz|Hnz].
  { left. destruct (in_pipe_work c3 p3 Hi3) as [_ Hz3]. destruct (in_pipe_work c4 p4 Hi4) as [Hle _].
    assert (0 <= in_pipe c4) by apply countb_nonneg. specialize (Hz3 Hz). lia. }
  right. assert (0 <= in_pipe c3) by apply countb_nonneg.
  pose proof (i_blocked _ _ Hi4). unfold debt.
  destruct (Hch4 Hr Hw ltac:(lia)) as [? | [E4 ?]]; [lia|]. injection E4 as -> ->.
  destruct Hch3 as [? | E3]; [lia|]. injection E3 as -> ->.
  destruct Hch2 as [? | E2]; [lia|]. injection E2 as -> ->. lia.
Qed.

Fixpoint rounds (n : nat) : list op := match n with O => [] | S n => round ++ rounds n end.

Lemma run_app ops1 ops2 st : run (ops1 ++ ops2) st = (run ops1;; run ops2) st.
Proof.
  revert st. induction ops1 as [|x ops1 IH]; intros st; [done|]. cbn [app run].
  unfold mbind, ST_bind in *. destruct (step x st) as [[? st1]|]; [|done]. rewrite IH. done.
Qed.

Lemma rounds_wp n c p : inv c p → p_tick p + Z.of_nat n < InfTime →
  in_pipe c = 0 ∨ debt c p <= Z.of_nat n →
  wp (run (rounds n)) (λ _ s', inv s'.1 s'.2 ∧ in_pipe s'.1 = 0) (c, p).
Proof.
  assert (∀ c p, inv c p → 0 <= in_pipe c <= work c ∧ (in_pipe c = 0 → work c = 0)) as Hwork.
  { intros c' p' Hi. destruct (in_pipe_work c' p' Hi).
    assert (0 <= in_pipe c') by apply countb_nonneg. by split. }
  revert c p. induction n as [|n IH]; intros c p Hi Ht Hd; cbn [rounds].
  { unfold run. wp_step. cbn [fst snd]. split; [done|]. pose proof (Hwork c p Hi).
    unfold debt in Hd. lia. }
  unfold wp. rewrite run_app. fold (wp (run round;; run (rounds n)) (λ _ s', inv s'.1 s'.2 ∧ in_pipe s'.1 = 0) (c, p)).
  rewrite wp_bind. eapply wp_mono; [apply round_wp; [done | lia]|].
  intros _ [c1 p1] (Hi1 & Ht1 & Hle & Hlt). cbn [fst snd] in *.
  pose proof (Hwork c p Hi). pose proof (Hwork c1 p1 Hi1).
  apply (IH c1 p1); [done | lia | lia].
Qed.

Lemma weight_bound l : weight l <= 4 * zlen l * (zlen l + 1).
Proof.
  induction l as [|e l IH]; [done|]. assert (zlen (e :: l) = zlen l + 1) as -> by (unfold zlen; simpl; lia).
  cbn [weight]. pose proof (zlen_nonneg l). destruct e; nia.
Qed.

Lemma debt_bound c p : inv c p → debt c p <= 12 * zlen (pipe_ c) * (zlen (pipe_ c) + 1) + 2.
Proof.
  intros Hi. pose proof (weight_bound (pipe_ c)). pose proof (i_blocked _ _ Hi).
  destruct (slack_range c (default None (list.last (pipe_ c)))) as [? _].
  unfold debt, work. lia.
Qed.

Lemma cache_make_id size_bytes line_bytes assoc pf id rp lag b :
  CB.make size_bytes line_bytes assoc pf id rp lag = Ok b → CB.cache_id_ b = id.
Proof. intros Hm. unfold CB.make in Hm. repeat res_inv Hm. by subst b. Qed.

Lemma make_inv depth size_bytes line_bytes pf id dff cwf delay rp c t :
  0 < depth → 0 <= t < InfTime → (wb = true → delay = 0) → o < 18 →
  make depth size_bytes line_bytes a pf id dff wb cwf delay rp = Ok c → base_ok c →
  inv c (idle_port t id (2 ^ o / 4) wb) ∧ zlen (pipe_ c) = depth.
Proof.
  intros Hd Ht Hdl Ho18 Hmk Hb. unfold make in Hmk. res_inv Hmk. injection Hmk as <-.
  match goal with |- inv ?c0 _ ∧ _ => set (c := c0) in * end.
  assert (pipe_ c = replicate (Z.to_nat depth - 1) None ++ [None]) as E.
  { change (replicate (Z.to_nat depth) None = replicate (Z.to_nat depth - 1) None ++ [@None CachePipeEntry]).
    replace (Z.to_nat depth) with (Z.to_nat depth - 1 + 1)%nat at 1 by lia.
    by rewrite replicate_add. }
  split; [|apply zlen_replicate; lia].
  constructor; try done; try (simpl; lia).
  - exists (replicate (Z.to_nat depth - 1) None), None. split; [done|].
    split; [by apply Forall_replicate | by apply BEmpty].
  - intros _. rewrite E. by destruct (Z.to_nat depth - 1)%nat.
  - rewrite (in_pipe_app c _ _ E). clear. simpl. induction (Z.to_nat depth - 1)%nat as [|n IH]; simpl in *; lia.
  - constructor; [by eapply cache_make_id | done | done | done | by apply Forall_replicate].
Qed.
End safety.

(** A cache as the constructor builds it, of at least one word per line; a
    write-back cache without response delay. *)
Definition built (depth size_bytes line_bytes assoc : Z) (pf : option Pf.Prefetcher) (id : Z)
    (dff wb cwf : bool) (delay : Z) (rp : option Repl.ReplPolicy) (c : PipeCache) : Prop :=
  0 < depth ∧ 0 <= size_bytes < 2 ^ 32 ∧ 0 < assoc ∧ 4 <= line_bytes < 2 ^ 18 ∧ line_bytes * assoc < 2 ^ 32 ∧
  (wb = true → delay = 0) ∧
  match rp with
  | Some p => Repl.ok (size_bytes / (line_bytes * assoc)) assoc p
  | None => Repl.plru_assoc_ok assoc = true
  end ∧
  make depth size_bytes line_bytes assoc pf id dff wb cwf delay rp = Ok c.

Lemma built_make depth s o assoc pf id dff wb cwf delay p : 0 < depth → 1 <= s → 2 <= o < 18 → 0 < assoc →
  2 ^ s * (2 ^ o * assoc) < 2 ^ 32 → (wb = true → delay = 0) → Repl.ok (2 ^ s) assoc p →
  ∃ c, built depth (2 ^ s * (2 ^ o * assoc)) (2 ^ o) assoc pf id dff wb cwf delay (Some p) c.
Proof.
  intros Hd Hs Ho Ha Hsz Hdl Hp.
  destruct (CB.cache_make_Ok s o assoc pf id (Some p) (wb && (1 <? assoc)) Hs ltac:(lia) Ha Hsz) as [b Hb].
  assert (2 ^ 2 <= 2 ^ o < 2 ^ 18) by (split; [apply Z.pow_le_mono_r | apply Z.pow_lt_mono_r]; lia).
  assert (2 ^ 1 <= 2 ^ s) by (apply Z.pow_le_mono_r; lia).
  eexists. unfold built, make. rewrite Hb. cbn [mbind res_bind].
  split; [done|]. split; [nia|]. split; [done|]. split; [lia|]. split; [nia|]. split; [done|].
  split; [|reflexivity]. by rewrite Z.div_mul by nia.
Qed.

Lemma built_inv depth size_bytes line_bytes assoc pf id dff wb cwf delay rp c t :
  built depth size_bytes line_bytes assoc pf id dff wb cwf delay rp c → 0 <= t < InfTime →
  ∃ s o, inv s o assoc wb c (idle_port t id (line_bytes / 4) wb) ∧ zlen (pipe_ c) = depth.
Proof.
  intros (Hd & Hsz & Ha & Hl & Hla & Hdl & Hrp & Hmk) Ht.
  pose proof Hmk as Hmk'. unfold make in Hmk'. res_inv Hmk'. injection Hmk' as Hc.
  assert (0 < line_bytes) as Hl0 by lia.
  destruct (CB.cache_make_wf _ _ _ _ _ _ _ _ Hsz Ha Hl0 Hla Hrp Ha0) as (s & o & Hw & Hcoh & _ & Eo & _).
  exists s, o. rewrite Eo at 1. apply (make_inv s o assoc wb depth size_bytes line_bytes pf id dff cwf delay rp); try done.
  { destruct (CB.w_o _ _ _ _ Hw). apply (Z.pow_lt_mono_r_iff 2); lia. }
  subst c. split; [done | | done]. destruct (CB.w_o _ _ _ _ Hw).
  destruct (Z.le_gt_cases 2 o) as [|Hlt]; [done|].
  assert (2 ^ o <= 2 ^ 1) by (apply Z.pow_le_mono_r; lia). lia.
Qed.

(** C10: a cache keeps its contract with the memory and the processor.  The
    caches are those of [built]: as the constructor makes them, of at least one
    stage, with a size below 2^32, lines of 4 to 2^18 - 1 bytes, a policy that serves
    the associativity (tree pseudo-LRU: one, two or four ways) and, if they write
    back, no response delay.  [main] builds write-back caches in this way, although
    the constructor's default delay is 1; with a delay the processor's count lags
    behind the pipeline and a response can be lost ([delayed_response_lost]).  For
    any sequence of ticks, updates, requests at ready channels, memory responses and
    flushes at ticks below [InfTime], with stores only at a write-back cache, no
    assertion of the cache or of
    the memory port fails: at most one read and one write are outstanding, each
    response is expected, no request is answered twice.  The flags [r_waiting_] and
    [w_waiting_] tell exactly whether memory owes a response, the processor is owed
    one response per occupied stage, and no block is held twice. *)
Theorem pipecache_safe depth size_bytes line_bytes assoc pf id dff wb cwf delay rp c t ops :
  built depth size_bytes line_bytes assoc pf id dff wb cwf delay rp c →
  0 <= t → t + zlen ops < InfTime → Forall (op_ok wb) ops →
  ∃ c' p', run ops (c, idle_port t id (line_bytes / 4) wb) = Ok (tt, (c', p')) ∧ CB.coherent (base c') ∧
    p_cpu p' = in_pipe c' ∧
    (r_waiting_ c' = true ↔ p_rd p' ≠ None) ∧ (w_waiting_ c' = true ↔ p_wr p' ≠ None).
Proof.
  intros Hb Ht0 Ht Hok. pose proof (zlen_nonneg ops).
  destruct (built_inv _ _ _ _ _ _ _ _ _ _ _ _ t Hb) as (s & o & Hi & _); [lia|].
  pose proof (run_wp s o assoc wb c _ ops Hi Ht Hok) as Hr. apply wp_run in Hr as ([] & [c' p'] & Hr & Hi' & _).
  exists c', p'. split; [done|]. split; [apply (i_base _ _ _ _ _ _ Hi')|].
  split; [apply (i_cpu _ _ _ _ _ _ Hi')|].
  split; [by apply (r_waiting_iff s o assoc wb) | by apply (w_waiting_iff s o assoc wb)].
Qed.

(** C11: a cache of [built] (a write-back one without response delay, see
    [pipecache_safe]) answers every request.  After any sequence of ticks, updates,
    requests, memory responses and flushes at ticks below [InfTime], with stores only
    at a write-back cache, once a memory that answers each tick and an update per tick are granted, all
    accepted requests have been answered after [12 d (d + 1) + 2] ticks, [d] the
    pipeline depth: no interleaving of misses, evictions, replays and flushes
    deadlocks.  With a response delay it fails ([delayed_response_lost]). *)
Theorem pipecache_answers depth size_bytes line_bytes assoc pf id dff wb cwf delay rp c t ops n :
  built depth size_bytes line_bytes assoc pf id dff wb cwf delay rp c →
  0 <= t → t + zlen ops + Z.of_nat n < InfTime → Forall (op_ok wb) ops →
  12 * depth * (depth + 1) + 2 <= Z.of_nat n →
  ∃ c' p', run (ops ++ rounds n) (c, idle_port t id (line_bytes / 4) wb) = Ok (tt, (c', p')) ∧
    p_cpu p' = 0 ∧ in_pipe c' = 0.
Proof.
  intros Hb Ht0 Ht Hok Hn. pose proof (zlen_nonneg ops).
  destruct (built_inv _ _ _ _ _ _ _ _ _ _ _ _ t Hb) as (s & o & Hi & Hd); [lia|].
  pose proof (run_wp s o assoc wb c _ ops Hi ltac:(simpl; lia) Hok) as Hr.
  apply wp_run in Hr as ([] & [c1 p1] & Hr & Hi1 & Ht1 & Hl1). cbn [fst snd p_tick idle_port] in *.
  pose proof (debt_bound s o assoc wb c1 p1 Hi1) as Hdb. rewrite Hl1, Hd in Hdb.
  pose proof (rounds_wp s o assoc wb n c1 p1 Hi1 ltac:(lia) ltac:(lia)) as Hr2.
  apply wp_run in Hr2 as ([] & [c2 p2] & Hr2 & Hi2 & Hz). cbn [fst snd] in *.
  exists c2, p2. rewrite run_app. unfold mbind, ST_bind. rewrite Hr. split; [done|].
  by rewrite (i_cpu _ _ _ _ _ _ Hi2).
Qed.

(** A data cache: 1 KiB in two ways of 16-byte lines, write-back. *)
Definition dcache_ex : PipeCache :=
  match make 1 1024 16 2 None 1 true true false 0 None with Ok c => c | Err _ =>
    Mk CB.cache_ex [] true false false 0 false false true false false false false 0 [] 0 0 (MkCpuTrans 0 0 0 Read) end.

Lemma dcache_ex_built : built 1 1024 16 2 None 1 true true false 0 None dcache_ex.
Proof. unfold built. splits; try done; lia. Qed.

Definition ops_ex : list op :=
  [OTick; OWrite 0x80000010 7 15; OTick; OUpdate; OTick; OUpdate; OMemRead; OFlush; OTick; OUpdate].

Lemma pipecache_safe_witness : ∃ c' p',
  run ops_ex (dcache_ex, idle_port 0 1 4 true) = Ok (tt, (c', p')) ∧ p_cpu p' = in_pipe c'.
Proof.
  destruct (pipecache_safe _ _ _ _ _ _ _ _ _ _ _ _ 0 ops_ex dcache_ex_built) as (c' & p' & ? & _ & ? & _);
    [lia | done | repeat constructor | exists c', p'; split; assumption].
Defined.

Lemma pipecache_answers_witness : ∃ c' p',
  run (ops_ex ++ rounds 26) (dcache_ex, idle_port 0 1 4 true) = Ok (tt, (c', p')) ∧ p_cpu p' = 0.
Proof.
  destruct (pipecache_answers _ _ _ _ _ _ _ _ _ _ _ _ 0 ops_ex 26 dcache_ex_built) as (c' & p' & ? & ? & _);
    [lia | done | repeat constructor | lia | exists c', p'; split; assumption].
Defined.

(** A write-back cache with a response delay: a flush that becomes due while the
    response of a hit is delayed discards it ([sched_hit_time_]), and two hits within
    the delay share one register.  The processor is owed a response that no stage
    holds any more, here long after the bound of [pipecache_answers]. *)
Definition delayed_ex (depth delay : Z) : res PipeCache := make depth 1024 16 2 None 1 true true false delay None.
Definition fill_ex : list op := [OTick; ORead 0x80000010] ++ rounds 10.

Definition lost_after (depth delay : Z) (ops : list op) : bool :=
  match c ← delayed_ex depth delay; run ops (c, idle_port 0 1 4 true) with
  | Ok (_, (c, p)) => (p_cpu p =? 1) && (in_pipe c =? 0) && (sched_hit_time_ c =? InfTime)
  | Err _ => false
  end.

Lemma delayed_response_lost :
  lost_after 1 2 (fill_ex ++ [ORead 0x80000010; OTick; OUpdate; OFlush] ++ rounds 100) = true ∧
  lost_after 2 2 (fill_ex ++ [ORead 0x80000010; OTick; OUpdate; ORead 0x80000010] ++ rounds 100) = true.
Proof. by vm_compute. Qed.

(** ** Wrong-path fills *)

(** C39: [pollute] installs a line that no lookup finds.  It claims a line of the
    block's set and makes it valid, but leaves it under tag 0, so that unless the
    block is block 0 itself a probe for it still misses. *)
Theorem pollute_not_found {E} `{CacheEnv E} s o a (c : PipeCache) (e : E) x :
  base_ok s o a c → ¬ CB.resident (base c) x → CB.tagOf (base c) x ≠ 0 →
  ∃ c', pollute x (c, e) = Ok (tt, (c', e)) ∧ CB.probe (base c') x = Ok false ∧
    ∃ way l, CB.line_of (base c') (CB.setIndexOf (base c) x) way = Some l ∧
      Line.valid l = true ∧ Line.tag l = 0.
Proof.
  intros [Hw Ho Hc] Hnr Htag. pose proof (CB.setIndexOf_range s o a (base c) x Hw) as Hs.
  destruct (CB.access_Ok s o a (base c) (curr_tick e) x Hw) as (way & b1 & Ha & Hw1 & Hway & Hfr & Hacc).
  destruct Hacc as [l l1 l' Hl Hl' Hm Hm' _ _ _ _ _ | l set Hl _ Hl' _ _ _ _].
  { destruct Hnr. exists way, l. split; [lia | done]. }
  pose proof Hfr as [Hg _]. destruct (CB.geom_index (base c) b1 Hg) as (Ei & _ & Et).
  set (si := CB.setIndexOf (base c) x) in *. set (l2 := Line.activate (curr_tick e) (Line.invalidate l)).
  assert (CB.line_ok o l2) as Hok.
  { destruct (CB.line_exists s o a b1 si way Hw1 Hs Hway) as (l0 & _ & E0 & Hok).
    rewrite Hl' in E0. injection E0 as <-. exact Hok. }
  destruct (CB.set_line_Ok s o a b1 si way l2 Hw1 Hs Hway Hok) as [Hset Hw2].
  pose proof (CB.frame_put s o a b1 si way l2 Hw1 Hs Hway) as Hfr2.
  assert (CB.line_of (CB.put b1 si way l2) si way = Some l2) as Hl2
    by (rewrite (CB.line_of_put s o a) by (done || lia); by rewrite decide_True).
  destruct (CB.probe_spec s o a (base c) x Hw) as (r & Hr & Hres).
  assert (r = false) as -> by (destruct r; [destruct Hnr; by apply Hres|done]).
  destruct (CB.probe_spec s o a (CB.put b1 si way l2) x Hw2) as (r2 & Hr2 & Hres2).
  assert (¬ CB.resident (CB.put b1 si way l2) x) as Hno.
  { intros R. destruct (CB.resident_frame s o a b1 _ si way x Hw1 Hfr2 R) as [R1 | [_ (l3 & E3 & M3)]].
    - destruct (CB.resident_frame s o a (base c) b1 si way x Hw Hfr R1) as [|[_ (l3 & E3 & M3)]]; [done|].
      rewrite Hl' in E3. injection E3 as <-. by apply CB.matches_true in M3 as [? _].
    - rewrite Hl2 in E3. injection E3 as <-. apply CB.matches_true in M3 as [_ M3].
      rewrite Et in M3. by destruct Htag. }
  exists (c <| base := CB.put b1 si way l2 |>). split; [|split].
  - unfold pollute, tick, gets, mbind, ST_bind, update_self. cbn [fst snd].
    rewrite Hr. cbn [mbind res_bind]. rewrite Ha. cbn [mbind res_bind]. rewrite Ei. fold si.
    rewrite (CB.line_at_of b1 si way _) by (done || lia). cbn [mbind res_bind]. unfold l2 in Hset. by rewrite Hset.
  - change (base _) with (CB.put b1 si way l2). rewrite Hr2. destruct r2; [|done].
    by destruct Hno; apply Hres2.
  - by exists way, l2.
Qed.

(** A cache of 64 direct-mapped sets, all of them empty. *)
Definition icache_ex : PipeCache := dcache_ex <| base := CB.cache_ex |> <| write_back_ := false |>.

Lemma cache_ex_base (c : PipeCache) : base c = CB.cache_ex → base_ok 6 4 1 c.
Proof. intros E. split; rewrite ?E; [apply CB.cache_ex_wf | lia | apply CB.cache_ex_wf]. Qed.

Lemma cache_ex_absent x : ¬ CB.resident CB.cache_ex x.
Proof.
  intros (way & l & _ & Hl & [Hv _]%CB.matches_true).
  assert (Forall (Forall (λ l, Line.valid l = false)) (CB.setsArr_ CB.cache_ex)) as Hf
    by (vm_compute; repeat constructor).
  unfold CB.line_of in Hl. destruct (CB.setsArr_ CB.cache_ex !! _) as [set|] eqn:E; [|discriminate].
  eapply Forall_lookup_1 in Hf; [|exact E]. simpl in Hl.
  eapply Forall_lookup_1 in Hf; [|exact Hl]. congruence.
Qed.

Lemma evict_saves_victim_witness : ∃ bk' c' way, let c := icache_ex <| write_back_ := true |> in
  lookup_back 3 (MkEntry 0x80000040 None Write 7 15) c = Ok (bk', c') ∧
  line bk' = Some (CB.setIndexOf (base c) 0x80000040, way).
Proof.
  destruct (evict_saves_victim 6 4 1 (icache_ex <| write_back_ := true |>) 3 (MkEntry 0x80000040 None Write 7 15) [] None)
    as (bk' & c' & way & l & H1 & H2 & _); [by apply cache_ex_base | done | done | apply cache_ex_absent |].
  exists bk', c', way. split; [exact H1 | exact H2].
Defined.

Lemma pollute_not_found_witness : ∃ c',
  pollute 0x80000040 (icache_ex, MkLog 3 []) = Ok (tt, (c', MkLog 3 [])) ∧
  CB.probe (base c') 0x80000040 = Ok false.
Proof.
  destruct (pollute_not_found 6 4 1 icache_ex (MkLog 3 []) 0x80000040) as (c' & H1 & H2 & _).
  - by apply cache_ex_base.
  - apply cache_ex_absent.
  - vm_compute. discriminate.
  - exists c'. split; assumption.
Defined.

End PipeCache.
