(* ===== verification/RamConn.v ===== *)
(** * The memory fabric

    [src/cacheSim/RamConn.hh] and [.cc]: the latency devices ([RamDevice] and its
    two subclasses), the address map, and [RAMArbiter], which serves one read and
    one write at a time for its hosts.  A host is called back in the middle of
    [update_impl] and may send its next request from there, so the callback
    runs on the arbiter's own state. *)

From stdpp Require Import strings.
From S2P Require Import Prelude Types Sdram.

Module Ram.

(** ** Devices *)

Inductive DeviceKind : Type :=
| ConstLatency (lat_read_ lat_write_ : Z)
| SdramDevice (sdram_model_ : Sdram.SdramModel).

Record RamDevice : Type := MkDevice {
  name_ : string;
  kind : DeviceKind;
  accesses_ : Z;
  reads_ : Z;
  writes_ : Z;
  total_lat_cyc_ : Z
}.
#[global] Instance eta_RamDevice : Eta RamDevice := λ r,
  MkDevice r.(name_) r.(kind) r.(accesses_) r.(reads_) r.(writes_) r.(total_lat_cyc_).

Definition make_const (name : string) (lat_read lat_write : Z) : RamDevice :=
  MkDevice name (ConstLatency lat_read (if lat_write =? 0 then lat_read else lat_write)) 0 0 0 0.
Definition make_sdram (name : string) (m : Sdram.SdramModel) : RamDevice := MkDevice name (SdramDevice m) 0 0 0 0.

Definition latency_impl (d : RamDevice) (req : MemTrans) (now : Z) : res (Z * RamDevice) :=
  match kind d with
  | ConstLatency r w => mret (if is_Read (mt_mop req) then r else w, d)
  | SdramDevice m =>
    _ ← assert_ (1 <=? mt_bst_len req);
    '(lat, m) ← Sdram.access m (mt_addr req) (mt_bst_len req) (is_Write (mt_mop req)) now (mt_id req);
    mret (lat, d <| kind := SdramDevice m |>)
  end.

Definition access (d : RamDevice) (req : MemTrans) (now : Z) : res (Z * RamDevice) :=
  '(lat, d) ← latency_impl d req now;
  let d := d <| accesses_ ::= incr |> in
  let d := if is_Read (mt_mop req) then d <| reads_ ::= incr |> else d <| writes_ ::= incr |> in
  mret (lat, d <| total_lat_cyc_ ::= (λ t, u64 (t + lat)) |>).

Definition reset_device (d : RamDevice) : RamDevice :=
  let d := d <| accesses_ := 0 |> <| reads_ := 0 |> <| writes_ := 0 |> <| total_lat_cyc_ := 0 |> in
  match kind d with
  | ConstLatency _ _ => d
  | SdramDevice m => d <| kind := SdramDevice (Sdram.reset_stats m) |>
  end.

(** ** Address map *)

Record AddrMapEntry : Type := MkMap { lo : Z; hi : Z; device_id : Z; name : string }.

Definition contains (e : AddrMapEntry) (addr : Z) : bool := (lo e <=? addr) && (addr <=? hi e).

Fixpoint first_entry (l : list AddrMapEntry) (addr default_device : Z) : Z :=
  match l with
  | [] => default_device
  | e :: l => if contains e addr then device_id e else first_entry l addr default_device
  end.

(** ** The arbiter *)

(** [(uint16_t)-1] *)
Definition no_host : Z := 65535.

Record RAMArbiter : Type := Mk {
  r_serving_id_ : Z;
  w_serving_id_ : Z;
  r_busy_until_ : Z;
  w_busy_until_ : Z;
  hosts_ : Z;
  devices_ : list RamDevice;
  addr_map_ : list AddrMapEntry;
  default_device_ : Z;
  reqs_ : list (option MemTrans * option MemTrans);
  host_rd_ : list Z;
  host_wr_ : list Z;
  host_dev_ : list (list Z)
}.
#[global] Instance eta_RAMArbiter : Eta RAMArbiter := λ r,
  Mk r.(r_serving_id_) r.(w_serving_id_) r.(r_busy_until_) r.(w_busy_until_) r.(hosts_)
     r.(devices_) r.(addr_map_) r.(default_device_) r.(reqs_) r.(host_rd_) r.(host_wr_)
     r.(host_dev_).

(** [hosts_] is the number of hosts; what they are is [HostEnv] below. *)
Definition make (hosts : Z) (devices : list RamDevice) (addr_map : list AddrMapEntry)
    (default_device : Z) : res RAMArbiter :=
  let n := Z.to_nat hosts in
  _ ← assert_ (negb (hosts =? 0));
  _ ← assert_ (negb (zlen devices =? 0));
  _ ← assert_ (default_device <? zlen devices);
  mret (Mk no_host no_host InfTime InfTime hosts devices addr_map default_device
           (replicate n (None, None)) (replicate n 0) (replicate n 0)
           (replicate n (replicate (length devices) 0))).

Definition next_update (a : RAMArbiter) : Z := Z.min (r_busy_until_ a) (w_busy_until_ a).

Definition device_of (a : RAMArbiter) (addr : Z) : Z := first_entry (addr_map_ a) addr (default_device_ a).

(** The source writes every step once for the read and once for the write
    channel; here the channel is a parameter [m], and these are its fields. *)
Definition serving (m : MemRWOpt) (a : RAMArbiter) : Z :=
  match m with Read => r_serving_id_ a | Write => w_serving_id_ a end.
Definition set_serving (m : MemRWOpt) (v : Z) (a : RAMArbiter) : RAMArbiter :=
  match m with Read => a <| r_serving_id_ := v |> | Write => a <| w_serving_id_ := v |> end.
Definition busy (m : MemRWOpt) (a : RAMArbiter) : Z :=
  match m with Read => r_busy_until_ a | Write => w_busy_until_ a end.
Definition set_busy (m : MemRWOpt) (v : Z) (a : RAMArbiter) : RAMArbiter :=
  match m with Read => a <| r_busy_until_ := v |> | Write => a <| w_busy_until_ := v |> end.
Definition slot_of (m : MemRWOpt) (p : option MemTrans * option MemTrans) : option MemTrans :=
  match m with Read => p.1 | Write => p.2 end.
Definition slot_put (m : MemRWOpt) (e : option MemTrans) (p : option MemTrans * option MemTrans) :=
  match m with Read => (e, p.2) | Write => (p.1, e) end.
Definition host_counts (m : MemRWOpt) (a : RAMArbiter) : list Z :=
  match m with Read => host_rd_ a | Write => host_wr_ a end.
Definition set_host_counts (m : MemRWOpt) (l : list Z) (a : RAMArbiter) : RAMArbiter :=
  match m with Read => a <| host_rd_ := l |> | Write => a <| host_wr_ := l |> end.

Definition set_slot (m : MemRWOpt) (i : Z) (e : option MemTrans) (a : RAMArbiter) : res RAMArbiter :=
  p ← vec_at (reqs_ a) i;
  l ← vec_set (reqs_ a) i (slot_put m e p);
  mret (a <| reqs_ := l |>).

Definition bump_at (l : list Z) (i : Z) : res (list Z) := n ← vec_at l i; vec_set l i (incr n).

Definition lat_of (a : RAMArbiter) (req : MemTrans) (now : Z) : res (Z * RAMArbiter) :=
  let h := mt_id req in
  _ ← assert_ (h <? hosts_ a);
  let did := device_of a (mt_addr req) in
  _ ← assert_ (did <? zlen (devices_ a));
  counts ← bump_at (host_counts (mt_mop req) a) h;
  let a := set_host_counts (mt_mop req) counts a in
  row ← vec_at (host_dev_ a) h;
  row ← bump_at row did;
  rows ← vec_set (host_dev_ a) h row;
  d ← vec_at (devices_ a) did;
  '(lat, d) ← access d req now;
  ds ← vec_set (devices_ a) did d;
  mret (lat, a <| host_dev_ := rows |> <| devices_ := ds |>).

(** Start serving the request [req] of slot [i] at [start]. *)
Definition serve (m : MemRWOpt) (i : Z) (req : MemTrans) (now start : Z) (a : RAMArbiter) : res RAMArbiter :=
  '(lat, a) ← lat_of a req now;
  a ← set_slot m i (Some (req <| mt_lat := lat |>)) a;
  mret (set_busy m (u64 (start + lat)) (set_serving m (mt_id req) a)).

Definition recv_req (req : MemTrans) (now : Z) (a : RAMArbiter) : res RAMArbiter :=
  let m := mt_mop req in
  p ← vec_at (reqs_ a) (mt_id req);
  _ ← assert_ (match slot_of m p with None => true | Some _ => false end);
  a ← set_slot m (mt_id req) (Some req) a;
  if busy m a =? InfTime then serve m (mt_id req) req now now a else mret a.

(** The last slot of a channel that holds a request. *)
Fixpoint last_req (m : MemRWOpt) (i : Z) (l : list (option MemTrans * option MemTrans))
    : option (Z * MemTrans) :=
  match l with
  | [] => None
  | p :: l => match last_req m (i + 1) l with
              | Some r => Some r
              | None => (λ req, (i, req)) <$> slot_of m p
              end
  end.

(** Hosts: [hosts_.at(id)->recv_mem_resp(trans)], which may call the arbiter. *)
Class HostEnv (E : Type) : Type := {
  arb_tick : E → Z;
  host_recv : Z → MemTrans → ST (RAMArbiter * E) unit
}.

Section update.
Context {E : Type} `{HostEnv E}.

Definition arb : ST (RAMArbiter * E) RAMArbiter := gets fst.
Definition set_arb (f : RAMArbiter → res RAMArbiter) : ST (RAMArbiter * E) unit := λ s,
  match f s.1 with Ok a => Ok (tt, (a, s.2)) | Err x => Err x end.
Definition arb_now : ST (RAMArbiter * E) Z := gets (λ s, arb_tick s.2).

(** The choice of a channel's next request: the highest host id. *)
Definition pick_next (m : MemRWOpt) : ST (RAMArbiter * E) unit :=
  set_arb (λ a, mret (set_serving m no_host (set_busy m InfTime a)));;
  a ← arb;
  now ← arb_now;
  match last_req m 0 (reqs_ a) with
  | Some (i, req) => set_arb (serve m i req now (now + 1))
  | None => mret tt
  end.

(** Completion of the request a channel serves.  Its slot is empty before the
    host is called. *)
Definition complete (m : MemRWOpt) : ST (RAMArbiter * E) unit :=
  a ← arb;
  now ← arb_now;
  if (busy m a <=? now) && negb (serving m a =? no_host) then
    let resp_id := serving m a in
    p ← lift (vec_at (reqs_ a) resp_id);
    req ← lift (match slot_of m p with Some r => Ok r | None => Err NullDeref end);
    lift (if resp_id <? hosts_ a then Ok tt else Err OutOfRange);;
    set_arb (set_slot m resp_id None);;
    host_recv resp_id (req <| mt_dir := Resp |>);;
    pick_next m
  else mret tt.

Definition update_impl : ST (RAMArbiter * E) unit := complete Read;; complete Write.

Definition do_update : ST (RAMArbiter * E) unit :=
  a ← arb;
  now ← arb_now;
  if next_update a <=? now then update_impl else mret tt.
End update.

Definition reset_stats (a : RAMArbiter) : RAMArbiter :=
  a <| host_rd_ ::= map (λ _, 0) |> <| host_wr_ ::= map (λ _, 0) |>
    <| host_dev_ ::= map (map (λ _, 0)) |> <| devices_ ::= map reset_device |>.

(** ** Slots *)

Definition slot (m : MemRWOpt) (i : Z) (a : RAMArbiter) : option MemTrans :=
  reqs_ a !! Z.to_nat i ≫= slot_of m.

(** The fields a change of one slot leaves alone. *)
Definition ctl (a : RAMArbiter) :=
  (r_serving_id_ a, w_serving_id_ a, r_busy_until_ a, w_busy_until_ a, hosts_ a, addr_map_ a,
   default_device_ a).

Definition tables (a : RAMArbiter) := (devices_ a, host_rd_ a, host_wr_ a, host_dev_ a).

Lemma slot_put_of m m' e p : slot_of m' (slot_put m e p) = if decide (m' = m) then e else slot_of m' p.
Proof. by destruct m, m'. Qed.

Lemma set_slot_Ok m i e a : 0 <= i < zlen (reqs_ a) →
  ∃ a', set_slot m i e a = Ok a' ∧ ctl a' = ctl a ∧ tables a' = tables a ∧
    zlen (reqs_ a') = zlen (reqs_ a) ∧
    (∀ m' j, 0 <= j → slot m' j a' = if decide ((m', j) = (m, i)) then e else slot m' j a).
Proof.
  intros Hi. destruct (vec_at_lt (reqs_ a) i Hi) as [p Hp]. unfold set_slot. rewrite Hp.
  cbn [mbind res_bind]. rewrite vec_set_lt by done. cbn [mbind res_bind]. eexists. split; [done|].
  split; [done|]. split; [done|]. split; [apply zlen_insert|]. intros m' j Hj.
  apply vec_at_Ok in Hp as [_ Hp]. unfold slot. simpl. case_decide as Hd.
  - injection Hd as -> ->. rewrite list_lookup_insert_eq by (by eapply lookup_lt_Some). simpl.
    by rewrite slot_put_of, decide_True.
  - destruct (decide (j = i)) as [->|Hne].
    + rewrite list_lookup_insert_eq by (by eapply lookup_lt_Some). rewrite Hp. simpl.
      rewrite slot_put_of, decide_False; [done|]. by intros ->.
    + by rewrite list_lookup_insert_ne by lia.
Qed.

Lemma slot_at m i a p : vec_at (reqs_ a) i = Ok p → slot m i a = slot_of m p.
Proof. intros [_ H]%vec_at_Ok. unfold slot. by rewrite H. Qed.

(** [last_req] finds the highest occupied slot. *)
Lemma last_req_spec m l k : match last_req m k l with
  | Some (i, req) => k <= i < k + zlen l ∧ l !! Z.to_nat (i - k) ≫= slot_of m = Some req ∧
      ∀ j, (Z.to_nat (i - k) < j)%nat → l !! j ≫= slot_of m = None
  | None => ∀ j, l !! j ≫= slot_of m = None
  end.
Proof.
  revert k. induction l as [|p l IH]; intros k; simpl; [done|]. specialize (IH (k + 1)).
  assert (zlen (p :: l) = zlen l + 1) as El by (unfold zlen; simpl; lia).
  destruct (last_req m (k + 1) l) as [[i req]|].
  - destruct IH as (Hi & Hr & Hn). split; [lia|].
    replace (Z.to_nat (i - k)) with (S (Z.to_nat (i - (k + 1)))) by lia. split; [done|].
    intros [|j] Hj; [lia|]. apply Hn. lia.
  - destruct (slot_of m p) as [req|] eqn:E; simpl.
    + pose proof (zlen_nonneg l). split; [lia|]. rewrite Z.sub_diag. split; [done|].
      intros [|j] Hj; [lia|]. apply IH.
    + intros [|j]; [done|]. apply IH.
Qed.

Lemma last_req_slot m a : match last_req m 0 (reqs_ a) with
  | Some (i, req) => 0 <= i < zlen (reqs_ a) ∧ slot m i a = Some req ∧
      ∀ j, i < j → slot m j a = None
  | None => ∀ j, slot m j a = None
  end.
Proof.
  pose proof (last_req_spec m (reqs_ a) 0) as H.
  destruct (last_req m 0 (reqs_ a)) as [[i req]|].
  - rewrite Z.sub_0_r in H. destruct H as (H1 & H2 & H3). split; [lia|]. split; [done|].
    intros j Hj. apply H3. lia.
  - intros j. apply H.
Qed.

Lemma bump_at_Ok l i : 0 <= i < zlen l → ∃ l', bump_at l i = Ok l' ∧ zlen l' = zlen l.
Proof.
  intros Hi. destruct (vec_at_lt l i Hi) as [n Hn]. unfold bump_at. rewrite Hn. cbn [mbind res_bind].
  rewrite vec_set_lt by done. eexists. split; [done|]. apply zlen_insert.
Qed.

(** ** Address map *)

(** Requests are routed by the first map entry that contains the address,
    and by [default_device_] when none does. *)
Theorem route_first_match a pre e post addr :
  addr_map_ a = pre ++ e :: post → Forall (λ e', contains e' addr = false) pre →
  lo e <= addr <= hi e → device_of a addr = device_id e.
Proof.
  intros E Hpre He. unfold device_of. rewrite E. clear E. induction Hpre as [|e' pre He' _ IH]; simpl.
  - unfold contains. by rewrite (proj2 (Z.leb_le (lo e) addr)), (proj2 (Z.leb_le addr (hi e))) by lia.
  - by rewrite He'.
Qed.

Lemma route_first_match_witness :
  device_of (Mk no_host no_host InfTime InfTime 1 [] [MkMap 0 9 1 "a"; MkMap 5 20 2 "b"] 0 [] [] [] []) 12 = 2.
Proof. apply (route_first_match _ [MkMap 0 9 1 "a"] (MkMap 5 20 2 "b") []); [done | by repeat constructor | done]. Defined.

(** ** Devices as the arbiter uses them *)

(** [dok t k d]: a device last used at tick [t] or before has [k] accesses left
    that are safe up to tick [H] for bursts of at most [L] words, and take at
    most [M] ticks. *)
Class DeviceLaws (dok : Z → Z → RamDevice → Prop) (H L M : Z) : Prop := {
  dok_mono t k t' k' d : dok t k d → t <= t' → 0 <= k' <= k → dok t' k' d;
  dok_access t k d req now : dok t k d → 0 < k → 0 <= now → t <= now <= H →
    1 <= mt_bst_len req <= L → 0 <= mt_id req →
    ∃ lat d', access d req now = Ok (lat, d') ∧ dok now (k - 1) d' ∧ 0 <= lat <= M;
  dok_reset t k d : dok t k d → dok t k (reset_device d)
}.

(** ** Scripted hosts

    The environment of the theorems below: [h_script] says, for each response in
    turn, which request the hosts send from within the callback, if any;
    [h_acc] and [h_log] record the requests accepted and answered. *)
Record Hosts : Type := MkHosts {
  h_tick : Z;
  h_script : list (option MemTrans);
  h_acc : list MemTrans;
  h_log : list MemTrans
}.
#[global] Instance eta_Hosts : Eta Hosts := λ r, MkHosts r.(h_tick) r.(h_script) r.(h_acc) r.(h_log).

(** A host sends only when it has nothing outstanding on that channel. *)
Definition free (a : RAMArbiter) (req : MemTrans) : bool :=
  match slot (mt_mop req) (mt_id req) a with None => true | Some _ => false end.

Definition issue (req : MemTrans) : ST (RAMArbiter * Hosts) unit := λ s,
  let '(a, h) := s in
  if free a req then
    a ← recv_req req (h_tick h) a;
    Ok (tt, (a, h <| h_acc ::= cons req |>))
  else Ok (tt, s).

#[export] Instance scripted_hosts : HostEnv Hosts := {|
  arb_tick := h_tick;
  host_recv _ t := λ s,
    let '(a, h) := s in
    let h := h <| h_log ::= cons t |> in
    match h_script h with
    | Some req :: rest => issue req (a, h <| h_script := rest |>)
    | None :: rest => Ok (tt, (a, h <| h_script := rest |>))
    | [] => Ok (tt, (a, h))
    end
|}.

Inductive op : Type := OTick | ORequest (req : MemTrans) | OUpdate.

Definition step (o : op) : ST (RAMArbiter * Hosts) unit :=
  match o with
  | OTick => λ s, Ok (tt, (s.1, s.2 <| h_tick ::= Z.succ |>))
  | ORequest req => issue req
  | OUpdate => do_update
  end.

Fixpoint run (ops : list op) : ST (RAMArbiter * Hosts) unit :=
  match ops with [] => mret tt | o :: ops => step o;; run ops end.

(** A transaction without what the arbiter writes into it. *)
Definition key (r : MemTrans) : MemTrans := r <| mt_dir := Req |> <| mt_lat := 0 |>.

Fixpoint collect {A} (f : Z → option A) (l : list Z) : list A :=
  match l with [] => [] | i :: l => option_list (f i) ++ collect f l end.

Lemma collect_ext {A} (f f' : Z → option A) l : (∀ j, j ∈ l → f' j = f j) → collect f' l = collect f l.
Proof.
  induction l as [|j l IH]; intros H; simpl; [done|]. rewrite (H j) by by left.
  rewrite IH; [done|]. intros j' Hj'. apply H. by right.
Qed.

Lemma collect_upd {A} (f f' : Z → option A) (l : list Z) (i : Z) :
  NoDup l → i ∈ l → (∀ j, j ∈ l → j ≠ i → f' j = f j) →
  option_list (f i) ++ collect f' l ≡ₚ option_list (f' i) ++ collect f l.
Proof.
  induction l as [|j l IH]; intros Hnd Hi Hf; [by apply not_elem_of_nil in Hi|].
  apply list.NoDup_cons in Hnd as [Hj Hnd]. simpl. destruct (decide (j = i)) as [->|Hne].
  - rewrite (collect_ext f f'); [|intros j' Hj'; apply Hf; [by right | by intros ->]].
    rewrite !(assoc_L (++)). by rewrite (Permutation_app_comm (option_list (f i))).
  - apply elem_of_cons in Hi as [->|Hi]; [done|]. rewrite (Hf j) by (done || by left).
    rewrite (Permutation_app_swap_app (option_list (f i))), (Permutation_app_swap_app (option_list (f' i))).
    rewrite IH; [done | done | done |]. intros j' Hj'. apply Hf. by right.
Qed.

Definition pending (m : MemRWOpt) (a : RAMArbiter) : list MemTrans :=
  collect (λ i, key <$> slot m i a) (zrange (hosts_ a)).

Section fabric.
Context (dok : Z → Z → RamDevice → Prop) (H L M n : Z) {laws : DeviceLaws dok H L M}.
Context (Hn : 0 < n < no_host) (HM : 0 <= M) (HH : H + M + 2 < InfTime).
Implicit Types (a : RAMArbiter) (m : MemRWOpt).

Definition req_ok (r : MemTrans) : Prop := 0 <= mt_id r < n ∧ 1 <= mt_bst_len r <= L.

Record base_inv (t k : Z) a : Prop := {
  f_hosts : hosts_ a = n;
  f_reqs : zlen (reqs_ a) = n;
  f_counts m : zlen (host_counts m a) = n;
  f_dev : zlen (host_dev_ a) = n ∧ Forall (λ row, zlen row = zlen (devices_ a)) (host_dev_ a);
  f_map : ∀ addr, 0 <= device_of a addr < zlen (devices_ a);
  f_devs : Forall (dok t k) (devices_ a);
  f_slots m i r : 0 <= i → slot m i a = Some r → mt_id r = i ∧ mt_mop r = m ∧ req_ok r
}.

(** A channel at rest: idle and empty, or serving an occupied slot. *)
Definition chan_ok now m a : Prop :=
  serving m a = no_host ∧ busy m a = InfTime ∧ (∀ j, 0 <= j → slot m j a = None) ∨
  ∃ r, 0 <= serving m a < n ∧ slot m (serving m a) a = Some r ∧ 0 <= busy m a <= now + 1 + M.

Lemma base_inv_later t k t' k' a : base_inv t k a → t <= t' → 0 <= k' <= k → base_inv t' k' a.
Proof.
  intros [] Ht Hk. constructor; try done. eapply Forall_impl; [|exact f_devs0].
  intros d Hd. by apply (dok_mono t k).
Qed.

(** The fields [lat_of] may change. *)
Lemma lat_of_Ok t k a req now : base_inv t k a → 0 < k → 0 <= now → t <= now <= H → req_ok req →
  ∃ lat a', lat_of a req now = Ok (lat, a') ∧ base_inv now (k - 1) a' ∧ ctl a' = ctl a ∧
    reqs_ a' = reqs_ a ∧ 0 <= lat <= M.
Proof.
  intros [Hh Hr Hc [Hd1 Hd2] Hm Hdv Hs] Hk Hnow Ht [Hid Hb]. unfold lat_of. cbv zeta. rewrite Hh.
  rewrite (proj2 (Z.ltb_lt (mt_id req) n)) by lia. cbn [assert_ mbind res_bind].
  pose proof (Hm (mt_addr req)) as Hdid. rewrite (proj2 (Z.ltb_lt (device_of a (mt_addr req)) _)) by lia. cbn [assert_ mbind res_bind].
  destruct (bump_at_Ok (host_counts (mt_mop req) a) (mt_id req)) as (cs & -> & Hcs); [by rewrite Hc|].
  cbn [mbind res_bind]. set (a1 := set_host_counts (mt_mop req) cs a).
  assert (host_dev_ a1 = host_dev_ a ∧ devices_ a1 = devices_ a) as [-> ->] by (unfold a1; by destruct (mt_mop req)).
  destruct (vec_at_lt (host_dev_ a) (mt_id req)) as [row Hrow]; [by rewrite Hd1|].
  rewrite Hrow. cbn [mbind res_bind]. pose proof (Forall_vec_at _ _ _ _ Hd2 Hrow) as Hrl. simpl in Hrl.
  destruct (bump_at_Ok row (device_of a (mt_addr req))) as (row' & -> & Hrow'); [by rewrite Hrl|].
  cbn [mbind res_bind]. rewrite vec_set_lt by (by rewrite Hd1). cbn [mbind res_bind].
  destruct (vec_at_lt (devices_ a) (device_of a (mt_addr req)) Hdid) as [d Hd]. rewrite Hd. cbn [mbind res_bind].
  destruct (dok_access t k d req now) as (lat & d' & -> & Hd' & Hlat); try done;
    [exact (Forall_vec_at _ _ _ _ Hdv Hd) | lia |].
  cbn [mbind res_bind]. rewrite vec_set_lt by done. cbn [mbind res_bind].
  eexists lat, _. split; [done|]. split; [|by unfold a1; destruct (mt_mop req)].
  constructor.
  - unfold a1. by destruct (mt_mop req).
  - unfold a1. by destruct (mt_mop req).
  - intros m. pose proof (Hc m). unfold a1. by destruct m, (mt_mop req); simpl in *; rewrite ?Hcs, ?Hc.
  - simpl. rewrite !zlen_insert. split; [done|]. apply Forall_insert; [done|]. by rewrite Hrow'.
  - intros addr. simpl. rewrite zlen_insert. unfold a1. by destruct (mt_mop req); apply Hm.
  - simpl. apply Forall_insert; [|done]. eapply Forall_impl; [|exact Hdv].
    intros d0 Hd0. apply (dok_mono t k); [done | lia | lia].
  - intros m i r Hi. unfold a1, slot in *. by destruct (mt_mop req); apply Hs.
Qed.

Definition other m : MemRWOpt := match m with Read => Write | Write => Read end.

Lemma ctl_view a a' m : ctl a' = ctl a → serving m a' = serving m a ∧ busy m a' = busy m a ∧
  hosts_ a' = hosts_ a ∧ (∀ x, device_of a' x = device_of a x).
Proof. unfold ctl, device_of. intros [= E1 E2 E3 E4 E5 E6 E7]. rewrite E6, E7. destruct m; simpl; done. Qed.

Lemma set_slot_inv t k a m i e : base_inv t k a → 0 <= i < n →
  (∀ r, e = Some r → mt_id r = i ∧ mt_mop r = m ∧ req_ok r) →
  ∃ a', set_slot m i e a = Ok a' ∧ base_inv t k a' ∧ ctl a' = ctl a ∧
    (∀ m' j, 0 <= j → slot m' j a' = if decide ((m', j) = (m, i)) then e else slot m' j a).
Proof.
  intros [Hh Hr Hc Hd Hm Hdv Hs] Hi He.
  destruct (set_slot_Ok m i e a) as (a' & Ha & Hk & Ht & Hl & Hsl); [by rewrite Hr|].
  exists a'. split; [done|]. split; [|done]. unfold tables in Ht. injection Ht as T1 T2 T3 T4.
  destruct (ctl_view a a' m Hk) as (_ & _ & E3 & E4). constructor.
  - congruence.
  - congruence.
  - intros m'. specialize (Hc m'). destruct m'; simpl in *; congruence.
  - by rewrite T1, T4.
  - intros x. by rewrite E4, T1.
  - by rewrite T1.
  - intros m' j r Hj. rewrite Hsl by done. case_decide as E; [|by apply Hs].
    injection E as -> ->. apply He.
Qed.

Lemma key_lat r lat : key (r <| mt_lat := lat |>) = key r.
Proof. done. Qed.

(** Channels as seen by operations on one of them. *)
Definition same_chan m a a' : Prop := serving m a' = serving m a ∧ busy m a' = busy m a.

Lemma set_fields m v w a : let a' := set_busy m v (set_serving m w a) in
  serving m a' = w ∧ busy m a' = v ∧ same_chan (other m) a a' ∧
  (∀ m' j, slot m' j a' = slot m' j a) ∧ (∀ t k, base_inv t k a → base_inv t k a').
Proof.
  split; [by destruct m|]. split; [by destruct m|]. split; [by destruct m|].
  split; [by destruct m|]. intros t k []. destruct m; constructor; try done.
Qed.

(** Starting a request: its channel serves it, all keys stay where they are. *)
Lemma serve_Ok t k a m i req now start : base_inv t k a → 0 < k → 0 <= now → t <= now <= H →
  0 <= i < n → slot m i a = Some req → start = now ∨ start = now + 1 →
  ∃ a', serve m i req now start a = Ok a' ∧ base_inv now (k - 1) a' ∧ chan_ok now m a' ∧
    same_chan (other m) a a' ∧ (∀ m' j, 0 <= j → key <$> slot m' j a' = key <$> slot m' j a) ∧
    serving m a' = i ∧ start <= busy m a' <= start + M.
Proof.
  intros Hb Hk Hnow Ht Hi Hsl Hst. destruct (f_slots _ _ _ Hb m i req) as (Eid & Em & Hok); [lia | done |].
  destruct (lat_of_Ok t k a req now Hb Hk Hnow Ht Hok) as (lat & a1 & Hlat & Hb1 & Hc1 & Hr1 & Hl).
  unfold serve. rewrite Hlat. cbn [mbind res_bind].
  destruct (set_slot_inv now (k - 1) a1 m i (Some (req <| mt_lat := lat |>)) Hb1 Hi) as (a2 & -> & Hb2 & Hc2 & Hs2).
  { intros r [= <-]. done. }
  cbn [mbind res_bind]. rewrite u64_small by (unfold InfTime in *; lia).
  destruct (set_fields m (start + lat) (mt_id req) a2) as (F1 & F2 & F3 & F4 & F5).
  set (a3 := set_busy m (start + lat) (set_serving m (mt_id req) a2)) in *.
  assert (∀ m' j, slot m' j a1 = slot m' j a) as Hsl1 by (intros; unfold slot; by rewrite Hr1).
  exists a3. split; [done|]. split; [by apply F5|]. split; [|split; [|split; [|split]]].
  - right. exists (req <| mt_lat := lat |>). rewrite F1, F2, Eid, F4, Hs2 by lia. rewrite decide_True by done.
    split; [done|]. split; [done|]. lia.
  - destruct F3 as [F3 F3']. destruct (ctl_view a1 a2 (other m) Hc2) as (E1 & E2 & _).
    destruct (ctl_view a a1 (other m) Hc1) as (E3 & E4 & _). split; congruence.
  - intros m' j Hj. rewrite F4, Hs2 by done. case_decide as E; [|by rewrite Hsl1].
    injection E as -> ->. by rewrite Hsl.
  - by rewrite F1.
  - rewrite F2. lia.
Qed.

Lemma recv_req_Ok t k a req now : base_inv t k a → 0 < k → 0 <= now → t <= now <= H → req_ok req →
  free a req = true → busy (mt_mop req) a ≠ InfTime ∨ chan_ok now (mt_mop req) a →
  ∃ a', recv_req req now a = Ok a' ∧ base_inv now (k - 1) a' ∧
    same_chan (other (mt_mop req)) a a' ∧
    (busy (mt_mop req) a ≠ InfTime ∧ same_chan (mt_mop req) a a' ∨
     busy (mt_mop req) a = InfTime ∧ chan_ok now (mt_mop req) a') ∧
    (∀ m j, 0 <= j → key <$> slot m j a' =
       if decide ((m, j) = (mt_mop req, mt_id req)) then Some (key req) else key <$> slot m j a).
Proof.
  intros Hb Hk Hnow Ht Hok Hfree Hch. pose proof Hok as [Hid _]. set (m := mt_mop req) in *.
  destruct (vec_at_lt (reqs_ a) (mt_id req)) as [p Hp]; [by rewrite (f_reqs _ _ _ Hb)|].
  unfold recv_req. fold m. rewrite Hp. cbn [mbind res_bind].
  unfold free in Hfree. fold m in Hfree. rewrite (slot_at m _ _ _ Hp) in Hfree.
  destruct (slot_of m p); [done|]. cbn [assert_ mbind res_bind].
  destruct (set_slot_inv t k a m (mt_id req) (Some req) Hb Hid) as (a1 & -> & Hb1 & Hc1 & Hs1).
  { intros r [= <-]. done. }
  cbn [mbind res_bind]. destruct (ctl_view a a1 m Hc1) as (E1 & E2 & _).
  destruct (ctl_view a a1 (other m) Hc1) as (E3 & E4 & _). rewrite E2.
  assert (∀ m' j, 0 <= j → key <$> slot m' j a1 =
    if decide ((m', j) = (m, mt_id req)) then Some (key req) else key <$> slot m' j a) as Hkey.
  { intros m' j Hj. rewrite Hs1 by done. by case_decide. }
  destruct (Z.eqb_spec (busy m a) InfTime) as [Hinf|Hne].
  - destruct (serve_Ok t k a1 m (mt_id req) req now now Hb1 Hk Hnow Ht Hid)
      as (a2 & -> & Hb2 & Hch2 & [G1 G2] & Hkey2 & _); [rewrite Hs1 by lia; by rewrite decide_True | by left |].
    exists a2. split; [done|]. split; [done|]. split; [split; congruence|].
    split; [by right|]. intros m' j Hj. by rewrite Hkey2, Hkey.
  - exists a1. split; [done|]. split; [apply (base_inv_later t k); [done | lia | lia]|].
    split; [done|]. split; [by left|]. done.
Qed.

(** *** Conservation *)

Lemma NoDup_zrange z : NoDup (zrange z).
Proof.
  unfold zrange. generalize (seq 0 (Z.to_nat z)) (NoDup_seq 0 (Z.to_nat z)). intros l.
  induction 1 as [|x l Hx _ IH]; simpl; constructor; [|done].
  rewrite list_elem_of_fmap. intros (y & E & Hy). by assert (x = y) as -> by lia.
Qed.

Lemma pending_upd m a a' i : hosts_ a = n → hosts_ a' = n → 0 <= i < n →
  (∀ j, 0 <= j → j ≠ i → key <$> slot m j a' = key <$> slot m j a) →
  option_list (key <$> slot m i a) ++ pending m a' ≡ₚ option_list (key <$> slot m i a') ++ pending m a.
Proof.
  intros E E' Hi Hj. unfold pending. rewrite E, E'.
  apply (collect_upd (λ j, key <$> slot m j a) (λ j, key <$> slot m j a')); [apply NoDup_zrange | by apply elem_of_zrange |].
  intros j Hj2 Hne. apply elem_of_zrange in Hj2. apply Hj; [lia | done].
Qed.

Lemma pending_same m a a' : hosts_ a' = hosts_ a →
  (∀ j, 0 <= j → key <$> slot m j a' = key <$> slot m j a) → pending m a' = pending m a.
Proof.
  intros E Hj. unfold pending. rewrite E. apply collect_ext. intros j Hr. apply elem_of_zrange in Hr.
  apply Hj. lia.
Qed.

Definition pend a : list MemTrans := pending Read a ++ pending Write a.

(** One slot changed from [e] to [e']. *)
Lemma pend_upd m a a' i : hosts_ a = n → hosts_ a' = n → 0 <= i < n →
  (∀ m' j, 0 <= j → (m', j) ≠ (m, i) → key <$> slot m' j a' = key <$> slot m' j a) →
  option_list (key <$> slot m i a) ++ pend a' ≡ₚ option_list (key <$> slot m i a') ++ pend a.
Proof.
  intros E E' Hi Hj. unfold pend.
  pose proof (pending_upd m a a' i E E' Hi ltac:(intros; apply Hj; congruence)) as Hm.
  assert (pending (other m) a' = pending (other m) a) as Ho
    by (apply pending_same; [congruence|]; intros; apply Hj; [done | by destruct m]).
  destruct m; simpl in Ho; rewrite Ho.
  - by rewrite !(assoc_L (++)), Hm.
  - rewrite (Permutation_app_swap_app (option_list _)), Hm. apply Permutation_app_swap_app.
Qed.

(** [mid = Some m]: channel [m] has given up its request and not yet chosen the
    next one. *)
Record inv (mid : option MemRWOpt) (k : Z) a (h : Hosts) : Prop := {
  v_base : base_inv (h_tick h) k a;
  v_tick : 0 <= h_tick h <= H;
  v_chan m : if decide (mid = Some m) then busy m a ≠ InfTime else chan_ok (h_tick h) m a;
  v_script : Forall (λ e, match e with Some r => req_ok r | None => True end) (h_script h);
  v_acc : key <$> h_acc h ≡ₚ (key <$> h_log h) ++ pend a
}.

Lemma inv_fewer mid k k' a h : inv mid k a h → 0 <= k' <= k → inv mid k' a h.
Proof. intros [] Hk. constructor; try done. apply (base_inv_later (h_tick h) k); [done | lia | done]. Qed.

Definition quiet (h h' : Hosts) : Prop := h_tick h' = h_tick h ∧ h_log h' = h_log h ∧ h_script h' = h_script h.

Lemma chan_ok_same now m a a' : chan_ok now m a → same_chan m a a' →
  (∀ j, 0 <= j → key <$> slot m j a' = key <$> slot m j a) → chan_ok now m a'.
Proof.
  intros Hc [E1 E2] Hs. unfold chan_ok. rewrite E1, E2. destruct Hc as [(H1 & H2 & H3) | (r & H1 & H2 & H3)].
  - left. split; [done|]. split; [done|]. intros j Hj. specialize (Hs j Hj). rewrite (H3 j Hj) in Hs.
    by destruct (slot m j a').
  - right. specialize (Hs (serving m a) ltac:(lia)). rewrite H2 in Hs.
    destruct (slot m (serving m a) a') as [r'|] eqn:E; [|done]. by exists r'.
Qed.

(** A request is accepted whenever its slot is free. *)
Lemma accept_Ok mid k a h req : inv mid k a h → 0 < k → req_ok req → free a req = true →
  ∃ a', recv_req req (h_tick h) a = Ok a' ∧ inv mid (k - 1) a' (h <| h_acc ::= cons req |>) ∧
    (∀ m j, 0 <= j → key <$> slot m j a' =
       if decide ((m, j) = (mt_mop req, mt_id req)) then Some (key req) else key <$> slot m j a).
Proof.
  intros Hi Hk Hok Hfree. pose proof Hi as [Hb Ht Hch Hsc Hacc]. pose proof (Hch (mt_mop req)) as Hm.
  destruct (recv_req_Ok (h_tick h) k a req (h_tick h)) as (a' & Ea & Hb' & Ho & Hself & Hkey);
    [done | done | lia | lia | done | done | case_decide; auto |].
  exists a'. split; [done|]. split; [|done].
  assert (hosts_ a' = n ∧ hosts_ a = n) as [Eh' Eh] by (split; eapply f_hosts; eassumption).
  constructor; try done.
  - intros m. specialize (Hch m). destruct (decide (m = mt_mop req)) as [->|Hne].
    + destruct Hself as [[Hbz [E1 E2]] | [Hbz Hok']].
      * revert Hch. destruct (decide (mid = Some _)); intros Hch; [by rewrite E2|]. unfold chan_ok. rewrite E1, E2.
        destruct Hch as [(H1 & H2 & H3) | (r & H1 & H2 & H3)]; [by rewrite H2 in Hbz|]. right.
        specialize (Hkey (mt_mop req) (serving (mt_mop req) a) ltac:(lia)). rewrite H2 in Hkey.
        destruct (slot (mt_mop req) (serving (mt_mop req) a) a') as [r'|] eqn:E; [by exists r'|].
        by case_decide.
      * revert Hch. destruct (decide (mid = Some _)); intros Hch; [done | exact Hok'].
    + assert (m = other (mt_mop req)) as -> by (by destruct m, (mt_mop req)).
      revert Hch. destruct (decide (mid = Some (other _))); intros Hch; [destruct Ho as [_ Eb]; rewrite Eb; exact Hch|].
      apply (chan_ok_same _ _ a a'); [done | done |]. intros j Hj. rewrite Hkey by done.
      rewrite decide_False; [done|]. intros [= E]. by destruct (mt_mop req).
  - simpl. rewrite Hacc. pose proof (pend_upd (mt_mop req) a a' (mt_id req) Eh Eh') as Hp.
    specialize (Hp ltac:(apply Hok)). rewrite Hkey, decide_True in Hp by (done || apply Hok).
    unfold free in Hfree. destruct (slot (mt_mop req) (mt_id req) a); [done|]. simpl in Hp.
    rewrite Hp.
    + apply Permutation_middle.
    + intros m' j Hj Hne. rewrite Hkey by done. by rewrite decide_False.
Qed.

Lemma issue_wp mid k a h req : inv mid k a h → 0 < k → req_ok req →
  wp (issue req) (λ _ s', inv mid (k - 1) s'.1 s'.2 ∧ quiet h s'.2) (a, h).
Proof.
  intros Hi Hk Hok. unfold issue, wp. destruct (free a req) eqn:Hfree.
  - by destruct (accept_Ok mid k a h req Hi Hk Hok Hfree) as (a' & -> & Hi' & _).
  - split; [apply (inv_fewer mid k); [done | lia] | done].
Qed.

Lemma wp_arb {E} `{HostEnv E} Q (s : RAMArbiter * E) : wp arb Q s ↔ Q s.1 s.
Proof. done. Qed.
Lemma wp_arb_now {E} `{HostEnv E} Q (s : RAMArbiter * E) : wp arb_now Q s ↔ Q (arb_tick s.2) s.
Proof. done. Qed.
Lemma wp_set_arb {E} `{HostEnv E} (f : RAMArbiter → res RAMArbiter) Q (s : RAMArbiter * E) :
  wp (set_arb f) Q s ↔ ∃ a, f s.1 = Ok a ∧ Q tt (a, s.2).
Proof.
  unfold wp, set_arb. destruct (f s.1) as [a|x]; split; [eauto | | done |].
  - intros (? & [= ->] & ?); done.
  - by intros (? & ? & ?).
Qed.

(** The state after a channel has chosen: idle and empty, or serving the
    highest host id with a request. *)
Definition chosen m a now : Prop :=
  serving m a = no_host ∧ (∀ j, 0 <= j → slot m j a = None) ∨
  0 <= serving m a < n ∧ slot m (serving m a) a ≠ None ∧ (∀ j, serving m a < j → slot m j a = None) ∧
    busy m a <= now + 1 + M.

Lemma pick_next_wp m k a h : inv (Some m) k a h → 0 < k →
  wp (pick_next m) (λ _ s', inv None (k - 1) s'.1 s'.2 ∧ s'.2 = h ∧ same_chan (other m) a s'.1 ∧
    (∀ m' j, 0 <= j → key <$> slot m' j s'.1 = key <$> slot m' j a) ∧ chosen m s'.1 (h_tick h)) (a, h).
Proof.
  intros Hi Hk. pose proof Hi as [Hb Ht Hch Hsc Hacc].
  unfold pick_next. rewrite !wp_bind, wp_set_arb. eexists. split; [done|]. rewrite wp_bind, wp_arb. cbn [fst snd].
  rewrite wp_bind, wp_arb_now. cbn [fst snd arb_tick scripted_hosts].
  set (a1 := set_serving m no_host (set_busy m InfTime a)).
  assert (serving m a1 = no_host ∧ busy m a1 = InfTime ∧ same_chan (other m) a a1 ∧
    (∀ m' j, slot m' j a1 = slot m' j a) ∧ base_inv (h_tick h) k a1 ∧ hosts_ a1 = hosts_ a)
    as (F1 & F2 & [F3 F3'] & F4 & F5 & F6).
  { destruct (set_fields m InfTime no_host a) as (G1 & G2 & G3 & G4 & G5).
    assert (a1 = set_busy m InfTime (set_serving m no_host a)) as -> by (by destruct m).
    split; [done|]. split; [done|]. split; [done|]. split; [done|]. split; [by apply G5 | by destruct m]. }
  assert (chan_ok (h_tick h) (other m) a) as Hoth.
  { specialize (Hch (other m)). rewrite decide_False in Hch; [done | by destruct m]. }
  pose proof (last_req_slot m a1) as Hlast. destruct (last_req m 0 (reqs_ a1)) as [[i req]|].
  - destruct Hlast as (Hir & Hsl & Hmax). rewrite (f_reqs _ _ _ F5) in Hir.
    rewrite wp_set_arb. cbn [fst snd].
    destruct (serve_Ok (h_tick h) k a1 m i req (h_tick h) (h_tick h + 1))
      as (a2 & -> & Hb2 & Hch2 & [G1 G2] & Hkey & Hsv & Hbz);
      [done | done | lia | lia | done | done | by right |].
    assert (hosts_ a2 = n ∧ hosts_ a = n) as [Eh2 Eh] by (split; eapply f_hosts; eassumption).
    eexists. split; [done|]. cbn [fst snd].
    assert (∀ m' j, 0 <= j → key <$> slot m' j a2 = key <$> slot m' j a) as Hkey'
      by (intros; rewrite Hkey by done; by rewrite F4).
    assert (same_chan (other m) a a2) as Hsame by (split; congruence).
    split; [|split; [done|]; split; [done|]; split; [done|]; right].
    + constructor; try done.
      * intros m'. rewrite decide_False by done. destruct (decide (m' = m)) as [->|]; [done|].
        assert (m' = other m) as -> by (by destruct m, m').
        apply (chan_ok_same _ _ a a2); [done | done |]. intros; by apply Hkey'.
      * rewrite Hacc. unfold pend. rewrite !(pending_same _ a a2); [done | congruence | | congruence |];
          intros; by apply Hkey'.
    + rewrite Hsv. split; [done|]. split; [|split; [|lia]].
      * specialize (Hkey m i ltac:(lia)). rewrite Hsl in Hkey. by destruct (slot m i a2).
      * intros j Hj. specialize (Hkey m j ltac:(lia)). rewrite (Hmax j Hj) in Hkey. by destruct (slot m j a2).
  - rewrite wp_ret. cbn [fst snd]. split; [|split; [done|]; split; [by split|]; split; [|left]].
    + constructor; try done.
      * apply (base_inv_later (h_tick h) k); [done | lia | lia].
      * intros m'. rewrite decide_False by done. destruct (decide (m' = m)) as [->|].
        { left. split; [done|]. split; [done|]. intros j _. apply Hlast. }
        assert (m' = other m) as -> by (by destruct m, m').
        apply (chan_ok_same _ _ a a1); [done | by split |]. intros; by rewrite F4.
      * rewrite Hacc. unfold pend. by rewrite !(pending_same _ a a1) by (done || intros; by rewrite F4).
    + intros; by rewrite F4.
    + split; [done|]. intros j _. apply Hlast.
Qed.

(** What the completed request leaves behind. *)
Definition answered m a h (h' : Hosts) : Prop :=
  ∃ r, slot m (serving m a) a = Some r ∧ h_log h' = (r <| mt_dir := Resp |>) :: h_log h ∧
    h_tick h' = h_tick h ∧ h_script h' = tail (h_script h).

(** The request of a channel that is due leaves its slot. *)
Lemma release_Ok m k a h : inv None k a h → serving m a ≠ no_host → busy m a <= h_tick h →
  ∃ r p a1, slot m (serving m a) a = Some r ∧ 0 <= serving m a < n ∧ mt_id r = serving m a ∧ mt_mop r = m ∧
    hosts_ a = n ∧ vec_at (reqs_ a) (serving m a) = Ok p ∧ slot_of m p = Some r ∧
    set_slot m (serving m a) None a = Ok a1 ∧ ctl a1 = ctl a ∧
    inv (Some m) k a1 (h <| h_log ::= cons (r <| mt_dir := Resp |>) |>) ∧
    (∀ m' j, 0 <= j → slot m' j a1 = if decide ((m', j) = (m, serving m a)) then None else slot m' j a).
Proof.
  intros Hi Hsv Hbz. pose proof Hi as [Hb Ht Hch Hsc Hacc].
  destruct (Hch m) as [(? & _) | (r & Hsr & Hslot & Hbr)]; [done|].
  destruct (f_slots _ _ _ Hb m (serving m a) r) as (Eid & Em & Hok); [lia | done |].
  destruct (vec_at_lt (reqs_ a) (serving m a)) as [p Hp]; [by rewrite (f_reqs _ _ _ Hb)|].
  destruct (set_slot_inv (h_tick h) k a m (serving m a) None Hb Hsr) as (a1 & Ha1 & Hb1 & Hc1 & Hs1); [done|].
  exists r, p, a1. split; [done|]. split; [done|]. split; [done|]. split; [done|]. split; [apply Hb|]. split; [done|].
  split; [by rewrite <- (slot_at m _ _ _ Hp)|]. split; [done|]. split; [done|]. split; [|done].
  destruct (ctl_view a a1 m Hc1) as (_ & E2 & _). destruct (ctl_view a a1 (other m) Hc1) as (E3 & E4 & _).
  assert (hosts_ a1 = n ∧ hosts_ a = n) as [Eh1 Eh] by (split; eapply f_hosts; eassumption).
  assert (∀ m' j, 0 <= j → (m', j) ≠ (m, serving m a) → key <$> slot m' j a1 = key <$> slot m' j a) as Hkey1
    by (intros; rewrite Hs1 by done; by rewrite decide_False).
  constructor; try done.
  - intros m'. destruct (decide (Some m = Some m')) as [[= <-]|Hne]; [rewrite E2; lia|].
    assert (m' = other m) as -> by (by destruct m, m').
    apply (chan_ok_same _ _ a a1); [specialize (Hch (other m)); by rewrite decide_False in Hch | by split |].
    intros. apply Hkey1; [done | by destruct m].
  - simpl. rewrite Hacc. pose proof (pend_upd m a a1 (serving m a) Eh Eh1 Hsr Hkey1) as Hpd.
    rewrite Hs1, decide_True, Hslot in Hpd by (done || lia). simpl in Hpd. rewrite <- Hpd.
    change (key (r <| mt_dir := Resp |>)) with (key r). symmetry. apply Permutation_middle.
Qed.

Lemma complete_wp m k a h : inv None k a h → 2 <= k →
  wp (complete m) (λ _ s', inv None (k - 2) s'.1 s'.2 ∧
    (if (busy m a <=? h_tick h) && negb (serving m a =? no_host)
     then answered m a h s'.2 ∧ chosen m s'.1 (h_tick h) ∧
          (h_script h = [] → same_chan (other m) a s'.1 ∧ zlen (pending m s'.1) + 1 = zlen (pending m a) ∧
             pending (other m) s'.1 = pending (other m) a)
     else s' = (a, h))) (a, h).
Proof.
  intros Hi Hk. pose proof Hi as [Hb Ht Hch Hsc Hacc].
  unfold complete. rewrite wp_bind, wp_arb, wp_bind, wp_arb_now. cbn [fst snd arb_tick scripted_hosts].
  destruct ((busy m a <=? h_tick h) && negb (serving m a =? no_host)) eqn:Hc.
  2:{ rewrite wp_ret. split; [apply (inv_fewer None k); [done | lia] | done]. }
  apply andb_true_iff in Hc as [Hbz%Z.leb_le Hsv%negb_true_iff%Z.eqb_neq].
  destruct (release_Ok m k a h Hi Hsv Hbz) as (r & p & a1 & Hslot & Hsr & _ & _ & Eh & Hp & Hp2 & Ha1 & Hc1 & Hi1 & Hs1).
  rewrite wp_bind, wp_lift. exists p. split; [done|]. rewrite wp_bind, wp_lift. exists r. rewrite Hp2. split; [done|].
  rewrite wp_bind, wp_lift. exists tt. rewrite Eh, (proj2 (Z.ltb_lt _ _)) by lia. split; [done|].
  rewrite wp_bind, wp_set_arb. cbn [fst snd]. exists a1. split; [done|]. cbn [fst snd].
  destruct (ctl_view a a1 m Hc1) as (E1 & E2 & Eh1' & _). destruct (ctl_view a a1 (other m) Hc1) as (E3 & E4 & E5 & _).
  assert (hosts_ a1 = n) as Eh1 by congruence.
  set (h1 := h <| h_log ::= cons (r <| mt_dir := Resp |>) |>) in *.
  assert (∀ m' j, 0 <= j → (m', j) ≠ (m, serving m a) → key <$> slot m' j a1 = key <$> slot m' j a) as Hkey1
    by (intros; rewrite Hs1 by done; by rewrite decide_False).
  assert (slot m (serving m a) a1 = None) as Hnone by (rewrite Hs1 by lia; by rewrite decide_True).
  assert (∃ k2, k - 1 <= k2 ∧ wp (host_recv (serving m a) (r <| mt_dir := Resp |>))
    (λ _ s', inv (Some m) (k - 1) s'.1 s'.2 ∧ h_tick s'.2 = h_tick h ∧ h_log s'.2 = h_log h1 ∧
       h_script s'.2 = tail (h_script h) ∧ (h_script h = [] → s' = (a1, h1))) (a1, h)) as (_ & _ & Hrecv).
  { exists k. split; [lia|]. unfold wp, host_recv, scripted_hosts. fold h1.
    change (h_script h1) with (h_script h). destruct (h_script h) as [|[req|] rest] eqn:Esc.
    - split; [apply (inv_fewer _ k); [done | lia]|]. done.
    - set (h2 := h1 <| h_script := rest |>). apply Forall_cons_iff in Hsc as [Hreq Hrest].
      assert (inv (Some m) k a1 h2) as Hi2 by (destruct Hi1; by constructor).
      pose proof (issue_wp (Some m) k a1 h2 req Hi2 ltac:(lia) Hreq) as Hw. unfold wp in Hw.
      destruct (issue req (a1, h2)) as [[? [a3 h3]]|]; [|done]. destruct Hw as (Hi3 & Hq1 & Hq2 & Hq3).
      split; [done|]. done.
    - apply Forall_cons_iff in Hsc as [_ Hrest].
      split; [|done]. apply (inv_fewer _ k); [|lia]. destruct Hi1; by constructor. }
  rewrite wp_bind. eapply wp_mono; [exact Hrecv|]. clear Hrecv.
  intros _ [a2 h2] (Hi2 & Ht2 & Hl2 & Hsc2 & Hempty). cbn [fst snd] in *.
  eapply wp_mono; [apply (pick_next_wp m (k - 1) a2 h2 Hi2); lia|].
  intros _ [a3 h3] (Hi3 & Eh32 & Hsame & Hkey3 & Hchosen). cbn [fst snd] in *. subst h3.
  split; [replace (k - 2) with (k - 1 - 1) by lia; exact Hi3|].
  split; [by exists r|]. split; [by rewrite <- Ht2|].
  intros He. specialize (Hempty He). injection Hempty as -> ->.
  assert (hosts_ a3 = n) as Eh3 by (eapply f_hosts; apply (v_base _ _ _ _ Hi3)).
  split; [destruct Hsame; split; congruence|]. split.
  - assert (pending m a3 = pending m a1) as -> by (apply pending_same; [congruence|]; intros; by apply Hkey3).
    pose proof (pending_upd m a a1 (serving m a) Eh Eh1 Hsr) as Hpu. rewrite Hslot, Hnone in Hpu.
    apply Permutation_length in Hpu; [simpl in Hpu; unfold zlen; lia|]. intros. apply Hkey1; [done|congruence].
  - apply pending_same; [congruence|]. intros j Hj. rewrite Hkey3 by done. apply Hkey1; [done|]. by destruct m.
Qed.

(** *** Any hosts

    The same steps for hosts of which only the clock is known: what the arbiter
    itself keeps is [inv] with some record of what was accepted and answered. *)

Definition arb_ok (mid : option MemRWOpt) (k now : Z) a : Prop :=
  ∃ h, inv mid k a h ∧ h_tick h = now ∧ h_script h = [].

Lemma arb_fewer mid k k' now a : arb_ok mid k now a → 0 <= k' <= k → arb_ok mid k' now a.
Proof. intros (h & Hi & Hrest) Hk. exists h. split; [by apply (inv_fewer mid k) | done]. Qed.

Lemma arb_accept mid k now a req : arb_ok mid k now a → 0 < k → req_ok req → free a req = true →
  ∃ a', recv_req req now a = Ok a' ∧ arb_ok mid (k - 1) now a' ∧
    (∀ m j, 0 <= j → key <$> slot m j a' =
       if decide ((m, j) = (mt_mop req, mt_id req)) then Some (key req) else key <$> slot m j a).
Proof.
  intros (h & Hi & <- & Hsc) Hk Hok Hfree. destruct (accept_Ok mid k a h req Hi Hk Hok Hfree) as (a' & Ha & Hi' & Hkey).
  exists a'. split; [done|]. split; [by eexists | done].
Qed.

Lemma arb_pick {E} `{HostEnv E} m k now a (e : E) : arb_ok (Some m) k now a → 0 < k → arb_tick e = now →
  wp (pick_next m) (λ _ s', s'.2 = e ∧ arb_ok None (k - 1) now s'.1 ∧
    (∀ m' j, 0 <= j → key <$> slot m' j s'.1 = key <$> slot m' j a)) (a, e).
Proof.
  intros (h & Hi & Ht & Hsc) Hk He. pose proof (pick_next_wp m k a h Hi Hk) as Hw. revert Hw.
  unfold wp, pick_next, mbind, ST_bind, set_arb, arb, arb_now, gets. cbn [fst snd mret res_ret]. rewrite He.
  change (arb_tick h) with (h_tick h). rewrite Ht.
  set (a1 := set_serving m no_host _). destruct (last_req m 0 (reqs_ a1)) as [[i req]|].
  - cbn [fst snd]. destruct (serve m i req now (now + 1) a1) as [a2|]; [|done]. cbn [fst snd].
    intros (Hi' & _ & _ & Hkey & _). split; [done|]. split; [by exists h | done].
  - cbn [mret ST_ret fst snd]. intros (Hi' & _ & _ & Hkey & _). split; [done|]. split; [by exists h | done].
Qed.

Lemma arb_complete {E} `{HostEnv E} m k now a (e : E) (Q : unit → RAMArbiter * E → Prop) :
  arb_ok None k now a → arb_tick e = now → 2 <= k → Q tt (a, e) →
  (∀ r a1, slot m (serving m a) a = Some r → 0 <= serving m a < n → mt_id r = serving m a → mt_mop r = m →
     arb_ok (Some m) k now a1 →
     (∀ m' j, 0 <= j → slot m' j a1 = if decide ((m', j) = (m, serving m a)) then None else slot m' j a) →
     wp (host_recv (serving m a) (r <| mt_dir := Resp |>)) (λ _ s', arb_tick s'.2 = now ∧
       ∃ k', 0 < k' ∧ arb_ok (Some m) k' now s'.1 ∧
       (∀ a2, arb_ok None (k' - 1) now a2 →
          (∀ m' j, 0 <= j → key <$> slot m' j a2 = key <$> slot m' j s'.1) → Q tt (a2, s'.2))) (a1, e)) →
  wp (complete m) Q (a, e).
Proof.
  intros (h & Hi & Ht & Hsc) He Hk Hsame Hdue. unfold complete.
  rewrite wp_bind, wp_arb, wp_bind, wp_arb_now. cbn [fst snd]. rewrite He.
  destruct ((busy m a <=? now) && negb (serving m a =? no_host)) eqn:Hc; [|by rewrite wp_ret].
  apply andb_true_iff in Hc as [Hbz%Z.leb_le Hsv%negb_true_iff%Z.eqb_neq].
  destruct (release_Ok m k a h Hi Hsv) as (r & p & a1 & Hslot & Hsr & Hid & Hm & Eh & Hp & Hp2 & Ha1 & Hc1 & Hi1 & Hs1);
    [by rewrite Ht|].
  rewrite wp_bind, wp_lift. exists p. split; [done|]. rewrite wp_bind, wp_lift. exists r. rewrite Hp2. split; [done|].
  rewrite wp_bind, wp_lift. exists tt. rewrite Eh, (proj2 (Z.ltb_lt _ _)) by lia. split; [done|].
  rewrite wp_bind, wp_set_arb. cbn [fst snd]. exists a1. split; [done|]. cbn [fst snd].
  assert (arb_ok (Some m) k now a1) as Hok1 by (by eexists).
  rewrite wp_bind. eapply wp_mono; [by apply (Hdue r a1)|]. intros _ [a2 e2] (He2 & k' & Hk' & Hok2 & HQ).
  cbn [fst snd] in *.
  eapply wp_mono; [by apply (arb_pick m k' now a2 e2)|]. intros [] [a3 e3] (Ee & Hok3 & Hkey).
  cbn [fst snd] in *. subst e3. by apply HQ.
Qed.

(** Resetting the statistics leaves the requests and the channels alone. *)
Lemma arb_reset mid k now a : arb_ok mid k now a →
  arb_ok mid k now (reset_stats a) ∧ ∀ m j, slot m j (reset_stats a) = slot m j a.
Proof.
  intros (h & [[Hh Hr Hc [Hd1 Hd2] Hm Hdv Hs] Ht Hch Hsc Hacc] & Hrest). split; [|done]. exists h. split; [|done].
  assert (∀ (l : list Z), zlen (map (λ _, 0) l) = zlen l) as Hmap by (intros; unfold zlen; by rewrite length_map).
  constructor; try done.
  - constructor; try done.
    + intros m. specialize (Hc m). destruct m; simpl in *; by rewrite Hmap.
    + simpl. split; [unfold zlen in *; by rewrite length_map|]. apply Forall_fmap. eapply Forall_impl; [|exact Hd2].
      intros row Hrow. simpl in *. rewrite Hmap. unfold zlen in *. by rewrite length_map.
    + intros addr. simpl. specialize (Hm addr). unfold zlen in *. by rewrite length_map.
    + simpl. apply Forall_fmap. eapply Forall_impl; [|exact Hdv]. intros d. apply dok_reset.
Qed.

(** *** Runs *)

(** Time a channel needs until it is empty, if nothing arrives. *)
Definition debt m a now : Z :=
  if serving m a =? no_host then 0
  else 1 + (zlen (pending m a) - 1) * (M + 2) + Z.max 0 (busy m a - now).

Lemma debt_other m m' a a' now : m' ≠ m → same_chan (other m) a a' →
  pending (other m) a' = pending (other m) a → debt m' a' now = debt m' a now.
Proof.
  intros Hne [E1 E2] Ep. assert (m' = other m) as -> by (by destruct m, m').
  unfold debt. by rewrite E1, E2, Ep.
Qed.

Lemma complete_debt m k a h : inv None k a h → 2 <= k → h_script h = [] →
  wp (complete m) (λ _ s', inv None (k - 2) s'.1 s'.2 ∧ h_tick s'.2 = h_tick h ∧ h_script s'.2 = [] ∧
    (∀ m', m' ≠ m → busy m' s'.1 = busy m' a ∧ debt m' s'.1 (h_tick h) = debt m' a (h_tick h)) ∧
    debt m s'.1 (h_tick h) <= (if busy m a <=? h_tick h then Z.max 0 (debt m a (h_tick h) - 1)
                               else debt m a (h_tick h))) (a, h).
Proof.
  intros Hi Hk He. eapply wp_mono; [by apply (complete_wp m k a h)|].
  intros _ [a' h'] [Hi' Hc]. cbn [fst snd] in *. destruct (Z.eqb_spec (serving m a) no_host) as [Eno|Eno].
  - rewrite andb_false_r in Hc. injection Hc as -> ->. split; [done|]. split; [done|]. split; [done|]. split; [done|]. unfold debt.
    rewrite Eno, Z.eqb_refl. destruct (busy m a <=? h_tick h); lia.
  - destruct (Z.leb_spec (busy m a) (h_tick h)); cbn [negb andb] in Hc.
    2:{ injection Hc as -> ->. by repeat (split; [done|]). }
    destruct Hc as ((r & _ & _ & Ht & Hsc) & Hch & Hrest). destruct (Hrest He) as (Hsame & Hp & Hpo).
    rewrite He in Hsc. split; [done|]. split; [done|]. split; [done|].
    split.
    { intros m' Hne. split; [|by apply (debt_other m)].
      assert (m' = other m) as -> by (by destruct m, m'). apply Hsame. }
    unfold debt at 2. rewrite (proj2 (Z.eqb_neq _ _) Eno). pose proof (zlen_nonneg (pending m a')).
    destruct Hch as [[E _] | (Hr & _ & _ & Hb)]; unfold debt.
    + rewrite E, Z.eqb_refl. lia.
    + rewrite (proj2 (Z.eqb_neq (serving m a') no_host)) by lia. nia.
Qed.

Lemma inv_tick k a h : inv None k a h → h_tick h + 1 <= H → 0 <= k → inv None k a (h <| h_tick ::= Z.succ |>).
Proof.
  intros [Hb Ht Hch Hsc Hacc] Hle Hk. constructor; try done; simpl.
  - apply (base_inv_later (h_tick h) k); [done | lia | lia].
  - lia.
  - intros m. specialize (Hch m). rewrite decide_False in * by done.
    destruct Hch as [? | (r & H1 & H2 & H3)]; [by left | right]. exists r. split; [done|]. split; [done|]. lia.
Qed.

Lemma arb_later k now a : arb_ok None k now a → now + 1 <= H → 0 <= k → arb_ok None k (now + 1) a.
Proof.
  intros (h & Hi & <- & Hsc) Hle Hk. exists (h <| h_tick ::= Z.succ |>). split; [by apply inv_tick | by split; [simpl|]].
Qed.

Definition op_ok (o : op) : Prop := match o with ORequest r => req_ok r | _ => True end.

Lemma fabric_do_update_wp k a h : inv None k a h → 4 <= k →
  wp do_update (λ _ s', inv None (k - 4) s'.1 s'.2 ∧ h_tick s'.2 = h_tick h) (a, h).
Proof.
  intros Hi Hk. unfold do_update. rewrite wp_bind, wp_arb, wp_bind, wp_arb_now. cbn [fst snd].
  destruct (next_update a <=? _); [|rewrite wp_ret; split; [apply (inv_fewer None k); [done | lia] | done]].
  assert (∀ m k a h, inv None k a h → 2 <= k → wp (complete m) (λ _ s', inv None (k - 2) s'.1 s'.2 ∧ h_tick s'.2 = h_tick h) (a, h))
    as Hcomp.
  { intros m k' a' h' Hi' Hk'. eapply wp_mono; [by apply (complete_wp m k' a' h')|].
    intros _ [a2 h2] [Hi2 Hc]. cbn [fst snd] in *. split; [done|].
    destruct (_ && _); [|by injection Hc as -> ->]. by destruct Hc as ((? & _ & _ & ? & _) & _). }
  unfold update_impl. rewrite wp_bind. eapply wp_mono; [apply (Hcomp Read k); [done | lia]|].
  intros _ [a1 h1] [Hi1 Ht1]. cbn [fst snd] in *.
  eapply wp_mono; [apply (Hcomp Write (k - 2)); [done | lia]|].
  intros _ [a2 h2] [Hi2 Ht2]. cbn [fst snd] in *.
  split; [replace (k - 4) with (k - 2 - 2) by lia; exact Hi2 | congruence].
Qed.

Lemma fabric_step_wp o k a h : inv None k a h → 4 <= k → h_tick h + 1 <= H → op_ok o →
  wp (step o) (λ _ s', inv None (k - 4) s'.1 s'.2 ∧ h_tick s'.2 <= h_tick h + 1) (a, h).
Proof.
  intros Hi Hk Ht Ho. destruct o as [|req|]; unfold step.
  - split; [|simpl; lia]. apply (inv_fewer None k); [apply inv_tick; done || lia | lia].
  - eapply wp_mono; [apply (issue_wp None k); [done | lia | done]|].
    intros _ [a' h'] [Hi' (Hq & _)]. cbn [fst snd] in *. split; [apply (inv_fewer None (k - 1)); [done | lia] | lia].
  - eapply wp_mono; [apply (fabric_do_update_wp k); [done | lia]|].
    intros _ [a' h'] [Hi' Hq]. cbn [fst snd] in *. split; [done | lia].
Qed.

Lemma fabric_run_wp ops k a h : inv None (k + 4 * zlen ops) a h → 0 <= k → h_tick h + zlen ops <= H →
  Forall op_ok ops →
  wp (run ops) (λ _ s', inv None k s'.1 s'.2 ∧ h_tick s'.2 <= h_tick h + zlen ops) (a, h).
Proof.
  revert a h. induction ops as [|o ops IH]; intros a h Hi Hk Ht Hok; cbn [run].
  { rewrite wp_ret. split; [apply (inv_fewer None (k + 4 * zlen (@nil op))); [done | unfold zlen; simpl; lia]|].
    unfold zlen; simpl; lia. }
  assert (zlen (o :: ops) = zlen ops + 1) as El by (unfold zlen; simpl; lia). rewrite El in *.
  pose proof (zlen_nonneg ops). apply Forall_cons_iff in Hok as [Ho Hok].
  rewrite wp_bind. eapply wp_mono; [apply (fabric_step_wp o (k + 4 * (zlen ops + 1))); [done | lia | lia | done]|].
  intros _ [a1 h1] [Hi1 Ht1]. cbn [fst snd] in *.
  replace (k + 4 * (zlen ops + 1) - 4) with (k + 4 * zlen ops) in Hi1 by lia.
  eapply wp_mono; [apply (IH a1 h1); [done | done | lia | done]|].
  intros _ [a2 h2] [Hi2 Ht2]. cbn [fst snd] in *. split; [done | lia].
Qed.

Lemma first_entry_range l addr d bound : 0 <= d < bound →
  Forall (λ e, 0 <= device_id e < bound) l → 0 <= first_entry l addr d < bound.
Proof. intros Hd. induction 1 as [|e l He _ IH]; simpl; [done|]. by destruct (contains e addr). Qed.

(** What the constructor's caller provides. *)
Definition config_ok (devices : list RamDevice) (addr_map : list AddrMapEntry) (default : Z) (t K : Z) : Prop :=
  Forall (dok t K) devices ∧ Forall (λ e, 0 <= device_id e < zlen devices) addr_map ∧
  0 <= default < zlen devices.

(** A new arbiter holds no request. *)
Lemma make_slots hosts devices addr_map default a m j : make hosts devices addr_map default = Ok a → slot m j a = None.
Proof.
  unfold make. intros Hmk. do 3 res_inv Hmk. injection Hmk as <-. unfold slot. cbn [reqs_].
  destruct (replicate _ _ !! _) as [p|] eqn:E; [|done]. apply lookup_replicate in E as [-> _]. by destruct m.
Qed.

Lemma fabric_make_inv devices addr_map default t K script :
  config_ok devices addr_map default t K → 0 <= t <= H →
  Forall (λ e, match e with Some r => req_ok r | None => True end) script →
  ∃ a, make n devices addr_map default = Ok a ∧ inv None K a (MkHosts t script [] []).
Proof.
  intros (Hd & Hm & Hdef) Ht Hsc. unfold make.
  rewrite (proj2 (Z.eqb_neq n 0)), (proj2 (Z.eqb_neq (zlen devices) 0)), (proj2 (Z.ltb_lt default _)) by lia.
  cbn [negb assert_ mbind res_bind]. eexists. split; [done|]. set (a := Mk _ _ _ _ _ _ _ _ _ _ _ _).
  assert (∀ m j, slot m j a = None) as Hnone.
  { intros m j. apply (make_slots n devices addr_map default). unfold make.
    by rewrite (proj2 (Z.eqb_neq n 0)), (proj2 (Z.eqb_neq (zlen devices) 0)), (proj2 (Z.ltb_lt default _)) by lia. }
  assert (∀ m l, (∀ j, j ∈ l → slot m j a = None) → collect (λ i, key <$> slot m i a) l = []) as Hcol.
  { intros m l. induction l as [|j l IH]; intros Hl; simpl; [done|]. rewrite Hl by by left. simpl.
    apply IH. intros; apply Hl; by right. }
  constructor; try done.
  - constructor; try done; simpl.
    + apply zlen_replicate. lia.
    + intros m. destruct m; simpl; apply zlen_replicate; lia.
    + split; [apply zlen_replicate; lia|]. apply Forall_replicate. unfold zlen. by rewrite length_replicate.
    + intros addr. by apply first_entry_range.
    + intros m i r _ E. by rewrite Hnone in E.
  - intros m. left. split; [by destruct m|]. split; [by destruct m|]. intros; apply Hnone.
  - simpl. unfold pend, pending. rewrite !Hcol by (intros; apply Hnone). done.
Qed.

Lemma pending_length m a : hosts_ a = n → zlen (pending m a) <= n.
Proof.
  intros E. unfold pending. rewrite E. assert (∀ l (f : Z → option MemTrans), zlen (collect f l) <= zlen l) as Hl.
  { intros l f. induction l as [|j l IH]; simpl; [done|]. unfold zlen in *. rewrite length_app. simpl.
    destruct (f j); simpl; lia. }
  rewrite <- (zlen_zrange n) at 2 by lia. apply Hl.
Qed.

Lemma fabric_debt_bound m k a h : inv None k a h → debt m a (h_tick h) <= n * (M + 2).
Proof.
  intros [Hb Ht Hch _ _]. specialize (Hch m). rewrite decide_False in Hch by done.
  pose proof (pending_length m a (f_hosts _ _ _ Hb)). unfold debt.
  destruct Hch as [(E & _) | (r & E1 & _ & E2)].
  - rewrite E, Z.eqb_refl. nia.
  - rewrite (proj2 (Z.eqb_neq (serving m a) no_host)) by lia. nia.
Qed.

(** One tick and one update: a channel that is not idle gets closer to it. *)
Lemma fabric_round_wp k a h : inv None k a h → 4 <= k → h_script h = [] → h_tick h + 1 <= H →
  wp (run [OTick; OUpdate]) (λ _ s', inv None (k - 4) s'.1 s'.2 ∧ h_tick s'.2 = h_tick h + 1 ∧
    h_script s'.2 = [] ∧ ∀ m, debt m s'.1 (h_tick h + 1) <= Z.max 0 (debt m a (h_tick h) - 1)) (a, h).
Proof.
  intros Hi Hk He Ht. cbn [run]. rewrite wp_bind. unfold step at 1. unfold wp at 1. cbn [fst snd].
  pose proof (inv_tick k a h Hi Ht ltac:(lia)) as Hi1. set (h1 := h <| h_tick ::= Z.succ |>) in *.
  assert (h_tick h1 = h_tick h + 1) as Et by (change (Z.succ (h_tick h) = h_tick h + 1); lia).
  assert (∀ m, debt m a (h_tick h1) <= debt m a (h_tick h) ∧
    (serving m a ≠ no_host → h_tick h1 < busy m a → debt m a (h_tick h1) <= debt m a (h_tick h) - 1) ∧
    (serving m a = no_host → debt m a (h_tick h1) = 0)) as Hpass.
  { intros m. unfold debt. destruct (Z.eqb_spec (serving m a) no_host); lia. }
  unfold step. rewrite wp_bind. unfold do_update. rewrite wp_bind, wp_arb, wp_bind, wp_arb_now. cbn [fst snd].
  change (arb_tick h1) with (h_tick h1).
  destruct (Z.leb_spec (next_update a) (h_tick h1)) as [Hle|Hgt].
  2:{ rewrite !wp_ret. cbn [fst snd]. split; [apply (inv_fewer None k); [done | lia]|]. split; [done|].
      split; [done|]. intros m. rewrite <- Et. destruct (Hpass m) as (_ & Hp & Hz).
      unfold next_update in Hgt. destruct (decide (serving m a = no_host)) as [E|E]; [rewrite (Hz E); lia|].
      assert (h_tick h1 < busy m a) as Hb by (destruct m; simpl; lia). specialize (Hp E Hb). lia. }
  unfold update_impl. rewrite wp_bind. eapply wp_mono; [apply (complete_debt Read k); [done | lia | done]|].
  intros _ [a2 h2] (Hi2 & Et2 & He2 & Hoth2 & Hd2). cbn [fst snd] in *.
  eapply wp_mono; [apply (complete_debt Write (k - 2)); [done | lia | done]|].
  intros _ [a3 h3] (Hi3 & Et3 & He3 & Hoth3 & Hd3). rewrite wp_ret. cbn [fst snd] in *.
  split; [replace (k - 4) with (k - 2 - 2) by lia; exact Hi3|]. split; [congruence|]. split; [done|].
  rewrite <- Et. rewrite Et2 in *. intros m. destruct (Hpass m) as (Hp1 & Hp2 & Hp3). destruct m.
  - destruct (Hoth3 Read) as [_ ->]; [done|]. etransitivity; [exact Hd2|].
    destruct (Z.leb_spec (busy Read a) (h_tick h1)); [lia|].
    destruct (decide (serving Read a = no_host)) as [E|E]; [rewrite (Hp3 E); lia | specialize (Hp2 E); lia].
  - destruct (Hoth2 Write) as [Eb Ed]; [done|]. rewrite Eb, Ed in Hd3. etransitivity; [exact Hd3|].
    destruct (Z.leb_spec (busy Write a) (h_tick h1)); [lia|].
    destruct (decide (serving Write a = no_host)) as [E|E]; [rewrite (Hp3 E); lia | specialize (Hp2 E); lia].
Qed.

Fixpoint rounds (r : nat) : list op := match r with O => [] | S r => [OTick; OUpdate] ++ rounds r end.

Lemma fabric_run_app ops1 ops2 st : run (ops1 ++ ops2) st = (run ops1;; run ops2) st.
Proof.
  revert st. induction ops1 as [|x ops1 IH]; intros st; [done|]. cbn [app run].
  unfold mbind, ST_bind in *. destruct (step x st) as [[? st1]|]; [|done]. by rewrite IH.
Qed.

Lemma fabric_rounds_wp r k a h : inv None (k + 4 * Z.of_nat r) a h → 0 <= k → h_script h = [] →
  h_tick h + Z.of_nat r <= H →
  wp (run (rounds r)) (λ _ s', inv None k s'.1 s'.2 ∧
    ∀ m, debt m s'.1 (h_tick s'.2) <= Z.max 0 (debt m a (h_tick h) - Z.of_nat r)) (a, h).
Proof.
  revert a h. induction r as [|r IH]; intros a h Hi Hk He Ht; cbn [rounds].
  { unfold run. rewrite wp_ret. cbn [fst snd]. split; [apply (inv_fewer None (k + 4 * Z.of_nat 0)); [done | lia]|].
    intros m. lia. }
  unfold wp. rewrite fabric_run_app.
  fold (wp (run [OTick; OUpdate];; run (rounds r)) (λ _ s', inv None k s'.1 s'.2 ∧
    ∀ m, debt m s'.1 (h_tick s'.2) <= Z.max 0 (debt m a (h_tick h) - Z.of_nat (S r))) (a, h)).
  rewrite wp_bind. eapply wp_mono; [apply (fabric_round_wp _ a h Hi); [lia | done | lia]|].
  intros _ [a2 h2] (Hi2 & Et2 & He2 & Hd2). cbn [fst snd] in *.
  replace (k + 4 * Z.of_nat (S r) - 4) with (k + 4 * Z.of_nat r) in Hi2 by lia.
  eapply wp_mono; [apply (IH a2 h2); [done | done | done | lia]|].
  intros _ [a3 h3] [Hi3 Hd3]. cbn [fst snd] in *. split; [done|]. intros m.
  specialize (Hd2 m). specialize (Hd3 m). rewrite Et2 in Hd3. lia.
Qed.

Lemma served_pending t k m a r : base_inv t k a → 0 <= serving m a < n → slot m (serving m a) a = Some r →
  key r ∈ pending m a.
Proof.
  intros Hb E1 E2. unfold pending. rewrite (f_hosts _ _ _ Hb).
  assert (serving m a ∈ zrange n) as Hin by (by apply elem_of_zrange). revert Hin.
  generalize (zrange n). intros l. induction l as [|j l IH]; intros Hin; [by apply not_elem_of_nil in Hin|].
  simpl. apply elem_of_app. apply elem_of_cons in Hin as [<-|Hin]; [left; rewrite E2; by left | right; by apply IH].
Qed.

Lemma idle_empty m k a h : inv None k a h → debt m a (h_tick h) <= 0 →
  serving m a = no_host ∧ ∀ j, 0 <= j → slot m j a = None.
Proof.
  intros [Hb Ht Hch _ _] Hd. specialize (Hch m). rewrite decide_False in Hch by done.
  destruct Hch as [(? & _ & ?) | (r & E1 & E2 & E3)]; [done|]. exfalso.
  unfold debt in Hd. rewrite (proj2 (Z.eqb_neq (serving m a) no_host)) in Hd by lia.
  assert (1 <= zlen (pending m a)); [|nia].
  pose proof (served_pending _ _ m a r Hb E1 E2) as Hin.
  destruct (pending m a); [by apply not_elem_of_nil in Hin | unfold zlen; simpl; lia].
Qed.

Lemma idle_pending m k a h : inv None k a h → serving m a = no_host ↔ pending m a = [].
Proof.
  intros Hi. pose proof (idle_empty m k a h Hi) as He. destruct Hi as [Hb Ht Hch _ _]. specialize (Hch m).
  rewrite decide_False in Hch by done. split.
  - intros E. unfold debt in He. rewrite E, Z.eqb_refl in He. destruct (He ltac:(lia)) as [_ Hnone].
    unfold pending. rewrite (f_hosts _ _ _ Hb).
    assert (∀ l, (∀ j, j ∈ l → 0 <= j) → collect (λ i, key <$> slot m i a) l = []) as Hcol.
    { intros l. induction l as [|j l IH]; intros Hl; simpl; [done|]. rewrite Hnone by (apply Hl; by left).
      apply IH. intros; apply Hl; by right. }
    apply Hcol. intros j Hj. apply elem_of_zrange in Hj. lia.
  - intros Ep. destruct Hch as [(? & _)|(r & Hr & Hs & Hbz)]; [done|]. exfalso.
    assert (key r ∈ pending m a) as Hin by (by eapply served_pending). rewrite Ep in Hin. by apply not_elem_of_nil in Hin.
Qed.
End fabric.


(** ** The devices of the SoC keep the law *)

(** An SDRAM device is in the state its request history prescribes, and no time
    it computes within the next [k] accesses leaves the range of [int]. *)
Definition free_bound (q H L k f : Z) : Prop :=
  0 <= f ∧ (Z.max (H / q) f + k * (2 * L + 6) + Sdram.REFRESH_PERIOD) * q < 2 ^ 31.

Definition device_ok (q H L t k : Z) (d : RamDevice) : Prop :=
  match kind d with
  | ConstLatency r w => 0 <= r < 2 ^ 31 ∧ 0 <= w < 2 ^ 31
  | SdramDevice m => 0 <= k ∧ ∃ past, m = Sdram.state q past ∧ Sdram.ordered q past ∧
      match past with r :: _ => Sdram.rq_tick r <= t | [] => True end ∧
      ∀ h, free_bound q H L k (Sdram.free_at q past h)
  end.

Lemma free_bound_mono q H L k k' f : 1 <= q → 0 <= L → 0 <= k' <= k → free_bound q H L k f → free_bound q H L k' f.
Proof.
  intros Hq HL Hk [Hf Hb]. split; [done|].
  assert (k' * (2 * L + 6) <= k * (2 * L + 6)) by (apply Z.mul_le_mono_nonneg_r; lia).
  eapply Z.le_lt_trans; [apply Z.mul_le_mono_nonneg_r|exact Hb]; lia.
Qed.

Lemma free_bound_step q H L k f f' : 1 <= q → 0 <= L → 0 <= f' <= Z.max (H / q) f + 2 * L + 6 →
  free_bound q H L k f → free_bound q H L (k - 1) f'.
Proof.
  intros Hq HL Hf [_ Hb]. split; [lia|].
  assert (Z.max (H / q) f' <= Z.max (H / q) f + 2 * L + 6) by lia.
  eapply Z.le_lt_trans; [apply Z.mul_le_mono_nonneg_r|exact Hb]; lia.
Qed.

(** The request a device is asked to serve, as the SDRAM model records it. *)
Definition sdram_rq (req : MemTrans) (now : Z) : Sdram.Rq :=
  Sdram.MkRq (mt_addr req) (mt_bst_len req) (is_Write (mt_mop req)) now (mt_id req).

Lemma sdram_access_ok q H L t k past req now : 1 <= q → 0 <= L → 0 < k → 0 <= now → t <= now <= H →
  1 <= mt_bst_len req <= L → 0 <= mt_id req →
  match past with r :: _ => Sdram.rq_tick r <= t | [] => True end →
  (∀ h, free_bound q H L k (Sdram.free_at q past h)) →
  let r := sdram_rq req now in
  Sdram.rq_ok q past r ∧ 0 <= Sdram.latency q past r <= 2 ^ 31 ∧
  ∀ h, free_bound q H L (k - 1) (Sdram.free_at q (r :: past) h).
Proof.
  intros Hq HL Hk Hnow Ht Hb Hid Hlast Hbound r.
  assert (0 <= Sdram.dev q r <= H / q) as Hdev.
  { split; [by apply Z.div_pos; simpl; lia | apply Z.div_le_mono; simpl; lia]. }
  pose proof (Sdram.cost_nonneg q past r ltac:(simpl; lia)) as Hcost.
  change (Sdram.rq_len r) with (mt_bst_len req) in Hcost.
  assert (∀ h, free_bound q H L (k - 1) (Sdram.free_at q (r :: past) h)) as Hfree.
  { intros h. apply (free_bound_step q H L k (Sdram.free_at q past h)); [done | done | |apply Hbound].
    destruct (Hbound h) as [Hf _]. simpl. destruct (_ =? h); lia. }
  destruct (Hfree (Sdram.host r)) as [Hf Hfb].
  assert (Sdram.dev q r <= Sdram.free_at q (r :: past) (Sdram.host r)) as Hge.
  { simpl. rewrite Z.eqb_refl. lia. }
  assert ((Sdram.free_at q (r :: past) (Sdram.host r) + Sdram.REFRESH_PERIOD) * q < 2 ^ 31) as Hlt.
  { unfold Sdram.REFRESH_PERIOD in *.
    destruct (Z.max_spec (H / q) (Sdram.free_at q (r :: past) (Sdram.host r))) as [[? E]|[? E]];
      rewrite E in Hfb; nia. }
  split; [|split; [|done]].
  - split; [destruct past; simpl in *; [done | lia]|]. split; [done|]. split; [simpl; lia|]. split; [done|]. exact Hlt.
  - unfold Sdram.latency, Sdram.REFRESH_PERIOD in *. nia.
Qed.

Lemma ram_laws q H L : 1 <= q ∧ 0 <= L → DeviceLaws (device_ok q H L) H L (2 ^ 31).
Proof.
  intros [Hq HL]. constructor.
  - intros t k t' k' d Hd Ht Hk. unfold device_ok in *. destruct (kind d) as [|m]; [done|].
    destruct Hd as (_ & past & Em & Ho & Hl & Hb). split; [lia|]. exists past. split; [done|]. split; [done|].
    split; [destruct past; [done | lia]|]. intros h. by apply (free_bound_mono q H L k).
  - intros t k d req now Hd Hk Hnow Ht Hb Hid. unfold access, latency_impl, device_ok in *.
    destruct (kind d) as [lr lw|m] eqn:Ek.
    + cbn [mbind res_bind]. eexists _, _. split; [done|].
      split; [by destruct (mt_mop req); simpl; rewrite Ek|]. destruct (is_Read _); lia.
    + destruct Hd as (_ & past & -> & Ho & Hl & Hf). rewrite (proj2 (Z.leb_le 1 _)) by lia.
      cbn [assert_ mbind res_bind].
      destruct (sdram_access_ok q H L t k past req now) as (Hr & Hlat & Hf'); try done.
      pose proof (Sdram.access_state q Hq past (sdram_rq req now) Hr Ho) as Ha.
      cbn [sdram_rq Sdram.rq_addr Sdram.rq_len Sdram.rq_write Sdram.rq_tick Sdram.rq_host] in Ha.
      rewrite Ha. cbn [mbind res_bind]. eexists _, _. split; [done|]. split; [|done].
      assert (∀ d' : RamDevice, kind d' = SdramDevice (Sdram.state q (sdram_rq req now :: past)) →
        match kind d' with
        | ConstLatency r w => 0 <= r < 2 ^ 31 ∧ 0 <= w < 2 ^ 31
        | SdramDevice m => 0 <= k - 1 ∧ ∃ past, m = Sdram.state q past ∧ Sdram.ordered q past ∧
            match past with r :: _ => Sdram.rq_tick r <= now | [] => True end ∧
            ∀ h, free_bound q H L (k - 1) (Sdram.free_at q past h)
        end) as Hgoal.
      { intros d' ->. split; [lia|]. eexists. split; [done|].
        split; [by apply Sdram.ordered_cons|]. split; [simpl; lia | done]. }
      apply Hgoal. by destruct (mt_mop req).
  - intros t k d Hd. unfold device_ok, reset_device in *. destruct (kind d) as [lr lw|m] eqn:Ek; simpl; rewrite Ek; [done|].
    simpl. destruct Hd as (Hk & past & -> & _ & _ & Hb). split; [done|]. exists []. split; [done|].
    split; [constructor|]. split; [done|]. intros h. destruct (Hb h) as [Hf Hlt]. split; [done|]. simpl.
    eapply Z.le_lt_trans; [apply Z.mul_le_mono_nonneg_r; [lia|] | exact Hlt]. lia.
Qed.


(** Constant latencies, with a bound of their own. *)
Definition const_ok (M t k : Z) (d : RamDevice) : Prop :=
  match kind d with ConstLatency r w => 0 <= r <= M ∧ 0 <= w <= M | SdramDevice _ => False end.

#[export] Instance const_laws M H L : DeviceLaws (const_ok M) H L M.
Proof.
  constructor; [done| |].
  - intros t k d req now Hd _ _ _ _ _. unfold access, latency_impl, const_ok in *.
    destruct (kind d) as [lr lw|m] eqn:Ek; [|done]. cbn [mbind res_bind]. eexists _, _. split; [done|].
    split; [by destruct (mt_mop req); simpl; rewrite Ek | destruct (is_Read _); lia].
  - intros t k d Hd. unfold const_ok, reset_device in *. destruct (kind d) as [lr lw|m] eqn:Ek; simpl; by rewrite Ek.
Qed.

(** ** The SoC's memory system ([main]) *)

Definition soc_devices (freq_mhz sram_lat mmio_lat : Z) : list RamDevice :=
  [make_sdram "SDRAM" (Sdram.make freq_mhz); make_const "SRAM" sram_lat 0; make_const "CLINT" sram_lat 0;
   make_const "OTHER" mmio_lat 0].

Definition soc_map : list AddrMapEntry :=
  [MkMap 0x02000000 0x0200ffff 2 "clint"; MkMap 0x0f000000 0x0fffffff 1 "sram"; MkMap 0x30000000 0x3fffffff 0 "flash";
   MkMap 0x80000000 0x9fffffff 0 "psram"; MkMap 0xa0000000 0xbfffffff 0 "sdram"].

Definition soc_fabric (freq_mhz sram_lat mmio_lat : Z) : res RAMArbiter :=
  make 3 (soc_devices freq_mhz sram_lat mmio_lat) soc_map 3.

(** The SoC's devices are good for [K] accesses of [L] words up to tick [H]. *)
Lemma soc_config_ok freq sram mmio H L K : 100 <= freq → 0 <= L → 0 <= K → 0 <= H →
  0 <= sram < 2 ^ 31 → 0 <= mmio < 2 ^ 31 →
  (H / (freq / 100) + K * (2 * L + 6) + Sdram.REFRESH_PERIOD) * (freq / 100) < 2 ^ 31 →
  config_ok (device_ok (freq / 100) H L) (soc_devices freq sram mmio) soc_map 3 0 K.
Proof.
  intros Hf HL HK HH Hs Hm Hb. assert (1 <= freq / 100) as Hq by (apply Z.div_le_lower_bound; lia).
  split; [|split; [|done]]; [|by repeat (apply Forall_cons; [done|])].
  apply Forall_cons; [|repeat (apply Forall_cons; [simpl; unfold device_ok; simpl; lia|]); apply Forall_nil].
  split; [done|]. exists []. split; [by apply Sdram.make_state|]. split; [constructor|]. split; [done|].
  intros h. split; [done|]. simpl. rewrite Z.max_l; [done|]. apply Z.div_pos; lia.
Qed.

(** ** What the fabric promises *)

(** Example inputs: the SoC at 400 MHz; the three hosts send through slots 0, 1
    and 2, and host 1 sends again from within its response. *)
Definition read_ex (id addr : Z) : MemTrans := mk_req Read addr id 4 [] [].
Definition write_ex (id addr : Z) : MemTrans := mk_req Write addr id 1 [7] [15].
Definition fabric_ops : list op :=
  [ORequest (read_ex 0 0x80000000); ORequest (read_ex 1 0x80000400); ORequest (write_ex 1 0x0f000000);
   ORequest (read_ex 2 0x10000000)] ++ concat (replicate 40 [OTick; OUpdate]).
Definition fabric_script : list (option MemTrans) := [None; None; Some (read_ex 0 0x80000800)].
Definition simple_devices : list RamDevice := [make_const "A" 3 0; make_const "B" 1 2; make_const "C" 1 0; make_const "D" 2 0].

Definition script_ok (n L : Z) (script : list (option MemTrans)) : Prop :=
  Forall (λ e, match e with Some r => req_ok L n r | None => True end) script.

Lemma fabric_reach dok (H L M n K : Z) `{!DeviceLaws dok H L M} devices addr_map default ops script :
  0 < n < no_host → 0 <= M → H + M + 2 < InfTime → 0 <= K →
  config_ok dok devices addr_map default 0 (K + 4 * zlen ops) → zlen ops <= H →
  Forall (op_ok L n) ops → script_ok n L script →
  ∃ a0 a h, make n devices addr_map default = Ok a0 ∧
    run ops (a0, MkHosts 0 script [] []) = Ok (tt, (a, h)) ∧
    inv dok H L M n None K a h ∧ h_tick h <= zlen ops.
Proof.
  intros Hn HM HH HK Hcfg Hlen Hops Hsc. pose proof (zlen_nonneg ops).
  destruct (fabric_make_inv dok H L M n Hn devices addr_map default 0 (K + 4 * zlen ops) script) as (a0 & Ha0 & Hi);
    [done | lia | done |].
  pose proof (fabric_run_wp dok H L M n Hn HM HH ops K a0 _ Hi HK Hlen Hops) as Hw. unfold wp in Hw.
  destruct (run ops _) as [[[] [a h]]|x] eqn:Er; [|done]. destruct Hw as [Hi' Ht].
  exists a0, a, h. split; [done|]. split; [exact Er|]. split; [exact Hi' | exact Ht].
Qed.

(** C12: nothing is lost and nothing is invented.  With any devices that keep
    the law, any hosts and any sequence of ticks, requests and updates, the
    arbiter never fails, the accepted requests are exactly the answered ones and
    those still in the slots, and a channel is idle exactly when it has no
    request pending. *)
Theorem arbiter_conserves dok (H L M n : Z) `{!DeviceLaws dok H L M} devices addr_map default ops script :
  0 < n < no_host → 0 <= M → H + M + 2 < InfTime →
  config_ok dok devices addr_map default 0 (4 * zlen ops) → zlen ops <= H →
  Forall (op_ok L n) ops → script_ok n L script →
  ∃ a0 a h, make n devices addr_map default = Ok a0 ∧
    run ops (a0, MkHosts 0 script [] []) = Ok (tt, (a, h)) ∧
    key <$> h_acc h ≡ₚ (key <$> h_log h) ++ pending Read a ++ pending Write a ∧
    ∀ m, serving m a = no_host ↔ pending m a = [].
Proof.
  intros Hn HM HH Hcfg Hlen Hops Hsc.
  destruct (fabric_reach dok H L M n 0 devices addr_map default ops script) as (a0 & a & h & E & Er & Hi & _);
    try done.
  exists a0, a, h. split; [exact E|]. split; [exact Er|]. split; [apply (v_acc _ _ _ _ _ _ _ _ _ Hi)|].
  intros m. by apply (idle_pending dok H L M n Hn HM m 0 a h).
Qed.

Lemma arbiter_conserves_witness :
  ∃ a0 a h, soc_fabric 400 1 3 = Ok a0 ∧
    run fabric_ops (a0, MkHosts 0 fabric_script [] []) = Ok (tt, (a, h)) ∧
    key <$> h_acc h ≡ₚ (key <$> h_log h) ++ pending Read a ++ pending Write a ∧
    ∀ m, serving m a = no_host ↔ pending m a = [].
Proof.
  pose proof (ram_laws 4 1000 16 ltac:(lia)).
  apply (arbiter_conserves (device_ok 4 1000 16) 1000 16 (2 ^ 31) 3); try done; try lia.
  - apply (soc_config_ok 400); lia || done.
  - by repeat (apply Forall_cons; [done|]).
  - by repeat (apply Forall_cons; [done|]).
Defined.

(** C13: no request waits for ever.  After any run, if the hosts then stay
    silent, [n * (M + 2)] rounds of a tick and an update answer every request
    that was accepted ([M] bounds a single access). *)
Theorem arbiter_drains dok (H L M n : Z) `{!DeviceLaws dok H L M} devices addr_map default ops script r :
  0 < n < no_host → 0 <= M → H + M + 2 < InfTime →
  config_ok dok devices addr_map default 0 (4 * Z.of_nat r + 4 * zlen ops) → zlen ops + Z.of_nat r <= H →
  Forall (op_ok L n) ops → script_ok n L script → n * (M + 2) <= Z.of_nat r →
  ∃ a0 a h a' h', make n devices addr_map default = Ok a0 ∧
    run ops (a0, MkHosts 0 script [] []) = Ok (tt, (a, h)) ∧
    run (rounds r) (a, h <| h_script := [] |>) = Ok (tt, (a', h')) ∧
    (∀ m, pending m a' = [] ∧ serving m a' = no_host) ∧ key <$> h_acc h' ≡ₚ key <$> h_log h'.
Proof.
  intros Hn HM HH Hcfg Hlen Hops Hsc Hr.
  destruct (fabric_reach dok H L M n (4 * Z.of_nat r) devices addr_map default ops script)
    as (a0 & a & h & E & Er & Hi & Ht); try done; [lia | lia |].
  assert (inv dok H L M n None (0 + 4 * Z.of_nat r) a (h <| h_script := [] |>)) as Hi0 by (destruct Hi; by constructor).
  pose proof (fabric_rounds_wp dok H L M n Hn HM HH r 0 a _ Hi0 ltac:(done) ltac:(done) ltac:(simpl; lia)) as Hw.
  unfold wp in Hw. destruct (run (rounds r) _) as [[[] [a' h']]|x] eqn:Er2; [|done].
  destruct Hw as [Hi' Hd]. cbn [fst snd] in *.
  exists a0, a, h, a', h'. split; [exact E|]. split; [exact Er|]. split; [exact Er2|].
  assert (∀ m, pending m a' = [] ∧ serving m a' = no_host) as Hall.
  { intros m. specialize (Hd m). pose proof (fabric_debt_bound dok H L M n Hn HM HH m _ a _ Hi0) as Hb.
    assert (debt M m a' (h_tick h') <= 0) as Hz by lia.
    destruct (idle_empty dok H L M n Hn HM m 0 a' h' Hi' Hz) as [Es _].
    split; [|done]. by apply (idle_pending dok H L M n Hn HM m 0 a' h' Hi'). }
  split; [exact Hall|]. pose proof (v_acc _ _ _ _ _ _ _ _ _ Hi') as Hacc. unfold pend in Hacc.
  destruct (Hall Read) as [Ep1 _], (Hall Write) as [Ep2 _]. rewrite Ep1, Ep2 in Hacc.
  by rewrite !app_nil_r in Hacc.
Qed.

Lemma arbiter_drains_witness :
  ∃ a0 a h a' h', make 3 simple_devices soc_map 3 = Ok a0 ∧
    run fabric_ops (a0, MkHosts 0 fabric_script [] []) = Ok (tt, (a, h)) ∧
    run (rounds 15) (a, h <| h_script := [] |>) = Ok (tt, (a', h')) ∧
    (∀ m, pending m a' = [] ∧ serving m a' = no_host) ∧ key <$> h_acc h' ≡ₚ key <$> h_log h'.
Proof.
  apply (arbiter_drains (const_ok 3) 1000 16 3 3); try done; try lia.
  - split; [|split; [|done]]; repeat (apply Forall_cons; [done|]); apply Forall_nil; done.
  - by repeat (apply Forall_cons; [done|]).
  - by repeat (apply Forall_cons; [done|]).
Defined.

(** A due channel answers the host it serves, with that host's request, and
    goes on to the pending request of the highest host id (after the hosts have
    reacted to the response), or falls idle when there is none. *)
Theorem highest_id_next dok (H L M n : Z) `{!DeviceLaws dok H L M} devices addr_map default ops script a0 a h m :
  0 < n < no_host → 0 <= M → H + M + 2 < InfTime →
  config_ok dok devices addr_map default 0 (2 + 4 * zlen ops) → zlen ops <= H →
  Forall (op_ok L n) ops → script_ok n L script →
  make n devices addr_map default = Ok a0 →
  run ops (a0, MkHosts 0 script [] []) = Ok (tt, (a, h)) →
  busy m a <= h_tick h → serving m a ≠ no_host →
  ∃ r a' h', slot m (serving m a) a = Some r ∧ mt_id r = serving m a ∧ mt_mop r = m ∧
    complete m (a, h) = Ok (tt, (a', h')) ∧ h_log h' = (r <| mt_dir := Resp |>) :: h_log h ∧
    (serving m a' = no_host ∧ (∀ j, 0 <= j → slot m j a' = None) ∨
     slot m (serving m a') a' ≠ None ∧ ∀ j, serving m a' < j → slot m j a' = None).
Proof.
  intros Hn HM HH Hcfg Hlen Hops Hsc E Er Hbz Hsv.
  destruct (fabric_reach dok H L M n 2 devices addr_map default ops script)
    as (a0' & a' & h' & E' & Er' & Hi & _); try done.
  assert (a0' = a0) as -> by congruence. rewrite Er in Er'. injection Er' as <- <-.
  pose proof (complete_wp dok H L M n Hn HM HH m 2 a h Hi ltac:(done)) as Hw. unfold wp in Hw.
  destruct (complete m (a, h)) as [[[] [a' h']]|x]; [|done].
  rewrite (proj2 (Z.leb_le _ _) Hbz), (proj2 (Z.eqb_neq _ _) Hsv) in Hw. cbn [andb negb fst snd] in Hw.
  destruct Hw as (_ & (r & Hs & Hl & _) & Hch & _). exists r, a', h'. split; [exact Hs|].
  destruct Hi as [Hb _ Hch0 _ _]. specialize (Hch0 m). rewrite decide_False in Hch0 by done.
  destruct Hch0 as [(? & _)|(r' & Hr & _)]; [done|].
  destruct (f_slots _ _ _ _ _ _ Hb m (serving m a) r) as (H1 & H2 & _); [lia | done |].
  split; [exact H1|]. split; [exact H2|]. split; [done|]. split; [exact Hl|].
  destruct Hch as [?|(_ & ? & ? & _)]; [by left | right; by split].
Qed.

(** Hosts 0, 1 and 2 wait behind a read of host 1. *)
Definition busy_ops : list op :=
  [ORequest (read_ex 1 0x80000000); ORequest (read_ex 0 0x80000400); ORequest (read_ex 2 0x10000000);
   OTick; OTick; OTick].
Lemma busy_ex_ok : ∃ a0 a h, make 3 simple_devices soc_map 3 = Ok a0 ∧
  run busy_ops (a0, MkHosts 0 [] [] []) = Ok (tt, (a, h)) ∧ busy Read a <= h_tick h ∧ serving Read a = 1.
Proof. do 3 eexists. split; [done|]. split; [vm_compute; done|]. done. Qed.

Lemma highest_id_next_witness : ∃ a h r a' h', slot Read (serving Read a) a = Some r ∧ mt_id r = 1 ∧
  complete Read (a, h) = Ok (tt, (a', h')) ∧ h_log h' = (r <| mt_dir := Resp |>) :: h_log h.
Proof.
  destruct busy_ex_ok as (a0 & a & h & E & Er & Hb & Hs). exists a, h.
  destruct (highest_id_next (const_ok 3) 1000 16 3 3 simple_devices soc_map 3 busy_ops [] a0 a h Read)
    as (r & a' & h' & H1 & H2 & _ & H4 & H5 & _); try done; try lia.
  - split; [|split; [|done]]; repeat (apply Forall_cons; [done|]); apply Forall_nil; done.
  - by repeat (apply Forall_cons; [done|]).
  - by apply Forall_nil.
  - by rewrite Hs.
  - exists r, a', h'. split; [exact H1|]. split; [congruence|]. by split.
Defined.

End Ram.
