(* ===== verification/StoreBuffer.v ===== *)
(** * The caches without lines: [NoCache] and [StoreBuffer]

    [src/cacheSim/CacheBase.hh] and [.cc].  Both derive from [CacheBase] for its
    statistics and id only.  What the processor and the arbiter may do to any
    cache is the interface [Cache], which both implement; the properties are
    about every sequence of such operations. *)

From S2P Require Import Prelude Types Repl CacheBase CacheEnv.

(** [++stats.accesses; ++stats.misses], and [hits]. *)
Definition count_miss (b : CB.CacheBase) : CB.CacheBase :=
  b <| CB.stats ::= (λ s, s <| CB.accesses ::= incr |> <| CB.misses ::= incr |>) |>.
Definition count_hit (b : CB.CacheBase) : CB.CacheBase :=
  b <| CB.stats ::= (λ s, s <| CB.accesses ::= incr |> <| CB.hits ::= incr |>) |>.

(** ** NoCache *)

Module NC.

Record NoCache : Type := Mk { base : CB.CacheBase; r_busy_ : bool; w_busy_ : bool }.
#[global] Instance eta_NoCache : Eta NoCache := λ r, Mk r.(base) r.(r_busy_) r.(w_busy_).

Definition make (cache_id : Z) : res NoCache :=
  b ← CB.make 8 4 1 None cache_id (Some (Repl.make_plru 1 2)) false;
  mret (Mk b false false).

Definition is_ready (c : NoCache) : bool * bool := (negb (r_busy_ c), negb (w_busy_ c)).
Definition busy (m : MemRWOpt) (c : NoCache) : bool := match m with Read => r_busy_ c | Write => w_busy_ c end.
Definition set_busy (m : MemRWOpt) (v : bool) (c : NoCache) : NoCache :=
  match m with Read => c <| r_busy_ := v |> | Write => c <| w_busy_ := v |> end.

Section methods.
Context {E : Type} `{CacheEnv E}.

Definition read_req (a : Z) : ST (NoCache * E) unit :=
  c ← self;
  assertM (is_ready c).1;;
  env (mem_recv_req (mk_req Read a (CB.cache_id_ (base c)) 1 [] []));;
  modify_self (λ c, c <| r_busy_ := true |> <| base ::= count_miss |>).

Definition write_req (a data mask : Z) : ST (NoCache * E) unit :=
  c ← self;
  assertM (is_ready c).2;;
  env (mem_recv_req (mk_req Write a (CB.cache_id_ (base c)) 1 [data] [mask]));;
  modify_self (λ c, c <| w_busy_ := true |> <| base ::= count_miss |>).

(** [ACTIVE_MODE]: the simulator carries no read data. *)
Definition recv_mem_resp (trans : MemTrans) : ST (NoCache * E) unit :=
  c ← self;
  let id := CB.cache_id_ (base c) in
  assertM (busy (mt_mop trans) c);;
  match mt_mop trans with
  | Read => assertM (zlen (mt_data trans) =? 0);;
            env (cpu_resp_recv (MkCpuTrans (mt_addr trans) 0xdeadbeef id Read))
  | Write => env (cpu_resp_recv (MkCpuTrans (mt_addr trans) 0xbadc0de id Write))
  end;;
  env (cpu_ack_recv (MkAckTrans id (mt_mop trans)));;
  modify_self (set_busy (mt_mop trans) false).

Definition flush_all : ST (NoCache * E) unit := mret tt.
Definition next_update (c : NoCache) : Z := InfTime.
Definition update_impl : ST (NoCache * E) unit := mret tt.

(** [ClockedObject::do_update] *)
Definition do_update : ST (NoCache * E) unit :=
  c ← self;
  now ← tick;
  when (next_update c <=? now) update_impl.
End methods.

Definition reset_stats (c : NoCache) : NoCache := c <| base ::= CB.reset_stats |>.
End NC.

(** ** StoreBuffer *)

Module SB.

Record StBufEnt : Type := MkEnt { addr : Z; data : Z; mask : Z }.

Record StoreBuffer : Type := Mk {
  base : CB.CacheBase;
  r_busy_ : bool;
  w_busy_ : bool;
  pending_flush_ : bool;
  fifo_ : list StBufEnt;
  entries : Z;
  sched_w_time_ : Z;
  sched_r_time_ : Z;
  pending_rmiss_time_ : Z;
  pending_rmiss_addr_ : Z;
  sched_r_resp_ : CpuTrans;
  sched_w_resp_ : CpuTrans
}.
#[global] Instance eta_StoreBuffer : Eta StoreBuffer := λ r,
  Mk r.(base) r.(r_busy_) r.(w_busy_) r.(pending_flush_) r.(fifo_) r.(entries) r.(sched_w_time_)
     r.(sched_r_time_) r.(pending_rmiss_time_) r.(pending_rmiss_addr_) r.(sched_r_resp_)
     r.(sched_w_resp_).

Definition make (n cache_id : Z) : res StoreBuffer :=
  b ← CB.make 8 4 1 None cache_id None false;
  mret (Mk b false false false [] n InfTime InfTime InfTime 0 (MkCpuTrans 0 0 0 Read) (MkCpuTrans 0 0 0 Read)).

Definition is_ready (c : StoreBuffer) : bool * bool :=
  if pending_flush_ c then (false, false)
  else (negb (r_busy_ c), if entries c =? 0 then negb (w_busy_ c) else zlen (fifo_ c) <? entries c).

Definition next_update (c : StoreBuffer) : Z :=
  Z.min (Z.min (sched_r_time_ c) (sched_w_time_ c)) (pending_rmiss_time_ c).

Definition cache_id (c : StoreBuffer) : Z := CB.cache_id_ (base c).

(** The memory request of a buffered store. *)
Definition ent_req (c : StoreBuffer) (e : StBufEnt) : MemTrans :=
  mk_req Write (addr e) (cache_id c) 1 [data e] [mask e].

(** A buffered store that [read_req] forwards: whole word, same address. *)
Definition forwards (a : Z) (e : StBufEnt) : bool := (addr e =? a) && (mask e =? 0xf).

Section methods.
Context {E : Type} `{CacheEnv E}.

(** Send the store at the head of the buffer to memory. *)
Definition drain : ST (StoreBuffer * E) unit :=
  c ← self;
  match fifo_ c with
  | [] => mret tt
  | front :: _ => env (mem_recv_req (ent_req c front));; modify_self (λ c, c <| w_busy_ := true |>)
  end.

(** The three parts of [update_impl]. *)
Definition issue_rmiss : ST (StoreBuffer * E) unit :=
  c ← self;
  now ← tick;
  when (pending_rmiss_time_ c <=? now) (
    env (mem_recv_req (mk_req Read (pending_rmiss_addr_ c) (cache_id c) 1 [] []));;
    modify_self (λ c, c <| pending_rmiss_time_ := InfTime |>)).

Definition respond_read : ST (StoreBuffer * E) unit :=
  c ← self;
  now ← tick;
  when (sched_r_time_ c <=? now) (
    env (cpu_resp_recv (sched_r_resp_ c));;
    modify_self (λ c, c <| sched_r_time_ := InfTime |> <| r_busy_ := false |>)).

Definition respond_write : ST (StoreBuffer * E) unit :=
  c ← self;
  now ← tick;
  when (sched_w_time_ c <=? now) (
    env (cpu_resp_recv (sched_w_resp_ c));;
    modify_self (λ c, c <| sched_w_time_ := InfTime |>);;
    c ← self;
    when (negb (w_busy_ c)) drain).

Definition update_impl : ST (StoreBuffer * E) unit := issue_rmiss;; respond_read;; respond_write.

Definition do_update : ST (StoreBuffer * E) unit :=
  c ← self;
  now ← tick;
  when (next_update c <=? now) update_impl.

Definition read_req (a : Z) : ST (StoreBuffer * E) unit :=
  c ← self;
  now ← tick;
  match List.find (forwards a) (fifo_ c) with
  | None =>
    modify_self (λ c, c <| base ::= count_miss |> <| pending_rmiss_time_ := u64 (now + 1) |>
      <| pending_rmiss_addr_ := a |> <| r_busy_ := true |>)
  | Some e =>
    modify_self (λ c, c <| base ::= count_hit |> <| sched_r_time_ := u64 (now + 1) |>
      <| sched_r_resp_ := MkCpuTrans a (data e) (cache_id c) Read |>)
  end.

Definition write_req (a d m : Z) : ST (StoreBuffer * E) unit :=
  c ← self;
  now ← tick;
  modify_self (λ c, c <| base ::= (λ b, b <| CB.stats ::= (λ s, s <| CB.accesses ::= incr |>) |>) |>);;
  if entries c =? 0 then
    modify_self (λ c, c <| base ::= (λ b, b <| CB.stats ::= (λ s, s <| CB.misses ::= incr |>) |>) |>);;
    env (mem_recv_req (ent_req c (MkEnt a d m)));;
    modify_self (λ c, c <| w_busy_ := true |>)
  else
    assertM (zlen (fifo_ c) <? entries c);;
    modify_self (λ c, c <| fifo_ ::= (λ l, l ++ [MkEnt a d m]) |> <| sched_w_time_ := u64 (now + 1) |>
      <| sched_w_resp_ := MkCpuTrans a 0xbadc0de (cache_id c) Write |>).

Definition recv_mem_resp (trans : MemTrans) : ST (StoreBuffer * E) unit :=
  c ← self;
  now ← tick;
  match mt_mop trans with
  | Read =>
    assertM (zlen (mt_data trans) =? 0);;
    modify_self (λ c, c <| sched_r_time_ := u64 (now + 1) |>
      <| sched_r_resp_ := MkCpuTrans (mt_addr trans) 0xbeefc0de (cache_id c) Read |>)
  | Write =>
    if entries c =? 0 then
      modify_self (λ c, c <| sched_w_time_ := u64 (now + 1) |>
        <| sched_w_resp_ := MkCpuTrans (mt_addr trans) 0xbadc0de (cache_id c) Write |> <| w_busy_ := false |>)
    else
      match fifo_ c with
      | [] => fail NullDeref
      | front :: _ =>
        assertM (addr front =? mt_addr trans);;
        when (zlen (fifo_ c) =? entries c) (env (cpu_ack_recv (MkAckTrans (cache_id c) Write)));;
        modify_self (λ c, c <| fifo_ ::= tail |> <| w_busy_ := false |>);;
        drain
      end
  end.

Definition flush_all : ST (StoreBuffer * E) unit := modify_self (λ c, c <| pending_flush_ := true |>).
End methods.

Definition reset_stats (c : StoreBuffer) : StoreBuffer := c <| base ::= CB.reset_stats |>.
End SB.

(** ** A cache between a processor and a memory

    [Bus] is the environment: at most one outstanding request per memory channel
    (the arbiter asserts it); it also records what was accepted from the
    processor, sent to memory and answered, oldest first.  The processor makes at
    most one request per channel and tick, after the cache's own update. *)

Record Bus : Type := MkBus {
  b_tick : Z;
  b_rd : option MemTrans;
  b_wr : option MemTrans;
  b_sent : list SB.StBufEnt;
  b_resp : list CpuTrans;
  b_ack : list AckTrans;
  b_reads : list Z;
  b_stores : list SB.StBufEnt;
  b_upd : bool;
  b_rs : bool;
  b_ws : bool
}.
#[global] Instance eta_Bus : Eta Bus := λ r,
  MkBus r.(b_tick) r.(b_rd) r.(b_wr) r.(b_sent) r.(b_resp) r.(b_ack) r.(b_reads) r.(b_stores)
        r.(b_upd) r.(b_rs) r.(b_ws).

(** A write transaction as the store it carries. *)
Definition ent_of (req : MemTrans) : SB.StBufEnt :=
  SB.MkEnt (mt_addr req) (default 0 (head (mt_data req))) (default 0 (head (mt_strb req))).

Definition snoc {A} (x : A) (l : list A) : list A := l ++ [x].

Definition bus_req (req : MemTrans) : ST Bus unit := λ b,
  match mt_mop req, b_rd b, b_wr b with
  | Read, None, _ => Ok (tt, b <| b_rd := Some req |>)
  | Write, _, None => Ok (tt, b <| b_wr := Some req |> <| b_sent ::= snoc (ent_of req) |>)
  | _, _, _ => Err AssertFailed
  end.

#[export] Instance bus_env : CacheEnv Bus := {|
  curr_tick := b_tick;
  mem_recv_req := bus_req;
  cpu_resp_recv r := modify (λ b, b <| b_resp ::= snoc r |>);
  cpu_ack_recv a := modify (λ b, b <| b_ack ::= snoc a |>)
|}.

#[export] Instance nocache_cache : Cache NC.NoCache := {|
  ca_ready := NC.is_ready;
  ca_read _ _ := NC.read_req;
  ca_write _ _ := NC.write_req;
  ca_resp _ _ := NC.recv_mem_resp;
  ca_flush _ _ := NC.flush_all;
  ca_update _ _ := NC.do_update;
  ca_reset := NC.reset_stats
|}.

#[export] Instance stbuf_cache : Cache SB.StoreBuffer := {|
  ca_ready := SB.is_ready;
  ca_read _ _ := SB.read_req;
  ca_write _ _ := SB.write_req;
  ca_resp _ _ := SB.recv_mem_resp;
  ca_flush _ _ := SB.flush_all;
  ca_update _ _ := SB.do_update;
  ca_reset := SB.reset_stats
|}.

Inductive op : Type :=
| OTick
| OUpdate
| ORead (a : Z)
| OWrite (a d m : Z)
| OMemRead
| OMemWrite
| OFlush.

Section run.
Context {C : Type} `{Cache C}.

Definition step (o : op) : ST (C * Bus) unit := λ s,
  let '(c, b) := s in
  match o with
  | OTick => Ok (tt, (c, b <| b_tick ::= Z.succ |> <| b_upd := false |> <| b_rs := false |> <| b_ws := false |>))
  | OUpdate => ca_update (c, b <| b_upd := true |>)
  | ORead a =>
    if (ca_ready c).1 && b_upd b && negb (b_rs b)
    then ca_read a (c, b <| b_rs := true |> <| b_reads ::= snoc a |>) else Ok (tt, s)
  | OWrite a d m =>
    if (ca_ready c).2 && b_upd b && negb (b_ws b)
    then ca_write a d m (c, b <| b_ws := true |> <| b_stores ::= snoc (SB.MkEnt a d m) |>) else Ok (tt, s)
  | OMemRead =>
    match b_rd b with
    | Some req => ca_resp (req <| mt_dir := Resp |>) (c, b <| b_rd := None |>)
    | None => Ok (tt, s)
    end
  | OMemWrite =>
    match b_wr b with
    | Some req => ca_resp (req <| mt_dir := Resp |>) (c, b <| b_wr := None |>)
    | None => Ok (tt, s)
    end
  | OFlush => ca_flush s
  end.

Fixpoint run (ops : list op) : ST (C * Bus) unit :=
  match ops with [] => mret tt | o :: ops => step o;; run ops end.

Lemma run_inv (P : Z → C → Bus → Prop) ops k c b :
  (∀ o k c b, P (k + 1) c b → 0 <= k → wp (step o) (λ _ s', P k s'.1 s'.2) (c, b)) →
  P (k + zlen ops) c b → 0 <= k → wp (run ops) (λ _ s', P k s'.1 s'.2) (c, b).
Proof.
  intros Hstep. revert c b. induction ops as [|o ops IH]; intros c b HP Hk; cbn [run].
  { rewrite wp_ret. unfold zlen in HP. simpl in HP. by rewrite Z.add_0_r in HP. }
  pose proof (zlen_nonneg ops). rewrite wp_bind. eapply wp_mono.
  - apply (Hstep o (k + zlen ops)); [|lia].
    replace (k + zlen ops + 1) with (k + zlen (o :: ops)) by (unfold zlen; simpl; lia). done.
  - intros _ [c1 b1] H1. by apply IH.
Qed.
End run.

Definition bus_start (t : Z) : Bus := MkBus t None None [] [] [] [] [] false false false.

(** Addresses answered on a channel, oldest first. *)
Definition answered (m : MemRWOpt) (l : list CpuTrans) : list Z :=
  ct_addr <$> filter (λ r, ct_mop r = m) l.

Lemma answered_snoc m r l : answered m (snoc r l) =
  if decide (ct_mop r = m) then snoc (ct_addr r) (answered m l) else answered m l.
Proof.
  unfold answered, snoc. rewrite list.filter_app, list.filter_cons, list.filter_nil. case_decide; rewrite fmap_app; simpl; [done|].
  by rewrite app_nil_r.
Qed.

Lemma zlen_snoc {A} (x : A) l : zlen (snoc x l) = zlen l + 1.
Proof. unfold zlen, snoc. rewrite length_app. simpl. lia. Qed.

Lemma fmap_snoc {A B} (f : A → B) x l : f <$> snoc x l = snoc (f x) (f <$> l).
Proof. unfold snoc. by rewrite fmap_app. Qed.

Lemma wp_bus_read req Q b : mt_mop req = Read → b_rd b = None → Q tt (b <| b_rd := Some req |>) →
  wp (mem_recv_req req) Q b.
Proof. intros E1 E2 HQ. unfold wp. simpl. unfold bus_req. by rewrite E1, E2. Qed.

Lemma wp_bus_write req Q b : mt_mop req = Write → b_wr b = None →
  Q tt (b <| b_wr := Some req |> <| b_sent ::= snoc (ent_of req) |>) → wp (mem_recv_req req) Q b.
Proof. intros E1 E2 HQ. unfold wp. simpl. unfold bus_req. rewrite E1, E2. by destruct (b_rd b). Qed.

Lemma wp_bus_resp r Q b : wp (cpu_resp_recv r) Q b ↔ Q tt (b <| b_resp ::= snoc r |>).
Proof. done. Qed.
Lemma wp_bus_ack a Q b : wp (cpu_ack_recv a) Q b ↔ Q tt (b <| b_ack ::= snoc a |>).
Proof. done. Qed.
#[export] Hint Rewrite wp_bus_resp wp_bus_ack : wp.

(** ** NoCache answers every request *)

Record nc_inv (c : NC.NoCache) (b : Bus) : Prop := {
  nc_rd : match b_rd b with
    | Some req => NC.r_busy_ c = true ∧ mt_mop req = Read ∧ mt_data req = []
    | None => NC.r_busy_ c = false
    end;
  nc_wr : match b_wr b with
    | Some req => NC.w_busy_ c = true ∧ mt_mop req = Write
    | None => NC.w_busy_ c = false
    end;
  nc_reads : answered Read (b_resp b) ++ option_list (mt_addr <$> b_rd b) = b_reads b;
  nc_writes : answered Write (b_resp b) ++ option_list (mt_addr <$> b_wr b) = SB.addr <$> b_stores b;
  nc_sent : b_sent b = b_stores b;
  nc_acks : ack_mop <$> b_ack b = ct_mop <$> b_resp b;
  nc_stats : CB.stats (NC.base c) =
    let n := u64 (zlen (b_reads b) + zlen (b_stores b)) in CB.MkStats n 0 n
}.

Lemma count_miss_stats b n : CB.stats b = CB.MkStats (u64 n) 0 (u64 n) →
  CB.stats (count_miss b) = CB.MkStats (u64 (n + 1)) 0 (u64 (n + 1)).
Proof. intros E. unfold count_miss. simpl. rewrite E. simpl. by rewrite incr_u64. Qed.

Lemma nc_read_wp a c b : nc_inv c b → NC.r_busy_ c = false →
  wp (NC.read_req a) (λ _ s', nc_inv s'.1 s'.2) (c, b <| b_rs := true |> <| b_reads ::= snoc a |>).
Proof.
  intros [Hrd Hwr Hr Hw Hst Ha Hstat] Hb. unfold NC.read_req. wp_step. unfold NC.is_ready. simpl. rewrite Hb.
  split; [done|]. wp_step. destruct (b_rd b) as [req|] eqn:Erd; [by destruct Hrd as [? _]; congruence|].
  apply wp_bus_read; [done | done |]. wp_step. simpl in Hr. rewrite app_nil_r in Hr.
  constructor; try done; simpl.
  - unfold snoc. by rewrite <- Hr.
  - etransitivity; [exact (count_miss_stats (NC.base c) _ Hstat)|]. rewrite zlen_snoc. cbv zeta. by rewrite Z.add_shuffle0.
Qed.

Lemma nc_write_wp a d m c b : nc_inv c b → NC.w_busy_ c = false →
  wp (NC.write_req a d m) (λ _ s', nc_inv s'.1 s'.2)
    (c, b <| b_ws := true |> <| b_stores ::= snoc (SB.MkEnt a d m) |>).
Proof.
  intros [Hrd Hwr Hr Hw Hst Ha Hstat] Hb. unfold NC.write_req. wp_step. unfold NC.is_ready. simpl. rewrite Hb.
  split; [done|]. wp_step. destruct (b_wr b) as [req|] eqn:Ewr; [by destruct Hwr as [? _]; congruence|].
  apply wp_bus_write; [done | done |]. wp_step. simpl in Hw. rewrite app_nil_r in Hw.
  constructor; try done; simpl.
  - rewrite fmap_snoc, <- Hw. done.
  - by rewrite Hst.
  - etransitivity; [exact (count_miss_stats (NC.base c) _ Hstat)|]. rewrite zlen_snoc. cbv zeta. by rewrite Z.add_assoc.
Qed.

Lemma nc_resp_wp m req c b : nc_inv c b → (match m with Read => b_rd b | Write => b_wr b end) = Some req →
  wp (NC.recv_mem_resp (req <| mt_dir := Resp |>)) (λ _ s', nc_inv s'.1 s'.2)
    (c, match m with Read => b <| b_rd := None |> | Write => b <| b_wr := None |> end).
Proof.
  intros [Hrd Hwr Hr Hw Hst Ha Hstat] E. unfold NC.recv_mem_resp. wp_step. destruct m; rewrite E in *; simpl.
  - destruct Hrd as (Eb & Em & Ed). rewrite Em, Ed. simpl. split; [done|]. wp_step. split; [done|]. wp_step.
    constructor; try done; simpl.
    + rewrite answered_snoc. simpl. by rewrite app_nil_r, <- Hr.
    + by rewrite answered_snoc.
    + by rewrite !fmap_snoc, Ha.
  - destruct Hwr as (Eb & Em). rewrite Em. simpl. split; [done|]. wp_step.
    constructor; try done; simpl.
    + by rewrite answered_snoc.
    + rewrite answered_snoc. simpl. by rewrite app_nil_r, <- Hw.
    + by rewrite !fmap_snoc, Ha.
Qed.

Lemma nc_step o c b : nc_inv c b → wp (step o) (λ _ s', nc_inv s'.1 s'.2) (c, b).
Proof.
  intros Hi. pose proof Hi as []. unfold wp. destruct o as [| |a|a d m| | |]; cbn [step ca_ready ca_read ca_write ca_resp ca_flush ca_update nocache_cache].
  - by constructor.
  - fold (wp NC.do_update (λ _ s', nc_inv s'.1 s'.2) (c, b <| b_upd := true |>)).
    unfold NC.do_update. wp_step. destruct (_ <=? _); by constructor.
  - unfold NC.is_ready. destruct (NC.r_busy_ c) eqn:E; [done|]. destruct (_ && _ && _); [|done]. by apply nc_read_wp.
  - unfold NC.is_ready. destruct (NC.w_busy_ c) eqn:E; [done|]. destruct (_ && _ && _); [|done]. by apply nc_write_wp.
  - destruct (b_rd b) as [req|] eqn:E; [|done]. by apply (nc_resp_wp Read).
  - destruct (b_wr b) as [req|] eqn:E; [|done]. by apply (nc_resp_wp Write).
  - done.
Qed.

(** C25: in every run, NoCache never fails, hands the stores to memory in program
    order, answers the accepted requests of each channel in order and exactly
    once (the last one may still be at the memory), pairs each answer with an
    acknowledgement of the same channel, is ready exactly on a channel with
    nothing outstanding, and counts every request as an access and a miss. *)
Theorem nocache_answers id c t ops : NC.make id = Ok c →
  ∃ c' b, run ops (c, bus_start t) = Ok (tt, (c', b)) ∧
    answered Read (b_resp b) ++ option_list (mt_addr <$> b_rd b) = b_reads b ∧
    answered Write (b_resp b) ++ option_list (mt_addr <$> b_wr b) = SB.addr <$> b_stores b ∧
    b_sent b = b_stores b ∧ ack_mop <$> b_ack b = ct_mop <$> b_resp b ∧
    NC.is_ready c' = (bool_decide (b_rd b = None), bool_decide (b_wr b = None)) ∧
    CB.stats (NC.base c') = let n := u64 (zlen (b_reads b) + zlen (b_stores b)) in CB.MkStats n 0 n.
Proof.
  intros Hm. unfold NC.make in Hm. res_inv Hm. injection Hm as <-.
  assert (nc_inv (NC.Mk a false false) (bus_start t)) as Hi.
  { constructor; try done. simpl. by injection Ha as <-. }
  pose proof (run_inv (λ _, nc_inv) ops 0 _ _ (λ o k c b Hc _, nc_step o c b Hc) Hi ltac:(done)) as Hw.
  unfold wp in Hw. destruct (run ops _) as [[[] [c' b]]|]; [|done]. destruct Hw as [Hrd Hwr H1 H2 H3 H4 H5]. cbn [fst snd] in *.
  exists c', b. splits; try done. unfold NC.is_ready.
  assert (NC.r_busy_ c' = negb (bool_decide (b_rd b = None))) as ->
    by (destruct (b_rd b); [by destruct Hrd | done]).
  assert (NC.w_busy_ c' = negb (bool_decide (b_wr b = None))) as ->
    by (destruct (b_wr b); [by destruct Hwr | done]).
  by rewrite !negb_involutive.
Qed.

Definition nocache_ops : list op :=
  [OTick; OUpdate; ORead 0x10000000; OWrite 0x10000004 7 15; OTick; OMemRead; OUpdate; ORead 0x10000008].

Lemma nocache_answers_witness : ∃ c c' b, NC.make 2 = Ok c ∧
  run nocache_ops (c, bus_start 0) = Ok (tt, (c', b)) ∧
  answered Read (b_resp b) ++ option_list (mt_addr <$> b_rd b) = [0x10000000; 0x10000008].
Proof.
  destruct (NC.make 2) as [c|] eqn:E; [|by vm_compute in E].
  destruct (nocache_answers 2 c 0 nocache_ops E) as (c' & b & Hr & H1 & _). exists c, c', b.
  split; [done|]. split; [exact Hr|]. rewrite H1.
  vm_compute in E. injection E as <-. vm_compute in Hr. by injection Hr as <- <-.
Defined.

(** ** StoreBuffer keeps the order of the stores *)

Section stbuf.
Import SB.
Context (n : Z).
Implicit Types (c : StoreBuffer) (b : Bus) (k : Z).

(** The pending answer of a channel, if one is scheduled. *)
Definition scheduled (time : Z) (r : CpuTrans) : list Z := if time =? InfTime then [] else [ct_addr r].

Definition fresh (time : Z) b : Prop := time = InfTime ∨ time = b_tick b + 1.

Definition sched_ok (time : Z) (m : MemRWOpt) (r : CpuTrans) b : Prop :=
  time = InfTime ∨ 0 <= time <= b_tick b + 1 ∧ ct_mop r = m.

Record sb_core k c b : Prop := {
  sb_tick : 0 <= b_tick b ∧ b_tick b + k + 1 < InfTime ∧ 0 <= k;
  sb_cap : 0 < n ∧ entries c = n ∧ zlen (fifo_ c) <= n;
  sb_wr : match b_wr b with
    | Some req => w_busy_ c = true ∧ ∃ e rest, fifo_ c = e :: rest ∧ req = ent_req c e
    | None => w_busy_ c = false ∧ (sched_w_time_ c = InfTime → fifo_ c = [])
    end;
  sb_w : sched_ok (sched_w_time_ c) Write (sched_w_resp_ c) b;
  sb_ws : sched_w_time_ c = b_tick b + 1 → b_ws b = true;
  sb_sent : b_sent b ++ (match b_wr b with Some _ => tail (fifo_ c) | None => fifo_ c end) = b_stores b;
  sb_wresp : answered Write (b_resp b) ++ scheduled (sched_w_time_ c) (sched_w_resp_ c) = addr <$> b_stores b;
  sb_rd : match b_rd b with
    | Some req => r_busy_ c = true ∧ pending_rmiss_time_ c = InfTime ∧ sched_r_time_ c = InfTime ∧
        mt_mop req = Read ∧ mt_data req = []
    | None => True
    end;
  sb_rmiss : pending_rmiss_time_ c = InfTime ∨ r_busy_ c = true ∧ sched_r_time_ c = InfTime ∧ b_rd b = None;
  sb_r : sched_ok (sched_r_time_ c) Read (sched_r_resp_ c) b;
  sb_rs : sched_r_time_ c = b_tick b + 1 → r_busy_ c = false → b_rs b = true;
  sb_reads : answered Read (b_resp b) ++ scheduled (sched_r_time_ c) (sched_r_resp_ c) ++
    option_list (mt_addr <$> b_rd b) ++
    (if pending_rmiss_time_ c =? InfTime then [] else [pending_rmiss_addr_ c]) = b_reads b
}.

(** After the cache's update nothing that is due remains scheduled. *)
Definition sb_inv k c b : Prop :=
  sb_core k c b ∧ (b_upd b = true → fresh (sched_r_time_ c) b ∧ fresh (sched_w_time_ c) b).

Lemma sb_fewer k c b : 0 <= k → sb_core (k + 1) c b → sb_core k c b.
Proof. intros Hk []. constructor; try done. lia. Qed.

Lemma fresh_ready time b : fresh time b → (time = b_tick b + 1 → False) → time = InfTime.
Proof. intros [?|?]; [done | naive_solver]. Qed.

Lemma scheduled_inf r : scheduled InfTime r = [].
Proof. done. Qed.
Lemma scheduled_now t r : t ≠ InfTime → scheduled t r = [ct_addr r].
Proof. intros Ht. unfold scheduled. by rewrite (proj2 (Z.eqb_neq _ _) Ht). Qed.

(** The fields an operation leaves as they were. *)
Ltac sb_fields := constructor; simpl; try done; try (by left); try lia.

Lemma issue_rmiss_wp k c b : sb_core k c b →
  wp issue_rmiss (λ _ s', sb_core k s'.1 s'.2 ∧ b_upd s'.2 = b_upd b ∧ b_tick s'.2 = b_tick b) (c, b).
Proof.
  intros Hc. pose proof Hc as [Ht Hcap Hwr Hw Hws Hsent Hwresp Hrd Hrm Hr Hrs Hreads].
  unfold issue_rmiss. wp_step. cbn [fst snd curr_tick bus_env].
  destruct (Z.leb_spec (pending_rmiss_time_ c) (b_tick b)) as [Hle|]; [|done].
  destruct Hrm as [Hrm|(Hb & Hsr & Hnone)]; [lia|]. wp_step.
  apply wp_bus_read; [done | done |]. wp_step. split; [|done]. constructor; try done.
  - simpl. by left.
  - simpl. rewrite Hnone in Hreads. rewrite Hsr in *. rewrite scheduled_inf in *.
    rewrite (proj2 (Z.eqb_neq (pending_rmiss_time_ c) InfTime)) in Hreads by lia. done.
Qed.

Lemma respond_read_wp k c b : sb_core k c b →
  wp respond_read (λ _ s', sb_core k s'.1 s'.2 ∧ fresh (sched_r_time_ s'.1) s'.2 ∧ b_upd s'.2 = b_upd b ∧
    b_tick s'.2 = b_tick b) (c, b).
Proof.
  intros Hc. pose proof Hc as [Ht Hcap Hwr Hw Hws Hsent Hwresp Hrd Hrm Hr Hrs Hreads].
  unfold respond_read. wp_step. cbn [fst snd curr_tick bus_env].
  destruct (Z.leb_spec (sched_r_time_ c) (b_tick b)) as [Hle|Hgt].
  - wp_step. cbn [fst snd]. split; [|split; [by left | done]].
    assert (sched_r_time_ c ≠ InfTime) as Hne by lia.
    assert (b_rd b = None) as Hnone by (destruct (b_rd b); [by destruct Hrd as (_ & _ & ? & _) | done]).
    destruct Hrm as [Hrm|(_ & ? & _)]; [|done]. destruct Hr as [?|[_ Em]]; [done|].
    sb_fields.
    + rewrite answered_snoc, Em. done.
    + by rewrite Hnone.
    + rewrite answered_snoc, Em, decide_True by done. rewrite scheduled_now in Hreads by done.
      unfold snoc. rewrite <- Hreads. by rewrite <- app_assoc.
  - wp_step. split; [done|]. split; [|done]. destruct Hr as [?|[? _]]; [by left | right; simpl; lia].
Qed.

(** Sending the head of the buffer once its predecessor is out of the way. *)
Lemma drain_wp k c b : b_wr b = None → w_busy_ c = false →
  (∀ c' b', c' = c <| w_busy_ := match fifo_ c with [] => false | _ => true end |> →
     b' = match fifo_ c with
          | [] => b
          | e :: _ => b <| b_wr := Some (ent_req c e) |> <| b_sent ::= snoc e |>
          end → sb_core k c' b') →
  wp drain (λ _ s', sb_core k s'.1 s'.2 ∧ sched_w_time_ s'.1 = sched_w_time_ c ∧
    sched_r_time_ s'.1 = sched_r_time_ c ∧ b_upd s'.2 = b_upd b ∧ b_tick s'.2 = b_tick b) (c, b).
Proof.
  intros Hn Hw Hk. unfold drain. wp_step. cbn [fst snd]. destruct (fifo_ c) as [|e rest] eqn:Ef; wp_step.
  - split; [|done]. apply Hk; [|done]. by destruct c; simpl in *; subst.
  - apply wp_bus_write; [done | done |]. wp_step. cbn [fst snd]. split; [|done]. apply Hk; [done|].
    by destruct e.
Qed.

Lemma respond_write_wp k c b : sb_core k c b →
  wp respond_write (λ _ s', sb_core k s'.1 s'.2 ∧ fresh (sched_w_time_ s'.1) s'.2 ∧
    sched_r_time_ s'.1 = sched_r_time_ c ∧ b_upd s'.2 = b_upd b ∧ b_tick s'.2 = b_tick b) (c, b).
Proof.
  intros Hc. pose proof Hc as [Ht Hcap Hwr Hw Hws Hsent Hwresp Hrd Hrm Hr Hrs Hreads].
  unfold respond_write. wp_step. cbn [fst snd curr_tick bus_env].
  destruct (Z.leb_spec (sched_w_time_ c) (b_tick b)) as [Hle|Hgt].
  2:{ wp_step. split; [done|]. split; [|done]. destruct Hw as [?|[? _]]; [by left | right; simpl; lia]. }
  assert (sched_w_time_ c ≠ InfTime) as Hne by lia. destruct Hw as [?|[_ Em]]; [done|].
  rewrite scheduled_now in Hwresp by done.
  set (c1 := c <| sched_w_time_ := InfTime |>). set (b1 := b <| b_resp ::= snoc (sched_w_resp_ c) |>).
  assert (answered Write (b_resp b1) ++ [] = addr <$> b_stores b) as Hwresp1.
  { simpl. rewrite answered_snoc, Em, decide_True by done. by rewrite app_nil_r. }
  assert (answered Read (b_resp b1) = answered Read (b_resp b)) as Hread1.
  { simpl. by rewrite answered_snoc, Em. }
  destruct (b_wr b) as [req|] eqn:Ewr.
  - destruct Hwr as (Hbusy & Hfifo). wp_step. cbn [fst snd]. fold c1 b1.
    change (w_busy_ c1) with (w_busy_ c). rewrite Hbusy. wp_step. cbn [fst snd].
    split; [|split; [by left | done]]. sb_fields; rewrite ?Ewr; try done. by rewrite answered_snoc, Em.
  - destruct Hwr as (Hbusy & Hfifo). wp_step. cbn [fst snd]. fold c1 b1.
    change (w_busy_ c1) with (w_busy_ c). rewrite Hbusy. cbn [negb].
    eapply wp_mono; [apply (drain_wp k c1 b1); [done | done |]|].
    + intros c' b' -> ->. change (fifo_ c1) with (fifo_ c). destruct (fifo_ c) as [|e rest] eqn:Ef.
      * sb_fields; rewrite ?Ewr, ?Ef; try done. by rewrite answered_snoc, Em.
      * sb_fields; rewrite ?Ewr, ?Ef; try done; [by eauto | | by rewrite answered_snoc, Em].
        unfold snoc. by rewrite <- app_assoc.
    + intros _ [c' b'] (H1 & H2 & H3 & H4 & H5). cbn [fst snd] in *. split; [done|].
      split; [by left; rewrite H2|]. done.
Qed.

Lemma stbuf_update_wp k c b : sb_core k c b →
  wp do_update (λ _ s', sb_core k s'.1 s'.2 ∧ fresh (sched_r_time_ s'.1) s'.2 ∧ fresh (sched_w_time_ s'.1) s'.2)
    (c, b).
Proof.
  intros Hc. unfold do_update. wp_step. cbn [fst snd curr_tick bus_env].
  destruct (Z.leb_spec (next_update c) (b_tick b)) as [_|Hgt].
  - unfold update_impl. rewrite wp_bind. eapply wp_mono; [by apply issue_rmiss_wp|].
    intros _ [c1 b1] (H1 & _ & Ht1). cbn [fst snd] in *.
    rewrite wp_bind. eapply wp_mono; [by apply respond_read_wp|].
    intros _ [c2 b2] (H2 & Hf & _ & Ht2). cbn [fst snd] in *.
    eapply wp_mono; [by apply respond_write_wp|].
    intros _ [c3 b3] (H3 & Hf3 & Er & _ & Ht3). cbn [fst snd] in *. split; [done|]. split; [|done].
    rewrite Er. unfold fresh in *. by rewrite Ht3.
  - unfold next_update in Hgt. pose proof (sb_w _ _ _ Hc) as Hw. pose proof (sb_r _ _ _ Hc) as Hr.
    split; [done|]. split.
    + destruct Hr as [?|[? _]]; [by left | right; simpl; lia].
    + destruct Hw as [?|[? _]]; [by left | right; simpl; lia].
Qed.

Lemma u64_next k c b : sb_core k c b → u64 (b_tick b + 1) = b_tick b + 1 ∧ b_tick b + 1 ≠ InfTime.
Proof. intros [Ht _]. split; [|lia]. apply u64_small. unfold InfTime in Ht. lia. Qed.

Lemma sched_next t m r b : 0 <= t → b_tick b = t → ct_mop r = m → sched_ok (t + 1) m r b.
Proof. intros Ht <- Em. right. split; [lia | done]. Qed.

Lemma stbuf_read_wp k c b a : sb_inv k c b → (is_ready c).1 = true → b_upd b = true → b_rs b = false →
  wp (read_req a) (λ _ s', sb_inv k s'.1 s'.2) (c, b <| b_rs := true |> <| b_reads ::= snoc a |>).
Proof.
  intros [Hc Hf] Hrdy Hupd Hns. pose proof Hc as [Ht Hcap Hwr Hw Hws Hsent Hwresp Hrd Hrm Hr Hrs Hreads].
  destruct (u64_next k c b Hc) as [Eu Hne]. destruct (Hf Hupd) as [Hfr Hfw].
  assert (r_busy_ c = false) as Hb by (unfold is_ready in Hrdy; by destruct (pending_flush_ c), (r_busy_ c)).
  assert (sched_r_time_ c = InfTime) as Esr.
  { apply (fresh_ready _ b Hfr). intros E. rewrite Hrs in Hns; done. }
  assert (b_rd b = None) as Erd by (destruct (b_rd b); [by destruct Hrd; congruence | done]).
  assert (pending_rmiss_time_ c = InfTime) as Erm by (destruct Hrm as [?|[? _]]; congruence).
  rewrite Esr, Erd, Erm in Hreads. simpl in Hreads. rewrite app_nil_r in Hreads.
  unfold read_req. wp_step. cbn [fst snd curr_tick bus_env].
  change (b_tick (b <| b_rs := true |> <| b_reads ::= snoc a |>)) with (b_tick b). rewrite Eu.
  destruct (List.find (forwards a) (fifo_ c)) as [e|] eqn:Efind; wp_step; cbn [fst snd]; (split; [|intros _; split; [|done]]).
  - sb_fields; rewrite ?Erd; try done; [apply sched_next; [lia | done | done]|]. rewrite Erm, scheduled_now by done.
    simpl. by rewrite <- Hreads.
  - by right.
  - sb_fields; rewrite ?Erd; try done; [by right|]. rewrite Esr, (proj2 (Z.eqb_neq _ _) Hne). simpl.
    by rewrite <- Hreads.
  - by left.
Qed.

Lemma stbuf_write_wp k c b a d m : sb_inv k c b → (is_ready c).2 = true → b_upd b = true → b_ws b = false →
  wp (write_req a d m) (λ _ s', sb_inv k s'.1 s'.2)
    (c, b <| b_ws := true |> <| b_stores ::= snoc (MkEnt a d m) |>).
Proof.
  intros [Hc Hf] Hrdy Hupd Hns. pose proof Hc as [Ht Hcap Hwr Hw Hws Hsent Hwresp Hrd Hrm Hr Hrs Hreads].
  destruct (u64_next k c b Hc) as [Eu Hne]. destruct (Hf Hupd) as [Hfr Hfw].
  assert (entries c =? 0 = false) as En by (apply Z.eqb_neq; lia).
  assert (zlen (fifo_ c) <? entries c = true) as Hlt
    by (unfold is_ready in Hrdy; rewrite En in Hrdy; by destruct (pending_flush_ c)).
  assert (sched_w_time_ c = InfTime) as Esw.
  { apply (fresh_ready _ b Hfw). intros E. rewrite Hws in Hns; done. }
  rewrite Esw in Hwresp. rewrite scheduled_inf, app_nil_r in Hwresp.
  unfold write_req. wp_step. cbn [fst snd curr_tick bus_env]. rewrite En.
  change (b_tick (b <| b_ws := true |> <| b_stores ::= snoc (MkEnt a d m) |>)) with (b_tick b). rewrite Eu.
  wp_step. split; [exact Hlt|]. wp_step. cbn [fst snd]. split; [|intros _; split; [done | by right]].
  apply Z.ltb_lt in Hlt. sb_fields.
  - split; [apply Hcap|]. split; [apply Hcap|]. change (zlen (snoc (MkEnt a d m) (fifo_ c)) <= n). rewrite zlen_snoc. lia.
  - destruct (b_wr b) as [req|].
    + destruct Hwr as (? & e & rest & -> & ->). split; [done|]. by eexists e, _.
    + split; [apply Hwr | done].
  - apply sched_next; [lia | done | done].
  - rewrite <- Hsent. unfold snoc. destruct (b_wr b) as [req|]; [|by rewrite app_assoc].
    destruct Hwr as (? & e & rest & -> & ->). simpl. by rewrite app_assoc.
  - rewrite scheduled_now, fmap_snoc by done. by rewrite Hwresp.
Qed.

Lemma stbuf_mem_read_wp k c b req : sb_inv k c b → b_rd b = Some req →
  wp (recv_mem_resp (req <| mt_dir := Resp |>)) (λ _ s', sb_inv k s'.1 s'.2) (c, b <| b_rd := None |>).
Proof.
  intros [Hc Hf] Erd. pose proof Hc as [Ht Hcap Hwr Hw Hws Hsent Hwresp Hrd Hrm Hr Hrs Hreads].
  destruct (u64_next k c b Hc) as [Eu Hne]. rewrite Erd in *. destruct Hrd as (Hb & Erm & Esr & Em & Ed).
  rewrite Esr, Erm in Hreads. unfold recv_mem_resp. wp_step. cbn [fst snd curr_tick bus_env].
  change (b_tick (b <| b_rd := None |>)) with (b_tick b). rewrite Eu.
  change (mt_mop (req <| mt_dir := Resp |>)) with (mt_mop req).
  change (mt_data (req <| mt_dir := Resp |>)) with (mt_data req). rewrite Em, Ed. wp_step. split; [done|]. wp_step.
  cbn [fst snd]. split; [|intros Hu; split; [by right | apply Hf, Hu]]. sb_fields.
  - apply sched_next; [lia | done | done].
  - congruence.
  - by rewrite Erm, scheduled_now.
Qed.

Lemma stbuf_mem_write_wp k c b req : sb_inv k c b → b_wr b = Some req →
  wp (recv_mem_resp (req <| mt_dir := Resp |>)) (λ _ s', sb_inv k s'.1 s'.2) (c, b <| b_wr := None |>).
Proof.
  intros [Hc Hf] Ewr. pose proof Hc as [Ht Hcap Hwr Hw Hws Hsent Hwresp Hrd Hrm Hr Hrs Hreads].
  rewrite Ewr in *. destruct Hwr as (Hb & e & rest & Ef & ->). rewrite Ef in *. simpl in Hsent.
  unfold recv_mem_resp. wp_step. cbn [fst snd curr_tick bus_env]. simpl mt_mop.
  rewrite (proj2 (Z.eqb_neq (entries c) 0)), Ef by lia. rewrite !wp_bind, wp_assert. simpl mt_addr.
  split; [apply Z.eqb_refl|]. rewrite wp_bind.
  eapply (wp_mono _ (λ _ s', s'.1 = c ∧ ∃ l, s'.2 = b <| b_wr := None |> <| b_ack := l |>)).
  { wp_step. destruct (zlen (e :: rest) =? entries c); wp_step; cbn [fst snd]; (split; [done|]); [by eexists|]. exists (b_ack b). by destruct b. }
  intros _ [c1 b1] [E1 [l E2]]. cbn [fst snd] in E1, E2. subst c1 b1. wp_step. cbn [fst snd].
  set (c1 := c <| fifo_ ::= tail |> <| w_busy_ := false |>).
  set (b1 := b <| b_wr := None |> <| b_ack := l |>).
  assert (fifo_ c1 = rest) as Ef1 by (unfold c1; simpl; by rewrite Ef).
  assert (zlen (e :: rest) = zlen rest + 1) as El by (unfold zlen; simpl; lia). rewrite El in Hcap.
  eapply wp_mono; [apply (drain_wp k c1 b1); [done | done |]|].
  - rewrite Ef1. intros c' b' -> ->. destruct rest as [|e2 rest].
    + sb_fields; rewrite ?Ef; try done. simpl. lia.
    + sb_fields; rewrite ?Ef; try done.
      * simpl. lia.
      * split; [done|]. by exists e2, rest.
      * rewrite <- Hsent. unfold snoc. by rewrite <- app_assoc.
  - intros _ [c' b'] (H1 & H2 & H3 & H4 & H5). cbn [fst snd] in *. split; [done|]. rewrite H2, H3, H4.
    unfold fresh. by rewrite H5.
Qed.

(** Every operation keeps the invariant; a tick uses one unit of the bound. *)
Lemma stbuf_step o k c b : sb_inv (k + 1) c b → 0 <= k → wp (step o) (λ _ s', sb_inv k s'.1 s'.2) (c, b).
Proof.
  intros [Hc0 Hf] Hk. pose proof (sb_fewer k c b Hk Hc0) as Hc. pose proof (conj Hc Hf : sb_inv k c b) as Hi.
  unfold wp. destruct o as [| |a|a d m| | |]; cbn [step ca_ready ca_read ca_write ca_resp ca_flush ca_update stbuf_cache].
  - split; [|done]. destruct Hc0 as [Ht Hcap Hwr Hw Hws Hsent Hwresp Hrd Hrm Hr Hrs Hreads].
    assert (∀ time m r b', sched_ok time m r b → b_tick b' = Z.succ (b_tick b) → sched_ok time m r b') as Hs
      by (intros time m r b' [?|[? ?]] E; [by left | right; split; [rewrite E; lia | done]]).
    constructor; simpl; try done; try lia; [by eapply Hs | | by eapply Hs |].
    + intros E. destruct Hw as [Hw|[Hw _]]; lia.
    + intros E. destruct Hr as [Hr|[Hr _]]; lia.
  - assert (sb_core k c (b <| b_upd := true |>)) as Hc' by (destruct Hc; by constructor).
    pose proof (stbuf_update_wp k c _ Hc') as Hw. unfold wp in Hw.
    destruct (do_update _) as [[? [c' b']]|]; [|done]. by destruct Hw.
  - destruct ((is_ready c).1) eqn:E1, (b_upd b) eqn:E2, (b_rs b) eqn:E3; simpl; try done.
    apply (stbuf_read_wp k c b a Hi E1 E2 E3).
  - destruct ((is_ready c).2) eqn:E1, (b_upd b) eqn:E2, (b_ws b) eqn:E3; simpl; try done.
    apply (stbuf_write_wp k c b a d m Hi E1 E2 E3).
  - destruct (b_rd b) as [req|] eqn:E; [|done]. by apply stbuf_mem_read_wp.
  - destruct (b_wr b) as [req|] eqn:E; [|done]. by apply stbuf_mem_write_wp.
  - simpl. split; [|done]. destruct Hc; by constructor.
Qed.
End stbuf.

(** C24: in every run of a buffer with at least one entry, nothing fails, the
    buffer never overflows, the stores sent to memory, followed by those still
    waiting in the buffer, are the accepted stores in program order (each sent
    exactly once), and the stores acknowledged to the processor, followed by the
    one whose answer is scheduled, are the accepted stores in order too.  Every
    accepted read is answered in order, scheduled, at the memory or waiting to be
    sent there. *)
Theorem stbuf_in_order n id c t ops : 0 < n → SB.make n id = Ok c → 0 <= t → t + zlen ops + 1 < InfTime →
  ∃ c' b, run ops (c, bus_start t) = Ok (tt, (c', b)) ∧ zlen (SB.fifo_ c') <= n ∧
    b_sent b ++ (match b_wr b with Some _ => tail (SB.fifo_ c') | None => SB.fifo_ c' end) = b_stores b ∧
    answered Write (b_resp b) ++ scheduled (SB.sched_w_time_ c') (SB.sched_w_resp_ c') =
      SB.addr <$> b_stores b ∧
    answered Read (b_resp b) ++ scheduled (SB.sched_r_time_ c') (SB.sched_r_resp_ c') ++
      option_list (mt_addr <$> b_rd b) ++
      (if SB.pending_rmiss_time_ c' =? InfTime then [] else [SB.pending_rmiss_addr_ c']) = b_reads b.
Proof.
  intros Hn Hm Ht Hlen. unfold SB.make in Hm. res_inv Hm. injection Hm as <-. set (c := SB.Mk _ _ _ _ _ _ _ _ _ _ _ _).
  pose proof (zlen_nonneg ops).
  assert (sb_inv n (0 + zlen ops) c (bus_start t)) as Hi.
  { split; [|done]. constructor; simpl; try done; try (by left); try lia.
    split; [done|]. split; [done|]. unfold zlen; simpl; lia. }
  pose proof (run_inv (sb_inv n) ops 0 c (bus_start t) (stbuf_step n) Hi ltac:(done)) as Hw. unfold wp in Hw.
  destruct (run ops _) as [[[] [c' b]]|]; [|done]. destruct Hw as [[] _]. cbn [fst snd] in *.
  exists c', b. splits; try done. lia.
Qed.

(** Three stores through a buffer of two entries, with a read forwarded. *)
Definition stbuf_ops : list op :=
  [OTick; OUpdate; OWrite 0x80000000 7 15; OTick; OUpdate; OWrite 0x80000004 8 15; ORead 0x80000000;
   OTick; OUpdate; OMemWrite; OTick; OUpdate; OWrite 0x80000008 9 15; ORead 0x80000010; OTick; OMemWrite; OUpdate].

Lemma stbuf_in_order_witness : ∃ c c' b, SB.make 2 1 = Ok c ∧ run stbuf_ops (c, bus_start 0) = Ok (tt, (c', b)) ∧
  zlen (SB.fifo_ c') <= 2 ∧
  b_sent b ++ (match b_wr b with Some _ => tail (SB.fifo_ c') | None => SB.fifo_ c' end) =
    [SB.MkEnt 0x80000000 7 15; SB.MkEnt 0x80000004 8 15; SB.MkEnt 0x80000008 9 15].
Proof.
  destruct (SB.make 2 1) as [c|] eqn:E; [|by vm_compute in E].
  destruct (stbuf_in_order 2 1 c 0 stbuf_ops) as (c' & b & Hr & H1 & H2 & _); [done | done | done | done |].
  exists c, c', b. split; [done|]. split; [exact Hr|]. split; [exact H1|]. rewrite H2.
  vm_compute in E. injection E as <-. vm_compute in Hr. by injection Hr as <- <-.
Defined.

(** A read that hits the buffer is answered with the data of the OLDEST
    buffered whole-word store to its address, whatever younger stores to the same
    address wait behind it, and the read channel stays ready. *)
Theorem read_forwards_oldest {E} `{CacheEnv E} (c : SB.StoreBuffer) (x : E) a pre e post :
  SB.fifo_ c = pre ++ e :: post → Forall (λ e', SB.forwards a e' = false) pre → SB.forwards a e = true →
  ∃ c', SB.read_req a (c, x) = Ok (tt, (c', x)) ∧
    SB.sched_r_resp_ c' = MkCpuTrans a (SB.data e) (SB.cache_id c) Read ∧
    SB.sched_r_time_ c' = u64 (curr_tick x + 1) ∧ SB.is_ready c' = SB.is_ready c.
Proof.
  intros Ef Hpre He. unfold SB.read_req, self, tick, gets, mbind, ST_bind. simpl. rewrite Ef.
  assert (List.find (SB.forwards a) (pre ++ e :: post) = Some e) as ->.
  { clear Ef. induction Hpre as [|e' pre He' _ IH]; simpl; [by rewrite He | by rewrite He', IH]. }
  eexists. split; [done|]. done.
Qed.

Lemma read_forwards_oldest_witness : ∃ c',
  SB.read_req 16 (SB.Mk CB.cache_ex false true false [SB.MkEnt 16 1 15; SB.MkEnt 16 2 15] 4 InfTime InfTime InfTime 0
     (MkCpuTrans 0 0 0 Read) (MkCpuTrans 0 0 0 Read), bus_start 0) = Ok (tt, (c', bus_start 0)) ∧
  ct_data (SB.sched_r_resp_ c') = 1.
Proof.
  edestruct (read_forwards_oldest (SB.Mk CB.cache_ex false true false [SB.MkEnt 16 1 15; SB.MkEnt 16 2 15] 4
    InfTime InfTime InfTime 0 (MkCpuTrans 0 0 0 Read) (MkCpuTrans 0 0 0 Read)) (bus_start 0) 16 []
    (SB.MkEnt 16 1 15) [SB.MkEnt 16 2 15]) as (c' & Hr & Hd & _); [done | constructor | done |].
  exists c'. split; [exact Hr|]. by rewrite Hd.
Defined.

Lemma flushing_step o (s : SB.StoreBuffer * Bus) u s' : step o s = Ok (u, s') →
  SB.pending_flush_ s.1 = true → SB.pending_flush_ s'.1 = true.
Proof.
  assert (∀ trans, keeps SB.pending_flush_ (SB.recv_mem_resp (E := Bus) trans)) as Hresp
    by (intros; unfold SB.recv_mem_resp, SB.drain; keeps_tac).
  assert (keeps SB.pending_flush_ (SB.do_update (E := Bus))) as Hupd
    by (unfold SB.do_update, SB.update_impl, SB.issue_rmiss, SB.respond_read, SB.respond_write, SB.drain; keeps_tac).
  assert (∀ a, keeps SB.pending_flush_ (SB.read_req (E := Bus) a)) as Hread
    by (intros; unfold SB.read_req; keeps_tac).
  assert (∀ a d m, keeps SB.pending_flush_ (SB.write_req (E := Bus) a d m)) as Hwrite
    by (intros; unfold SB.write_req; keeps_tac).
  destruct s as [c b]. cbn [fst]. intros Hr Hp. revert Hr.
  destruct o; unfold step; cbn [ca_update ca_read ca_write ca_resp ca_flush stbuf_cache]; try case_match;
    intros Hr; try (by injection Hr as _ <-).
  - by rewrite (Hupd _ _ _ Hr).
  - by rewrite (Hread _ _ _ _ Hr).
  - by rewrite (Hwrite _ _ _ _ _ _ Hr).
  - by rewrite (Hresp _ _ _ _ Hr).
  - by rewrite (Hresp _ _ _ _ Hr).
Qed.

(** C40: a flush never ends.  Once [flush_all] has been called no run of ticks,
    updates, requests and memory responses makes the buffer ready again. *)
Theorem flush_never_ends ops (s : SB.StoreBuffer * Bus) u s' :
  run (OFlush :: ops) s = Ok (u, s') → SB.is_ready s'.1 = (false, false).
Proof.
  intros Hr. assert (∀ ops s u s', run ops s = Ok (u, s') → SB.pending_flush_ s.1 = true →
    SB.pending_flush_ s'.1 = true) as Hrun.
  { clear. intros ops. induction ops as [|o ops IH]; intros s u s' Hr Hp; [by injection Hr as _ <-|].
    cbn [run] in Hr. unfold mbind, ST_bind in Hr. destruct (step o s) as [[v s1]|] eqn:E; [|done].
    apply (IH _ _ _ Hr). by apply (flushing_step o s v). }
  cbn [run] in Hr. unfold mbind, ST_bind in Hr. destruct s as [c b]. simpl in Hr.
  apply Hrun in Hr; [|done]. unfold SB.is_ready. by rewrite Hr.
Qed.

Lemma flush_never_ends_witness : ∃ c c' b', SB.make 2 1 = Ok c ∧
  run (OFlush :: [OTick; OUpdate; OTick; OUpdate]) (c, bus_start 0) = Ok (tt, (c', b')) ∧
  SB.is_ready c' = (false, false).
Proof.
  destruct (SB.make 2 1) as [c|] eqn:E; [|by vm_compute in E].
  destruct (run (OFlush :: [OTick; OUpdate; OTick; OUpdate]) (c, bus_start 0)) as [[[] [c' b']]|] eqn:Hr.
  - exists c, c', b'. split; [done|]. split; [done|].
    exact (flush_never_ends [OTick; OUpdate; OTick; OUpdate] (c, bus_start 0) tt (c', b') Hr).
  - vm_compute in E. injection E as <-. by vm_compute in Hr.
Defined.
