(* ===== verification/Caches.v ===== *)
(** * What every cache promises to the system

    [CacheLaws] states, for a class of caches, an invariant that ties a cache to
    its contract environment [Port] and is kept by every method, and that the
    methods behave alike in related environments.  [PipeCache] and [NoCache] keep
    it, and so does [DCache], the data cache [main] chooses from them. *)

From S2P Require Import Prelude Types Repl CacheBase CacheEnv EnvSim PipeCache StoreBuffer.

(** ** The interface *)

Definition outstanding (m : MemRWOpt) (p : Port) : option MemTrans :=
  match m with Read => p_rd p | Write => p_wr p end.
Definition settle (m : MemRWOpt) (p : Port) : Port :=
  match m with Read => p <| p_rd := None |> | Write => p <| p_wr := None |> end.

(** The same port, up to the requests on their way. *)
Definition same_port (p p' : Port) : Prop :=
  (p_tick p', p_id p', p_words p', p_stores p') = (p_tick p, p_id p, p_words p, p_stores p).

(** What a response is for: the cache looks at nothing else. *)
Definition resp_key (r : MemTrans) := (mt_mop r, mt_addr r, mt_data r).

Class CacheLaws (C : Type) `{Cache C} (cinv : C → Port → Prop) : Prop := {
  law_time c p : cinv c p → p_tick p + 1 < InfTime → cinv c (p <| p_tick ::= Z.succ |>);
  law_read c p a : cinv c p → (ca_ready c).1 = true →
    wp (ca_read a) (λ _ s', cinv s'.1 (q_port s'.2) ∧ same_port p (q_port s'.2) ∧
      p_cpu (q_port s'.2) = p_cpu p + 1) (c, MkQuiet (p <| p_cpu ::= Z.succ |>));
  law_write c p a d m : cinv c p → (ca_ready c).2 = true → p_stores p = true →
    wp (ca_write a d m) (λ _ s', cinv s'.1 (q_port s'.2) ∧ same_port p (q_port s'.2) ∧
      p_cpu (q_port s'.2) = p_cpu p + 1) (c, MkQuiet (p <| p_cpu ::= Z.succ |>));
  law_resp c p m r : cinv c p → outstanding m p = Some r →
    wp (ca_resp (r <| mt_dir := Resp |>)) (λ _ s', cinv s'.1 s'.2 ∧ same_port p s'.2) (c, settle m p);
  law_update c p : cinv c p → wp ca_update (λ _ s', cinv s'.1 s'.2 ∧ same_port p s'.2) (c, p);
  law_flush c p : cinv c p → wp ca_flush (λ _ s', cinv s'.1 s'.2 ∧ same_port p s'.2) (c, p);
  law_reset c p : cinv c p → cinv (ca_reset c) p;
  law_key {E} `{CacheEnv E} r r' (s : C * E) : resp_key r = resp_key r' → ca_resp r s = ca_resp r' s;
  law_sim_read {E1 E2} `{CacheEnv E1, CacheEnv E2} (R : E1 → E2 → Prop) a : env_sim R → sim R R (ca_read a) (ca_read a);
  law_sim_write {E1 E2} `{CacheEnv E1, CacheEnv E2} (R : E1 → E2 → Prop) a d m :
    env_sim R → sim R R (ca_write a d m) (ca_write a d m);
  law_sim_resp {E1 E2} `{CacheEnv E1, CacheEnv E2} (R : E1 → E2 → Prop) r : env_sim R → sim R R (ca_resp r) (ca_resp r);
  law_sim_update {E1 E2} `{CacheEnv E1, CacheEnv E2} (R : E1 → E2 → Prop) : env_sim R → sim R R ca_update ca_update;
  law_sim_flush {E1 E2} `{CacheEnv E1, CacheEnv E2} (R : E1 → E2 → Prop) : env_sim R → sim R R ca_flush ca_flush
}.

(** No method of a cache changes the constants of its port, nor the tick. *)
Lemma port_const_sim p0 : env_sim (λ p p' : Port, p = p' ∧ same_port p0 p).
Proof.
  constructor.
  - by intros p ? [-> _].
  - intros req p ? [] p' [<- Hs] E. exists p'. split; [done|]. split; [done|]. revert E.
    unfold mem_recv_req, port_env, port_req. destruct (req_allowed p req); [|done].
    by destruct (mt_mop req), (p_rd p), (p_wr p); intros [= <-].
  - intros r p ? [] p' [<- Hs] E. exists p'. split; [done|]. split; [done|]. revert E.
    unfold cpu_resp_recv, port_env, port_resp. destruct (resp_allowed p r); [|done]. by intros [= <-].
  - intros r p ? [] p' [<- Hs] E. exists p'. split; [done|]. split; [done|]. revert E.
    unfold cpu_ack_recv, port_env, port_ack. destruct (_ =? _); [|done]. by intros [= <-].
Qed.

Lemma wp_same_port {C A} (m : ST (C * Port) A) Q c p p0 : same_port p0 p →
  (∀ R : Port → Port → Prop, env_sim R → sim R R m m) →
  wp m Q (c, p) → wp m (λ a s', Q a s' ∧ same_port p0 s'.2) (c, p).
Proof.
  intros Hp Hs Hw. eapply wp_mono; [by eapply sim_wp; [apply Hs, (port_const_sim p0) | | exact Hw]|].
  intros a [c' p'] (p1 & [-> Hp1] & HQ). done.
Qed.

(** ** [PipeCache] *)

Module PipeLaws.
Import PipeCache.

Section sims.
Context {E1 E2 : Type} `{CacheEnv E1, CacheEnv E2} (R : E1 → E2 → Prop) (HR : env_sim R).

Lemma respond_sim t : sim R R (respond t) (respond t).
Proof. unfold respond. sim_tac. Qed.
#[local] Hint Resolve respond_sim : sim.
Lemma handle_hit_sim bk : sim R R (handle_hit bk) (handle_hit bk).
Proof. unfold handle_hit. sim_tac. Qed.
Lemma handle_prefetch_sim a h : sim R R (handle_prefetch a h) (handle_prefetch a h).
Proof. unfold handle_prefetch. sim_tac. Qed.
Lemma handle_flush_sim : sim R R handle_flush handle_flush.
Proof. unfold handle_flush. sim_tac. Qed.
Lemma block_sim : sim R R block block.
Proof. unfold block. sim_tac. Qed.
#[local] Hint Resolve handle_hit_sim handle_prefetch_sim handle_flush_sim block_sim : sim.
Lemma serve_miss_sim bk : sim R R (serve_miss bk) (serve_miss bk).
Proof. unfold serve_miss. sim_tac. Qed.
#[local] Hint Resolve serve_miss_sim : sim.
Lemma serve_back_sim : sim R R serve_back serve_back.
Proof. unfold serve_back. sim_tac. Qed.
Lemma probe_back_sim : sim R R probe_back probe_back.
Proof. unfold probe_back. sim_tac. Qed.
#[local] Hint Resolve serve_back_sim probe_back_sim : sim.
Lemma pipe_update_sim : sim R R do_update do_update.
Proof. unfold do_update, update_impl. sim_tac. Qed.
Lemma enqueue_sim e : sim R R (enqueue e) (enqueue e).
Proof. unfold enqueue, assertM. sim_tac. Qed.
#[local] Hint Resolve enqueue_sim : sim.
Lemma pipe_write_sim a d m : sim R R (write_req a d m) (write_req a d m).
Proof. unfold write_req, write_through. sim_tac. Qed.
Lemma pipe_resp_sim r : sim R R (recv_mem_resp r) (recv_mem_resp r).
Proof. unfold recv_mem_resp, assertM. sim_tac. Qed.
End sims.

Section laws.
Context (s o a : Z) (wb : bool).

(** A change of the counters only. *)
Lemma counters_inv c p b : inv s o a wb c p → CB.wf s o a b → CB.coherent b → CB.geom b = CB.geom (base c) →
  CB.setsArr_ b = CB.setsArr_ (base c) → inv s o a wb (c <| base := b |>) p.
Proof.
  intros [[Hw Ho Hc] Hcfg Hsch Htk Hbl (fr & ob & E & Hnew & Hbk) Hsh Hwr Hcpu Hcl] Hw' Hc' Hg Ha.
  destruct (CB.geom_index (base c) b Hg) as (Ei & Eb & Et).
  assert (∀ si way, CB.line_of b si way = CB.line_of (base c) si way) as El by (intros; unfold CB.line_of; by rewrite Ha).
  assert (∀ x, CB.resident b x ↔ CB.resident (base c) x) as Er
    by (intros x; unfold CB.resident; rewrite Ei, Et; by setoid_rewrite El).
  assert (∀ bk, missing a (base c) bk → missing a b bk) as Hm.
  { intros bk (l & (way & H1 & H2 & H3) & H4 & H5). exists l. split; [|split; [done | by rewrite Er]].
    exists way. by rewrite Ei, El. }
  constructor; try done.
  - exists fr, ob. split; [done|]. split; [done|]. destruct Hbk as [| |bk| |bk Hf];
      [by apply BEmpty | by apply BNew | apply BMiss | eapply BWait | apply BFilled]; try done; try by apply Hm.
    destruct Hf as (l & (way & ? & ? & ?) & ?). exists l. split; [|done]. exists way. simpl. by rewrite Ei, El.
  - apply (calls_ext o wb c _ p); [done | by apply geom_id | apply Hcl | by split | done].
Qed.

Lemma reset_inv c p : inv s o a wb c p → inv s o a wb (reset_stats c) p.
Proof. intros Hi. apply counters_inv; try done; [|apply Hi]. destruct (i_base _ _ _ _ _ _ Hi) as [Hw _ _]. destruct Hw. by constructor. Qed.

#[export] Instance pipe_laws : CacheLaws PipeCache (inv s o a wb).
Proof.
  constructor; cbn [ca_ready ca_read ca_write ca_resp ca_flush ca_update ca_reset pipe_cache].
  - intros c p Hi. apply (tick_inv s o a wb c p Hi).
  - intros c p x Hi Hr. assert (is_shifted_ c = true) as Hs.
    { unfold is_ready in Hr. simpl in Hr. by destruct (is_shifted_ c), (pending_flush_ c), (write_back_ c). }
    eapply wp_mono; [by apply (enqueue_wp s o a wb c p (MkQuiet (p <| p_cpu ::= Z.succ |>)))|].
    intros _ [c' q] (-> & Hi' & _). split; [done|]. split; [done | simpl; lia].
  - intros c p x d m Hi Hr Hst. pose proof (k_stores _ _ _ _ (i_calls _ _ _ _ _ _ Hi)) as Ewb. rewrite Hst in Ewb.
    pose proof (i_cfg _ _ _ _ _ _ Hi) as [Hwb _]. rewrite <- Ewb in Hwb.
    assert (is_shifted_ c = true) as Hs.
    { unfold is_ready in Hr. simpl in Hr. rewrite Hwb in Hr. by destruct (is_shifted_ c), (pending_flush_ c). }
    unfold write_req. rewrite wp_bind, wp_self. cbn [fst]. rewrite Hwb.
    eapply wp_mono; [apply (enqueue_wp s o a wb c p (MkQuiet (p <| p_cpu ::= Z.succ |>))); try done; simpl; congruence|].
    intros _ [c' q] (-> & Hi' & _). split; [done|]. split; [done | simpl; lia].
  - intros c p m r Hi Hr. apply wp_same_port; [by destruct m | intros R HR; by apply pipe_resp_sim|].
    destruct m; simpl in Hr; simpl.
    + eapply wp_mono; [by apply (mem_read_wp s o a wb c p r Hi)|]. by intros _ s' ((? & _) & _).
    + eapply wp_mono; [by apply (mem_write_wp s o a wb c p r Hi)|]. by intros _ s' ((? & _) & _).
  - intros c p Hi. apply wp_same_port; [done | intros R HR; by apply pipe_update_sim|].
    eapply wp_mono; [by apply (do_update_wp s o a wb c p Hi)|]. by intros _ s' ((? & _) & _).
  - intros c p Hi. split; [|done]. destruct Hi as [Hb Hcfg Hsch Htk Hbl (fr & ob & E & Hnew & Hbk) Hsh Hwr Hcpu Hcl].
    constructor; try done; [by apply (base_ok_ext s o a c)| |by apply (calls_same o wb c _ p p)].
    exists fr, ob. split; [done|]. split; [done|]. by apply (back_state_ext a c _ p).
  - intros c p. apply reset_inv.
  - intros E HE r r' st. destruct r, r'. intros [= -> -> ->]. done.
  - intros. unfold read_req. by apply enqueue_sim.
  - intros. by apply pipe_write_sim.
  - intros. by apply pipe_resp_sim.
  - intros. by apply pipe_update_sim.
  - intros. unfold flush_all. sim_tac.
Qed.
End laws.
End PipeLaws.

(** ** [NoCache] *)

Module NoLaws.
Import NC.

(** Busy exactly while memory owes a response, one word per request. *)
Record nc_ok (c : NoCache) (p : Port) : Prop := {
  n_id : CB.cache_id_ (base c) = p_id p;
  n_words : 1 <= p_words p;
  n_stores : p_stores p = true;
  n_busy m : busy m c = match outstanding m p with Some _ => true | None => false end;
  n_req m r : outstanding m p = Some r → mt_mop r = m ∧ (m = Read → mt_data r = []);
  n_cpu : p_cpu p = b2z (r_busy_ c) + b2z (w_busy_ c)
}.

Section sims.
Context {E1 E2 : Type} `{CacheEnv E1, CacheEnv E2} (R : E1 → E2 → Prop) (HR : env_sim R).

Lemma nc_read_sim a : sim R R (read_req a) (read_req a).
Proof. unfold read_req, assertM. sim_tac. Qed.
Lemma nc_write_sim a d m : sim R R (write_req a d m) (write_req a d m).
Proof. unfold write_req, assertM. sim_tac. Qed.
Lemma nc_resp_sim r : sim R R (recv_mem_resp r) (recv_mem_resp r).
Proof. unfold recv_mem_resp, assertM. sim_tac. Qed.
Lemma nc_update_sim : sim R R do_update do_update.
Proof. unfold do_update, update_impl. sim_tac. Qed.
End sims.

Lemma quiet_wp p req Q : wp (mem_recv_req req) (λ _ p', Q tt (MkQuiet p')) p → wp (mem_recv_req req) Q (MkQuiet p).
Proof.
  unfold wp, mem_recv_req, quiet_env, quiet_req, port_env. cbn [q_port].
  by destruct (port_req req p) as [[[] p']|].
Qed.

Lemma busy_set m m' v c : busy m (set_busy m' v c) = if decide (m = m') then v else busy m c.
Proof. by destruct m, m'. Qed.

Lemma nc_allowed c p m a d st : nc_ok c p → req_allowed p (mk_req m a (CB.cache_id_ (base c)) 1 d st) = true.
Proof.
  intros []. unfold req_allowed. cbn [mk_req mt_id mt_bst_len]. rewrite n_id0, Z.eqb_refl.
  by rewrite (proj2 (Z.leb_le 1 (p_words p))).
Qed.

(** A request that goes out at once. *)
Lemma nc_sent c p m r : nc_ok c p → busy m c = false → mt_mop r = m → (m = Read → mt_data r = []) →
  let p' := p <| p_cpu ::= Z.succ |> in
  nc_ok (set_busy m true c <| base ::= count_miss |>)
    (match m with Read => p' <| p_rd := Some r |> | Write => p' <| p_wr := Some r |> end).
Proof.
  intros [] Hb Hm Hd p'. constructor; try (by destruct m).
  - intros m'. pose proof (n_busy0 m') as Hm'. by destruct m, m'; simpl in *.
  - intros m' r' Hr'. destruct m, m'; simpl in Hr'; try (by apply n_req0); by injection Hr' as <-.
  - destruct m; simpl in *; rewrite n_cpu0, Hb; simpl; lia.
Qed.

Lemma nc_answered c p m r : nc_ok c p → outstanding m p = Some r →
  wp (recv_mem_resp (r <| mt_dir := Resp |>)) (λ _ s', nc_ok s'.1 s'.2) (c, settle m p).
Proof.
  intros Hi Hr. pose proof Hi as []. destruct (n_req0 m r Hr) as [Hm Hd]. pose proof (n_busy0 m) as Hb. rewrite Hr in Hb.
  assert (0 < p_cpu p) as Hpos.
  { rewrite n_cpu0. destruct m; simpl in Hb; rewrite Hb; simpl; [|rewrite Z.add_comm];
      match goal with |- context [b2z ?b] => destruct b end; simpl; lia. }
  set (q := settle m p <| p_cpu ::= Z.pred |>).
  assert (nc_ok (set_busy m false c) q) as Hq.
  { constructor; try (by destruct m).
    - intros m'. pose proof (n_busy0 m') as Hm'. by destruct m, m'; simpl in *.
    - intros m' r' Hr'. by destruct m, m'; simpl in Hr'; try (by apply n_req0).
    - unfold q. destruct m; simpl in *; rewrite n_cpu0, Hb; simpl; lia. }
  assert (∀ t, ct_id t = p_id p → wp (cpu_resp_recv t) (λ _ e, e = q) (settle m p)) as Hresp.
  { intros t Ht. unfold wp, cpu_resp_recv, port_env, port_resp, resp_allowed.
    replace (p_cpu (settle m p)) with (p_cpu p) by (by destruct m).
    replace (p_id (settle m p)) with (p_id p) by (by destruct m).
    replace (p_stores (settle m p)) with true by (by destruct m).
    by rewrite (proj2 (Z.ltb_lt _ _) Hpos), Ht, Z.eqb_refl, orb_true_r. }
  unfold recv_mem_resp. wp_step. cbn [fst snd]. change (mt_mop (r <| mt_dir := Resp |>)) with (mt_mop r).
  rewrite Hm. split; [done|]. wp_step.
  assert (wp (env (cpu_ack_recv (MkAckTrans (CB.cache_id_ (base c)) m));; modify_self (set_busy m false))
    (λ (_ : unit) s', nc_ok s'.1 s'.2) (c, q)) as Hend.
  { wp_step. apply port_ack_wp; [simpl; rewrite n_id0; by destruct m|]. wp_step. exact Hq. }
  destruct m; wp_step; cbn [fst snd].
  - change (mt_data (r <| mt_dir := Resp |>)) with (mt_data r). rewrite (Hd eq_refl). split; [done|]. wp_step.
    eapply wp_mono; [by apply Hresp|]. intros [] e ->. exact Hend.
  - eapply wp_mono; [by apply Hresp|]. intros [] e ->. exact Hend.
Qed.

#[export] Instance nocache_laws : CacheLaws NoCache nc_ok.
Proof.
  constructor; cbn [ca_ready ca_read ca_write ca_resp ca_flush ca_update ca_reset nocache_cache].
  - intros c p [] _. by constructor.
  - intros c p x Hi Hr. unfold is_ready in Hr. simpl in Hr. destruct (r_busy_ c) eqn:Eb; [done|].
    unfold read_req. wp_step. cbn [fst snd]. unfold is_ready. rewrite Eb. split; [done|]. wp_step. apply quiet_wp.
    set (req := mk_req Read x _ 1 [] []). pose proof (n_busy _ _ Hi Read) as Ho. simpl in Ho. rewrite Eb in Ho.
    apply port_read_wp; [exact (nc_allowed c p Read x [] [] Hi) | done | simpl; by destruct (p_rd p)|]. wp_step.
    split; [by apply (nc_sent c p Read req Hi)|]. split; [done | simpl; lia].
  - intros c p x d m Hi Hr _. unfold is_ready in Hr. simpl in Hr. destruct (w_busy_ c) eqn:Eb; [done|].
    unfold write_req. wp_step. cbn [fst snd]. unfold is_ready. rewrite Eb. split; [done|]. wp_step. apply quiet_wp.
    set (req := mk_req Write x _ 1 _ _). pose proof (n_busy _ _ Hi Write) as Ho. simpl in Ho. rewrite Eb in Ho.
    apply port_write_wp; [exact (nc_allowed c p Write x [d] [m] Hi) | done | simpl; by destruct (p_wr p)|]. wp_step.
    split; [by apply (nc_sent c p Write req Hi)|]. split; [done | simpl; lia].
  - intros c p m r Hi Hr. apply wp_same_port; [by destruct m | intros R HR; by apply nc_resp_sim|].
    by apply nc_answered.
  - intros c p Hi. unfold do_update, update_impl. wp_step. by destruct (_ <=? _).
  - done.
  - intros c p []. by constructor.
  - intros E HE r r' st. destruct r, r'. intros [= -> -> ->]. done.
  - intros. by apply nc_read_sim.
  - intros. by apply nc_write_sim.
  - intros. by apply nc_resp_sim.
  - intros. by apply nc_update_sim.
  - intros. unfold flush_all. sim_tac.
Qed.

Lemma make_ok id t : ∃ c, make id = Ok c ∧ nc_ok c (idle_port t id 1 true).
Proof.
  unfold make. eexists. split; [reflexivity|]. constructor; try done; by intros [].
Qed.
End NoLaws.

(** ** The data cache of [main]: [std::unique_ptr<cacheSim::CacheBase>] *)

Inductive DCache : Type :=
| DPipe (c : PipeCache.PipeCache)
| DNone (c : NC.NoCache).

#[export] Existing Instances PipeCache.pipe_cache PipeLaws.pipe_laws NoLaws.nocache_laws.

(** A method of the object behind the pointer. *)
Definition via {C E A} (inj : C → DCache) (c : C) (m : ST (C * E) A) : ST (DCache * E) A := λ s,
  match m (c, s.2) with Ok (a, (c', e)) => Ok (a, (inj c', e)) | Err x => Err x end.

Definition dispatch {E A} (f : ST (PipeCache.PipeCache * E) A) (g : ST (NC.NoCache * E) A) : ST (DCache * E) A := λ s,
  match s.1 with DPipe c => via DPipe c f s | DNone c => via DNone c g s end.

#[export] Instance dcache_cache : Cache DCache := {|
  ca_ready d := match d with DPipe c => ca_ready c | DNone c => ca_ready c end;
  ca_read _ _ a := dispatch (ca_read a) (ca_read a);
  ca_write _ _ a d m := dispatch (ca_write a d m) (ca_write a d m);
  ca_resp _ _ r := dispatch (ca_resp r) (ca_resp r);
  ca_flush _ _ := dispatch ca_flush ca_flush;
  ca_update _ _ := dispatch ca_update ca_update;
  ca_reset d := match d with DPipe c => DPipe (ca_reset c) | DNone c => DNone (ca_reset c) end
|}.

Definition dc_ok (s o a : Z) (d : DCache) (p : Port) : Prop :=
  match d with DPipe c => PipeCache.inv s o a true c p | DNone c => NoLaws.nc_ok c p end.

Lemma wp_via {C E A} (inj : C → DCache) c (m : ST (C * E) A) Q d e :
  wp (via inj c m) Q (d, e) ↔ wp m (λ a s', Q a (inj s'.1, s'.2)) (c, e).
Proof. unfold wp, via. simpl. by destruct (m (c, e)) as [[a [c' e']]|]. Qed.

Lemma sim_dispatch {E1 E2 A} (R : E1 → E2 → Prop) (f1 : ST (_ * E1) A) (f2 : ST (_ * E2) A) g1 g2 :
  sim R R f1 f2 → sim R R g1 g2 → sim R R (dispatch f1 g1) (dispatch f2 g2).
Proof.
  intros Hf Hg d e1 e2 a d' e1' HR. unfold dispatch, via. simpl. destruct d as [c|c].
  - destruct (f1 (c, e1)) as [[b [c1 x]]|] eqn:E; [|done]. intros [= <- <- <-].
    destruct (Hf _ _ _ _ _ _ HR E) as (e2' & -> & ?). by exists e2'.
  - destruct (g1 (c, e1)) as [[b [c1 x]]|] eqn:E; [|done]. intros [= <- <- <-].
    destruct (Hg _ _ _ _ _ _ HR E) as (e2' & -> & ?). by exists e2'.
Qed.

#[export] Instance dcache_laws s o a : CacheLaws DCache (dc_ok s o a).
Proof.
  pose proof (PipeLaws.pipe_laws s o a true) as HP. pose proof NoLaws.nocache_laws as HN.
  constructor; cbn [ca_ready ca_read ca_write ca_resp ca_flush ca_update ca_reset dcache_cache].
  - intros [c|c] p; [apply HP | apply HN].
  - intros [c|c] p x Hi Hr; unfold wp, dispatch; cbn [fst].
    + apply wp_via. by apply (law_read c p x Hi).
    + apply wp_via. by apply (law_read c p x Hi).
  - intros [c|c] p x d m Hi Hr Hst; unfold wp, dispatch; cbn [fst]; apply wp_via; by apply (law_write c p x d m Hi).
  - intros [c|c] p m r Hi Hr; unfold wp, dispatch; cbn [fst]; apply wp_via; by apply (law_resp c p m r Hi).
  - intros [c|c] p Hi; unfold wp, dispatch; cbn [fst]; apply wp_via; by apply (law_update c p Hi).
  - intros [c|c] p Hi; unfold wp, dispatch; cbn [fst]; apply wp_via; by apply (law_flush c p Hi).
  - intros [c|c] p; [apply HP | apply HN].
  - intros E HE r r' [[c|c] e] Hk; unfold dispatch, via; cbn [fst snd]; by rewrite (law_key r r' (c, e) Hk).
  - intros. apply sim_dispatch; by apply law_sim_read.
  - intros. apply sim_dispatch; by apply law_sim_write.
  - intros. apply sim_dispatch; by apply law_sim_resp.
  - intros. apply sim_dispatch; by apply law_sim_update.
  - intros. apply sim_dispatch; by apply law_sim_flush.
Qed.
