(* ===== verification/Ifq.v ===== *)
(** * The instruction fetch queue

    [Pipeline::IFQRingBuf] of [src/pipeSim/Pipeline.hh]: a ring buffer of owning
    pointers, refined to a plain list.  A [TransPtr] is an [option]: moving from a
    slot or resetting it leaves [None]. *)

From S2P Require Import Prelude.

Module IFQ.

Section ring.
Context {T : Type}.

Record IFQRingBuf : Type := Mk { buf : list (option T); cap_ : Z; head_ : Z; tail_ : Z; cnt_ : Z }.
#[global] Instance eta_IFQRingBuf : Eta IFQRingBuf := λ r,
  Mk r.(buf) r.(cap_) r.(head_) r.(tail_) r.(cnt_).
Implicit Types (q : IFQRingBuf) (t : T) (i : Z).

Definition make (cap : Z) : IFQRingBuf := Mk (replicate (Z.to_nat cap) None) cap 0 0 0.

Definition empty q : bool := cnt_ q =? 0.
Definition full q : bool := cap_ q <=? cnt_ q.
Definition size q : Z := cnt_ q.

Definition push_back (p : option T) q : res IFQRingBuf :=
  _ ← assert_ (negb (full q));
  b ← vec_set (buf q) (tail_ q) p;
  n ← umod (u64 (tail_ q + 1)) (cap_ q);
  mret (q <| buf := b |> <| tail_ := n |> <| cnt_ ::= incr |>).

Definition front q : res (option T) := _ ← assert_ (negb (empty q)); vec_at (buf q) (head_ q).

(** Assignment through the reference [front()]. *)
Definition set_front (p : option T) q : res IFQRingBuf :=
  _ ← assert_ (negb (empty q)); b ← vec_set (buf q) (head_ q) p; mret (q <| buf := b |>).

Definition pop_front q : res IFQRingBuf :=
  _ ← assert_ (negb (empty q));
  b ← vec_set (buf q) (head_ q) None;
  n ← umod (u64 (head_ q + 1)) (cap_ q);
  mret (q <| buf := b |> <| head_ := n |> <| cnt_ ::= (λ c, u64 (c - 1)) |>).

(** The physical position of [at(i)]. *)
Definition pos q i : res Z := umod (u64 (head_ q + i)) (cap_ q).
Definition at_ q i : res (option T) := k ← pos q i; vec_at (buf q) k.

Fixpoint clear_from (n : nat) i q : res IFQRingBuf :=
  match n with
  | O => mret q
  | S n => k ← pos q i; b ← vec_set (buf q) k None; clear_from n (i + 1) (q <| buf := b |>)
  end.
Definition clear q : res IFQRingBuf :=
  q ← clear_from (Z.to_nat (cnt_ q)) 0 q;
  mret (q <| head_ := 0 |> <| tail_ := 0 |> <| cnt_ := 0 |>).

(** The physical position of the first entry that satisfies [P]; the predicate
    dereferences every pointer it is shown. *)
Fixpoint find_from (n : nat) (P : T → bool) i q : res (option Z) :=
  match n with
  | O => mret None
  | S n => e ← at_ q i;
           match e with
           | None => Err NullDeref
           | Some t => if P t then k ← pos q i; mret (Some k) else find_from n P (i + 1) q
           end
  end.
Definition find_if_ptr (P : T → bool) q : res (option Z) := find_from (Z.to_nat (cnt_ q)) P 0 q.

(** [**ptr] modified in place. *)
Definition modify_at (k : Z) (f : T → T) q : res IFQRingBuf :=
  e ← vec_at (buf q) k;
  match e with None => Err NullDeref | Some t => b ← vec_set (buf q) k (Some (f t)); mret (q <| buf := b |>) end.

(** The elements [at(0)], ..., [at(size()-1)]. *)
Fixpoint entries (n : nat) i q : res (list (option T)) :=
  match n with O => mret [] | S n => e ← at_ q i; l ← entries n (i + 1) q; mret (e :: l) end.
Definition all_entries q : res (list (option T)) := entries (Z.to_nat (cnt_ q)) 0 q.

(** ** Specification *)

(** [q] holds the list [l], oldest first. *)
Record holds (l : list T) q : Prop := {
  r_cap : zlen (buf q) = cap_ q ∧ cap_ q < 2 ^ 63;
  r_cnt : cnt_ q = zlen l ∧ zlen l <= cap_ q;
  r_head : 0 <= head_ q < Z.max 1 (cap_ q);
  r_tail : 0 < cap_ q → tail_ q = (head_ q + zlen l) mod cap_ q;
  r_elem (j : nat) t : l !! j = Some t → vec_at (buf q) ((head_ q + Z.of_nat j) mod cap_ q) = Ok (Some t)
}.

Lemma make_holds cap : 0 <= cap < 2 ^ 63 → holds [] (make cap).
Proof.
  intros Hc. constructor; simpl.
  - rewrite zlen_replicate by lia. lia.
  - unfold zlen. simpl. lia.
  - lia.
  - intros ?. unfold zlen. simpl. by rewrite Z.mod_0_l by lia.
  - by intros j t.
Qed.

Lemma zlen_cons t (l : list T) : zlen (t :: l) = zlen l + 1.
Proof. unfold zlen. simpl. lia. Qed.

Lemma empty_spec l q : holds l q → empty q = match l with [] => true | _ => false end.
Proof.
  intros []. unfold empty. rewrite (proj1 r_cnt0). destruct l as [|t l]; [done|].
  rewrite zlen_cons. pose proof (zlen_nonneg l). by apply Z.eqb_neq; lia.
Qed.

Lemma full_spec l q : holds l q → full q = (cap_ q <=? zlen l).
Proof. intros []. unfold full. by rewrite (proj1 r_cnt0). Qed.

(** The ring's arithmetic: a position within the capacity, and the wrap. *)
Lemma pos_spec l q i : holds l q → 0 < cap_ q → 0 <= i <= cap_ q → pos q i = Ok ((head_ q + i) mod cap_ q).
Proof.
  intros [] Hc Hi. unfold pos, umod. rewrite (proj2 (Z.eqb_neq (cap_ q) 0)) by lia.
  rewrite u64_small by lia. done.
Qed.

Lemma pos_inj q i j : 0 <= i < cap_ q → 0 <= j < cap_ q →
  (head_ q + i) mod cap_ q = (head_ q + j) mod cap_ q → i = j.
Proof.
  intros Hi Hj E. assert ((i - j) mod cap_ q = 0) as E0.
  { replace (i - j) with ((head_ q + i) - (head_ q + j)) by lia. rewrite Zminus_mod, E, Z.sub_diag. by apply Z.mod_0_l; lia. }
  apply Z.mod_divide in E0; [|lia]. destruct E0 as [k Hk]. assert (k = 0) by nia. nia.
Qed.

Lemma pos_range q x : 0 < cap_ q → zlen (buf q) = cap_ q → 0 <= x mod cap_ q < zlen (buf q).
Proof. intros Hc ->. by apply Z.mod_pos_bound. Qed.

Lemma lookup_zlen (l : list T) (j : nat) t : l !! j = Some t → 0 <= Z.of_nat j < zlen l.
Proof. intros H%lookup_lt_Some. unfold zlen. lia. Qed.

Lemma ifq_push_spec l q t : holds l q → zlen l < cap_ q →
  ∃ q', push_back (Some t) q = Ok q' ∧ holds (l ++ [t]) q' ∧ cap_ q' = cap_ q.
Proof.
  intros Hh Hlt. pose proof (full_spec l q Hh) as Hf. pose proof Hh as [[Hb Hc] [Hn _] Hhd Htl He].
  pose proof (zlen_nonneg l). assert (zlen (l ++ [t]) = zlen l + 1) as El by (unfold zlen; rewrite length_app; simpl; lia).
  unfold push_back. rewrite Hf, (proj2 (Z.leb_gt _ _)) by lia. cbn [negb assert_ mbind res_bind].
  rewrite Htl by lia. assert (0 <= (head_ q + zlen l) mod cap_ q < cap_ q) by (apply Z.mod_pos_bound; lia).
  rewrite vec_set_lt by lia. cbn [mbind res_bind]. unfold umod. rewrite (proj2 (Z.eqb_neq (cap_ q) 0)) by lia.
  cbn [mbind res_bind]. eexists. split; [done|]. split; [|done].
  constructor; simpl; rewrite ?zlen_insert, ?El; try done.
  - split; [|lia]. rewrite Hn. unfold incr. apply u64_small. lia.
  - intros _. rewrite u64_small by lia. rewrite Zplus_mod_idemp_l. f_equal. lia.
  - intros j x Hj. apply lookup_app_Some in Hj as [Hj | [Hge Hj]].
    + rewrite vec_at_set_ne; [by apply He | lia |]. intros E. apply lookup_zlen in Hj.
      apply (pos_inj q (zlen l) (Z.of_nat j)) in E; lia.
    + apply list_lookup_singleton_Some in Hj as [Hj <-]. assert (Z.of_nat j = zlen l) as -> by (unfold zlen; lia).
      rewrite vec_at_set_eq by lia. done.
Qed.

Lemma front_spec l q t : holds (t :: l) q → front q = Ok (Some t).
Proof.
  intros Hh. pose proof (empty_spec _ _ Hh) as He. pose proof Hh as [[Hb Hc] [Hn Hle] Hhd Htl Hel].
  unfold front. rewrite He. cbn [negb assert_ mbind res_bind]. rewrite zlen_cons in Hle. pose proof (zlen_nonneg l).
  specialize (Hel 0%nat t eq_refl). rewrite Z.add_0_r, Z.mod_small in Hel by lia. done.
Qed.

Lemma set_front_spec l q t t' : holds (t :: l) q →
  ∃ q', set_front (Some t') q = Ok q' ∧ holds (t' :: l) q' ∧ cap_ q' = cap_ q.
Proof.
  intros Hh. pose proof (empty_spec _ _ Hh) as He. pose proof Hh as [[Hb Hc] [Hn Hle] Hhd Htl Hel].
  rewrite zlen_cons in *. pose proof (zlen_nonneg l).
  unfold set_front. rewrite He. cbn [negb assert_ mbind res_bind]. rewrite vec_set_lt by lia. cbn [mbind res_bind].
  eexists. split; [done|]. split; [|done]. constructor; simpl; rewrite ?zlen_insert, ?zlen_cons; try done.
  intros [|j] x Hj; simpl in Hj.
  - injection Hj as <-. rewrite Z.add_0_r, Z.mod_small by lia. apply vec_at_set_eq. lia.
  - rewrite vec_at_set_ne; [by apply (Hel (S j)) | lia |]. intros E. apply lookup_zlen in Hj.
    rewrite <- (Z.mod_small (head_ q) (cap_ q)) in E at 1 by lia. rewrite <- (Z.add_0_r (head_ q)) in E at 1.
    apply pos_inj in E; lia.
Qed.

Lemma ifq_pop_spec l q t : holds (t :: l) q → ∃ q', pop_front q = Ok q' ∧ holds l q' ∧ cap_ q' = cap_ q.
Proof.
  intros Hh. pose proof (empty_spec _ _ Hh) as He. pose proof Hh as [[Hb Hc] [Hn Hle] Hhd Htl Hel].
  rewrite zlen_cons in *. pose proof (zlen_nonneg l).
  unfold pop_front. rewrite He. cbn [negb assert_ mbind res_bind]. rewrite vec_set_lt by lia. cbn [mbind res_bind].
  unfold umod. rewrite (proj2 (Z.eqb_neq (cap_ q) 0)) by lia. cbn [mbind res_bind].
  eexists. split; [done|]. split; [|done].
  assert (0 <= (head_ q + 1) mod cap_ q < cap_ q) by (apply Z.mod_pos_bound; lia).
  constructor; simpl; rewrite ?zlen_insert; rewrite ?u64_small by lia; try done; try lia.
  - intros _. rewrite Htl by lia. rewrite Zplus_mod_idemp_l. f_equal. lia.
  - intros j x Hj. rewrite Zplus_mod_idemp_l. replace (head_ q + 1 + Z.of_nat j) with (head_ q + Z.of_nat (S j)) by lia.
    rewrite vec_at_set_ne; [by apply (Hel (S j)) | lia |]. intros E. apply lookup_zlen in Hj.
    rewrite <- (Z.mod_small (head_ q) (cap_ q)) in E at 1 by lia. rewrite <- (Z.add_0_r (head_ q)) in E at 1.
    apply pos_inj in E; lia.
Qed.

Lemma at_spec l q (j : nat) t : holds l q → l !! j = Some t → at_ q (Z.of_nat j) = Ok (Some t).
Proof.
  intros Hh Hj. pose proof Hh as [[Hb Hc] [Hn Hle] Hhd Htl Hel]. pose proof (lookup_zlen _ _ _ Hj).
  unfold at_. rewrite (pos_spec l) by (done || lia). cbn [mbind res_bind]. by apply Hel.
Qed.

Lemma entries_drop l q (n j : nat) : holds l q → (j + n)%nat = length l →
  entries n (Z.of_nat j) q = Ok (Some <$> drop j l).
Proof.
  intros Hh. revert j. induction n as [|n IH]; intros j Hl; simpl.
  { by rewrite drop_ge by lia. }
  destruct (lookup_lt_is_Some_2 l j) as [t Ht]; [lia|]. rewrite (at_spec l q j t Hh Ht). cbn [mbind res_bind].
  replace (Z.of_nat j + 1) with (Z.of_nat (S j)) by lia. rewrite IH by lia. cbn [mbind res_bind].
  by rewrite (drop_S l t j Ht).
Qed.

Lemma entries_spec l q : holds l q → all_entries q = Ok (Some <$> l).
Proof.
  intros Hh. pose proof (r_cnt _ _ Hh) as [Hn _]. unfold all_entries. rewrite Hn. unfold zlen. rewrite Nat2Z.id.
  by apply (entries_drop l q _ 0).
Qed.

Lemma find_drop P l q (n j : nat) : holds l q → (j + n)%nat = length l →
  find_from n P (Z.of_nat j) q =
  Ok ((λ x, (head_ q + Z.of_nat (j + x.1)) mod cap_ q) <$> list_find (λ t, Is_true (P t)) (drop j l)).
Proof.
  intros Hh. revert j. induction n as [|n IH]; intros j Hl; simpl.
  { by rewrite drop_ge by lia. }
  destruct (lookup_lt_is_Some_2 l j) as [t Ht]; [lia|]. rewrite (at_spec l q j t Hh Ht). cbn [mbind res_bind].
  rewrite (drop_S l t j Ht). simpl. pose proof (lookup_zlen _ _ _ Ht). pose proof (r_cnt _ _ Hh).
  destruct (decide (Is_true (P t))) as [Hp|Hp].
  - destruct (P t); [|done]. rewrite (pos_spec l) by (done || lia). cbn [mbind res_bind fmap option_fmap option_map].
    simpl. by rewrite Nat.add_0_r.
  - destruct (P t); [by destruct Hp|]. replace (Z.of_nat j + 1) with (Z.of_nat (S j)) by lia. rewrite IH by lia.
    f_equal. destruct (list_find _ (drop (S j) l)) as [[k x]|]; [|done]. simpl. do 3 f_equal. lia.
Qed.

(** The search finds the oldest match, and the entry found can be changed. *)
Lemma find_spec P l q : holds l q →
  find_if_ptr P q = Ok ((λ x, (head_ q + Z.of_nat x.1) mod cap_ q) <$> list_find (λ t, Is_true (P t)) l).
Proof.
  intros Hh. pose proof (r_cnt _ _ Hh) as [Hn _]. unfold find_if_ptr. rewrite Hn. unfold zlen. rewrite Nat2Z.id.
  by rewrite (find_drop P l q _ 0).
Qed.

Lemma modify_spec l q (j : nat) t f : holds l q → l !! j = Some t →
  ∃ q', modify_at ((head_ q + Z.of_nat j) mod cap_ q) f q = Ok q' ∧ holds (<[j := f t]> l) q' ∧ cap_ q' = cap_ q.
Proof.
  intros Hh Hj. pose proof Hh as [[Hb Hc] [Hn Hle] Hhd Htl Hel]. pose proof (lookup_zlen _ _ _ Hj).
  unfold modify_at. rewrite (Hel j t Hj). cbn [mbind res_bind].
  assert (0 <= (head_ q + Z.of_nat j) mod cap_ q < cap_ q) by (apply Z.mod_pos_bound; lia).
  rewrite vec_set_lt by lia. cbn [mbind res_bind]. eexists. split; [done|]. split; [|done].
  constructor; simpl; rewrite ?zlen_insert; try done.
  intros i x Hi. apply list_lookup_insert_Some in Hi as [(-> & <- & _) | [Hne Hi]].
  - apply vec_at_set_eq. lia.
  - rewrite vec_at_set_ne; [by apply Hel | lia |]. intros E. apply lookup_zlen in Hi.
    apply pos_inj in E; lia.
Qed.

Lemma clear_from_Ok n i q : zlen (buf q) = cap_ q → (n = O ∨ 0 < cap_ q) →
  ∃ q', clear_from n i q = Ok q' ∧ zlen (buf q') = cap_ q ∧ cap_ q' = cap_ q.
Proof.
  revert i q. induction n as [|n IH]; intros i q Hb Hc; simpl; [by exists q|].
  destruct Hc as [|Hc]; [done|]. unfold pos, umod. rewrite (proj2 (Z.eqb_neq (cap_ q) 0)) by lia.
  cbn [mbind res_bind]. rewrite vec_set_lt by (by apply pos_range). cbn [mbind res_bind].
  match goal with |- context [clear_from n _ ?q1] => destruct (IH (i + 1) q1) as (q' & -> & H1 & H2) end;
    [simpl; by rewrite zlen_insert | by right |]. by exists q'.
Qed.

Lemma clear_spec l q : holds l q → ∃ q', clear q = Ok q' ∧ holds [] q' ∧ cap_ q' = cap_ q.
Proof.
  intros [[Hb Hc] [Hn Hle] Hhd Htl Hel]. unfold clear.
  destruct (clear_from_Ok (Z.to_nat (cnt_ q)) 0 q Hb) as (q' & -> & H1 & H2).
  { destruct l as [|t l]; [left; rewrite Hn; done | right]. rewrite zlen_cons in Hle. pose proof (zlen_nonneg l). lia. }
  cbn [mbind res_bind]. eexists. split; [done|]. split; [|done]. pose proof (zlen_nonneg l).
  constructor; simpl; rewrite ?H1, ?H2; try done; try (unfold zlen; simpl; lia).
Qed.

(** ** Refinement: any use of the ring is the same use of a list *)

Inductive op : Type := Push (t : T) | Pop | Clear | Modify (P : T → bool) (f : T → T).

(** What the client observes of an operation: the element popped. *)
Definition apply_op q (o : op) : res (option T * IFQRingBuf) :=
  match o with
  | Push t => if full q then mret (None, q) else q ← push_back (Some t) q; mret (None, q)
  | Pop => if empty q then mret (None, q) else t ← front q; q ← pop_front q; mret (t, q)
  | Clear => q ← clear q; mret (None, q)
  | Modify P f => k ← find_if_ptr P q;
                  match k with Some k => q ← modify_at k f q; mret (None, q) | None => mret (None, q) end
  end.

Definition spec_op (cap : Z) (l : list T) (o : op) : option T * list T :=
  match o with
  | Push t => (None, if cap <=? zlen l then l else l ++ [t])
  | Pop => match l with [] => (None, []) | t :: l => (Some t, l) end
  | Clear => (None, [])
  | Modify P f => (None, match list_find (λ t, Is_true (P t)) l with Some (j, t) => <[j := f t]> l | None => l end)
  end.

Fixpoint run q (ops : list op) : res (list (option T) * IFQRingBuf) :=
  match ops with
  | [] => mret ([], q)
  | o :: ops => '(r, q) ← apply_op q o; '(rs, q) ← run q ops; mret (r :: rs, q)
  end.
Fixpoint spec_run (cap : Z) (l : list T) (ops : list op) : list (option T) * list T :=
  match ops with
  | [] => ([], l)
  | o :: ops => let '(r, l) := spec_op cap l o in let '(rs, l) := spec_run cap l ops in (r :: rs, l)
  end.

Lemma op_spec l q o : holds l q →
  ∃ q', apply_op q o = Ok ((spec_op (cap_ q) l o).1, q') ∧ holds (spec_op (cap_ q) l o).2 q' ∧ cap_ q' = cap_ q.
Proof.
  intros Hh. destruct o as [t| | |P f]; simpl.
  - rewrite (full_spec l q Hh). destruct (Z.leb_spec (cap_ q) (zlen l)); [by exists q|].
    destruct (ifq_push_spec l q t Hh) as (q' & -> & ? & ?); [lia|]. by exists q'.
  - rewrite (empty_spec l q Hh). destruct l as [|t l]; [by exists q|]. rewrite (front_spec l q t Hh).
    cbn [mbind res_bind]. destruct (ifq_pop_spec l q t Hh) as (q' & -> & ? & ?). by exists q'.
  - destruct (clear_spec l q Hh) as (q' & -> & ? & ?). by exists q'.
  - rewrite (find_spec P l q Hh). cbn [mbind res_bind]. destruct (list_find _ l) as [[j t]|] eqn:E; simpl; [|by exists q].
    apply list_find_Some in E as (Hj & _). destruct (modify_spec l q j t f Hh Hj) as (q' & -> & ? & ?). by exists q'.
Qed.

(** C23: the ring buffer refines a bounded FIFO list.  Whatever sequence of
    pushes, pops, clears and searches with an in-place change is applied to a
    queue of any capacity below 2^63 (zero included), no index leaves the
    buffer, no empty slot is dereferenced, the elements popped are those the list
    gives, and the entries [at(0)], ... are the list at the end. *)
Theorem ifq_refines cap ops : 0 <= cap < 2 ^ 63 →
  ∃ q, run (make cap) ops = Ok ((spec_run cap [] ops).1, q) ∧
    all_entries q = Ok (Some <$> (spec_run cap [] ops).2).
Proof.
  intros Hc. assert (∀ l q, holds l q → cap_ q = cap →
    ∃ q', run q ops = Ok ((spec_run cap l ops).1, q') ∧ holds (spec_run cap l ops).2 q') as Hrun.
  { induction ops as [|o ops IH]; intros l q Hh Ecap; simpl; [by exists q|].
    destruct (op_spec l q o Hh) as (q1 & H1 & Hh1 & Ec1). rewrite Ecap in *. rewrite H1. cbn [mbind res_bind].
    destruct (spec_op cap l o) as [r l1]. simpl in *. destruct (IH l1 q1 Hh1 Ec1) as (q2 & -> & Hh2).
    cbn [mbind res_bind]. exists q2. by destruct (spec_run cap l1 ops). }
  destruct (Hrun [] (make cap) (make_holds cap Hc) eq_refl) as (q & Hr & Hh). exists q. split; [done|].
  by apply entries_spec.
Qed.
End ring.
Arguments IFQRingBuf : clear implicits.

Lemma ifq_refines_witness : ∃ q,
  run (make 2) [Push 1; Push 2; Push 3; Pop; Push 4; Modify (λ x, x =? 4) (λ x, x + 1); Pop; Pop] =
    Ok ([None; None; None; Some 1; None; None; Some 2; Some 5], q) ∧ all_entries q = Ok [].
Proof.
  exact (ifq_refines 2 [Push 1; Push 2; Push 3; Pop; Push 4; Modify (λ x, x =? 4) (λ x, x + 1); Pop; Pop] ltac:(lia)).
Defined.
End IFQ.
