(* ===== verification/Pipeline.v ===== *)
(** * The core: a five-stage in-order pipeline

    [Pipeline] of [src/pipeSim/Pipeline.hh] and [.cc] (with its base [Processor]):
    fetch with wrong-path and early-redirect traffic, decode with register and
    M-extension hazards, execute with branch flush, memory, write-back, and the
    attribution of stall cycles.  The caches are behind the interface [CpuEnv];
    the branch unit belongs to the pipeline and is part of its state.

    A cache is assumed not to answer within the call that makes the request, as is
    the case for the caches [main] builds; the answers arrive through
    [recv_mem_resp] and [ack_mem_avail]. *)

From S2P Require Import Prelude Types Trace BranchPred BranchUnit CacheEnv Ifq.

Module Pipe.

(** ** The caches as the core sees them *)

Inductive port : Type := Dmem | DmemNc.
#[export] Instance port_eq_dec : EqDecision port.
Proof. solve_decision. Defined.

Class CpuEnv (E : Type) : Type := {
  cpu_tick : E → Z;
  imem_ready : E → bool;
  imem_read : Z → ST E unit;
  lsu_ready : port → E → bool * bool;
  lsu_read : port → Z → ST E unit;
  lsu_write : port → Z → Z → Z → ST E unit
}.

(** ** Data *)

Inductive StallCause : Type := NoStall | NoInst | LsuStall | BrMispred | RAW.
#[export] Instance StallCause_eq_dec : EqDecision StallCause.
Proof. solve_decision. Defined.

Inductive PipeStage : Type := Fetch | Decode | Execute | IntMulExt | IntDivExt | Memory | WriteBack.
#[export] Instance PipeStage_eq_dec : EqDecision PipeStage.
Proof. solve_decision. Defined.

(** [std::array<A, Num_PipeStage>], indexed by the enumeration. *)
Record stages (A : Type) : Type := MkStages {
  at_F : A; at_D : A; at_X : A; at_Mul : A; at_Div : A; at_M : A; at_W : A
}.
Arguments MkStages {A} _ _ _ _ _ _ _.
Arguments at_F {A} _.
Arguments at_D {A} _.
Arguments at_X {A} _.
Arguments at_Mul {A} _.
Arguments at_Div {A} _.
Arguments at_M {A} _.
Arguments at_W {A} _.

Definition stages_all {A} (a : A) : stages A := MkStages a a a a a a a.
Definition get {A} (s : PipeStage) (r : stages A) : A :=
  match s with
  | Fetch => at_F r | Decode => at_D r | Execute => at_X r | IntMulExt => at_Mul r
  | IntDivExt => at_Div r | Memory => at_M r | WriteBack => at_W r
  end.
Definition put {A} (s : PipeStage) (a : A) (r : stages A) : stages A :=
  match s with
  | Fetch => MkStages a (at_D r) (at_X r) (at_Mul r) (at_Div r) (at_M r) (at_W r)
  | Decode => MkStages (at_F r) a (at_X r) (at_Mul r) (at_Div r) (at_M r) (at_W r)
  | Execute => MkStages (at_F r) (at_D r) a (at_Mul r) (at_Div r) (at_M r) (at_W r)
  | IntMulExt => MkStages (at_F r) (at_D r) (at_X r) a (at_Div r) (at_M r) (at_W r)
  | IntDivExt => MkStages (at_F r) (at_D r) (at_X r) (at_Mul r) a (at_M r) (at_W r)
  | Memory => MkStages (at_F r) (at_D r) (at_X r) (at_Mul r) (at_Div r) a (at_W r)
  | WriteBack => MkStages (at_F r) (at_D r) (at_X r) (at_Mul r) (at_Div r) (at_M r) a
  end.
Definition stage_list {A} (r : stages A) : list A :=
  [at_F r; at_D r; at_X r; at_Mul r; at_Div r; at_M r; at_W r].

Record PipelineStats : Type := MkStats {
  insts : Z; cycles : Z; nostall : Z; noinst : Z; lsu_stall : Z; brmiss_stall : Z; raw_stall : Z;
  wp_bpu_queries : Z; wp_btb_hits : Z; wp_redirects : Z; early_redirects : Z
}.
#[global] Instance eta_PipelineStats : Eta PipelineStats := λ r,
  MkStats r.(insts) r.(cycles) r.(nostall) r.(noinst) r.(lsu_stall) r.(brmiss_stall) r.(raw_stall)
          r.(wp_bpu_queries) r.(wp_btb_hits) r.(wp_redirects) r.(early_redirects).
Definition stats_zero : PipelineStats := MkStats 0 0 0 0 0 0 0 0 0 0 0.

(** [PipelineStats::reset_stats]: four counters are not in the list. *)
Definition stats_reset (s : PipelineStats) : PipelineStats :=
  s <| insts := 0 |> <| cycles := 0 |> <| nostall := 0 |> <| noinst := 0 |> <| lsu_stall := 0 |>
    <| brmiss_stall := 0 |> <| raw_stall := 0 |>.

Record Transaction : Type := MkTrans {
  trace_inst : TraceInst;
  br_pred : BranchResult;
  br_mispred : bool;
  is_wrong_path : bool;
  wait_mem : bool;
  counted_inflight : bool;
  bp_meta_hold : Z
}.
#[global] Instance eta_Transaction : Eta Transaction := λ r,
  MkTrans r.(trace_inst) r.(br_pred) r.(br_mispred) r.(is_wrong_path) r.(wait_mem)
          r.(counted_inflight) r.(bp_meta_hold).

(** The constructor; [BranchResult]'s remaining member keeps its default. *)
Definition make_trans (inst : TraceInst) (wrong_path is_wait_mem : bool) : Transaction :=
  MkTrans inst (MkBranchResult false 0 false 1 0 false) false wrong_path is_wait_mem (negb wrong_path) 0.

Record StallAttr : Type := MkStall { last_tick : Z; reset_tick : Z; cause : StallCause; in_br_recovery : bool }.
#[global] Instance eta_StallAttr : Eta StallAttr := λ r,
  MkStall r.(last_tick) r.(reset_tick) r.(cause) r.(in_br_recovery).

Record FetchState : Type := MkFetch {
  wrong_path : bool;
  wp_flushed : bool;
  wrong_path_pc : Z;
  resume_tick : Z;
  resp_is_orphan : list bool;
  wp_redirect_s1 : bool;
  wp_redirect_target_s1 : Z;
  wp_redirect_s2 : bool;
  wp_redirect_target_s2 : Z;
  early_redir_remaining : Z;
  early_redir_seq_pc : Z
}.
#[global] Instance eta_FetchState : Eta FetchState := λ r,
  MkFetch r.(wrong_path) r.(wp_flushed) r.(wrong_path_pc) r.(resume_tick) r.(resp_is_orphan)
          r.(wp_redirect_s1) r.(wp_redirect_target_s1) r.(wp_redirect_s2) r.(wp_redirect_target_s2)
          r.(early_redir_remaining) r.(early_redir_seq_pc).

Record Pipeline (P : Type) : Type := Mk {
  stats : PipelineStats;
  bpu : BU.BranchUnit P;
  has_dmem_nc : bool;
  is_draining_ : bool;
  input_buffer_ : option Transaction;
  sim_pipe_ : stages (option Transaction);
  reg_ready_ : list Z;
  stage_update_ : stages Z;
  ongoing_insts_ : Z;
  calc_nxtupd_ : Z;
  stall_ : StallAttr;
  fetch_queue_ : IFQ.IFQRingBuf Transaction;
  fetch_ : FetchState;
  mmio_resp_tick_ : Z;
  mmio_lat_ : Z;
  mul_ready_tick_ : Z;
  div_ready_tick_ : Z
}.
Arguments Mk {P} _ _ _ _ _ _ _ _ _ _ _ _ _ _ _ _ _.
Arguments stats {P} _.
Arguments bpu {P} _.
Arguments has_dmem_nc {P} _.
Arguments is_draining_ {P} _.
Arguments input_buffer_ {P} _.
Arguments sim_pipe_ {P} _.
Arguments reg_ready_ {P} _.
Arguments stage_update_ {P} _.
Arguments ongoing_insts_ {P} _.
Arguments calc_nxtupd_ {P} _.
Arguments stall_ {P} _.
Arguments fetch_queue_ {P} _.
Arguments fetch_ {P} _.
Arguments mmio_resp_tick_ {P} _.
Arguments mmio_lat_ {P} _.
Arguments mul_ready_tick_ {P} _.
Arguments div_ready_tick_ {P} _.
#[global] Instance eta_Pipeline {P} : Eta (Pipeline P) := λ r,
  Mk r.(stats) r.(bpu) r.(has_dmem_nc) r.(is_draining_) r.(input_buffer_) r.(sim_pipe_) r.(reg_ready_)
     r.(stage_update_) r.(ongoing_insts_) r.(calc_nxtupd_) r.(stall_) r.(fetch_queue_) r.(fetch_)
     r.(mmio_resp_tick_) r.(mmio_lat_) r.(mul_ready_tick_) r.(div_ready_tick_).

Definition kBranchMissPenalty : Z := 1.

(** The constructor and [set_cache_ports].  [calc_nxtupd_] has no initialiser:
    its first value is the argument [nxtupd]. *)
Definition make {P} (ifq_size : Z) (bpu : BU.BranchUnit P) (mmio_lat : Z) (has_nc : bool) (nxtupd : Z) : Pipeline P :=
  Mk stats_zero bpu has_nc false None (stages_all None) (replicate 32 0) (stages_all 0) 0 nxtupd
     (MkStall 0 0 NoInst false) (IFQ.make ifq_size)
     (MkFetch false false 0 0 [] false 0 false 0 0 0) InfTime mmio_lat 0 0.

Definition is_cacheable_addr (addr : Z) : bool :=
  let top := Z.land (Z.shiftr addr 28) 0xf in
  (top =? 0x3) || (top =? 0x8) || (top =? 0x9) || (top =? 0xa) || (top =? 0xb).

Section pure.
Context {P : Type}.
Implicit Types (p : Pipeline P).

Definition slot (s : PipeStage) p : option Transaction := get s (sim_pipe_ p).
Definition set_slot (s : PipeStage) (t : option Transaction) p : Pipeline P := p <| sim_pipe_ ::= put s t |>.
Definition present {A} (o : option A) : bool := match o with Some _ => true | None => false end.

(** ** Stall attribution *)

Definition flush_stall_cycles (until : Z) p : Pipeline P :=
  let st := stall_ p in
  if until <=? last_tick st then p
  else
    let gap := until - last_tick st in
    let add (n : Z) := u64 (n + gap) in
    let p :=
      if in_br_recovery st && negb (bool_decide (cause st = NoStall)) then
        p <| stats ::= (λ s, s <| brmiss_stall ::= add |>) |>
      else match cause st with
           | LsuStall => p <| stats ::= (λ s, s <| lsu_stall ::= add |>) |>
           | RAW => p <| stats ::= (λ s, s <| raw_stall ::= add |>) |>
           | BrMispred => p <| stats ::= (λ s, s <| brmiss_stall ::= add |>) |>
           | _ => p <| stats ::= (λ s, s <| noinst ::= add |>) |>
           end in
    p <| stall_ ::= (λ s, s <| last_tick := until |>) |>.

Definition set_stall (now : Z) (new_cause : StallCause) p : Pipeline P :=
  let new_cause := if in_br_recovery (stall_ p) && negb (bool_decide (new_cause = NoStall))
                   then BrMispred else new_cause in
  if decide (new_cause = cause (stall_ p)) then p
  else flush_stall_cycles now p <| stall_ ::= (λ s, s <| cause := new_cause |>) |>.

(** ** Scheduling *)

Definition schedule (now : Z) (s : PipeStage) (when : Z) p : res (Pipeline P) :=
  _ ← assert_ (now <=? when); mret (p <| stage_update_ ::= put s when |>).

Definition async_schedule (now : Z) (s : PipeStage) (when : Z) p : res (Pipeline P) :=
  p ← schedule now s when p; mret (p <| calc_nxtupd_ ::= (λ c, Z.min c when) |>).

Definition calc_sched (now : Z) p : Pipeline P :=
  let mins := fold_left (λ m e, if now <? e then Z.min m e else m) (stage_list (stage_update_ p)) InfTime in
  let mins := Z.min mins (mmio_resp_tick_ p) in
  let soon (b : bool) m := if b then Z.min m (u64 (now + 1)) else m in
  let mins := soon (wrong_path (fetch_ p)) mins in
  let mins := soon (0 <? early_redir_remaining (fetch_ p)) mins in
  let mins := soon (now <? resume_tick (fetch_ p)) mins in
  p <| calc_nxtupd_ := mins |>.

Definition next_update p : Z := calc_nxtupd_ p.

(** Ready time of an instruction's sources: [reg_ready_.at] throws beyond 31. *)
Definition src_ready p (i : TraceInst) : res Z :=
  a ← vec_at (reg_ready_ p) (src_reg0 i);
  b ← vec_at (reg_ready_ p) (src_reg1 i);
  mret (Z.max a b).

Definition update_reg_time (now rd when : Z) p : res (Pipeline P) :=
  p ← (if rd =? 0 then mret p else l ← vec_set (reg_ready_ p) rd when; mret (p <| reg_ready_ := l |>));
  p ← match slot Fetch p with
      | Some ids =>
        let idi := trace_inst ids in
        if (get Decode (stage_update_ p) =? InfTime) && (negb (src_reg0 idi =? 0) || negb (src_reg1 idi =? 0)) then
          ready ← src_ready p idi;
          if ready <=? now then schedule now Decode (u64 (now + 1)) p else schedule now Decode ready p
        else mret p
      | None => mret p
      end;
  r0 ← vec_at (reg_ready_ p) 0;
  _ ← assert_ (r0 =? 0);
  mret p.

Definition prev_stage_valid (now : Z) (s : PipeStage) p : bool :=
  match s with
  | Fetch => true
  | Decode => present (slot Fetch p)
  | Execute | IntMulExt | IntDivExt => present (slot Decode p)
  | Memory => present (slot Execute p)
  | WriteBack => present (slot Memory p) || (present (slot IntMulExt p) && (mul_ready_tick_ p <=? now))
                 || (present (slot IntDivExt p) && (div_ready_tick_ p <=? now))
  end.

Definition inst_avail p : bool := negb (present (input_buffer_ p)) && negb (is_draining_ p).
Definition is_finished p : bool := ongoing_insts_ p =? 0.
Definition set_draining p : Pipeline P := p <| is_draining_ := true |>.
End pure.

(** ** Stage handlers *)

Section handlers.
Context {P E : Type} `{DirPredictor P} `{CpuEnv E}.
Implicit Types (p : Pipeline P).

Definition now_ : ST (Pipeline P * E) Z := gets (λ s, cpu_tick s.2).
(** A fallible change of the core. *)
Definition upd (f : Pipeline P → res (Pipeline P)) : ST (Pipeline P * E) unit :=
  update_self (λ p, (λ p', (tt, p')) <$> f p).
(** A call of the branch unit that returns a result. *)
Definition call_bpu {A} (f : BU.BranchUnit P → res (A * BU.BranchUnit P)) : ST (Pipeline P * E) A :=
  update_self (λ p, '(a, b) ← f (bpu p); mret (a, p <| bpu := b |>)).
Definition deref {A} (o : option A) : ST (Pipeline P * E) A :=
  match o with Some a => mret a | None => fail NullDeref end.

Definition push_orphan (b : bool) p : Pipeline P := p <| fetch_ ::= (λ f, f <| resp_is_orphan ::= (λ l, l ++ [b]) |>) |>.
Definition push_ifq (t : Transaction) p : res (Pipeline P) :=
  q ← IFQ.push_back (Some t) (fetch_queue_ p); mret (p <| fetch_queue_ := q |>).

(** *** [do_fetch_0] *)

Definition fetch_early_redir : ST (Pipeline P * E) unit :=
  p ← self;
  env (imem_read (early_redir_seq_pc (fetch_ p)));;
  modify_self (push_orphan true);;
  modify_self (λ p, p <| fetch_ ::= (λ f, f <| early_redir_seq_pc ::= (λ a, u32 (a + 4)) |>
    <| early_redir_remaining ::= Z.pred |>) |>).

(** The redirect pipeline of wrong-path fetch: [will_redirect] enters stage 1,
    stage 2 takes effect on the next PC. *)
Definition wp_advance (pred : BranchResult) p : Pipeline P :=
  let p := p <| fetch_ ::= (λ f, f <| wrong_path_pc ::= (λ a, u32 (a + 4)) |>) |> in
  let redirected := wp_redirect_s2 (fetch_ p) in
  let p := if wp_redirect_s2 (fetch_ p) then
      p <| fetch_ ::= (λ f, f <| wrong_path_pc := wp_redirect_target_s2 f |> <| wp_redirect_s2 := false |>
                              <| wp_redirect_s1 := false |>) |>
        <| stats ::= (λ s, s <| wp_redirects ::= incr |>) |>
    else p in
  let p := if wp_redirect_s1 (fetch_ p) then
      p <| fetch_ ::= (λ f, f <| wp_redirect_s2 := true |> <| wp_redirect_target_s2 := wp_redirect_target_s1 f |>
                              <| wp_redirect_s1 := false |>) |>
    else p in
  if will_redirect pred && negb redirected then
    p <| fetch_ ::= (λ f, f <| wp_redirect_s1 := true |> <| wp_redirect_target_s1 := u32 (pred_target pred) |>) |>
      <| stats ::= (λ s, s <| wp_btb_hits ::= incr |>) |>
  else p.

Definition fetch_wrong_path : ST (Pipeline P * E) unit :=
  p ← self;
  if IFQ.full (fetch_queue_ p) then mret tt
  else
    let pc := wrong_path_pc (fetch_ p) in
    pred ← call_bpu (λ b, BU.predict b pc);
    modify_self (λ p, p <| stats ::= (λ s, s <| wp_bpu_queries ::= incr |>) |>);;
    upd (push_ifq (make_trans (inst_zero <| Trace.pc := pc |>) true true));;
    env (imem_read pc);;
    modify_self (push_orphan false);;
    modify_self (wp_advance pred).

(** Where fetch goes on after a misprediction. *)
Definition wrong_target (i : TraceInst) (real_taken : bool) (pred : BranchResult) : Z :=
  if real_taken && negb (will_redirect pred) then u32 (pc i + 4) else u32 (pred_target pred).

Definition real_taken (i : TraceInst) : bool := is_branch i && br_taken i.
Definition real_target (i : TraceInst) : Z := if real_taken i then mem_addr i else 0.

Definition enter_wrong_path (now : Z) (i : TraceInst) (pred : BranchResult) p : Pipeline P :=
  flush_stall_cycles now (p <| fetch_ ::= (λ f, f <| wrong_path := true |>) |>)
    <| fetch_ ::= (λ f, f <| wrong_path_pc := wrong_target i (real_taken i) pred |>) |>.

(** After the request: the TAGE bubble and the early-redirect window. *)
Definition after_fetch (now : Z) (i : TraceInst) (pred : BranchResult) (accurate : bool) p : Pipeline P :=
  let p := if tage_overrode_bimodal pred then
      p <| fetch_ ::= (λ f, f <| resume_tick ::= (λ r, Z.max r (u64 (now + 2))) |>) |> else p in
  if accurate && will_redirect pred then
    p <| fetch_ ::= (λ f, f <| early_redir_remaining := 2 |> <| early_redir_seq_pc := u32 (pc i + 4) |>) |>
      <| stats ::= (λ s, s <| early_redirects ::= incr |>) |>
  else p.

Definition fetch_real : ST (Pipeline P * E) unit :=
  p ← self;
  now ← now_;
  match input_buffer_ p with
  | None => mret tt
  | Some candidate =>
    modify_self (λ p, p <| input_buffer_ := None |>);;
    let candidate := candidate <| wait_mem := true |> in
    let inst := trace_inst candidate in
    let candidate := if is_branch inst && BU.is_no_bpu (bpu p)
      then candidate <| bp_meta_hold := if br_taken inst then 2 else 0 |> else candidate in
    pred ← call_bpu (λ b, BU.predict_at_fetch b (pc inst) (is_branch inst));
    accurate ← call_bpu (λ b, Ok (BU.judge b (real_taken inst) (real_target inst) pred));
    let candidate := candidate <| br_pred := pred |> <| br_mispred := negb accurate |> in
    when (negb accurate) (modify_self (enter_wrong_path now inst pred));;
    env (imem_read (pc inst));;
    modify_self (push_orphan false);;
    modify_self (after_fetch now inst pred accurate);;
    upd (push_ifq candidate)
  end.

Definition do_fetch_0 : ST (Pipeline P * E) unit :=
  p ← self;
  now ← now_;
  rdy ← gets (λ s, imem_ready s.2);
  if now <? resume_tick (fetch_ p) then modify_self (set_stall now BrMispred)
  else if negb rdy then mret tt
  else if 0 <? early_redir_remaining (fetch_ p) then fetch_early_redir
  else if wrong_path (fetch_ p) && negb (wp_flushed (fetch_ p)) then fetch_wrong_path
  else
    when (wrong_path (fetch_ p))
      (modify_self (λ p, p <| fetch_ ::= (λ f, f <| wrong_path := false |> <| wp_flushed := false |>) |>));;
    if IFQ.full (fetch_queue_ p) then mret tt else fetch_real.

(** *** [do_fetch_1] *)
Definition do_fetch_1 : ST (Pipeline P * E) unit :=
  p ← self;
  now ← now_;
  if IFQ.empty (fetch_queue_ p) then upd (schedule now Fetch InfTime)
  else
    o ← lift (IFQ.front (fetch_queue_ p));
    t ← deref o;
    if wait_mem t then upd (schedule now Fetch InfTime)
    else if 0 <? bp_meta_hold t then
      upd (λ p, q ← IFQ.set_front (Some (t <| bp_meta_hold ::= Z.pred |>)) (fetch_queue_ p);
                mret (p <| fetch_queue_ := q |>));;
      upd (schedule now Fetch (u64 (now + 1)))
    else
      assertM (negb (present (slot Fetch p)));;
      modify_self (set_slot Fetch (Some t));;
      upd (λ p, q ← IFQ.pop_front (fetch_queue_ p); mret (p <| fetch_queue_ := q |>)).

(** *** [do_decode] *)

Definition lsu_active p : bool := match slot Execute p with Some t => wait_mem t | None => false end.

(** A multiply or divide in flight with destination [rd]. *)
Definition has_mext_waw p (rd : Z) (s : PipeStage) : bool :=
  match slot s p with Some t => dst_reg (trace_inst t) =? rd | None => false end.

(** The stall of an instruction that waits for a register or a unit until [when]. *)
Definition decode_stall (now until : Z) : ST (Pipeline P * E) unit :=
  p ← self;
  when (negb (lsu_active p)) (modify_self (set_stall now RAW));;
  upd (schedule now Decode until).

Definition decode_pass (now ready_time : Z) (t : Transaction) : ST (Pipeline P * E) unit :=
  p ← self;
  let rd := dst_reg (trace_inst t) in
  when (negb (lsu_active p)) (modify_self (set_stall now NoInst));;
  upd (schedule now Decode (u64 (Z.max now ready_time + 1)));;
  upd (λ p, if rd =? 0 then mret p else l ← vec_set (reg_ready_ p) rd InfTime; mret (p <| reg_ready_ := l |>));;
  modify_self (λ p, set_slot Fetch None (set_slot Decode (Some t) p)).

Definition do_decode : ST (Pipeline P * E) unit :=
  p ← self;
  now ← now_;
  t ← deref (slot Fetch p);
  let inst := trace_inst t in
  if is_wrong_path t then
    when (in_br_recovery (stall_ p)) (modify_self (set_stall now BrMispred));;
    modify_self (set_slot Fetch None);;
    upd (schedule now Decode (u64 (now + 1)))
  else if negb (ext_op inst =? ExtNone) && (present (slot IntMulExt p) || present (slot IntDivExt p)) then
    let ready := if present (slot IntMulExt p) then mul_ready_tick_ p else InfTime in
    let ready := if present (slot IntDivExt p) then Z.min ready (div_ready_tick_ p) else ready in
    decode_stall now (if ready <=? now then u64 (now + 1) else ready)
  else
    ready_time ← lift (src_ready p inst);
    if ready_time =? InfTime then decode_stall now InfTime
    else if now <? ready_time then decode_stall now ready_time
    else if negb (dst_reg inst =? 0) &&
            (has_mext_waw p (dst_reg inst) IntMulExt || has_mext_waw p (dst_reg inst) IntDivExt) then
      waw_ready ← lift (vec_at (reg_ready_ p) (dst_reg inst));
      decode_stall now (if waw_ready <=? now then u64 (now + 1) else waw_ready)
    else decode_pass now ready_time t.

(** *** Branch flush *)

(** [ongoing_insts_--] for every real instruction in the fetch queue. *)
Definition uncount_queue p : res (Pipeline P) :=
  l ← IFQ.all_entries (fetch_queue_ p);
  mret (p <| ongoing_insts_ ::= (λ n, fold_left (λ n e,
    match e with Some t => if counted_inflight t then u64 (n - 1) else n | None => n end) l n) |>).

(** The flush of everything younger than the instruction at execute; the source
    has it once for branches and once for other instructions. *)
Definition flush_frontend (now : Z) p : res (Pipeline P) :=
  let p := p <| fetch_ ::= (λ f, f <| resp_is_orphan ::= map (λ b, if negb b then true else b) |>) |> in
  p ← uncount_queue p;
  q ← IFQ.clear (fetch_queue_ p);
  let p := p <| fetch_queue_ := q |> in
  let p := match slot Fetch p with
           | Some t => set_slot Fetch None (if counted_inflight t then p <| ongoing_insts_ ::= (λ n, u64 (n - 1)) |> else p)
           | None => p
           end in
  let p := p <| fetch_ ::= (λ f, f <| wp_flushed := true |> <| wp_redirect_s1 := false |>
      <| wp_redirect_s2 := false |> <| early_redir_remaining := 0 |>
      <| resume_tick := u64 (now + kBranchMissPenalty) |>) |> in
  mret (flush_stall_cycles now p <| stall_ ::= (λ s, s <| in_br_recovery := true |>) |>).

Definition bpu_update (i : TraceInst) (taken : bool) (target : Z) (is_call is_ret btb_hit : bool)
    (t : Transaction) : ST (Pipeline P * E) unit :=
  upd (λ p, b ← BU.update (bpu p) (pc i) taken target is_call is_ret btb_hit (br_pred t) (br_mispred t);
            mret (p <| bpu := b |>)).

Definition clear_btb (i : TraceInst) : ST (Pipeline P * E) unit :=
  upd (λ p, b ← BU.clear_btb_entry (bpu p) (pc i); mret (p <| bpu := b |>)).

Definition flush_false_btb_hit (now : Z) (t : Transaction) : ST (Pipeline P * E) unit :=
  let inst := trace_inst t in
  if is_branch inst then mret tt
  else
    let had_btb_hit := negb (pred_target (br_pred t) =? 0) in
    when had_btb_hit (bpu_update inst false 0 false false true t);;
    if had_btb_hit && negb (br_mispred t) then clear_btb inst
    else if negb (br_mispred t) then mret tt
    else clear_btb inst;; upd (flush_frontend now).

(** *** [do_execute] *)

(** Resolution of a branch: the predictor learns, a misprediction flushes. *)
Definition resolve_branch (now : Z) (t : Transaction) : ST (Pipeline P * E) unit :=
  let inst := trace_inst t in
  let is_call := dst_reg inst =? 1 in
  let is_ret := (src_reg0 inst =? 1) && (dst_reg inst =? 0) in
  let btb_hit := negb (pred_target (br_pred t) =? 0) in
  bpu_update inst (br_taken inst) (if br_taken inst then mem_addr inst else 0) is_call is_ret btb_hit t;;
  when (br_mispred t) (upd (flush_frontend now)).

Definition assert_decoded (now : Z) : ST (Pipeline P * E) unit :=
  p ← self; assertM (get Decode (stage_update_ p) <=? now).

Definition do_execute : ST (Pipeline P * E) unit :=
  p ← self;
  now ← now_;
  assert_decoded now;;
  t ← deref (slot Decode p);
  let inst := trace_inst t in
  if negb (ext_op inst =? ExtNone) then mret tt
  else
    when (is_branch inst) (resolve_branch now t);;
    flush_false_btb_hit now t;;
    when (mem_op inst =? MemNone)
      (upd (update_reg_time now (dst_reg inst)
             (if is_branch inst && negb (dst_reg inst =? 0) then u64 (now + 2) else now)));;
    modify_self (λ p, set_slot Decode None (set_slot Execute (slot Decode p) p));;
    upd (schedule now Execute (u64 (now + 1))).

(** *** The M extension *)

Definition MulLat : Z := 4.
Definition DivLat : Z := 34.

Definition issue_mext (now lat : Z) (s : PipeStage) (t : Transaction)
    (set_ready : Pipeline P → Pipeline P) : ST (Pipeline P * E) unit :=
  flush_false_btb_hit now t;;
  modify_self set_ready;;
  upd (update_reg_time now (dst_reg (trace_inst t)) (u64 (now + lat)));;
  upd (schedule now s (u64 (now + lat)));;
  upd (async_schedule now WriteBack (u64 (now + lat)));;
  modify_self (λ p, set_slot Decode None (set_slot s (slot Decode p) p)).

Definition do_mul_ext : ST (Pipeline P * E) unit :=
  p ← self;
  now ← now_;
  assert_decoded now;;
  t ← deref (slot Decode p);
  let op := ext_op (trace_inst t) in
  if (op =? IntMulH) || (op =? IntMulL) then
    issue_mext now MulLat IntMulExt t (λ p, p <| mul_ready_tick_ := u64 (now + MulLat) |>)
  else mret tt.

Definition do_div_ext : ST (Pipeline P * E) unit :=
  p ← self;
  now ← now_;
  assert_decoded now;;
  t ← deref (slot Decode p);
  let op := ext_op (trace_inst t) in
  if (op =? IntDiv) || (op =? IntRem) then
    issue_mext now DivLat IntDivExt t (λ p, p <| div_ready_tick_ := u64 (now + DivLat) |>)
  else mret tt.

(** *** [do_memory] *)

Definition modify_slot (s : PipeStage) (f : Transaction → Transaction) p : Pipeline P :=
  set_slot s (f <$> slot s p) p.
Definition move_to_memory p : Pipeline P := set_slot Execute None (set_slot Memory (slot Execute p) p).
Definition set_wait (b : bool) : Pipeline P → Pipeline P := modify_slot Execute (λ t, t <| wait_mem := b |>).

(** [addr & ~0x3U] *)
Definition aligned (addr : Z) : Z := Z.land addr 0xfffffffc.

Definition send_lsu_req (port : port) (addr data strb : Z) (is_write : bool) : ST (Pipeline P * E) unit :=
  now ← now_;
  rdy ← gets (λ s, lsu_ready port s.2);
  let '(rready, wready) := rdy in
  upd (schedule now Memory InfTime);;
  when (if is_write then wready else rready) (
    modify_self (set_wait true);;
    if is_write then env (lsu_write port (aligned addr) data strb) else env (lsu_read port (aligned addr))).

Definition do_memory : ST (Pipeline P * E) unit :=
  p ← self;
  now ← now_;
  assertM (present (slot Execute p));;
  t ← deref (slot Execute p);
  let inst := trace_inst t in
  let mem := negb (mem_op inst =? MemNone) in
  let legacy := mem && negb (is_cacheable_addr (mem_addr inst)) && negb (has_dmem_nc p) in
  if wait_mem t then
    if legacy then
      modify_self (set_wait false);;
      when (mem_op inst =? MemLoad) (upd (update_reg_time now (dst_reg inst) (u64 (now + 2))));;
      upd (schedule now Memory (u64 (now + 1)));;
      modify_self move_to_memory
    else upd (schedule now Memory InfTime)
  else if legacy then
    modify_self (set_stall now LsuStall);;
    modify_self (set_wait true);;
    upd (schedule now Memory (u64 (now + mmio_lat_ p)))
  else
    let lsu_port := if mem && negb (is_cacheable_addr (mem_addr inst)) && has_dmem_nc p then DmemNc else Dmem in
    if mem_op inst =? MemLoad then
      modify_self (set_stall now LsuStall);;
      send_lsu_req lsu_port (mem_addr inst) 0xbad 0xf false
    else if mem_op inst =? MemStore then
      modify_self (set_stall now LsuStall);;
      send_lsu_req lsu_port (mem_addr inst) 0xbad 0xf true;;
      upd (schedule now Memory InfTime)
    else
      upd (schedule now Memory (u64 (now + 1)));;
      modify_self move_to_memory.

(** *** [do_writeback] *)

(** The slot that commits: memory first; multiply and divide only when no
    instruction is at execute. *)
Definition commit_source (now : Z) p : option PipeStage :=
  let pending_alu := present (slot Execute p) in
  if present (slot Memory p) then Some Memory
  else if negb pending_alu && present (slot IntDivExt p) && (div_ready_tick_ p <=? now) then Some IntDivExt
  else if negb pending_alu && present (slot IntMulExt p) && (mul_ready_tick_ p <=? now) then Some IntMulExt
  else None.

Definition commit (now : Z) (s : PipeStage) (t : Transaction) p : Pipeline P :=
  let p := p <| ongoing_insts_ ::= (λ n, u64 (n - 1)) |> in
  let p := flush_stall_cycles now p in
  let p := p <| stats ::= (λ st, st <| nostall ::= incr |>) |>
             <| stall_ ::= (λ st, st <| last_tick := u64 (now + 1) |> <| in_br_recovery := false |>) |> in
  let c := if br_mispred t then BrMispred else if lsu_active p then LsuStall else NoInst in
  let p := p <| stall_ ::= (λ st, st <| cause := c |>) |> in
  set_slot s None (p <| stats ::= (λ st, st <| insts ::= incr |>
      <| cycles := u64 (now - reset_tick (stall_ p)) |>) |>).

Definition do_writeback : ST (Pipeline P * E) unit :=
  p ← self;
  now ← now_;
  match commit_source now p with
  | None =>
    let next := if present (slot IntDivExt p) then div_ready_tick_ p else InfTime in
    let next := if present (slot IntMulExt p) then Z.min next (mul_ready_tick_ p) else next in
    upd (schedule now WriteBack (Z.max next (u64 (now + 1))))
  | Some s =>
    t ← deref (slot s p);
    modify_self (commit now s t);;
    upd (schedule now WriteBack (u64 (now + 1)))
  end.

(** ** The tick, and the calls from outside *)

Definition run_stage (s : PipeStage) : ST (Pipeline P * E) unit :=
  match s with
  | Fetch => do_fetch_1 | Decode => do_decode | Execute => do_execute | IntMulExt => do_mul_ext
  | IntDivExt => do_div_ext | Memory => do_memory | WriteBack => do_writeback
  end.

(** One turn of the loop over the stages. *)
Definition try_stage (s : PipeStage) : ST (Pipeline P * E) unit :=
  p ← self;
  now ← now_;
  when (negb (present (slot s p)) && prev_stage_valid now s p && (get s (stage_update_ p) <=? now)) (run_stage s).

Definition update_impl : ST (Pipeline P * E) unit :=
  modify_self (λ p, p <| bpu ::= BU.begin_tick |>);;
  try_stage WriteBack;; try_stage Memory;; try_stage IntDivExt;; try_stage IntMulExt;;
  try_stage Execute;; try_stage Decode;; try_stage Fetch;;
  do_fetch_0;;
  now ← now_;
  modify_self (calc_sched now).

Definition do_update : ST (Pipeline P * E) unit :=
  p ← self;
  now ← now_;
  when (next_update p <=? now) update_impl.

Definition feed_inst (i : TraceInst) : ST (Pipeline P * E) unit :=
  p ← self;
  assertM (negb (present (input_buffer_ p)));;
  modify_self (λ p, p <| ongoing_insts_ ::= incr |> <| input_buffer_ := Some (make_trans i false false) |>);;
  do_fetch_0.

(** The first fetch that waits for memory gets the response. *)
Definition handle_ifu_resp (now : Z) p : res (Pipeline P) :=
  match resp_is_orphan (fetch_ p) with
  | [] => Err AssertFailed
  | is_orphan :: rest =>
    let p := p <| fetch_ ::= (λ f, f <| resp_is_orphan := rest |>) |> in
    if is_orphan then mret p
    else
      k ← IFQ.find_if_ptr wait_mem (fetch_queue_ p);
      match k with
      | None => Err AssertFailed
      | Some k =>
        q ← IFQ.modify_at k (λ t, t <| wait_mem := false |>) (fetch_queue_ p);
        async_schedule now Fetch (u64 (now + 1)) (p <| fetch_queue_ := q |>)
      end
  end.

Definition handle_lsu_resp (now : Z) p : res (Pipeline P) :=
  match slot Execute p with
  | None => Err AssertFailed
  | Some t =>
    _ ← assert_ (wait_mem t);
    _ ← assert_ (negb (present (slot Memory p)));
    let p := set_wait false p in
    let inst := trace_inst t in
    p ← (if mem_op inst =? MemLoad then update_reg_time now (dst_reg inst) (u64 (now + 2)) p else mret p);
    let p := set_stall now LsuStall p in
    p ← match slot Fetch p with
        | Some ids => rdy ← src_ready p (trace_inst ids); mret (if now <? rdy then set_stall now RAW p else p)
        | None => mret p
        end;
    p ← async_schedule now Memory (u64 (now + 1)) p;
    mret (move_to_memory p)
  end.

Definition recv_mem_resp (now : Z) (t : CpuTrans) p : res (Pipeline P) :=
  if ct_id t =? 0 then _ ← assert_ (is_Read (ct_mop t)); handle_ifu_resp now p
  else if (ct_id t =? 1) || (ct_id t =? 2) then handle_lsu_resp now p
  else Err AssertFailed.

Definition ack_mem_avail (now : Z) (a : AckTrans) p : res (Pipeline P) :=
  if ack_id a =? 0 then async_schedule now Fetch now p
  else if (ack_id a =? 1) || (ack_id a =? 2) then
    match slot Execute p with
    | Some t => if negb (wait_mem t) && negb (mem_op (trace_inst t) =? MemNone)
                then async_schedule now Memory now p else mret p
    | None => mret p
    end
  else Err AssertFailed.

Definition reset_stats (now : Z) p : Pipeline P :=
  p <| stats ::= stats_reset |>
    <| stall_ := MkStall now now NoInst false |>.
End handlers.
End Pipe.
