(* ===== verification/PipelineSafe.v ===== *)
(** * The pipeline keeps its contracts

    Safety of [Pipeline] against every behaviour of the caches, the accounting of
    cycles, and the fate of instructions: a flush removes wrong-path fetches only,
    so every instruction that was fed commits or is still in the machine. *)

From S2P Require Import Prelude Types Trace BranchPred BranchUnit Btb Ras CacheEnv Ifq Pipeline.

Module PipeSafe.
Import Pipe.

(** ** The environment

    [Ports] stands for the caches: readiness may change at any time, an
    instruction fetch and a load or store are accepted only when the port is
    ready, and at most one load or store is outstanding.  A port that has
    accepted a request is no longer ready, until it says so again. *)

Record Ports : Type := MkPorts {
  t_now : Z;
  t_fetches : Z;
  t_lsu : option (port * MemRWOpt);
  t_irdy : bool;
  t_drdy : port → bool * bool;
  t_updated : bool;
  t_fed : Z;
  t_past : Z
}.
#[global] Instance eta_Ports : Eta Ports := λ r,
  MkPorts r.(t_now) r.(t_fetches) r.(t_lsu) r.(t_irdy) r.(t_drdy) r.(t_updated) r.(t_fed) r.(t_past).

Definition lsu_request (po : port) (m : MemRWOpt) : ST Ports unit := λ h,
  let ready := match m with Read => (t_drdy h po).1 | Write => (t_drdy h po).2 end in
  match t_lsu h with
  | None => if ready then Ok (tt, h <| t_lsu := Some (po, m) |> <| t_drdy := λ _, (false, false) |>) else Err AssertFailed
  | Some _ => Err AssertFailed
  end.

#[export] Instance ports_env : CpuEnv Ports := {|
  cpu_tick := t_now;
  imem_ready := t_irdy;
  imem_read _ := λ h, if t_irdy h then Ok (tt, h <| t_fetches ::= Z.succ |> <| t_irdy := false |>) else Err AssertFailed;
  lsu_ready po h := t_drdy h po;
  lsu_read po _ := lsu_request po Read;
  lsu_write po _ _ _ := lsu_request po Write
|}.

(** What may happen to the core.  [do_update] runs at most once per tick, as in
    [main]'s loop; the rest may come in any order. *)
Inductive op : Type :=
| OTick
| OUpdate
| OFeed (i : TraceInst)
| OFetchResp
| OLsuResp
| OAck (id : Z) (m : MemRWOpt)
| OReady (irdy : bool) (drdy : port → bool * bool)
| ODrain
| OReset.

Definition port_id (po : port) : Z := match po with Dmem => 1 | DmemNc => 2 end.

Section steps.
Context {P : Type} `{DirPredictor P}.

Definition on_core (f : Pipeline P → res (Pipeline P)) : ST (Pipeline P * Ports) unit := upd f.

Definition step (o : op) : ST (Pipeline P * Ports) unit := λ s,
  let '(p, h) := s in
  match o with
  | OTick => Ok (tt, (p, h <| t_now ::= Z.succ |> <| t_updated := false |>))
  | OUpdate => if t_updated h then Ok (tt, s) else do_update (p, h <| t_updated := true |>)
  | OFeed i => if inst_avail p then feed_inst i (p, h <| t_fed ::= Z.succ |>) else Ok (tt, s)
  | OFetchResp =>
    if 0 <? t_fetches h
    then upd (recv_mem_resp (t_now h) (MkCpuTrans 0 0 0 Read)) (p, h <| t_fetches ::= Z.pred |>)
    else Ok (tt, s)
  | OLsuResp =>
    match t_lsu h with
    | Some (po, m) => upd (recv_mem_resp (t_now h) (MkCpuTrans 0 0 (port_id po) m)) (p, h <| t_lsu := None |>)
    | None => Ok (tt, s)
    end
  | OAck id m => upd (ack_mem_avail (t_now h) (MkAckTrans id m)) s
  | OReady i d => Ok (tt, (p, h <| t_irdy := i |> <| t_drdy := d |>))
  | ODrain => Ok (tt, (set_draining p, h))
  | OReset => Ok (tt, (reset_stats (t_now h) p, h <| t_past ::= Z.add (insts (stats p)) |>))
  end.

Fixpoint run (ops : list op) : ST (Pipeline P * Ports) unit :=
  match ops with [] => mret tt | o :: ops => step o;; run ops end.
End steps.

(** ** Transactions *)

Definition clean (t : Transaction) : Prop :=
  is_wrong_path t = false ∧ counted_inflight t = true ∧ br_mispred t = false.
Definition mispredicted (t : Transaction) : Prop :=
  is_wrong_path t = false ∧ counted_inflight t = true ∧ br_mispred t = true ∧ is_branch (trace_inst t) = true.
Definition wrong (t : Transaction) : Prop :=
  is_wrong_path t = true ∧ counted_inflight t = false ∧ br_mispred t = false.

(** What a trace record must satisfy: register numbers below 32, and no branch
    is a multiply or divide. *)
Definition fed_ok (i : TraceInst) : Prop :=
  word_ok (pc i) ∧ 0 <= dst_reg i < 32 ∧ 0 <= src_reg0 i < 32 ∧ 0 <= src_reg1 i < 32 ∧
  (is_branch i = true → ext_op i = ExtNone).

Definition trans_ok (t : Transaction) : Prop :=
  fed_ok (trace_inst t) ∧ BU.result_ok (br_pred t) ∧
  (is_branch (trace_inst t) = false → br_mispred t = false ∧ pred_target (br_pred t) = 0).

Definition counted (o : option Transaction) : Z :=
  match o with Some t => b2z (counted_inflight t) | None => 0 end.

(** ** Program order: nothing is behind a misprediction but wrong-path fetches *)

(** [y]: the instructions before execute, oldest first. *)
Definition path_ok (wp flushed : bool) (y : list Transaction) : Prop :=
  if wp then
    if flushed then y = []
    else ∃ pre x post, y = pre ++ x :: post ∧ Forall clean pre ∧ mispredicted x ∧ Forall wrong post
  else flushed = false ∧ Forall clean y.

(** Transactions that differ in what the path does not depend on. *)
Definition same_path (t t' : Transaction) : Prop :=
  is_wrong_path t' = is_wrong_path t ∧ counted_inflight t' = counted_inflight t ∧
  br_mispred t' = br_mispred t ∧ trace_inst t' = trace_inst t ∧ br_pred t' = br_pred t.

Lemma same_path_refl l : Forall2 same_path l l.
Proof. by apply Forall_Forall2_diag, Forall_true. Qed.

Lemma same_path_clean t t' : same_path t t' → clean t → clean t'.
Proof. intros (H1 & H2 & H3 & _) (? & ? & ?). unfold clean. by rewrite H1, H2, H3. Qed.
Lemma same_path_wrong t t' : same_path t t' → wrong t → wrong t'.
Proof. intros (H1 & H2 & H3 & _) (? & ? & ?). unfold wrong. by rewrite H1, H2, H3. Qed.
Lemma same_path_mis t t' : same_path t t' → mispredicted t → mispredicted t'.
Proof. intros (H1 & H2 & H3 & H4 & _) (? & ? & ? & ?). unfold mispredicted. by rewrite H1, H2, H3, H4. Qed.

Lemma Forall_same (Q : Transaction → Prop) l l' : (∀ t t', same_path t t' → Q t → Q t') →
  Forall2 same_path l l' → Forall Q l → Forall Q l'.
Proof.
  intros HQ. induction 1 as [|t t' l l' Ht _ IH]; [done|]. intros [H1 H2]%Forall_cons_iff.
  apply Forall_cons_iff. split; [by eapply HQ | by apply IH].
Qed.

Lemma path_same wp fl y y' : Forall2 same_path y y' → path_ok wp fl y → path_ok wp fl y'.
Proof.
  intros Hs. unfold path_ok. destruct wp; [destruct fl|].
  - intros ->. by apply Forall2_nil_inv_l in Hs.
  - intros (pre & x & post & -> & H1 & H2 & H3).
    apply Forall2_app_inv_l in Hs as (pre' & r & Hp & Hr & ->).
    apply Forall2_cons_inv_l in Hr as (x' & post' & Hx & Hpost & ->).
    exists pre', x', post'. split; [done|]. split; [by eapply Forall_same; [apply same_path_clean|..]|].
    split; [by eapply same_path_mis | by eapply Forall_same; [apply same_path_wrong|..]].
  - intros [Hf Hc]. split; [done|]. by eapply Forall_same; [apply same_path_clean|..].
Qed.

(** The oldest instruction leaves. *)
Lemma path_drop wp fl t y : path_ok wp fl (t :: y) → br_mispred t = false → path_ok wp fl y.
Proof.
  unfold path_ok. destruct wp; [destruct fl|]; [done | |].
  - intros (pre & x & post & E & H1 & H2 & H3) Hm. destruct pre as [|t' pre]; simpl in E; injection E as -> ->.
    + destruct H2 as (_ & _ & ? & _). congruence.
    + apply Forall_cons_iff in H1 as [_ H1]. by exists pre, x, post.
  - intros [Hf [_ Hc]%Forall_cons_iff] _. done.
Qed.

(** A mispredicted instruction in front has only wrong-path fetches behind it. *)
Lemma path_mis wp fl t y : path_ok wp fl (t :: y) → br_mispred t = true → wp = true ∧ fl = false ∧ Forall wrong y.
Proof.
  unfold path_ok. destruct wp; [destruct fl|]; [done | |].
  - intros (pre & x & post & E & H1 & H2 & H3) Hm. destruct pre as [|t' pre]; simpl in E; injection E as -> ->; [done|].
    apply Forall_cons_iff in H1 as [(_ & _ & ?) _]. congruence.
  - intros [Hf [(_ & _ & ?) _]%Forall_cons_iff] ?. congruence.
Qed.

(** The instruction in front is on the correct path. *)
Lemma path_head wp fl t y : path_ok wp fl (t :: y) → is_wrong_path t = false ∧ counted_inflight t = true.
Proof.
  unfold path_ok. destruct wp; [destruct fl|]; [done | |].
  - intros (pre & x & post & E & H1 & H2 & H3). destruct pre as [|t' pre]; simpl in E; injection E as -> ->.
    + by destruct H2 as (? & ? & _).
    + by apply Forall_cons_iff in H1 as [(? & ? & _) _].
  - by intros [_ [(? & ? & _) _]%Forall_cons_iff].
Qed.

(** A wrong-path fetch joins. *)
Lemma path_push_wrong y t : path_ok true false y → wrong t → path_ok true false (y ++ [t]).
Proof.
  intros (pre & x & post & -> & H1 & H2 & H3) Ht. exists pre, x, (post ++ [t]). rewrite <- app_assoc.
  split; [done|]. split; [done|]. split; [done|]. apply Forall_app. split; [done | by apply Forall_singleton].
Qed.

(** A real fetch joins: it stays on the path, or is the misprediction. *)
Lemma path_push_real y t : path_ok false false y → clean t ∨ mispredicted t → path_ok (br_mispred t) false (y ++ [t]).
Proof.
  intros [_ Hc] [Ht|Ht].
  - destruct Ht as (H1 & H2 & H3). rewrite H3. split; [done|]. apply Forall_app. split; [done|].
    by apply Forall_singleton.
  - pose proof Ht as (_ & _ & E & _). rewrite E. by exists y, t, [].
Qed.

Lemma wrong_uncounted y : Forall wrong y → countb counted_inflight y = 0.
Proof. induction 1 as [|t y (_ & E & _) _ IH]; simpl; [done|]. by rewrite E, IH. Qed.

(** ** Stall attribution *)

(** Every cycle up to [last_tick] is in exactly one category, and [nostall]
    counts the commits.  [b]: the core has committed in this tick. *)
Definition stall_inv (b : bool) (now : Z) (st : PipelineStats) (sl : StallAttr) : Prop :=
  u64 (nostall st + noinst st + lsu_stall st + brmiss_stall st + raw_stall st) =
    u64 (last_tick sl - reset_tick sl) ∧
  last_tick sl <= now + b2z b ∧ nostall st = insts st.

Section forms.
Context {P : Type}.
Implicit Types (p : Pipeline P).

Lemma flush_form b now p : stall_inv b now (stats p) (stall_ p) →
  ∃ st sl, flush_stall_cycles now p = p <| stats := st |> <| stall_ := sl |> ∧
    stall_inv b now st sl ∧ insts st = insts (stats p) ∧ now <= last_tick sl ∧
    (last_tick (stall_ p) <= now → last_tick sl = now) ∧ reset_tick sl = reset_tick (stall_ p).
Proof.
  intros (Hs & Hl & Hn). unfold flush_stall_cycles. destruct (Z.leb_spec now (last_tick (stall_ p))).
  { exists (stats p), (stall_ p). split; [by destruct p|]. split; [done|]. split; [done|]. split; [done|].
    split; [lia | done]. }
  assert (0 <= b2z b) by (by destruct b). cbv zeta.
  generalize (in_br_recovery (stall_ p) && negb (bool_decide (cause (stall_ p) = NoStall))). intros g.
  destruct p as [st bp nc dr ib sp rr su oi cn [lt rt ca br] fq fe mt ml mu dv].
  destruct st as [a1 a2 a3 a4 a5 a6 a7 a8 a9 a10 a11]. cbn -[u64 b2z Z.add Z.sub] in *.
  destruct g, ca; cbn -[u64 b2z Z.add Z.sub]; (eexists _, _; split; [reflexivity|]);
    unfold stall_inv; cbn -[u64 b2z Z.add Z.sub];
    (split; [split; [u64_solve | split; [lia | done]]|]); (split; [done|]); (split; [lia | done]).
Qed.

Lemma set_stall_form b now c p : stall_inv b now (stats p) (stall_ p) →
  ∃ st sl, set_stall now c p = p <| stats := st |> <| stall_ := sl |> ∧
    stall_inv b now st sl ∧ insts st = insts (stats p) ∧ reset_tick sl = reset_tick (stall_ p).
Proof.
  intros Hs. unfold set_stall. destruct (decide _).
  { exists (stats p), (stall_ p). split; [by destruct p|]. done. }
  destruct (flush_form b now p Hs) as (st & sl & -> & Hs' & Hi & _ & _ & Hr).
  eexists st, _. split; [reflexivity|]. done.
Qed.
End forms.

(** ** The invariant *)

Definition regs_ok (l : list Z) : Prop := zlen l = 32 ∧ vec_at l 0 = Ok 0.

Lemma regs_get l r : regs_ok l → 0 <= r < 32 → ∃ v, vec_at l r = Ok v.
Proof. intros [Hl _] Hr. apply vec_at_lt. by rewrite Hl. Qed.

Lemma regs_set l r v : regs_ok l → 0 <= r < 32 → r ≠ 0 → ∃ l', vec_set l r v = Ok l' ∧ regs_ok l'.
Proof.
  intros [Hl H0] Hr Hne. rewrite vec_set_lt by (by rewrite Hl). eexists. split; [done|]. split; [by rewrite zlen_insert|].
  rewrite vec_at_set_ne by lia. done.
Qed.

Section rules.
Context {P : Type}.

(** [wp] of a change of the core. *)
Lemma wp_upd {E} (f : Pipeline P → res (Pipeline P)) Q (s : Pipeline P * E) :
  wp (upd f) Q s ↔ ∃ p', f s.1 = Ok p' ∧ Q tt (p', s.2).
Proof.
  unfold upd. rewrite wp_update_self. split.
  - intros ([] & p' & Hf & HQ). exists p'. destruct (f s.1); [|done]. by injection Hf as ->.
  - intros (p' & -> & HQ). by exists tt, p'.
Qed.

Lemma wp_now_ Q (s : Pipeline P * Ports) : wp now_ Q s ↔ Q (t_now s.2) s.
Proof. done. Qed.

Lemma wp_deref {E A} (o : option A) a Q (s : Pipeline P * E) : o = Some a → Q a s → wp (deref o) Q s.
Proof. by intros ->. Qed.

Lemma wp_call_bpu {E A} (f : BU.BranchUnit P → res (A * BU.BranchUnit P)) Q (s : Pipeline P * E) :
  wp (call_bpu f) Q s ↔ ∃ a b, f (bpu s.1) = Ok (a, b) ∧ Q a (s.1 <| bpu := b |>, s.2).
Proof.
  unfold call_bpu. rewrite wp_update_self. split.
  - intros (a & p' & Hf & HQ). destruct (f (bpu s.1)) as [[a' b]|]; [|done]. injection Hf as -> <-. by exists a, b.
  - intros (a & b & -> & HQ). by exists a, (s.1 <| bpu := b |>).
Qed.
End rules.

(** [pstep]: the [wp] rules, with the core's own. *)
Ltac pstep := repeat first [progress wp_step | rewrite wp_now_ | rewrite wp_upd]; cbn [fst snd].

Section safety.
Context {P : Type} `{DirPredictor P} (binv : P → Prop) `{!DirPredictorLaws P binv} (k w : Z).
Implicit Types (p : Pipeline P) (h : Ports) (l : list Transaction).

(** Instructions before execute, oldest first; [l] is the fetch queue. *)
Definition young l p : list Transaction := option_list (slot Decode p) ++ option_list (slot Fetch p) ++ l.

(** Real instructions anywhere in the machine. *)
Definition total l p : Z :=
  counted (input_buffer_ p) + counted (slot Decode p) + counted (slot Fetch p) + countb counted_inflight l +
  counted (slot Execute p) + counted (slot IntMulExt p) + counted (slot IntDivExt p) + counted (slot Memory p).

Definition slot_ok (s : PipeStage) (t : Transaction) : Prop :=
  trans_ok t ∧ (s ≠ Execute → wait_mem t = false) ∧ (s ≠ Fetch → counted_inflight t = true).

(** [bw]: the core may have committed in this tick; [bd]: decode may be scheduled
    for the next one. *)
Record core (bw bd : bool) l p h : Prop := {
  c_q : IFQ.holds l (fetch_queue_ p);
  c_bu : BU.wf binv k w (bpu p);
  c_regs : regs_ok (reg_ready_ p);
  c_tick : 0 <= t_now h ∧ t_now h + 40 < InfTime;
  c_stall : stall_inv bw (t_now h) (stats p) (stall_ p);
  c_nc : has_dmem_nc p = true;
  c_dec : slot Decode p ≠ None → get Decode (stage_update_ p) <= t_now h + b2z bd;
  c_wb : slot WriteBack p = None;
  c_slots s t : slot s p = Some t → slot_ok s t;
  c_queue : Forall trans_ok l;
  c_input t : input_buffer_ p = Some t → ∃ i, t = make_trans i false false ∧ fed_ok i;
  c_orph : zlen (resp_is_orphan (fetch_ p)) = t_fetches h ∧
    countb negb (resp_is_orphan (fetch_ p)) = countb wait_mem l;
  c_lsu : match slot Execute p with
    | Some t => wait_mem t = present (t_lsu h) ∧ (wait_mem t = true → slot Memory p = None)
    | None => t_lsu h = None
    end;
  c_path : path_ok (wrong_path (fetch_ p)) (wp_flushed (fetch_ p)) (young l p);
  c_ongoing : ongoing_insts_ p = u64 (total l p);
  c_wpc : word_ok (wrong_path_pc (fetch_ p)) ∧ word_ok (wp_redirect_target_s1 (fetch_ p)) ∧
    word_ok (wp_redirect_target_s2 (fetch_ p));
  c_fed : u64 (t_past h + insts (stats p) + ongoing_insts_ p) = u64 (t_fed h)
}.

Lemma core_weaken bw bd l p h : core bw bd l p h → core true true l p h.
Proof.
  intros []. constructor; try done.
  - destruct c_stall0 as (? & ? & ?). split; [done|]. split; [destruct bw; simpl in *; lia | done].
  - intros Hd. specialize (c_dec0 Hd). destruct bd; simpl in *; lia.
Qed.

Lemma soon now n : 0 <= now → now + 40 < InfTime → 0 <= n <= 34 → u64 (now + n) = now + n.
Proof. intros. apply u64_small. unfold InfTime in *. lia. Qed.

Lemma schedule_Ok now s t p : now <= t → schedule now s t p = Ok (p <| stage_update_ ::= put s t |>).
Proof. intros Ht. unfold schedule. by rewrite (proj2 (Z.leb_le _ _) Ht). Qed.

Lemma async_Ok now s t p : now <= t →
  async_schedule now s t p = Ok (p <| stage_update_ ::= put s t |> <| calc_nxtupd_ ::= (λ c, Z.min c t) |>).
Proof. intros Ht. unfold async_schedule. by rewrite schedule_Ok. Qed.

Lemma src_ready_Ok p i : regs_ok (reg_ready_ p) → fed_ok i → ∃ r, src_ready p i = Ok r.
Proof.
  intros Hr (_ & _ & H1 & H2 & _). unfold src_ready.
  destruct (regs_get _ _ Hr H1) as [a ->], (regs_get _ _ Hr H2) as [b ->]. cbn [mbind res_bind]. eauto.
Qed.

(** Setting a register's ready time can only reschedule a decode stage that waits. *)
Lemma update_reg_time_Ok now rd t p : regs_ok (reg_ready_ p) → 0 <= rd < 32 → 0 <= now → now + 40 < InfTime →
  (∀ x, slot Fetch p = Some x → trans_ok x) →
  ∃ rr v, update_reg_time now rd t p = Ok (p <| reg_ready_ := rr |> <| stage_update_ ::= put Decode v |>) ∧
    regs_ok rr ∧ (v = get Decode (stage_update_ p) ∨ get Decode (stage_update_ p) = InfTime).
Proof.
  intros Hr Hrd Hn0 Hn Hf. unfold update_reg_time.
  assert (∃ rr, (if rd =? 0 then mret p else l ← vec_set (reg_ready_ p) rd t; mret (p <| reg_ready_ := l |>)) =
    Ok (p <| reg_ready_ := rr |>) ∧ regs_ok rr) as (rr & -> & Hrr).
  { destruct (Z.eqb_spec rd 0); [exists (reg_ready_ p); split; [by destruct p | done]|].
    destruct (regs_set _ rd t Hr Hrd) as (l' & -> & ?); [done|]. by exists l'. }
  cbn [mbind res_bind]. set (p1 := p <| reg_ready_ := rr |>).
  assert (∃ v, match slot Fetch p1 with
      | Some ids =>
        if (get Decode (stage_update_ p1) =? InfTime) &&
           (negb (src_reg0 (trace_inst ids) =? 0) || negb (src_reg1 (trace_inst ids) =? 0)) then
          ready ← src_ready p1 (trace_inst ids);
          if ready <=? now then schedule now Decode (u64 (now + 1)) p1 else schedule now Decode ready p1
        else mret p1
      | None => mret p1
      end = Ok (p1 <| stage_update_ ::= put Decode v |>) ∧
      (v = get Decode (stage_update_ p) ∨ get Decode (stage_update_ p) = InfTime)) as (v & Hv & Hd).
  { assert (Ok p1 = Ok (p1 <| stage_update_ ::= put Decode (get Decode (stage_update_ p)) |>)) as Hsame
      by (unfold p1; destruct p as [??????? [] ?????????]; done).
    destruct (slot Fetch p1) as [x|] eqn:Ex; [|eexists; split; [exact Hsame | by left]].
    destruct (Z.eqb_spec (get Decode (stage_update_ p1)) InfTime) as [Hi|]; simpl;
      [|eexists; split; [exact Hsame | by left]].
    destruct (_ || _); [|eexists; split; [exact Hsame | by left]].
    destruct (src_ready_Ok p1 (trace_inst x)) as [r ->]; [exact Hrr | by apply Hf |]. cbn [mbind res_bind].
    destruct (Z.leb_spec r now).
    - rewrite (soon now 1) by lia. rewrite schedule_Ok by lia. eexists. split; [done|]. by right.
    - rewrite schedule_Ok by lia. eexists. split; [done|]. by right. }
  rewrite Hv. cbn [mbind res_bind]. cbn [reg_ready_]. change (reg_ready_ (p1 <| stage_update_ ::= put Decode v |>)) with rr.
  destruct Hrr as [Hrl Hr0]. rewrite Hr0. cbn [mbind res_bind]. rewrite Z.eqb_refl. cbn [assert_ mbind res_bind].
  by exists rr, v.
Qed.


(** *** Write-back *)

Lemma counted_slot s t p : slot s p = Some t → slot_ok s t → s ≠ Fetch → counted (slot s p) = 1.
Proof. intros E (_ & _ & Hc) Hne. rewrite E. simpl. by rewrite Hc. Qed.

Lemma total_ext l p p' : sim_pipe_ p' = sim_pipe_ p → input_buffer_ p' = input_buffer_ p → total l p' = total l p.
Proof. intros E1 E2. unfold total, slot. by rewrite E1, E2. Qed.

Lemma commit_core l p h s t : core false false l p h → slot s p = Some t →
  s = Memory ∨ s = IntDivExt ∨ s = IntMulExt →
  core true false l (commit (t_now h) s t p) h.
Proof.
  intros Hc Hs Hsrc. pose proof Hc as [Hq Hbu Hreg Ht Hst Hnc Hd Hwb Hsl Hqu Hin Horph Hlsu Hpath Hon Hwpc Hfed].
  set (p0 := p <| ongoing_insts_ ::= (λ n, u64 (n - 1)) |>).
  destruct (flush_form false (t_now h) p0 Hst) as (st & sl & Hf & (Hs1 & Hs2 & Hs3) & Hi & Hge & Hle & Hr).
  assert (counted (slot s p) = 1) as Hone by (apply (counted_slot s t p Hs); [by apply Hsl | by destruct Hsrc as [-> | [-> | ->]]]).
  unfold commit. cbv zeta. fold p0. rewrite Hf.
  assert (last_tick sl = t_now h) as Elast by (apply Hle; destruct Hst as (_ & ? & _); simpl in *; lia).
  set (c := if br_mispred t then BrMispred else _).
  assert (total l p = total l (set_slot s None p) + 1) as Htot.
  { unfold total. destruct Hsrc as [-> | [-> | ->]]; simpl in *; lia. }
  constructor; try done.
  - simpl. unfold stall_inv. simpl. rewrite (soon (t_now h) 1) by lia. split; [|split; [lia|]].
    + rewrite Elast in Hs1. unfold incr. u64_solve.
    + by rewrite Hs3.
  - by destruct Hsrc as [-> | [-> | ->]].
  - by destruct Hsrc as [-> | [-> | ->]].
  - intros s' t' Hs'. apply Hsl. by destruct Hsrc as [-> | [-> | ->]], s'.
  - destruct Hsrc as [-> | [-> | ->]]; unfold slot in *; simpl in *; try exact Hlsu.
    destruct (at_X (sim_pipe_ p)) as [x|]; [|exact Hlsu]. destruct Hlsu as [H1 _]. by split.
  - by destruct Hsrc as [-> | [-> | ->]].
  - match goal with |- ongoing_insts_ ?q = u64 (total l ?q) =>
      assert (ongoing_insts_ q = u64 (ongoing_insts_ p - 1)) as -> by done;
      rewrite (total_ext l (set_slot s None p) q) by done end.
    rewrite Hon, Htot. u64_solve.
  - simpl. rewrite Hi. change (insts (stats p0)) with (insts (stats p)). clear -Hfed. u64_solve.
Qed.

(** A change of the schedule other than decode's. *)
Lemma core_sched bw bd l p h s t : core bw bd l p h → s ≠ Decode → core bw bd l (p <| stage_update_ ::= put s t |>) h.
Proof. intros [] Hs. constructor; try done. by destruct s. Qed.

Lemma commit_source_spec now p s : commit_source now p = Some s →
  (s = Memory ∨ s = IntDivExt ∨ s = IntMulExt) ∧ ∃ t, slot s p = Some t.
Proof.
  unfold commit_source. destruct (slot Memory p) eqn:E1; [intros [= <-]; eauto|].
  destruct (slot Execute p), (slot IntDivExt p) eqn:E2, (slot IntMulExt p) eqn:E3, (div_ready_tick_ p <=? now),
    (mul_ready_tick_ p <=? now); simpl; intros [= <-]; eauto.
Qed.

Lemma writeback_wp l p h : core false false l p h →
  wp do_writeback (λ _ s', core true false l s'.1 s'.2) (p, h).
Proof.
  intros Hc. pose proof (c_tick _ _ _ _ _ Hc). unfold do_writeback. pstep.
  destruct (commit_source (t_now h) p) as [s|] eqn:Es.
  - destruct (commit_source_spec _ _ _ Es) as (Hs & t & Ht).
    pstep. apply (wp_deref _ t); [exact Ht|]. pstep.
    rewrite (soon (t_now h) 1) by lia. rewrite schedule_Ok by lia. eexists. split; [done|]. cbn [fst snd].
    apply core_sched; [by apply commit_core | done].
  - pstep. rewrite (soon (t_now h) 1) by lia. rewrite schedule_Ok by lia. eexists. split; [done|].
    cbn [fst snd]. apply core_sched; [|done]. destruct Hc. constructor; try done.
    destruct c_stall0 as (? & ? & ?). split; [done|]. split; [simpl in *; lia | done].
Qed.

(** *** Memory *)

Lemma core_stall bw bd l p h c : core bw bd l p h → core bw bd l (set_stall (t_now h) c p) h.
Proof.
  intros []. destruct (set_stall_form bw (t_now h) c p c_stall0) as (st & sl & -> & Hst & Hi & _).
  constructor; try done. simpl. by rewrite Hi.
Qed.

Lemma set_stall_frame now c p : sim_pipe_ (set_stall now c p) = sim_pipe_ p ∧
  stage_update_ (set_stall now c p) = stage_update_ p ∧ reg_ready_ (set_stall now c p) = reg_ready_ p ∧
  fetch_queue_ (set_stall now c p) = fetch_queue_ p ∧ fetch_ (set_stall now c p) = fetch_ p ∧
  mul_ready_tick_ (set_stall now c p) = mul_ready_tick_ p ∧ div_ready_tick_ (set_stall now c p) = div_ready_tick_ p.
Proof.
  unfold set_stall, flush_stall_cycles. destruct (decide _); [done|]. cbv zeta.
  destruct (_ <=? _); [done|]. destruct (in_br_recovery (stall_ p) && negb (bool_decide (cause (stall_ p) = NoStall))); [done|].
  by destruct (cause (stall_ p)).
Qed.

(** A load or store is sent. *)
Lemma core_send bw bd l p h t x d : core bw bd l p h → slot Execute p = Some t → slot Memory p = None →
  core bw bd l (set_wait true p) (h <| t_lsu := Some x |> <| t_drdy := d |>).
Proof.
  intros [] Hx Hm. unfold set_wait, modify_slot. rewrite Hx. constructor; try done.
  - intros s t' Hs. destruct s; try by apply c_slots0. simpl in Hs. injection Hs as <-.
    destruct (c_slots0 _ _ Hx) as (H1 & _ & H3). by repeat split; try apply H1.
  - simpl. rewrite c_ongoing0. f_equal. unfold total, slot in *. simpl in Hx |- *. by rewrite Hx.
Qed.

Lemma send_lsu_wp bw bd l p h t po a d m (b : bool) : core bw bd l p h → slot Execute p = Some t →
  slot Memory p = None → wait_mem t = false →
  wp (send_lsu_req po a d m b) (λ _ s', core bw bd l s'.1 s'.2 ∧ t_now s'.2 = t_now h) (p, h).
Proof.
  intros Hc Hx Hm Hw. pose proof (c_tick _ _ _ _ _ Hc). unfold send_lsu_req. pstep.
  change (lsu_ready po h) with (t_drdy h po). destruct (t_drdy h po) as [rd wr] eqn:Edr. pstep.
  rewrite schedule_Ok by lia. eexists. split; [done|]. pstep.
  set (p1 := p <| stage_update_ ::= put Memory InfTime |>).
  assert (core bw bd l p1 h) as Hc1 by (by apply core_sched).
  assert (t_lsu h = None) as Hl.
  { pose proof (c_lsu _ _ _ _ _ Hc) as Hl. rewrite Hx, Hw in Hl. by destruct (t_lsu h), Hl. }
  destruct (if b then wr else rd) eqn:Er; [|done]. pstep. cbn [fst snd].
  assert (∀ mo, (if is_Read mo then rd else wr) = true →
    wp (lsu_request po mo) (λ _ e, core bw bd l (set_wait true p1) e ∧ t_now e = t_now h) h) as Hreq.
  { intros mo Hr. unfold wp, lsu_request. rewrite Hl, Edr. destruct mo; simpl in Hr; rewrite Hr;
      (split; [by apply (core_send bw bd l p1 h t) | done]). }
  destruct b; pstep; (eapply wp_mono; [by apply Hreq|]); intros [] e He; exact He.
Qed.

Lemma core_to_memory bw bd l p h t : core bw bd l p h → slot Execute p = Some t → slot Memory p = None →
  wait_mem t = false → core bw bd l (move_to_memory p) h.
Proof.
  intros [] Hx Hm Hw. destruct (c_slots0 _ _ Hx) as (H1 & _ & H3). rewrite Hx in c_lsu0.
  unfold move_to_memory. rewrite Hx. constructor; try done.
  - intros s t' Hs. destruct s; try by apply c_slots0. simpl in Hs. injection Hs as <-.
    split; [done|]. split; [done|]. intros _. by apply H3.
  - simpl. destruct c_lsu0 as [E _]. rewrite Hw in E. by destruct (t_lsu h).
  - simpl. rewrite c_ongoing0. f_equal. unfold total, slot in *. simpl in Hx, Hm |- *. rewrite Hx, Hm. simpl. lia.
Qed.

Lemma memory_wp bw bd l p h t : core bw bd l p h → slot Execute p = Some t → slot Memory p = None →
  wp do_memory (λ _ s', core bw bd l s'.1 s'.2 ∧ t_now s'.2 = t_now h) (p, h).
Proof.
  intros Hc Hx Hm. pose proof (c_tick _ _ _ _ _ Hc). pose proof (c_nc _ _ _ _ _ Hc) as Hnc.
  unfold do_memory. pstep. rewrite Hx. split; [done|]. pstep. apply (wp_deref _ t); [done|].
  rewrite Hnc. rewrite andb_false_r. destruct (wait_mem t) eqn:Hw.
  { pstep. rewrite schedule_Ok by lia. eexists. split; [done|]. split; [by apply core_sched | done]. }
  set (p1 := set_stall (t_now h) LsuStall p).
  destruct (set_stall_frame (t_now h) LsuStall p) as (E1 & _).
  assert (slot Execute p1 = Some t ∧ slot Memory p1 = None) as [Hx1 Hm1] by (unfold slot, p1 in *; by rewrite E1).
  assert (core bw bd l p1 h) as Hc1 by (by apply core_stall).
  destruct (mem_op (trace_inst t) =? MemLoad) eqn:El; [|destruct (mem_op (trace_inst t) =? MemStore) eqn:Est].
  - pstep. fold p1. by apply (send_lsu_wp bw bd l p1 h t).
  - pstep. fold p1. eapply wp_mono; [by apply (send_lsu_wp bw bd l p1 h t)|].
    intros [] [p2 h2] [Hc2 Ht2]. cbn [fst snd] in *. pstep.
    rewrite schedule_Ok by lia. eexists. split; [done|]. split; [by apply core_sched | done].
  - pstep. rewrite (soon (t_now h) 1) by lia. rewrite schedule_Ok by lia. eexists. split; [done|]. pstep.
    split; [|done]. apply (core_to_memory _ _ _ _ _ t); [by apply core_sched | done | done | done].
Qed.

(** *** Execute, multiply and divide *)

(** What decode hands over: [t] leaves for the slot [s]. *)
Definition hand_over (s : PipeStage) (p : Pipeline P) : Pipeline P :=
  set_slot Decode None (set_slot s (slot Decode p) p).

Lemma core_reg_time bw bd l p h now rd t p' : core bw bd l p h → t_now h = now →
  update_reg_time now rd t p = Ok p' → 0 <= rd < 32 → core bw bd l p' h.
Proof.
  intros Hc <- Hu Hrd. pose proof (c_tick _ _ _ _ _ Hc) as Ht.
  destruct (update_reg_time_Ok (t_now h) rd t p) as (rr & v & E & Hrr & Hv);
    [apply Hc | done | lia | lia | intros x Hx; by apply (c_slots _ _ _ _ _ Hc Fetch) |].
  rewrite E in Hu. injection Hu as <-. destruct Hc. constructor; try done.
  simpl. intros Hd. specialize (c_dec0 Hd). simpl in *. destruct Hv as [->| Hv]; [done|].
  rewrite Hv in c_dec0. destruct bd; simpl in *; lia.
Qed.

Lemma core_hand_over bw l p h s t : core bw false l p h → slot Decode p = Some t → slot s p = None →
  s = Execute ∨ s = IntMulExt ∨ s = IntDivExt → br_mispred t = false → core bw false l (hand_over s p) h.
Proof.
  intros Hc Hd Hs Hcase Hm. pose proof Hc as [].
  destruct (c_slots0 _ _ Hd) as (H1 & H2 & H3). unfold hand_over. rewrite Hd.
  assert (path_ok (wrong_path (fetch_ p)) (wp_flushed (fetch_ p)) (option_list (slot Fetch p) ++ l)) as Hp.
  { unfold young in c_path0. rewrite Hd in c_path0. by apply (path_drop _ _ t). }
  assert (total l (set_slot Decode None (set_slot s (Some t) p)) = total l p) as Htot.
  { unfold total, slot in *. destruct Hcase as [-> | [-> | ->]]; simpl in Hd, Hs |- *; rewrite Hd, Hs; simpl; lia. }
  constructor; try done; try (destruct Hcase as [-> | [-> | ->]]; done).
  - intros s' t' Hs'. destruct (decide (s' = s)) as [->|Hne].
    + assert (t' = t) as -> by (destruct Hcase as [-> | [-> | ->]]; simpl in Hs'; congruence).
      split; [done|]. split; [intros _; by apply H2 | intros _; by apply H3].
    + apply c_slots0. destruct Hcase as [-> | [-> | ->]], s'; simpl in *; try done.
  - destruct Hcase as [-> | [-> | ->]]; simpl; try done. rewrite Hs in c_lsu0. rewrite c_lsu0.
    split; [by apply H2|]. intros Hw. by rewrite H2 in Hw.
  - change (ongoing_insts_ p = u64 (total l (set_slot Decode None (set_slot s (Some t) p)))). by rewrite Htot.
Qed.

Lemma flush_false_nop now t Q (s : Pipeline P * Ports) : trans_ok t → Q tt s → wp (flush_false_btb_hit now t) Q s.
Proof.
  intros (_ & _ & Hn) HQ. unfold flush_false_btb_hit. destruct (is_branch (trace_inst t)) eqn:Eb; [done|].
  destruct (Hn eq_refl) as [-> ->]. by pstep.
Qed.

Lemma assert_decoded_wp bw l p h t Q : core bw false l p h → slot Decode p = Some t → Q tt (p, h) →
  wp (assert_decoded (t_now h)) Q (p, h).
Proof.
  intros Hc Hd HQ. unfold assert_decoded. pstep. split; [|done]. apply Z.leb_le.
  pose proof (c_dec _ _ _ _ _ Hc) as Hs. rewrite Hd in Hs. specialize (Hs ltac:(done)). simpl in *. lia.
Qed.

Lemma issue_mext_wp bw l p h t s lat f : core bw false l p h → slot Decode p = Some t → slot s p = None →
  s = IntMulExt ∨ s = IntDivExt → ext_op (trace_inst t) ≠ ExtNone → 0 <= lat <= 34 →
  core bw false l (f p) h → sim_pipe_ (f p) = sim_pipe_ p →
  wp (issue_mext (t_now h) lat s t f) (λ _ s', core bw false l s'.1 s'.2 ∧ t_now s'.2 = t_now h) (p, h).
Proof.
  intros Hc Hd Hs Hcase Hext Hlat Hcf Ef. destruct (c_slots _ _ _ _ _ Hc _ _ Hd) as (Hok & _ & _).
  pose proof (c_tick _ _ _ _ _ Hc) as Ht. pose proof Hok as ((_ & Hrd & _ & _ & Hbr) & _ & Hnb).
  unfold issue_mext. rewrite wp_bind. apply flush_false_nop; [done|]. pstep.
  rewrite (soon (t_now h) lat) by lia.
  destruct (update_reg_time_Ok (t_now h) (dst_reg (trace_inst t)) (t_now h + lat) (f p))
    as (rr & v & E & _); [apply Hcf | done | lia | lia | intros x Hx; by apply (c_slots _ _ _ _ _ Hcf Fetch) |].
  eexists. split; [exact E|]. pstep. set (p2 := f p <| reg_ready_ := rr |> <| stage_update_ ::= put Decode v |>) in *.
  assert (core bw false l p2 h) as Hc2 by (by eapply core_reg_time).
  rewrite schedule_Ok by lia. eexists. split; [done|]. pstep. rewrite async_Ok by lia. eexists. split; [done|]. pstep.
  split; [|done]. apply (core_hand_over bw l (p2 <| stage_update_ ::= put s (t_now h + lat) |>
    <| stage_update_ ::= put WriteBack (t_now h + lat) |> <| calc_nxtupd_ ::= (λ c, Z.min c (t_now h + lat)) |>) h s t).
  - assert (core bw false l (p2 <| stage_update_ ::= put s (t_now h + lat) |>
      <| stage_update_ ::= put WriteBack (t_now h + lat) |>) h) as Hc3.
    { apply core_sched; [|done]. apply core_sched; [done|]. by destruct Hcase as [-> | ->]. }
    destruct Hc3. by constructor.
  - unfold slot in *. simpl. by rewrite Ef.
  - unfold slot in *. simpl. by rewrite Ef.
  - destruct Hcase; auto.
  - apply Hnb. destruct (is_branch (trace_inst t)); [|done]. by destruct Hext; apply Hbr.
Qed.

Lemma mul_wp bw l p h t : core bw false l p h → slot Decode p = Some t → slot IntMulExt p = None →
  wp do_mul_ext (λ _ s', core bw false l s'.1 s'.2 ∧ t_now s'.2 = t_now h) (p, h).
Proof.
  intros Hc Hd Hs. unfold do_mul_ext. pstep. apply (assert_decoded_wp bw l p h t); [done | done |]. pstep.
  apply (wp_deref _ t); [done|]. destruct (_ || _) eqn:Eop; [|by pstep].
  apply issue_mext_wp; try done; [by left | | by destruct Hc; constructor].
  intros E. rewrite E in Eop. by vm_compute in Eop.
Qed.

Lemma div_wp bw l p h t : core bw false l p h → slot Decode p = Some t → slot IntDivExt p = None →
  wp do_div_ext (λ _ s', core bw false l s'.1 s'.2 ∧ t_now s'.2 = t_now h) (p, h).
Proof.
  intros Hc Hd Hs. unfold do_div_ext. pstep. apply (assert_decoded_wp bw l p h t); [done | done |]. pstep.
  apply (wp_deref _ t); [done|]. destruct (_ || _) eqn:Eop; [|by pstep].
  apply issue_mext_wp; try done; [by right | | by destruct Hc; constructor].
  intros E. rewrite E in Eop. by vm_compute in Eop.
Qed.

(** The flush takes nothing off the correct path: with a misprediction in the
    decode slot everything younger is a wrong-path fetch. *)
Lemma uncount_nothing l p : IFQ.holds l (fetch_queue_ p) → Forall wrong l → uncount_queue p = Ok p.
Proof.
  intros Hq Hl. unfold uncount_queue. rewrite (IFQ.entries_spec _ _ Hq). cbn [mbind res_bind].
  assert (∀ n, fold_left (λ n e, match e with Some t => if counted_inflight t then u64 (n - 1) else n | None => n end)
    (Some <$> l) n = n) as E.
  { clear Hq. induction Hl as [|t l (_ & Ec & _) _ IH]; intros n; simpl; [done|]. rewrite Ec. apply IH. }
  assert (p = p <| ongoing_insts_ ::= (λ n, n) |>) as Hp by (by destruct p).
  rewrite Hp at 2. unfold over. simpl. do 2 f_equal. apply E.
Qed.

Lemma flush_core bw l p h t : core bw false l p h → slot Decode p = Some t → slot Execute p = None →
  br_mispred t = true →
  ∃ p', flush_frontend (t_now h) p = Ok p' ∧ core bw false [] (hand_over Execute p') h ∧
    sim_pipe_ p' = put Fetch None (sim_pipe_ p).
Proof.
  intros Hc Hd Hx Hm. pose proof Hc as [].
  destruct (c_slots0 _ _ Hd) as (Hok & Hnw & Hcnt).
  unfold young in c_path0. rewrite Hd in c_path0. destruct (path_mis _ _ _ _ c_path0 Hm) as (Hwp & Hfl & Hwr).
  apply Forall_app in Hwr as [HwF Hwl].
  unfold flush_frontend. set (p1 := p <| fetch_ ::= _ |>).
  rewrite (uncount_nothing l p1) by done. cbn [mbind res_bind].
  destruct (IFQ.clear_spec l (fetch_queue_ p1)) as (q & -> & Hq & _); [done|]. cbn [mbind res_bind].
  set (p2 := p1 <| fetch_queue_ := q |>).
  assert (∃ p3, match slot Fetch p2 with
    | Some t => set_slot Fetch None (if counted_inflight t then p2 <| ongoing_insts_ ::= (λ n, u64 (n - 1)) |> else p2)
    | None => p2 end = p3 ∧ p3 = set_slot Fetch None p2) as (p3 & -> & E3).
  { change (slot Fetch p2) with (slot Fetch p). destruct (slot Fetch p) as [f|] eqn:Ef.
    - simpl in HwF. apply Forall_cons_iff in HwF as [(_ & -> & _) _]. eauto.
    - eexists. split; [done|]. unfold slot in Ef. simpl in Ef. unfold p2, p1, set_slot. destruct p as [????? [] ???????????].
      simpl in Ef. subst. done. }
  assert (counted (slot Fetch p) = 0 ∧ countb counted_inflight l = 0) as [HcF Hcl].
  { split; [|by apply wrong_uncounted]. destruct (slot Fetch p); [|done]. simpl in *.
    by apply Forall_cons_iff in HwF as [(_ & -> & _) _]. }
  match goal with |- context [flush_stall_cycles _ ?q] => set (p4 := q) end.
  destruct (flush_form bw (t_now h) p4) as (st & sl & -> & (Hs1 & Hs2 & Hs3) & Hi & _); [by subst p4 p3|].
  eexists. split; [done|]. split; [|by subst p4 p3].
  assert (total [] (hand_over Execute p3) = total l p) as Htot.
  { subst p3. unfold total, hand_over, slot in *. simpl in Hd, Hx, HcF |- *. rewrite Hd, Hx, HcF, Hcl. simpl. lia. }
  subst p4 p3. unfold hand_over. constructor; try done; simpl; unfold slot in *; simpl in *; rewrite ?Hd.
  - intros s' t' Hs'. destruct s'; simpl in Hs'; try done; try by (apply c_slots0).
    injection Hs' as <-. split; [done|]. split; [done|]. intros _. by apply Hcnt.
  - destruct c_orph0 as [Ho1 Ho2]. split; [unfold zlen in *; by rewrite length_map|]. clear.
    induction (resp_is_orphan (fetch_ p)) as [|[] o IH]; done.
  - rewrite Hnw by done. rewrite Hx in c_lsu0. rewrite c_lsu0. by split.
  - by rewrite Hwp.
  - rewrite c_ongoing0, <- Htot. f_equal. apply total_ext; [|done]. unfold hand_over, slot. simpl. by rewrite Hd.
  - by rewrite Hi.
Qed.

Lemma core_bpu bw bd l p h b : core bw bd l p h → BU.wf binv k w b → core bw bd l (p <| bpu := b |>) h.
Proof. intros [] Hb. by constructor. Qed.

Lemma bpu_update_wp bw bd l p h i tk tg c r hit t Q : core bw bd l p h → trans_ok t → word_ok (pc i) →
  (∀ b, core bw bd l (p <| bpu := b |>) h → Q tt (p <| bpu := b |>, h)) →
  wp (bpu_update i tk tg c r hit t) Q (p, h).
Proof.
  intros Hc (_ & Hr & _) Hpc HQ. unfold bpu_update. pstep.
  destruct (BU.unit_update_Ok binv k w (bpu p) (pc i) tk tg c r hit (br_pred t) (br_mispred t)) as (b & -> & Hb & _);
    [apply Hc | done | done |].
  eexists. split; [done|]. by apply HQ, core_bpu.
Qed.

(** After resolution the pipeline is ready to hand the instruction over. *)
Definition resolved bw h (now : Z) (t : Transaction) (s' : Pipeline P * Ports) : Prop :=
  ∃ l', core bw false l' (hand_over Execute s'.1) h ∧ s'.2 = h ∧ slot Decode s'.1 = Some t.

Lemma resolve_wp bw l p h t : core bw false l p h → slot Decode p = Some t → slot Execute p = None →
  wp (when (is_branch (trace_inst t)) (resolve_branch (t_now h) t))
     (λ _ s', resolved bw h (t_now h) t s') (p, h).
Proof.
  intros Hc Hd Hx. destruct (c_slots _ _ _ _ _ Hc _ _ Hd) as (Hok & _ & _). pose proof Hok as ((Hpc & _) & _ & Hnb).
  rewrite wp_when. destruct (is_branch (trace_inst t)) eqn:Eb.
  - unfold resolve_branch. rewrite wp_bind. eapply bpu_update_wp; [done | done | done |]. intros b Hcb.
    set (pb := p <| bpu := b |>) in *. destruct (br_mispred t) eqn:Em; pstep.
    + destruct (flush_core bw l pb h t) as (p' & -> & Hc' & Es); [done | done | done | done |].
      eexists. split; [done|]. exists []. cbn [fst snd]. split; [done|]. split; [done|].
      unfold slot. rewrite Es. exact Hd.
    + exists l. cbn [fst snd]. split; [|done]. by apply (core_hand_over bw l pb h Execute t); [| | |left|].
  - exists l. cbn [fst snd]. split; [|done]. apply (core_hand_over bw l p h Execute t); try done; [by left|]. by apply Hnb.
Qed.

Lemma execute_wp bw l p h t : core bw false l p h → slot Decode p = Some t → slot Execute p = None →
  wp do_execute (λ _ s', ∃ l', core bw false l' s'.1 s'.2 ∧ t_now s'.2 = t_now h) (p, h).
Proof.
  intros Hc Hd Hx. destruct (c_slots _ _ _ _ _ Hc _ _ Hd) as (Hok & _ & _). pose proof Hok as ((_ & Hrd & _) & _).
  pose proof (c_tick _ _ _ _ _ Hc) as Ht.
  unfold do_execute. pstep. apply (assert_decoded_wp bw l p h t); [done | done |]. pstep.
  apply (wp_deref _ t); [done|]. destruct (negb _); [pstep; by exists l|].
  rewrite wp_bind. eapply wp_mono; [by apply (resolve_wp bw l p h t)|].
  intros [] [p1 h1] (l1 & Hc1 & Eh & Hd1). cbn [fst snd] in *. subst h1.
  rewrite wp_bind. apply flush_false_nop; [done|]. rewrite wp_bind.
  eapply (wp_mono _ (λ _ s', resolved bw h (t_now h) t s')).
  { rewrite wp_when. destruct (mem_op _ =? _); [|by exists l1]. pstep.
    set (when := if _ && _ then _ else _).
    destruct (update_reg_time_Ok (t_now h) (dst_reg (trace_inst t)) when p1) as (rr & v & E & Hrr & _);
      [apply Hc1 | done | lia | lia | intros x Hf; by apply (c_slots _ _ _ _ _ Hc1 Fetch) |].
    eexists. split; [exact E|]. exists l1. cbn [fst snd]. split; [|done].
    destruct Hc1. by constructor. }
  intros [] [p2 h2] (l2 & Hc2 & Eh & Hd2). cbn [fst snd] in *. subst h2. pstep.
  rewrite (soon (t_now h) 1) by lia. rewrite schedule_Ok by lia. eexists. split; [done|]. exists l2. split; [|done].
  by apply (core_sched bw false l2 (hand_over Execute p2) h Execute).
Qed.
End safety.
Arguments c_q {P binv k w bw bd l p h} _.
Arguments c_bu {P binv k w bw bd l p h} _.
Arguments c_regs {P binv k w bw bd l p h} _.
Arguments c_tick {P binv k w bw bd l p h} _.
Arguments c_stall {P binv k w bw bd l p h} _.
Arguments c_nc {P binv k w bw bd l p h} _.
Arguments c_dec {P binv k w bw bd l p h} _.
Arguments c_wb {P binv k w bw bd l p h} _.
Arguments c_slots {P binv k w bw bd l p h} _.
Arguments c_queue {P binv k w bw bd l p h} _.
Arguments c_input {P binv k w bw bd l p h} _.
Arguments c_orph {P binv k w bw bd l p h} _.
Arguments c_lsu {P binv k w bw bd l p h} _.
Arguments c_path {P binv k w bw bd l p h} _.
Arguments c_ongoing {P binv k w bw bd l p h} _.
Arguments c_wpc {P binv k w bw bd l p h} _.
Arguments c_fed {P binv k w bw bd l p h} _.
End PipeSafe.
