(* ===== verification/PipelineRun.v ===== *)
(** * The pipeline keeps its contracts, continued

    Decode, fetch, the calls from outside, and the theorems about whole runs of
    the core. *)

From S2P Require Import Prelude Types Trace BranchPred BranchUnit Btb Ras CacheEnv Ifq Pipeline PipelineSafe.

Module PipeRun.
Import Pipe PipeSafe.

Section front.
Context {P : Type} `{DirPredictor P} (binv : P → Prop) `{!DirPredictorLaws P binv} (k w : Z).
Implicit Types (p : Pipeline P) (h : Ports) (l : list Transaction).
#[local] Notation core := (core binv k w).


(** *** Decode *)

Lemma decode_stall_wp bw bd l p h u : core bw bd l p h → slot Decode p = None → t_now h <= u →
  wp (decode_stall (t_now h) u) (λ _ s', core bw true l s'.1 s'.2 ∧ t_now s'.2 = t_now h) (p, h).
Proof.
  intros Hc Hd Hu. unfold decode_stall. rewrite wp_bind, wp_self, wp_bind. cbn [fst snd].
  eapply (wp_mono _ (λ _ s', core bw bd l s'.1 s'.2 ∧ slot Decode s'.1 = None ∧ s'.2 = h)).
  { rewrite wp_when. destruct (negb _); pstep; [|done]. split; [by apply core_stall|]. split; [|done].
    unfold slot in *. by destruct (set_stall_frame (t_now h) RAW p) as (-> & _). }
  intros [] [p1 h1] (Hc1 & Hd1 & Eh). cbn [fst snd] in *. subst h1. pstep. rewrite schedule_Ok by done.
  eexists. split; [done|]. split; [|done]. destruct Hc1. constructor; try done.
Qed.

Lemma decode_pass_wp bw bd l p h t r : core bw bd l p h → slot Decode p = None → slot Fetch p = Some t →
  counted_inflight t = true → r <= t_now h →
  wp (decode_pass (t_now h) r t) (λ _ s', core bw true l s'.1 s'.2 ∧ t_now s'.2 = t_now h) (p, h).
Proof.
  intros Hc Hd Hf Hcnt Hr. pose proof (c_tick Hc) as Ht. unfold decode_pass. rewrite wp_bind, wp_self. cbv zeta. rewrite wp_bind. cbn [fst snd].
  eapply (wp_mono _ (λ _ s', core bw bd l s'.1 s'.2 ∧ sim_pipe_ s'.1 = sim_pipe_ p ∧ s'.2 = h)).
  { rewrite wp_when. destruct (negb _); pstep; [|done]. split; [by apply core_stall|]. split; [|done].
    by destruct (set_stall_frame (t_now h) NoInst p) as (-> & _). }
  intros [] [p1 h1] (Hc1 & Es & Eh). cbn [fst snd] in *. subst h1. pstep.
  rewrite Z.max_l by done. rewrite (soon (t_now h) 1) by lia. rewrite schedule_Ok by lia. eexists. split; [done|]. pstep.
  unfold slot in Hd, Hf. rewrite <- Es in Hd, Hf.
  destruct (c_slots Hc1 Fetch t Hf) as (Hok & Hw & _). pose proof Hok as ((_ & Hrd & _) & _).
  set (p2 := p1 <| stage_update_ ::= put Decode (t_now h + 1) |>).
  assert (∃ rr, (if dst_reg (trace_inst t) =? 0 then mret p2
     else l0 ← vec_set (reg_ready_ p2) (dst_reg (trace_inst t)) InfTime; mret (p2 <| reg_ready_ := l0 |>))
     = Ok (p2 <| reg_ready_ := rr |>) ∧ regs_ok rr) as (rr & -> & Hrr).
  { pose proof (c_regs Hc1) as Hreg. destruct (Z.eqb_spec (dst_reg (trace_inst t)) 0).
    - exists (reg_ready_ p1). split; [by destruct p1 | done].
    - destruct (regs_set (reg_ready_ p1) (dst_reg (trace_inst t)) InfTime Hreg Hrd) as (rr & E & ?); [done|].
      change (reg_ready_ p2) with (reg_ready_ p1). rewrite E. by exists rr. }
  eexists. split; [done|]. pstep. split; [|done]. destruct Hc1. simpl in Hd, Hf. constructor; try done.
  - intros s t' Hs. destruct s; try by apply c_slots0.
    simpl in Hs. injection Hs as <-. split; [done|]. split; [intros _; by apply Hw | done].
  - revert c_path0. unfold young, slot. simpl. by rewrite Hd, Hf.
  - simpl. rewrite c_ongoing0. f_equal. unfold total, slot. simpl. rewrite Hd, Hf. simpl. lia.
Qed.

(** A wrong-path fetch never reaches decode: it sits behind the mispredicted
    branch, whose flush removes it. *)
Lemma fetch_on_path bw bd l p h t : core bw bd l p h → slot Decode p = None → slot Fetch p = Some t →
  is_wrong_path t = false ∧ counted_inflight t = true.
Proof.
  intros Hc Hd Hf. pose proof (c_path Hc) as Hp. unfold young in Hp. rewrite Hd, Hf in Hp.
  exact (path_head _ _ _ _ Hp).
Qed.

Lemma decode_wp bw bd l p h t : core bw bd l p h → slot Decode p = None → slot Fetch p = Some t →
  wp do_decode (λ _ s', core bw true l s'.1 s'.2 ∧ t_now s'.2 = t_now h) (p, h).
Proof.
  intros Hc Hd Hf. pose proof (c_tick Hc) as Ht.
  destruct (fetch_on_path bw bd l p h t Hc Hd Hf) as [Hwp Hcnt].
  destruct (c_slots Hc Fetch t Hf) as (Hok & _ & _). pose proof Hok as (Hfed & _).
  pose proof Hfed as (_ & Hrd & _). pose proof (c_regs Hc) as Hreg.
  assert (∀ x, t_now h <= (if x <=? t_now h then u64 (t_now h + 1) else x)) as Hclamp.
  { intros x. rewrite (soon (t_now h) 1) by lia. destruct (Z.leb_spec x (t_now h)); lia. }
  unfold do_decode. pstep. apply (wp_deref _ t); [done|]. rewrite Hwp.
  destruct (_ && _); [by apply (decode_stall_wp bw bd)|]. pstep.
  destruct (src_ready_Ok p (trace_inst t) Hreg Hfed) as [r Hr]. exists r. split; [done|].
  destruct (Z.eqb_spec r InfTime); [apply (decode_stall_wp bw bd); [done | done | lia]|].
  destruct (Z.ltb_spec (t_now h) r); [apply (decode_stall_wp bw bd); [done | done | lia]|].
  destruct (_ && _); [|by apply (decode_pass_wp bw bd)]. pstep.
  destruct (regs_get _ _ Hreg Hrd) as [v Hv]. exists v. split; [done|]. by apply (decode_stall_wp bw bd).
Qed.

(** *** Fetch *)

Lemma fetch1_wp bw bd l p h : core bw bd l p h → slot Fetch p = None →
  wp do_fetch_1 (λ _ s', ∃ l', core bw bd l' s'.1 s'.2 ∧ t_now s'.2 = t_now h) (p, h).
Proof.
  intros Hc Hf. pose proof (c_tick Hc) as Ht. pose proof (c_q Hc) as Hq.
  unfold do_fetch_1. pstep. rewrite (IFQ.empty_spec _ _ Hq).
  assert (∀ u, t_now h <= u → wp (upd (schedule (t_now h) Fetch u))
    (λ _ s', ∃ l', core bw bd l' s'.1 s'.2 ∧ t_now s'.2 = t_now h) (p, h)) as Hsched.
  { intros u Hu. pstep. rewrite schedule_Ok by done. eexists. split; [done|]. exists l. split; [by apply core_sched | done]. }
  destruct l as [|t l]; [apply Hsched; lia|]. pstep. exists (Some t). split; [by apply (IFQ.front_spec l)|]. pstep.
  apply (wp_deref _ t); [done|]. destruct (wait_mem t) eqn:Hw; [apply Hsched; lia|].
  pose proof (c_queue Hc) as [Hokt Hokl]%Forall_cons_iff.
  destruct (0 <? bp_meta_hold t).
  - pstep. set (t' := t <| bp_meta_hold ::= Z.pred |>).
    destruct (IFQ.set_front_spec l (fetch_queue_ p) t t' Hq) as (q & -> & Hq' & _). cbn [mbind res_bind].
    eexists. split; [done|]. pstep. rewrite (soon (t_now h) 1) by lia. rewrite schedule_Ok by lia.
    eexists. split; [done|]. exists (t' :: l). split; [|done]. apply core_sched; [|done]. destruct Hc. constructor; try done.
    + by apply Forall_cons.
    + eapply path_same; [|exact c_path0]. unfold young. apply Forall2_app; [apply same_path_refl|].
      apply Forall2_app; [apply same_path_refl|]. apply Forall2_cons; [done | apply same_path_refl].
  - pstep. rewrite Hf. split; [done|]. pstep.
    destruct (IFQ.ifq_pop_spec l (fetch_queue_ p) t Hq) as (q & E & Hq' & _).
    change (fetch_queue_ (set_slot Fetch (Some t) p)) with (fetch_queue_ p). rewrite E. cbn [mbind res_bind].
    eexists. split; [done|]. exists l. split; [|done]. destruct Hc. constructor; try done.
    + intros s t' Hs. destruct s; try by apply c_slots0. simpl in Hs. injection Hs as <-. by split.
    + simpl in *. by rewrite Hw in c_orph0.
    + revert c_path0. unfold young, slot in *. simpl in Hf |- *. by rewrite Hf.
    + simpl. rewrite c_ongoing0. f_equal. unfold total, slot in *. simpl in Hf |- *. rewrite Hf. simpl. lia.
Qed.

Lemma core_fetches bw bd l p h (b : bool) : core bw bd l p h →
  core bw bd l (push_orphan true p) (h <| t_fetches ::= Z.succ |> <| t_irdy := false |>).
Proof.
  intros []. constructor; try done. simpl. destruct c_orph0 as [H1 H2]. unfold zlen in *.
  rewrite length_app, countb_app, H2. simpl. lia.
Qed.

(** Changes of the fetch state that the path and the counters do not see. *)
Lemma core_fetch_state bw bd l p h f : core bw bd l p h →
  (wrong_path (f (fetch_ p)) = wrong_path (fetch_ p)) → (wp_flushed (f (fetch_ p)) = wp_flushed (fetch_ p)) →
  resp_is_orphan (f (fetch_ p)) = resp_is_orphan (fetch_ p) →
  word_ok (wrong_path_pc (f (fetch_ p))) → word_ok (wp_redirect_target_s1 (f (fetch_ p))) →
  word_ok (wp_redirect_target_s2 (f (fetch_ p))) →
  core bw bd l (p <| fetch_ ::= f |>) h.
Proof.
  intros [] E1 E2 E3 E4 E5 E6. constructor; try done; simpl.
  - by rewrite E3.
  - by rewrite E1, E2.
Qed.

Lemma early_wp bw bd l p h : core bw bd l p h → t_irdy h = true →
  wp fetch_early_redir (λ _ s', core bw bd l s'.1 s'.2 ∧ t_now s'.2 = t_now h) (p, h).
Proof.
  intros Hc Hr. unfold fetch_early_redir. pstep. unfold wp, imem_read, ports_env. rewrite Hr.
  split; [|done]. apply core_fetch_state; try done; [by apply core_fetches | ..]; apply (c_wpc Hc).
Qed.

(** [p]: the core [p0], changed where a fetch changes it before the new entry [t]
    joins the queue. *)
Record joins bw l p0 p h t : Prop := {
  j_full : IFQ.full (fetch_queue_ p0) = false;
  j_pipe : sim_pipe_ p = sim_pipe_ p0;
  j_regs : reg_ready_ p = reg_ready_ p0;
  j_sched : stage_update_ p = stage_update_ p0;
  j_nc : has_dmem_nc p = has_dmem_nc p0;
  j_queue : fetch_queue_ p = fetch_queue_ p0;
  j_ongoing : ongoing_insts_ p = ongoing_insts_ p0;
  j_bpu : BU.wf binv k w (bpu p);
  j_stall : stall_inv bw (t_now h) (stats p) (stall_ p);
  j_insts : insts (stats p) = insts (stats p0);
  j_trans : trans_ok t ∧ wait_mem t = true;
  j_count : counted (input_buffer_ p0) = counted (input_buffer_ p) + b2z (counted_inflight t);
  j_input t' : input_buffer_ p = Some t' → input_buffer_ p0 = Some t';
  j_path : path_ok (wrong_path (fetch_ p)) (wp_flushed (fetch_ p)) (young l p0 ++ [t]);
  j_wpc : word_ok (wrong_path_pc (fetch_ p)) ∧ word_ok (wp_redirect_target_s1 (fetch_ p)) ∧
    word_ok (wp_redirect_target_s2 (fetch_ p))
}.

(** A fetch joins the queue: an entry that waits for its response. *)
Lemma push_core bw bd l p0 p h t : core bw bd l p0 h → joins bw l p0 p h t →
  resp_is_orphan (fetch_ p) = resp_is_orphan (fetch_ p0) ++ [false] →
  ∃ p', push_ifq t p = Ok p' ∧ core bw bd (l ++ [t]) p' (h <| t_fetches ::= Z.succ |> <| t_irdy := false |>).
Proof.
  intros [] [] Horph. destruct j_trans0 as [Hok Hw].
  rewrite (IFQ.full_spec _ _ c_q0) in j_full0. apply Z.leb_gt in j_full0.
  destruct (IFQ.ifq_push_spec l (fetch_queue_ p0) t c_q0 j_full0) as (q & Hq & Hh & _).
  unfold push_ifq. rewrite j_queue0, Hq. cbn [mbind res_bind]. eexists. split; [done|].
  constructor; try done; simpl; unfold slot in *; simpl;
    rewrite ?j_pipe0, ?j_regs0, ?j_sched0, ?j_nc0, ?j_ongoing0, ?j_insts0; try done.
  - apply Forall_app. split; [done | by apply Forall_singleton].
  - intros t' Ht'. by apply c_input0, j_input0.
  - rewrite Horph. destruct c_orph0 as [H1 H2]. unfold zlen in *. rewrite length_app, !countb_app, H2. simpl.
    rewrite Hw. simpl. lia.
  - revert j_path0. unfold young, slot. simpl. by rewrite !(assoc_L (++)).
  - rewrite c_ongoing0. f_equal. unfold total, slot. simpl. rewrite j_count0, countb_app. simpl. lia.
Qed.

Lemma wp_advance_core bw bd l p h pred : core bw bd l p h → core bw bd l (wp_advance pred p) h.
Proof.
  intros Hc. assert (∀ p s, core bw bd l p h → nostall s = nostall (stats p) → noinst s = noinst (stats p) →
    lsu_stall s = lsu_stall (stats p) → brmiss_stall s = brmiss_stall (stats p) → raw_stall s = raw_stall (stats p) →
    insts s = insts (stats p) → core bw bd l (p <| stats := s |>) h) as Hstat.
  { intros p1 s [] E1 E2 E3 E4 E5 E6. constructor; try done; simpl; unfold stall_inv in *; by rewrite ?E1, ?E2, ?E3, ?E4, ?E5, ?E6. }
  assert (∀ z, word_ok (u32 z)) as Hu by (intros; apply u32_range).
  unfold wp_advance. cbv zeta. set (p1 := p <| fetch_ ::= _ |>).
  assert (core bw bd l p1 h) as Hc1 by (apply core_fetch_state; try done; first [apply Hu | apply (c_wpc Hc)]).
  set (p2 := if wp_redirect_s2 (fetch_ p1) then _ else p1).
  assert (core bw bd l p2 h) as Hc2.
  { unfold p2. destruct (wp_redirect_s2 _); [|done]. apply Hstat; try done.
    apply core_fetch_state; try done; first [apply Hu | apply (c_wpc Hc1)]. }
  set (p3 := if wp_redirect_s1 (fetch_ p2) then _ else p2).
  assert (core bw bd l p3 h) as Hc3.
  { unfold p3. destruct (wp_redirect_s1 _); [|done]. apply core_fetch_state; try done; first [apply Hu | apply (c_wpc Hc2)]. }
  destruct (_ && _); [|done]. apply Hstat; try done. apply core_fetch_state; try done; first [apply Hu | apply (c_wpc Hc3)].
Qed.

Lemma wrong_wp bw bd l p h : core bw bd l p h → t_irdy h = true → wrong_path (fetch_ p) = true →
  wp_flushed (fetch_ p) = false →
  wp fetch_wrong_path (λ _ s', ∃ l', core bw bd l' s'.1 s'.2 ∧ t_now s'.2 = t_now h) (p, h).
Proof.
  intros Hc Hr Hwp Hfl. unfold fetch_wrong_path. pstep. destruct (IFQ.full (fetch_queue_ p)) eqn:Hfull.
  { pstep. by exists l. }
  set (pc := wrong_path_pc (fetch_ p)). assert (word_ok pc) as Hpc by apply (c_wpc Hc).
  rewrite wp_bind, wp_call_bpu. cbn [fst snd].
  destruct (BU.unit_predict_Ok binv k w (bpu p) pc (c_bu Hc) Hpc) as (pred & b & Hb & Hwf & _).
  exists pred, b. split; [exact Hb|]. pstep.
  set (p1 := p <| bpu := b |> <| stats ::= _ |>). set (t := make_trans _ true true).
  destruct (push_core bw bd l p (push_orphan false p1) h t) as (p2 & Hp2 & Hc2); [done | | done |].
  - constructor; try done.
    + apply (c_stall Hc).
    + simpl. lia.
    + simpl. rewrite Hwp, Hfl. apply path_push_wrong; [|done]. pose proof (c_path Hc) as Hp. by rewrite Hwp, Hfl in Hp.
    + apply (c_wpc Hc).
  - unfold push_ifq in Hp2 |- *. change (fetch_queue_ (push_orphan false p1)) with (fetch_queue_ p1) in Hp2.
    destruct (IFQ.push_back (Some t) (fetch_queue_ p1)) as [q|]; [|done]. cbn [mbind res_bind] in *.
    injection Hp2 as <-. eexists. split; [done|]. pstep. unfold wp, imem_read, ports_env. rewrite Hr.
    exists (l ++ [t]). split; [|done]. cbn [fst snd]. apply wp_advance_core. exact Hc2.
Qed.

(** What follows the request of a real fetch. *)
Lemma joins_after bw l p0 p h t now i pred acc : joins bw l p0 p h t → joins bw l p0 (after_fetch now i pred acc (push_orphan false p)) h t.
Proof.
  intros []. unfold after_fetch. cbv zeta.
  destruct (tage_overrode_bimodal pred), (acc && will_redirect pred); by constructor.
Qed.

Lemma fetch_tail_wp bw bd l p0 p h t i pred acc a : core bw bd l p0 h → joins bw l p0 p h t →
  t_irdy h = true → resp_is_orphan (fetch_ p) = resp_is_orphan (fetch_ p0) →
  wp (env (imem_read a);; modify_self (push_orphan false);; modify_self (after_fetch (t_now h) i pred acc);; upd (push_ifq t))
     (λ _ s', ∃ l', core bw bd l' s'.1 s'.2 ∧ t_now s'.2 = t_now h) (p, h).
Proof.
  intros Hc Hj Hr Ho. pstep. unfold wp, imem_read, ports_env. rewrite Hr.
  match goal with |- match ?m with _ => _ end => change m with
    (upd (push_ifq t) (after_fetch (t_now h) i pred acc (push_orphan false p), h <| t_fetches ::= Z.succ |> <| t_irdy := false |>)) end.
  apply (wp_upd (push_ifq t)). cbn [fst snd].
  destruct (push_core bw bd l p0 (after_fetch (t_now h) i pred acc (push_orphan false p)) h t) as (p' & Hp' & Hc').
  - done.
  - by apply joins_after.
  - unfold after_fetch. cbv zeta. destruct (tage_overrode_bimodal pred), (acc && will_redirect pred); simpl; by rewrite Ho.
  - exists p'. split; [exact Hp'|]. by exists (l ++ [t]).
Qed.

(** Only a branch can be mispredicted at fetch. *)
Lemma judge_nonbranch (b : BU.BranchUnit P) i pred : (is_branch i = false → pred = branch_result_default) →
  (BU.judge b (real_taken i) (real_target i) pred).1 = false → is_branch i = true.
Proof. unfold real_taken. destruct (is_branch i); [done|]. intros ->; [|done]. done. Qed.

Lemma judge_wf (b : BU.BranchUnit P) tk tg pred : BU.wf binv k w b → BU.wf binv k w (BU.judge b tk tg pred).2.
Proof.
  intros Hw. unfold BU.judge. destruct b. destruct tk, (will_redirect pred); simpl; try done.
  - by destruct (pred_target pred =? tg).
  - by destruct (pred_taken pred).
Qed.

Lemma predict_at_fetch_Ok (b : BU.BranchUnit P) pc br : BU.wf binv k w b → word_ok pc →
  ∃ r b', BU.predict_at_fetch b pc br = Ok (r, b') ∧ BU.wf binv k w b' ∧ BU.result_ok r ∧
    (br = false → r = branch_result_default).
Proof.
  intros Hw Hpc. unfold BU.predict_at_fetch. destruct br.
  - match goal with |- context [BU.predict ?b1 pc] => destruct (BU.unit_predict_Ok binv k w b1 pc) as (r & b' & -> & ? & ?) end;
      [exact Hw | done |]. by exists r, b'.
  - exists branch_result_default, b. split; [done|]. split; [done|]. split; [apply BU.default_ok | done].
Qed.

Lemma fetch_real_wp bw bd l p h : core bw bd l p h → t_irdy h = true → wrong_path (fetch_ p) = false →
  wp_flushed (fetch_ p) = false → IFQ.full (fetch_queue_ p) = false →
  wp fetch_real (λ _ s', ∃ l', core bw bd l' s'.1 s'.2 ∧ t_now s'.2 = t_now h) (p, h).
Proof.
  intros Hc Hr Hwp Hfl Hfull. unfold fetch_real. pstep. destruct (input_buffer_ p) as [c|] eqn:Hin; [|by exists l].
  destruct (c_input Hc c Hin) as (i & -> & Hi). pstep.
  change (trace_inst (make_trans i false false <| wait_mem := true |>)) with i.
  match goal with |- context [if ?g && BU.is_no_bpu (bpu p) then ?x else ?y] =>
    set (cand := if g && BU.is_no_bpu (bpu p) then x else y) end.
  assert (trace_inst cand = i ∧ is_wrong_path cand = false ∧ wait_mem cand = true ∧ counted_inflight cand = true)
    as (E1 & E2 & E3 & E4) by (unfold cand; by destruct (_ && _)).
  clearbody cand. rewrite wp_call_bpu. cbn [fst snd].
  destruct (predict_at_fetch_Ok (bpu p) (pc i) (is_branch i)) as (r & b1 & Hp & Hw1 & Hres & Hnb); [apply Hc | apply Hi |].
  exists r, b1. split; [exact Hp|]. rewrite wp_bind, wp_call_bpu. cbn [fst snd].
  set (p1 := p <| input_buffer_ := None |> <| bpu := b1 |>).
  change (bpu p1) with b1.
  set (acc := (BU.judge b1 (real_taken i) (real_target i) r).1).
  set (b2 := (BU.judge b1 (real_taken i) (real_target i) r).2).
  exists acc, b2. split; [unfold acc, b2; by destruct (BU.judge _ _ _ _)|].
  assert (BU.wf binv k w b2) as Hw2 by (by apply judge_wf).
  assert (acc = false → is_branch i = true) as Hacc by (by apply judge_nonbranch).
  set (t := cand <| br_pred := r |> <| br_mispred := negb acc |>).
  assert (trans_ok t) as Hok.
  { unfold trans_ok, t. simpl. rewrite E1. split; [done|]. split; [done|]. intros Hb. rewrite (Hnb Hb).
    split; [|done]. destruct acc; [done|]. by rewrite Hacc in Hb. }
  assert (path_ok (negb acc) false (young l p ++ [t])) as Hpath.
  { change (negb acc) with (br_mispred t). apply path_push_real.
    - pose proof (c_path Hc) as Hy. by rewrite Hwp, Hfl in Hy.
    - destruct acc eqn:Ea; [left | right].
      + done.
      + repeat split; try done. simpl. rewrite E1. by apply Hacc. }
  set (p2 := p1 <| bpu := b2 |>). clearbody acc.
  rewrite wp_bind, wp_when. destruct acc; cbn [negb].
  - apply (fetch_tail_wp bw bd l p); try done. constructor; try done.
    + apply (c_stall Hc).
    + rewrite Hin. simpl. by rewrite E4.
    + simpl. by rewrite Hwp, Hfl.
    + apply (c_wpc Hc).
  - rewrite wp_modify_self. cbn [fst snd]. unfold enter_wrong_path.
    match goal with |- context [flush_stall_cycles _ ?q] => set (p3 := q) end.
    destruct (flush_form bw (t_now h) p3) as (st & sl & -> & Hst & Hins & _); [apply (c_stall Hc)|].
    match goal with |- wp _ _ (?q, _) => apply (fetch_tail_wp bw bd l p q h t i r false) end; try done. constructor; try done.
    + rewrite Hin. simpl. by rewrite E4.
    + simpl. by rewrite Hfl.
    + simpl. split; [|apply (c_wpc Hc)]. unfold wrong_target. destruct (_ && _); apply u32_range.
Qed.

Lemma fetch0_wp bw bd l p h : core bw bd l p h →
  wp do_fetch_0 (λ _ s', ∃ l', core bw bd l' s'.1 s'.2 ∧ t_now s'.2 = t_now h) (p, h).
Proof.
  intros Hc. unfold do_fetch_0. pstep.
  change (imem_ready h) with (t_irdy h).
  destruct (t_now h <? resume_tick (fetch_ p)); [pstep; exists l; split; [by apply core_stall | done]|].
  destruct (t_irdy h) eqn:Hr; cbn [negb]; [|by exists l].
  destruct (0 <? early_redir_remaining (fetch_ p)).
  { eapply wp_mono; [by apply early_wp|]. intros [] s' Hs'. by exists l. }
  destruct (wrong_path (fetch_ p)) eqn:Hwp, (wp_flushed (fetch_ p)) eqn:Hfl; cbn [andb negb].
  2: by apply (wrong_wp bw bd l).
  - rewrite wp_bind, wp_when, wp_modify_self. cbn [fst snd].
    match goal with |- wp _ _ (?q, _) => set (p1 := q) end.
    assert (core bw bd l p1 h) as Hc1.
    { destruct Hc. constructor; try done. rewrite Hwp, Hfl in c_path0. simpl in *.
      change (young l p1) with (young l p). by rewrite c_path0. }
    change (fetch_queue_ p) with (fetch_queue_ p1).
    destruct (IFQ.full (fetch_queue_ p1)) eqn:Hfull; [by exists l|]. by apply (fetch_real_wp bw bd l).
  - rewrite wp_bind, wp_when. pose proof (c_path Hc) as Hp. rewrite Hwp, Hfl in Hp. by destruct Hp.
  - rewrite wp_bind, wp_when.
    destruct (IFQ.full (fetch_queue_ p)) eqn:Hfull; [by exists l|]. by apply (fetch_real_wp bw bd l).
Qed.

(** *** The tick *)

Definition inv (bw bd : bool) (s : Pipeline P * Ports) : Prop := ∃ l, core bw bd l s.1 s.2.

Lemma core_mono bw bd bw' bd' l p h : implb bw bw' = true → implb bd bd' = true →
  core bw bd l p h → core bw' bd' l p h.
Proof.
  intros Hw Hd []. constructor; try done.
  - destruct c_stall0 as (? & ? & ?). split; [done|]. split; [destruct bw, bw'; simpl in *; lia || done | done].
  - intros Hs. specialize (c_dec0 Hs). destruct bd, bd'; simpl in *; lia || done.
Qed.

Lemma present_Some {A} (o : option A) : present o = true → ∃ a, o = Some a.
Proof. destruct o; [eauto | done]. Qed.

Lemma try_wp bw bd bw' bd' s st : inv bw bd st → implb bw bw' = true → implb bd bd' = true →
  (∀ l, core bw bd l st.1 st.2 → slot s st.1 = None → prev_stage_valid (t_now st.2) s st.1 = true →
    wp (run_stage s) (λ _ s', inv bw' bd' s') st) →
  wp (try_stage s) (λ _ s', inv bw' bd' s') st.
Proof.
  intros [l Hc] Hw Hd Hrun. unfold try_stage. pstep.
  destruct (negb (present (slot s st.1)) && _ && _) eqn:E; [|exists l; by eapply core_mono].
  apply andb_true_iff in E as [[E1 E2]%andb_true_iff _]. apply (Hrun l Hc); [|exact E2].
  by destruct (slot s st.1).
Qed.

(** [stage s from to lem]: run stage [s], whose lemma is [lem]. *)
Tactic Notation "stage" constr(s) constr(bd) constr(bw') constr(bd') uconstr(lem) :=
  match goal with H : inv ?bw _ _ |- _ =>
    rewrite wp_bind; eapply wp_mono;
    [ apply (try_wp bw bd bw' bd' s); [exact H | done | done |]; clear H;
      let l := fresh "l" in let Hc := fresh "Hc" in let Hs := fresh "Hs" in let Hp := fresh "Hp" in
      intros l Hc Hs Hp; try (apply present_Some in Hp as [? Hp]);
      eapply wp_mono; [by eapply lem | intros [] ? ?; unfold inv; naive_solver]
    | clear H; intros [] [? ?] ? ]
  end.

Lemma core_update_wp st : inv false false st → wp update_impl (λ _ s', inv true true s') st.
Proof.
  intros Hi. unfold update_impl. rewrite wp_bind, wp_modify_self.
  assert (inv false false (st.1 <| bpu ::= BU.begin_tick |>, st.2)) as H1.
  { destruct Hi as [l Hc]. exists l. cbn [fst snd]. pose proof (c_bu Hc) as Hb. destruct Hc. by constructor. }
  clear Hi. revert H1. generalize (st.1 <| bpu ::= BU.begin_tick |>). generalize st.2. intros h p H1.
  stage WriteBack false true false writeback_wp.
  stage Memory false true false memory_wp.
  stage IntDivExt false true false div_wp.
  stage IntMulExt false true false mul_wp.
  stage Execute false true false execute_wp.
  stage Decode false true true decode_wp.
  stage Fetch true true true fetch1_wp.
  match goal with Hl : inv _ _ _ |- _ => destruct Hl as [l Hc] end. cbn [fst snd] in Hc.
  rewrite wp_bind. eapply wp_mono; [by eapply fetch0_wp|].
  intros [] [p' h'] (l' & Hc' & _). rewrite wp_bind, wp_now_, wp_modify_self. exists l'. cbn [fst snd] in *.
  destruct Hc'. by constructor.
Qed.

(** *** The calls from outside *)

(** The machine holds fewer instructions than the counter can. *)
Lemma total_range bw bd l p h : core bw bd l p h → 0 <= total l p < 2 ^ 64 - 1.
Proof.
  intros Hc. pose proof (IFQ.r_cap _ _ (c_q Hc)). pose proof (IFQ.r_cnt _ _ (c_q Hc)).
  assert (0 <= countb counted_inflight l <= zlen l) as Hl by apply countb_bound.
  assert (∀ o, 0 <= counted o <= 1) as Ho1 by (intros [t|]; simpl; [destruct (counted_inflight t)|]; simpl; lia).
  unfold total. pose proof (Ho1 (input_buffer_ p)). pose proof (Ho1 (slot Decode p)). pose proof (Ho1 (slot Fetch p)).
  pose proof (Ho1 (slot Execute p)). pose proof (Ho1 (slot IntMulExt p)). pose proof (Ho1 (slot IntDivExt p)).
  pose proof (Ho1 (slot Memory p)). lia.
Qed.

Lemma countb_insert {A} (f : A → bool) (l : list A) (j : nat) t x : l !! j = Some t →
  countb f (<[j := x]> l) = countb f l - b2z (f t) + b2z (f x).
Proof.
  intros Hj. rewrite <- (take_drop_middle l j t Hj) at 2. rewrite insert_take_drop by (by eapply lookup_lt_Some).
  rewrite !countb_app. simpl. lia.
Qed.

Lemma countb_find {A} (f : A → bool) (l : list A) : 0 < countb f l →
  ∃ j t, list_find (λ t, Is_true (f t)) l = Some (j, t) ∧ l !! j = Some t ∧ f t = true.
Proof.
  intros Hl. destruct (list_find (λ t, Is_true (f t)) l) as [[j t]|] eqn:E.
  - exists j, t. split; [done|]. apply list_find_Some in E as (? & Ht & _). split; [done|]. by apply Is_true_true.
  - apply list_find_None in E. exfalso. revert Hl. clear -E.
    induction E as [|t l Ht _ IH]; simpl; [lia|]. destruct (f t); [done | simpl; lia].
Qed.

Lemma ifu_core bw bd l p h : core bw bd l p h → 0 < t_fetches h →
  ∃ p' l', handle_ifu_resp (t_now h) p = Ok p' ∧ core bw bd l' p' (h <| t_fetches ::= Z.pred |>).
Proof.
  intros Hc Hf. pose proof (c_tick Hc). destruct (c_orph Hc) as [Ho1 Ho2]. unfold handle_ifu_resp.
  destruct (resp_is_orphan (fetch_ p)) as [|o rest] eqn:Er; [unfold zlen in Ho1; simpl in Ho1; lia|].
  rewrite IFQ.zlen_cons in Ho1. set (p1 := p <| fetch_ ::= _ |>). destruct o.
  { exists p1, l. split; [done|]. destruct Hc. constructor; try done. simpl. simpl in Ho2. split; [lia | done]. }
  assert (0 < countb wait_mem l) as Hw.
  { rewrite <- Ho2. simpl. pose proof (countb_nonneg negb rest). lia. }
  destruct (countb_find wait_mem l Hw) as (j & t & Hfind & Hj & Ht).
  change (fetch_queue_ p1) with (fetch_queue_ p). rewrite (IFQ.find_spec wait_mem l _ (c_q Hc)), Hfind.
  cbn [fmap option_fmap option_map mbind res_bind fst].
  destruct (IFQ.modify_spec l (fetch_queue_ p) j t (λ t, t <| wait_mem := false |>) (c_q Hc) Hj) as (q & -> & Hq & _).
  cbn [mbind res_bind]. rewrite (soon (t_now h) 1) by lia. rewrite async_Ok by lia.
  eexists _, _. split; [done|].
  assert (Forall2 same_path l (<[j := t <| wait_mem := false |>]> l)) as Hsame.
  { rewrite <- (take_drop_middle l j t Hj) at 1. rewrite insert_take_drop by (by eapply lookup_lt_Some).
    apply Forall2_app; [apply same_path_refl|]. apply Forall2_cons; [done | apply same_path_refl]. }
  destruct Hc. constructor; try done; simpl.
  - apply Forall_insert; [done | exact (proj1 (Forall_lookup _ _) c_queue0 j t Hj)].
  - split; [lia|]. rewrite (countb_insert _ _ _ t) by done. rewrite Ht. simpl in Ho2 |- *. lia.
  - eapply path_same; [|exact c_path0]. unfold young. apply Forall2_app; [apply same_path_refl|].
    apply Forall2_app; [apply same_path_refl | exact Hsame].
  - rewrite c_ongoing0. f_equal. unfold total. rewrite (countb_insert _ _ _ t) by done. simpl. unfold slot. simpl. lia.
Qed.

Lemma core_answered bw bd l p h t : core bw bd l p h → slot Execute p = Some t →
  core bw bd l (set_wait false p) (h <| t_lsu := None |>).
Proof.
  intros [] Hx. unfold set_wait, modify_slot. rewrite Hx. constructor; try done.
  - intros s t' Hs. destruct s; try by apply c_slots0. simpl in Hs. injection Hs as <-.
    destruct (c_slots0 _ _ Hx) as (H1 & _ & H3). by repeat split; try apply H1.
  - simpl. rewrite c_ongoing0. f_equal. unfold total, slot in *. simpl in Hx |- *. by rewrite Hx.
Qed.

Lemma lsu_core bw bd l p h x : core bw bd l p h → t_lsu h = Some x →
  ∃ p', handle_lsu_resp (t_now h) p = Ok p' ∧ core bw bd l p' (h <| t_lsu := None |>).
Proof.
  intros Hc Hx. pose proof (c_tick Hc). pose proof (c_lsu Hc) as Hl. unfold handle_lsu_resp.
  destruct (slot Execute p) as [t|] eqn:Ht; [|congruence]. rewrite Hx in Hl. destruct Hl as [Hw Hm].
  rewrite Hw. rewrite (Hm Hw). cbn [present negb assert_ mbind res_bind].
  set (h1 := h <| t_lsu := None |>). set (p1 := set_wait false p).
  assert (core bw bd l p1 h1) as Hc1 by (by eapply core_answered).
  destruct (c_slots Hc _ _ Ht) as (((_ & Hrd & _) & _) & _).
  set (t1 := t <| wait_mem := false |>).
  assert (slot Execute p1 = Some t1 ∧ slot Memory p1 = None) as [Hx1 Hm1].
  { unfold p1, set_wait, modify_slot. rewrite Ht. split; [done|]. by apply Hm. }
  assert (∃ p2, (if mem_op (trace_inst t) =? MemLoad
     then update_reg_time (t_now h) (dst_reg (trace_inst t)) (u64 (t_now h + 2)) p1 else mret p1) = Ok p2 ∧
     core bw bd l p2 h1 ∧ sim_pipe_ p2 = sim_pipe_ p1) as (p2 & -> & Hc2 & Es2).
  { destruct (_ =? _); [|by exists p1].
    destruct (update_reg_time_Ok (t_now h) (dst_reg (trace_inst t)) (u64 (t_now h + 2)) p1)
      as (rr & v & E & _); [apply Hc1 | done | lia | lia | intros y Hy; by apply (c_slots Hc1 Fetch) |].
    eexists. split; [exact E|]. split; [|done]. by eapply core_reg_time. }
  cbn [mbind res_bind]. set (p3 := set_stall (t_now h) LsuStall p2).
  assert (core bw bd l p3 h1) as Hc3 by (by apply (core_stall binv k w bw bd l p2 h1)).
  assert (sim_pipe_ p3 = sim_pipe_ p1) as Es3.
  { unfold p3. destruct (set_stall_frame (t_now h) LsuStall p2) as (-> & _). done. }
  assert (∃ p4, match slot Fetch p3 with
      | Some ids => rdy ← src_ready p3 (trace_inst ids); mret (if t_now h <? rdy then set_stall (t_now h) RAW p3 else p3)
      | None => mret p3 end = Ok p4 ∧ core bw bd l p4 h1 ∧ sim_pipe_ p4 = sim_pipe_ p1) as (p4 & -> & Hc4 & Es4).
  { destruct (slot Fetch p3) as [f|] eqn:Ef; [|by exists p3].
    destruct (c_slots Hc3 Fetch f Ef) as ((Hok & _) & _).
    destruct (src_ready_Ok p3 (trace_inst f) (c_regs Hc3) Hok) as [r ->]. cbn [mbind res_bind].
    destruct (t_now h <? r); [|by exists p3]. eexists. split; [done|].
    split; [by apply (core_stall binv k w bw bd l p3 h1)|].
    by destruct (set_stall_frame (t_now h) RAW p3) as (-> & _). }
  cbn [mbind res_bind]. rewrite (soon (t_now h) 1) by lia. rewrite async_Ok by lia. cbn [mbind res_bind].
  eexists. split; [done|]. apply (core_to_memory binv k w bw bd l _ h1 t1); [|unfold slot; simpl; by rewrite Es4..|done].
  assert (core bw bd l (p4 <| stage_update_ ::= put Memory (t_now h + 1) |>) h1) as [] by (by apply core_sched).
  by constructor.
Qed.

Lemma ack_core bw bd l p h a : core bw bd l p h → ack_id a = 0 ∨ ack_id a = 1 ∨ ack_id a = 2 →
  ∃ p', ack_mem_avail (t_now h) a p = Ok p' ∧ core bw bd l p' h.
Proof.
  intros Hc Ha. pose proof (c_tick Hc). unfold ack_mem_avail.
  assert (∀ s, s ≠ Decode → ∃ p', async_schedule (t_now h) s (t_now h) p = Ok p' ∧ core bw bd l p' h) as Hs.
  { intros s Hs. rewrite async_Ok by lia. eexists. split; [done|].
    assert (core bw bd l (p <| stage_update_ ::= put s (t_now h) |>) h) as [] by (by apply core_sched). by constructor. }
  destruct Ha as [-> | Ha]; [by apply Hs|].
  replace (ack_id a =? 0) with false by (symmetry; apply Z.eqb_neq; lia).
  replace ((ack_id a =? 1) || (ack_id a =? 2)) with true by (destruct Ha as [-> | ->]; done).
  destruct (slot Execute p); [|by exists p]. destruct (_ && _); [by apply Hs | by exists p].
Qed.

(** *** What the core's own work leaves alone *)

(** The clock, the tick's flag and the ghost counters. *)
Definition view h := (t_now h, t_updated h, t_fed h, t_past h).

Definition steady {A} (m : ST (Pipeline P * Ports) A) : Prop :=
  ∀ s a s', m s = Ok (a, s') → view s'.2 = view s.2.

Lemma steady_bind {A B} (m : ST (Pipeline P * Ports) A) (f : A → ST (Pipeline P * Ports) B) :
  steady m → (∀ a, steady (f a)) → steady (m ≫= f).
Proof.
  intros Hm Hf s b s2 Hr. unfold mbind, ST_bind in Hr. destruct (m s) as [[a s1]|] eqn:E1; [|done].
  etransitivity; [by eapply Hf | by eapply Hm].
Qed.
Lemma steady_ret {A} (a : A) : steady (mret a).
Proof. by intros s a' s' [= _ <-]. Qed.
Lemma steady_gets {A} (f : Pipeline P * Ports → A) : steady (gets f).
Proof. by intros s a s' [= _ <-]. Qed.
Lemma steady_modify f : steady (modify_self f).
Proof. by intros s a s' [= _ <-]. Qed.
Lemma steady_update {A} (f : Pipeline P → res (A * Pipeline P)) : steady (update_self f).
Proof.
  intros s a s'. unfold update_self, mbind, ST_bind, gets, lift. simpl. destruct (f s.1) as [[a' p']|]; [|done].
  by intros [= _ <-].
Qed.
Lemma steady_lift {A} (m : res A) : steady (lift m).
Proof. intros s a s'. unfold lift. destruct m; [|done]. by intros [= _ <-]. Qed.
Lemma steady_self : steady self.
Proof. apply steady_gets. Qed.
Lemma steady_now : steady now_.
Proof. apply steady_gets. Qed.
Lemma steady_upd (f : Pipeline P → res (Pipeline P)) : steady (upd f).
Proof. apply steady_update. Qed.
Lemma steady_call {A} (f : BU.BranchUnit P → res (A * BU.BranchUnit P)) : steady (call_bpu f).
Proof. apply steady_update. Qed.
Lemma steady_assert b : steady (assertM b).
Proof. apply steady_lift. Qed.
Lemma steady_deref {A} (o : option A) : steady (deref o).
Proof. destruct o; [apply steady_ret | done]. Qed.
Lemma steady_when b m : steady m → steady (when b m).
Proof. destruct b; [done | intros _; apply steady_ret]. Qed.
Lemma steady_env (m : ST Ports unit) : (∀ h h', m h = Ok (tt, h') → view h' = view h) → steady (env m).
Proof. intros Hm s [] s'. unfold env. destruct (m s.2) as [[[] h']|] eqn:E; [|done]. intros [= <-]. by apply Hm. Qed.
Lemma steady_imem a : steady (env (imem_read a)).
Proof. apply steady_env. intros h h'. unfold imem_read, ports_env. destruct (t_irdy h); [|done]. by intros [= <-]. Qed.
Lemma steady_lsu po m : steady (env (lsu_request po m)).
Proof.
  apply steady_env. intros h h'. unfold lsu_request. destruct (t_lsu h); [done|].
  destruct (match m with Read => _ | Write => _ end); [|done]. by intros [= <-].
Qed.
Lemma steady_lsu_read po a : steady (env (lsu_read po a)).
Proof. apply steady_lsu. Qed.
Lemma steady_lsu_write po a d m : steady (env (lsu_write po a d m)).
Proof. apply steady_lsu. Qed.
End front.

Create HintDb steady.
#[export] Hint Resolve steady_ret steady_gets steady_modify steady_update steady_lift steady_deref
  steady_self steady_now steady_upd steady_call steady_assert steady_imem steady_lsu_read
  steady_lsu_write : steady.

Ltac steady_tac := repeat first
  [ solve [eauto with steady] | progress cbv zeta | apply steady_bind; [|intros ?] | apply steady_when | case_match ].

Section steps.
Context {P : Type} `{DirPredictor P} (binv : P → Prop) `{!DirPredictorLaws P binv} (k w : Z).
Implicit Types (p : Pipeline P) (h : Ports) (l : list Transaction).

Lemma fetch0_steady : steady (P := P) do_fetch_0.
Proof. unfold do_fetch_0, fetch_early_redir, fetch_wrong_path, fetch_real. steady_tac. Qed.

Lemma flush_steady now t : steady (P := P) (flush_false_btb_hit now t).
Proof. unfold flush_false_btb_hit, bpu_update, clear_btb. steady_tac. Qed.
#[local] Hint Resolve fetch0_steady flush_steady : steady.

Lemma stage_steady s : steady (P := P) (try_stage s).
Proof.
  unfold try_stage. steady_tac. destruct s; cbn [run_stage].
  - unfold do_fetch_1. steady_tac.
  - unfold do_decode, decode_stall, decode_pass. steady_tac.
  - unfold do_execute, assert_decoded, resolve_branch, bpu_update. steady_tac.
  - unfold do_mul_ext, assert_decoded, issue_mext. steady_tac.
  - unfold do_div_ext, assert_decoded, issue_mext. steady_tac.
  - unfold do_memory, send_lsu_req. steady_tac.
  - unfold do_writeback. steady_tac.
Qed.
#[local] Hint Resolve stage_steady : steady.

Lemma update_steady : steady (P := P) update_impl.
Proof. unfold update_impl. steady_tac. Qed.

(** *** Whole runs *)

#[local] Notation core := (core binv k w).
#[local] Notation inv := (inv binv k w).

Definition op_ok (o : op) : Prop :=
  match o with OFeed i => fed_ok i | OAck id _ => id = 0 ∨ id = 1 ∨ id = 2 | _ => True end.

(** The tick's flag says what may have happened in it; [n] operations are left. *)
Definition sinv (n : Z) (s : Pipeline P * Ports) : Prop :=
  inv (t_updated s.2) (t_updated s.2) s ∧ t_now s.2 + n + 40 < InfTime.

Lemma wp_steady {A} (m : ST (Pipeline P * Ports) A) Q s : steady m → wp m Q s →
  wp m (λ a s', Q a s' ∧ view s'.2 = view s.2) s.
Proof. intros Hs. unfold wp. destruct (m s) as [[a s']|] eqn:E; [|done]. intros HQ. split; [done | by eapply Hs]. Qed.

Lemma core_later b l p h : core b b l p h → t_now h + 41 < InfTime →
  core false false l p (h <| t_now ::= Z.succ |> <| t_updated := false |>).
Proof.
  intros [] Hn. constructor; try done; simpl.
  - lia.
  - destruct c_stall0 as (? & ? & ?). split; [done|]. split; [destruct b; simpl in *; lia | done].
  - intros Hd. specialize (c_dec0 Hd). destruct b; simpl in *; lia.
Qed.

Lemma feed_core b l p h i : core b b l p h → input_buffer_ p = None → fed_ok i →
  core b b l (p <| ongoing_insts_ ::= incr |> <| input_buffer_ := Some (make_trans i false false) |>)
    (h <| t_fed ::= Z.succ |>).
Proof.
  intros [] Hin Hi. constructor; try done; simpl.
  - intros t [= <-]. by exists i.
  - rewrite c_ongoing0. unfold incr, total. rewrite Hin. unfold slot. simpl. u64_solve.
  - unfold incr. revert c_fed0. clear. u64_solve.
Qed.

Lemma reset_core b l p h : core b b l p h →
  core b b l (reset_stats (t_now h) p) (h <| t_past ::= Z.add (insts (stats p)) |>).
Proof.
  intros []. constructor; try done; simpl.
  - unfold stall_inv. simpl. rewrite Z.sub_diag. split; [done|]. split; [destruct b; simpl; lia | done].
  - rewrite <- c_fed0. f_equal. lia.
Qed.

Lemma core_step_wp n o s : sinv (n + 1) s → 0 <= n → op_ok o → wp (step o) (λ _ s', sinv n s') s.
Proof.
  destruct s as [p h]. intros [[l Hc] Hn] Hpos Ho. cbn [fst snd] in *.
  assert (∀ h' b l' p', core b b l' p' h' → t_updated h' = b → t_now h' = t_now h → sinv n (p', h')) as Hkeep.
  { intros h' b l' p' Hc' Hb Hn'. split; [|simpl; lia]. cbn [snd]. rewrite Hb. by exists l'. }
  destruct o; cbn [op_ok] in Ho; unfold wp, step.
  - split; [|simpl; lia]. exists l. cbn [fst snd]. apply (core_later (t_updated h)); [done | lia].
  - destruct (t_updated h) eqn:Eu; [by eapply Hkeep|]. set (h1 := h <| t_updated := true |>).
    assert (core false false l p h1) as Hc1 by (destruct Hc; by constructor).
    change (wp do_update (λ _ s', sinv n s') (p, h1)). unfold do_update. rewrite wp_bind, wp_self, wp_bind, wp_now_, wp_when. cbn [fst snd].
    destruct (_ <=? _).
    + eapply wp_mono; [apply wp_steady; [apply update_steady | apply (core_update_wp binv k w)]; by exists l|].
      intros [] [p' h'] [[l' Hc'] [= E1 E2 _ _]]. by eapply Hkeep.
    + apply (Hkeep h1 true l p); [by apply (core_mono binv k w false false) | done | done].
  - destruct (inst_avail p) eqn:Ea; [|by eapply Hkeep].
    change (wp (feed_inst i) (λ _ s', sinv n s') (p, h <| t_fed ::= Z.succ |>)). unfold feed_inst. pstep.
    assert (input_buffer_ p = None) as Hin by (unfold inst_avail in Ea; by destruct (input_buffer_ p)).
    rewrite Hin. split; [done|]. pstep.
    eapply wp_mono; [apply wp_steady; [apply fetch0_steady | apply (fetch0_wp binv k w (t_updated h) (t_updated h) l); by apply feed_core]|].
    intros [] [p' h'] [(l' & Hc' & _) [= E1 E2 _ _]]. by eapply Hkeep.
  - destruct (Z.ltb_spec 0 (t_fetches h)); [|by eapply Hkeep].
    match goal with |- match ?m ?s with _ => _ end => apply (wp_upd _ (λ _ s', sinv n s') s) end. cbn [fst snd].
    destruct (ifu_core binv k w _ _ l p h Hc) as (p' & l' & E & Hc'); [done|]. exists p'. split; [exact E|]. by eapply Hkeep.
  - destruct (t_lsu h) as [[po m]|] eqn:El; [|by eapply Hkeep].
    match goal with |- match ?m ?s with _ => _ end => apply (wp_upd _ (λ _ s', sinv n s') s) end. cbn [fst snd].
    destruct (lsu_core binv k w _ _ l p h (po, m) Hc) as (p' & E & Hc'); [done|]. exists p'.
    split; [destruct po; exact E|]. by eapply Hkeep.
  - match goal with |- match ?m ?s with _ => _ end => apply (wp_upd _ (λ _ s', sinv n s') s) end. cbn [fst snd].
    destruct (ack_core binv k w _ _ l p h (MkAckTrans id m) Hc) as (p' & E & Hc'); [done|]. exists p'. split; [exact E|].
    by eapply Hkeep.
  - eapply Hkeep; [|done|done]. destruct Hc. by constructor.
  - eapply Hkeep; [|done|done]. destruct Hc. by constructor.
  - eapply Hkeep; [by apply reset_core|done|done].
Qed.

Lemma core_run_wp ops s : sinv (zlen ops) s → Forall op_ok ops → wp (run ops) (λ _ s', sinv 0 s') s.
Proof.
  revert s. induction ops as [|o ops IH]; intros s Hs Ho; [done|]. apply Forall_cons_iff in Ho as [Ho Hos].
  cbn [run]. rewrite wp_bind. rewrite IFQ.zlen_cons in Hs.
  eapply wp_mono; [apply core_step_wp; [exact Hs | apply zlen_nonneg | done]|]. intros [] s' Hs'. by apply IH.
Qed.

(** The state [main] starts from, with a non-cacheable port; [irdy] and [drdy]:
    what the caches accept at first. *)
Definition start (irdy : bool) (drdy : port → bool * bool) : Ports := MkPorts 0 0 None irdy drdy false 0 0.

Lemma make_sinv ifq b lat nxt irdy drdy n : BU.wf binv k w b → 0 <= ifq < 2 ^ 63 → n + 40 < InfTime →
  sinv n (make ifq b lat true nxt, start irdy drdy).
Proof.
  intros Hb Hq Hn. split; [|done]. exists []. cbn [fst snd]. constructor; try done.
  - by apply IFQ.make_holds.
  - by intros [].
Qed.

(** Reachable states satisfy the invariant. *)
Lemma pipe_reach ifq b lat nxt irdy drdy ops : BU.wf binv k w b → 0 <= ifq < 2 ^ 63 → zlen ops + 40 < InfTime →
  Forall op_ok ops →
  ∃ p h l bw, run ops (make ifq b lat true nxt, start irdy drdy) = Ok (tt, (p, h)) ∧ core bw bw l p h.
Proof.
  intros Hb Hq Hn Ho.
  pose proof (core_run_wp ops _ (make_sinv ifq b lat nxt irdy drdy _ Hb Hq Hn) Ho) as Hr.
  apply wp_run in Hr as ([] & [p h] & Hr & [l Hc] & _). by exists p, h, l, (t_updated h).
Qed.
End steps.

(** ** The theorems

    [ops] is any sequence of clock ticks, updates, fed instructions, responses,
    acknowledgements, changes of readiness and resets of the statistics. *)

Section theorems.
Context {P : Type} `{DirPredictor P} (binv : P → Prop) `{!DirPredictorLaws P binv} (k w : Z).
Variables (ifq : Z) (b : BU.BranchUnit P) (lat nxt : Z) (irdy : bool) (drdy : port → bool * bool).
Hypotheses (Hb : BU.wf binv k w b) (Hifq : 0 <= ifq < 2 ^ 63).

(** C6: whatever the caches do, no assertion of the pipeline fails and no index
    leaves its array; every outstanding fetch has exactly one entry in the
    response order, and a load or store is outstanding only for an instruction
    that waits at execute. *)
Theorem pipeline_safe ops : Forall op_ok ops → zlen ops + 40 < InfTime →
  ∃ p h, run ops (make ifq b lat true nxt, start irdy drdy) = Ok (tt, (p, h)) ∧
    zlen (resp_is_orphan (fetch_ p)) = t_fetches h ∧
    (t_lsu h ≠ None → ∃ t, slot Execute p = Some t ∧ wait_mem t = true).
Proof.
  intros Ho Hn. destruct (pipe_reach binv k w ifq b lat nxt irdy drdy ops) as (p & h & l & bw & Hr & Hc); [done..|].
  exists p, h. split; [done|]. split; [apply (c_orph Hc)|]. intros Hl. pose proof (c_lsu Hc) as Hx.
  destruct (slot Execute p) as [t|]; [|done]. exists t. split; [done|]. destruct Hx as [-> _]. by destruct (t_lsu h).
Qed.

(** C9: every cycle since the last reset is in exactly one stall category, up to
    the tick of the last attribution, which is at most one past the clock; the
    category without a stall counts the instructions that committed. *)
Theorem cycles_accounted ops p h : Forall op_ok ops → zlen ops + 40 < InfTime →
  run ops (make ifq b lat true nxt, start irdy drdy) = Ok (tt, (p, h)) →
  let s := stats p in
  u64 (nostall s + noinst s + lsu_stall s + brmiss_stall s + raw_stall s) =
    u64 (last_tick (stall_ p) - reset_tick (stall_ p)) ∧
  last_tick (stall_ p) <= t_now h + 1 ∧ nostall s = insts s.
Proof.
  intros Ho Hn Hrun. destruct (pipe_reach binv k w ifq b lat nxt irdy drdy ops) as (p' & h' & l & bw & Hr & Hc); [done..|].
  rewrite Hr in Hrun. injection Hrun as -> ->. destruct (c_stall Hc) as (H1 & H2 & H3).
  split; [done|]. split; [destruct bw; simpl in *; lia | done].
Qed.

(** C8: no instruction is lost or counted twice: what was fed is what committed
    plus what is in the machine, and [is_finished] holds exactly when the machine
    holds no instruction of the trace.  A branch flush removes wrong-path fetches
    only. *)
Theorem insts_conserved ops p h : Forall op_ok ops → zlen ops + 40 < InfTime →
  run ops (make ifq b lat true nxt, start irdy drdy) = Ok (tt, (p, h)) →
  ∃ l, IFQ.all_entries (fetch_queue_ p) = Ok (Some <$> l) ∧
    u64 (t_past h + insts (stats p) + total l p) = u64 (t_fed h) ∧
    (is_finished p = true ↔ total l p = 0).
Proof.
  intros Ho Hn Hrun. destruct (pipe_reach binv k w ifq b lat nxt irdy drdy ops) as (p' & h' & l & bw & Hr & Hc); [done..|].
  rewrite Hr in Hrun. injection Hrun as -> ->. exists l. split; [by apply IFQ.entries_spec, (c_q Hc)|].
  pose proof (c_ongoing Hc) as Hon. split.
  - rewrite <- (c_fed Hc), Hon. u64_solve.
  - unfold is_finished. rewrite Hon.
    pose proof (total_range binv k w bw bw l p h Hc).
    rewrite u64_small by lia. apply Z.eqb_eq.
Qed.

(** C22: a wrong-path fetch is never decoded: every instruction behind the fetch
    stage is one of the trace, and so is the one at fetch whenever decode is free
    to take it. *)
Theorem wrong_path_never_decoded ops p h s t : Forall op_ok ops → zlen ops + 40 < InfTime →
  run ops (make ifq b lat true nxt, start irdy drdy) = Ok (tt, (p, h)) →
  slot s p = Some t → s ≠ Fetch ∨ slot Decode p = None →
  counted_inflight t = true.
Proof.
  intros Ho Hn Hrun Hs Hcase. destruct (pipe_reach binv k w ifq b lat nxt irdy drdy ops) as (p' & h' & l & bw & Hr & Hc); [done..|].
  rewrite Hr in Hrun. injection Hrun as -> ->. destruct (decide (s = Fetch)) as [->|Hne].
  - destruct Hcase as [|Hd]; [done|]. by destruct (fetch_on_path binv k w bw bw l p h t Hc Hd Hs).
  - by apply (c_slots Hc s t Hs).
Qed.
End theorems.

(** ** A concrete run

    An addition, a taken branch that misses without a BTB, a multiplication and
    loads, on caches that answer within the cycle. *)

Definition core_ex : BU.BranchUnit StaticPredictor := BU.make (make_static BTFNT) None 0.
Definition add_ex : TraceInst := MkTraceInst 0x80000000 0 MemNone 0 0 1 2 3 0 ExtNone.
Definition br_ex : TraceInst := MkTraceInst 0x80000004 0x80000100 MemNone 1 1 0 1 0 0 ExtNone.
Definition mul_ex : TraceInst := MkTraceInst 0x80000100 0 MemNone 0 0 4 1 2 0 IntMulL.
Definition load_ex : TraceInst := MkTraceInst 0x80000104 0x80001000 MemLoad 0 0 5 4 0 0 ExtNone.

Definition ready_ex (_ : port) : bool * bool := (true, true).
Definition cycle_of (i : TraceInst) : list op :=
  [OReady true ready_ex; OUpdate; OReady true ready_ex; OFeed i; OTick; OFetchResp; OLsuResp].
Definition core_ops : list op :=
  flat_map cycle_of ([add_ex; br_ex; mul_ex] ++ repeat load_ex 40) ++ [ODrain].

Lemma core_ex_wf : BU.wf BU.sinv 4 16 core_ex.
Proof. by apply BU.unit_wf_make; [| |lia]. Qed.

Lemma core_ops_ok : Forall op_ok core_ops ∧ zlen core_ops + 40 < InfTime.
Proof.
  split; [|by vm_compute]. unfold core_ops. apply Forall_app. split; [|apply List.Forall_cons; [done | apply List.Forall_nil]].
  assert (∀ i, fed_ok i → Forall op_ok (cycle_of i)) as Hcyc by (intros i Hi; repeat (apply List.Forall_cons; [done|]); apply List.Forall_nil).
  assert (fed_ok add_ex ∧ fed_ok br_ex ∧ fed_ok mul_ex ∧ fed_ok load_ex) as (H1 & H2 & H3 & H4).
  { unfold fed_ok, word_ok. simpl. repeat split; (lia || done). }
  apply Forall_flat_map, Forall_app. split.
  { repeat (apply List.Forall_cons; [by apply Hcyc|]). apply List.Forall_nil. }
  apply Forall_forall. intros i ->%repeat_spec. by apply Hcyc.
Qed.

Lemma pipeline_safe_witness : ∃ p h, run core_ops (make 8 core_ex 3 true 0, start true ready_ex) = Ok (tt, (p, h)) ∧
  zlen (resp_is_orphan (fetch_ p)) = t_fetches h ∧
  (t_lsu h ≠ None → ∃ t, slot Execute p = Some t ∧ wait_mem t = true).
Proof.
  apply (pipeline_safe BU.sinv 4 16 8 core_ex 3 0 true ready_ex core_ex_wf); [lia | apply core_ops_ok | apply core_ops_ok].
Defined.

(** The run as a result, for the other theorems. *)
#[local] Notation core_end := (run core_ops (make 8 core_ex 3 true 0, start true ready_ex)).

Definition end_executes (r : res (unit * (Pipeline StaticPredictor * Ports))) : bool :=
  match r with Ok (_, (p, _)) => present (slot Execute p) | Err _ => false end.

Lemma core_end_executes : end_executes core_end = true.
Proof. by vm_compute. Qed.

Lemma cycles_accounted_witness : match core_end with
  | Ok (tt, (p, h)) => let s := stats p in
    u64 (nostall s + noinst s + lsu_stall s + brmiss_stall s + raw_stall s) =
      u64 (last_tick (stall_ p) - reset_tick (stall_ p)) ∧
    last_tick (stall_ p) <= t_now h + 1 ∧ nostall s = insts s
  | _ => False end.
Proof.
  pose proof core_end_executes as Hx. destruct core_end as [[[] [p h]]|] eqn:E; [|done].
  apply (cycles_accounted BU.sinv 4 16 8 core_ex 3 0 true ready_ex core_ex_wf) with (ops := core_ops);
    [lia | apply core_ops_ok | apply core_ops_ok | exact E].
Defined.

Lemma insts_conserved_witness : match core_end with
  | Ok (tt, (p, h)) => ∃ l, IFQ.all_entries (fetch_queue_ p) = Ok (Some <$> l) ∧
    u64 (t_past h + insts (stats p) + total l p) = u64 (t_fed h) ∧
    (is_finished p = true ↔ total l p = 0)
  | _ => False end.
Proof.
  pose proof core_end_executes as Hx. destruct core_end as [[[] [p h]]|] eqn:E; [|done].
  apply (insts_conserved BU.sinv 4 16 8 core_ex 3 0 true ready_ex core_ex_wf) with (ops := core_ops);
    [lia | apply core_ops_ok | apply core_ops_ok | exact E].
Defined.

Lemma wrong_path_never_decoded_witness : ∃ p h t, core_end = Ok (tt, (p, h)) ∧
  slot Execute p = Some t ∧ counted_inflight t = true.
Proof.
  pose proof core_end_executes as Hx. destruct core_end as [[[] [p h]]|] eqn:E; [|done].
  cbn [end_executes] in Hx. destruct (slot Execute p) as [t|] eqn:Ht; [|done].
  exists p, h, t. split; [done|]. split; [done|].
  apply (wrong_path_never_decoded BU.sinv 4 16 8 core_ex 3 0 true ready_ex core_ex_wf) with (ops := core_ops) (p := p) (h := h) (s := Execute);
    [lia | apply core_ops_ok | apply core_ops_ok | exact E | exact Ht | by left].
Defined.

(** ** The core has no alarm of its own for decode *)

(** An addition is fetched, answered and taken to the fetch stage. *)
Definition sleep_ops : list op := [OReady true ready_ex; OUpdate; OFeed add_ex; OTick; OFetchResp; OTick; OUpdate].
Notation sleep_state := (run sleep_ops (make 8 core_ex 3 true 0, start true ready_ex)).

(** The clock, updates of the core and changes of readiness: nothing that calls it. *)
Definition quiet (o : op) : bool := match o with OTick | OUpdate | OReady _ _ => true | _ => false end.

Lemma asleep {P} `{DirPredictor P} (p : Pipeline P) h ops : next_update p = InfTime → Forall (λ o, quiet o = true) ops →
  t_now h + zlen ops < InfTime →
  ∃ h', run ops (p, h) = Ok (tt, (p, h')) ∧ t_fetches h' = t_fetches h ∧ t_lsu h' = t_lsu h.
Proof.
  intros Hp. revert h. induction ops as [|o ops IH]; intros h Ho Hn; [by exists h|].
  apply Forall_cons_iff in Ho as [Hq Ho]. rewrite IFQ.zlen_cons in Hn. pose proof (zlen_nonneg ops).
  assert (∃ h1, step o (p, h) = Ok (tt, (p, h1)) ∧ t_now h1 <= t_now h + 1 ∧ t_fetches h1 = t_fetches h ∧ t_lsu h1 = t_lsu h)
    as (h1 & E & Hn1 & <- & <-).
  { destruct o; try done; cbn [step]; try (eexists; split; [done|]; simpl; split; [lia | done]).
    destruct (t_updated h); [exists h; split; [done|]; split; [lia | done]|].
    exists (h <| t_updated := true |>). split; [|split; [simpl; lia | done]].
    change (do_update (p, h <| t_updated := true |>) = Ok (tt, (p, h <| t_updated := true |>))).
    unfold do_update, mbind, ST_bind, self, now_, gets. cbn [fst snd cpu_tick ports_env t_now over].
    rewrite Hp. cbn. destruct (Z.leb_spec InfTime (t_now h)); [lia | done]. }
  cbn [run]. unfold mbind, ST_bind. rewrite E. apply IH; [done | lia].
Qed.

(** The core does not schedule decode when it takes an instruction to the fetch
    stage: after the last response, with no request outstanding, it sleeps with
    the instruction in the fetch stage for as long as no cache calls it.  It is
    the acknowledgement the instruction cache sends after its response that wakes
    it. *)
Theorem core_oversleeps waits : Forall (λ o, quiet o = true) waits → zlen waits + 10 < InfTime →
  match run (sleep_ops ++ waits) (make 8 core_ex 3 true 0, start true ready_ex) with
  | Ok (_, (p, h)) => slot Fetch p = Some (make_trans add_ex false false) ∧ is_finished p = false ∧
      t_fetches h = 0 ∧ t_lsu h = None
  | Err _ => False
  end.
Proof.
  intros Hw Hn.
  assert (∃ p h, sleep_state = Ok (tt, (p, h)) ∧ next_update p = InfTime ∧ t_now h = 2 ∧ t_fetches h = 0 ∧ t_lsu h = None ∧
    slot Fetch p = Some (make_trans add_ex false false) ∧ is_finished p = false) as (p & h & E & Hp & Ht & Hf & Hl & Hs & Hfin).
  { eexists _, _. split; [vm_compute; reflexivity|]. by repeat split. }
  assert (run (sleep_ops ++ waits) (make 8 core_ex 3 true 0, start true ready_ex) = run waits (p, h)) as ->.
  { revert E. generalize (make 8 core_ex 3 true 0, start true ready_ex). generalize sleep_ops as ops. clear.
    induction ops as [|o ops IH]; intros s E; [by injection E as ->|]. cbn [run app] in *.
    unfold mbind, ST_bind in *. destruct (step o s) as [[[] s']|]; [by apply IH | done]. }
  destruct (asleep p h waits) as (h' & -> & H1 & H2); [done | done | lia |]. rewrite H1, H2. exact (conj Hs (conj Hfin (conj Hf Hl))).
Qed.
End PipeRun.
