(* ===== verification/CoreRank.v ===== *)
(** * The core makes progress

    What the core waits for: an instruction stands still only until a time that
    is already fixed, or for an answer of the caches.  [View] is the part of the
    core that decides this, [rank] measures how far its instructions are from
    write-back, [due] bounds the times it waits for. *)

From S2P Require Import Prelude Types Trace BranchPred BranchUnit Btb Ras CacheEnv Ifq Pipeline PipelineSafe PipelineRun.

Module CoreRank.
Import Pipe PipeSafe PipeRun.

(** ** The view *)

Record View : Type := MkView {
  v_in : option Transaction;
  v_sl : stages (option Transaction);
  v_reg : list Z;
  v_st : stages Z;
  v_early : Z;
  v_resume : Z;
  v_mul : Z;
  v_div : Z;
  v_cap : Z
}.
#[global] Instance eta_View : Eta View := λ r,
  MkView r.(v_in) r.(v_sl) r.(v_reg) r.(v_st) r.(v_early) r.(v_resume) r.(v_mul) r.(v_div) r.(v_cap).

Definition view {P} (p : Pipeline P) : View :=
  MkView (input_buffer_ p) (sim_pipe_ p) (reg_ready_ p) (stage_update_ p) (early_redir_remaining (fetch_ p))
    (resume_tick (fetch_ p)) (mul_ready_tick_ p) (div_ready_tick_ p) (IFQ.cap_ (fetch_queue_ p)).

Definition at_ (s : PipeStage) (v : View) : option Transaction := get s (v_sl v).
Definition time (s : PipeStage) (v : View) : Z := get s (v_st v).
Definition set_time (s : PipeStage) (t : Z) (v : View) : View := v <| v_st ::= put s t |>.
Definition set_at (s : PipeStage) (o : option Transaction) (v : View) : View := v <| v_sl ::= put s o |>.

Lemma get_put_eq {A} s (a : A) r : get s (put s a r) = a.
Proof. by destruct s. Qed.
Lemma get_put_ne {A} s s' (a : A) r : s ≠ s' → get s (put s' a r) = get s r.
Proof. by destruct s, s'. Qed.
Lemma put_get {A} s (r : stages A) : put s (get s r) r = r.
Proof. by destruct r, s. Qed.

#[export] Instance stage_eq_dec : EqDecision PipeStage.
Proof. solve_decision. Defined.

(** ** How far the instructions are from write-back *)

(** The records the core can finish: a store has no destination register, and an
    extension is a multiplication or a division. *)
Definition runnable (i : TraceInst) : Prop :=
  (mem_op i = MemNone ∨ mem_op i = MemLoad ∨ mem_op i = MemStore) ∧ (mem_op i = MemStore → dst_reg i = 0) ∧
  ext_op i ∈ [ExtNone; IntMulH; IntMulL; IntDiv; IntRem].

Definition xrank (o : option Transaction) : Z :=
  match o with Some t => if counted_inflight t then if wait_mem t then 8 else 9 else 0 | None => 0 end.

Definition qrank (t : Transaction) : Z := if counted_inflight t then 14 + bp_meta_hold t else 0.
Fixpoint lrank (l : list Transaction) : Z := match l with [] => 0 | t :: l => qrank t + lrank l end.

Definition rank (l : list Transaction) (v : View) : Z :=
  20 * counted (v_in v) + lrank l + 12 * counted (at_ Fetch v) + 10 * counted (at_ Decode v) + xrank (at_ Execute v) +
  4 * counted (at_ IntMulExt v) + 4 * counted (at_ IntDivExt v) + 4 * counted (at_ Memory v) + v_early v.

Lemma lrank_app l k : lrank (l ++ k) = lrank l + lrank k.
Proof. induction l; simpl; lia. Qed.

(** ** The times it waits for *)

Definition by_ (d t : Z) : Prop := t <= d ∨ t = InfTime.

(** Every finite time is at most [d].  The fetch stage is left out: the caches wake it. *)
Record due (d : Z) (v : View) : Prop := {
  d_time s : s ≠ Fetch → by_ d (time s v);
  d_reg : Forall (by_ d) (v_reg v);
  d_mul : v_mul v <= d;
  d_div : v_div v <= d;
  d_resume : v_resume v <= d
}.

Lemma by_mono d d' t : d <= d' → by_ d t → by_ d' t.
Proof. unfold by_. lia. Qed.
Lemma due_mono d d' v : d <= d' → due d v → due d' v.
Proof.
  intros Hd []. constructor; try lia; [intros s Hs; by apply (by_mono d), d_time0|].
  revert d_reg0. apply Forall_impl. intros x. by apply by_mono.
Qed.

(** ** What is waited for *)

(** Register [r] waits for a load, or for the instruction at decode. *)
Definition stuck (v : View) (r : Z) : Prop := vec_at (v_reg v) r = Ok InfTime.
Definition blocked (v : View) (t : Transaction) : Prop :=
  ∃ r, (r = src_reg0 (trace_inst t) ∨ r = src_reg1 (trace_inst t)) ∧ stuck v r.
Definition is_mem (t : Transaction) : Prop := mem_op (trace_inst t) ≠ MemNone.
Definition dst (t : Transaction) : Z := dst_reg (trace_inst t).

Record live (l : list Transaction) (v : View) : Prop := {
  l_fin s : s ≠ Fetch → s ≠ Decode → s ≠ Memory → time s v ≠ InfTime;
  l_mem : time Memory v = InfTime → ∃ t, at_ Execute v = Some t ∧ is_mem t;
  l_dec : time Decode v = InfTime → ∃ t, at_ Fetch v = Some t ∧ blocked v t;
  l_prod r : stuck v r → (∃ t, at_ Decode v = Some t ∧ dst t = r) ∨
    (∃ t, at_ Execute v = Some t ∧ mem_op (trace_inst t) = MemLoad ∧ dst t = r);
  l_mext s t : s = IntMulExt ∨ s = IntDivExt → at_ s v = Some t → ¬ stuck v (dst t);
  l_regs : regs_ok (v_reg v) ∧ Forall (λ x, x <= InfTime) (v_reg v);
  l_slot s t : at_ s v = Some t → runnable (trace_inst t);
  l_input t : v_in v = Some t → runnable (trace_inst t) ∧ bp_meta_hold t = 0;
  l_queue : Forall (λ t, runnable (trace_inst t) ∧ 0 <= bp_meta_hold t <= 2) l;
  l_early : 0 <= v_early v <= 2;
  l_cap : 0 < v_cap v;
  l_units : v_mul v < InfTime ∧ v_div v < InfTime;
  l_wait t : at_ Execute v = Some t → wait_mem t = true → is_mem t
}.

Lemma stuck_pos l v r : live l v → stuck v r → r ≠ 0.
Proof. intros Hl Hs ->. destruct (l_regs _ _ Hl) as [[_ H0] _]. unfold stuck in Hs. rewrite H0 in Hs. done. Qed.

Lemma lrank_nonneg l v : live l v → 0 <= lrank l.
Proof.
  intros Hl. pose proof (l_queue _ _ Hl) as Hq. clear Hl. induction Hq as [|t l [_ Ht] _ IH]; simpl; [lia|].
  unfold qrank. destruct (counted_inflight t); lia.
Qed.

Lemma rank_nonneg l v : live l v → 0 <= rank l v.
Proof.
  intros Hl. pose proof (lrank_nonneg _ _ Hl).
  assert (∀ o, 0 <= counted o) as Ho by (intros [t|]; simpl; [destruct (counted_inflight t)|]; simpl; lia).
  assert (0 <= xrank (at_ Execute v)) as Hx.
  { unfold xrank. destruct (at_ Execute v) as [t|]; [|lia]. destruct (counted_inflight t), (wait_mem t); lia. }
  pose proof (l_early _ _ Hl). unfold rank. pose proof (Ho (v_in v)). pose proof (Ho (at_ Fetch v)).
  pose proof (Ho (at_ Decode v)). pose proof (Ho (at_ IntMulExt v)). pose proof (Ho (at_ IntDivExt v)).
  pose proof (Ho (at_ Memory v)). lia.
Qed.

(** A bound in the number of instructions. *)
Lemma rank_bound l v : live l v →
  rank l v <= 20 * (counted (v_in v) + counted (at_ Decode v) + counted (at_ Fetch v) + countb counted_inflight l +
    counted (at_ Execute v) + counted (at_ IntMulExt v) + counted (at_ IntDivExt v) + counted (at_ Memory v)) + 2.
Proof.
  intros Hl. assert (lrank l <= 20 * countb counted_inflight l) as Hq.
  { pose proof (l_queue _ _ Hl) as Hq. clear Hl. induction Hq as [|t l [_ Ht] _ IH]; simpl; [lia|].
    unfold qrank. destruct (counted_inflight t); simpl; lia. }
  assert (∀ o, 0 <= counted o) as Ho by (intros [t|]; simpl; [destruct (counted_inflight t)|]; simpl; lia).
  assert (xrank (at_ Execute v) <= 9 * counted (at_ Execute v)) as Hx.
  { unfold xrank. destruct (at_ Execute v) as [t|]; simpl; [|lia]. destruct (counted_inflight t), (wait_mem t); simpl; lia. }
  pose proof (l_early _ _ Hl). unfold rank. pose proof (Ho (v_in v)). pose proof (Ho (at_ Fetch v)).
  pose proof (Ho (at_ Decode v)). pose proof (Ho (at_ IntMulExt v)). pose proof (Ho (at_ IntDivExt v)).
  pose proof (Ho (at_ Memory v)). pose proof (Ho (at_ Execute v)). lia.
Qed.

(** ** The moves of the core, seen through the view *)

Section moves.
Context (now : Z) (Hnow : 0 <= now) (Hend : now + 40 < InfTime).
Implicit Types (l : list Transaction) (v : View) (t : Transaction).

(** [u] is not later than the times already waited for, or the next tick. *)
Definition soon_ v (u : Z) : Prop := ∀ d, now + 1 <= d → due d v → u <= d.

(** *** A stage is scheduled *)

Lemma time_set s s' u v : time s (set_time s' u v) = if decide (s = s') then u else time s v.
Proof. unfold time, set_time. simpl. case_decide; [subst; apply get_put_eq | by apply get_put_ne]. Qed.

Lemma due_set s u v d : due d v → by_ d u ∨ s = Fetch → due d (set_time s u v).
Proof.
  intros [] Hu. constructor; try done. intros s' Hs'. rewrite time_set. case_decide; [|by apply d_time0].
  subst. by destruct Hu.
Qed.

Lemma live_fetch l v u : live l v → live l (set_time Fetch u v).
Proof.
  intros []. constructor; try done; rewrite ?time_set; try done.
  intros s H1 H2 H3. rewrite time_set. rewrite decide_False by done. by apply l_fin0.
Qed.

Lemma live_set l v s u : live l v → u ≠ InfTime → live l (set_time s u v).
Proof.
  intros [] Hu. constructor; try done; rewrite ?time_set.
  - intros s' H1 H2 H3. rewrite time_set. case_decide; [done | by apply l_fin0].
  - case_decide; [done | exact l_mem0].
  - case_decide; [done | exact l_dec0].
Qed.

Lemma live_mem l v t : live l v → at_ Execute v = Some t → is_mem t → live l (set_time Memory InfTime v).
Proof.
  intros [] Hx Hm. constructor; try done; rewrite ?time_set.
  - intros s' H1 H2 H3. rewrite time_set. rewrite decide_False by done. by apply l_fin0.
  - intros _. by exists t.
Qed.

Lemma live_dec l v t : live l v → at_ Fetch v = Some t → blocked v t → live l (set_time Decode InfTime v).
Proof.
  intros [] Hx Hm. constructor; try done; rewrite ?time_set.
  - intros s' H1 H2 H3. rewrite time_set. rewrite decide_False by done. by apply l_fin0.
  - intros _. by exists t.
Qed.

(** *** Slots *)

Lemma at_set s s' o v : at_ s (set_at s' o v) = if decide (s = s') then o else at_ s v.
Proof. unfold at_, set_at. simpl. case_decide; [subst; apply get_put_eq | by apply get_put_ne]. Qed.

Lemma due_slots v d sl : due d v → due d (v <| v_sl := sl |>).
Proof. by intros []; constructor. Qed.

(** [slots]: the slots of an updated view. *)
Ltac slots := rewrite ?at_set; repeat first [rewrite decide_True by done | rewrite decide_False by done]; cbn [counted xrank].

(** A slot behind execute is emptied. *)
Lemma live_commit l v s : live l v → s = Memory ∨ s = IntDivExt ∨ s = IntMulExt → live l (set_at s None v).
Proof.
  intros [] Hs. constructor; try done.
  - intros Hi. destruct (l_mem0 Hi) as (t & Ht & Hm). exists t. split; [|done]. rewrite at_set.
    rewrite decide_False; [done|]. by destruct Hs as [-> | [-> | ->]].
  - intros Hi. destruct (l_dec0 Hi) as (t & Ht & Hm). exists t. split; [|done]. rewrite at_set.
    rewrite decide_False; [done|]. by destruct Hs as [-> | [-> | ->]].
  - intros r Hr. destruct (l_prod0 r Hr) as [H|H]; [left | right]; rewrite at_set;
      (rewrite decide_False; [done|]); by destruct Hs as [-> | [-> | ->]].
  - intros s' t Hs' Ht. rewrite at_set in Ht. case_decide; [done|]. by apply (l_mext0 s').
  - intros s' t Ht. rewrite at_set in Ht. case_decide; [done|]. by apply (l_slot0 s').
  - intros t Ht. rewrite at_set in Ht. case_decide; [done|]. by apply l_wait0.
Qed.

Lemma counted_nonneg o : 0 <= counted o.
Proof. destruct o as [t|]; simpl; [destruct (counted_inflight t); simpl|]; lia. Qed.

Lemma rank_commit l v s t : at_ s v = Some t → counted_inflight t = true →
  s = Memory ∨ s = IntDivExt ∨ s = IntMulExt → rank l (set_at s None v) < rank l v.
Proof.
  intros Ht Hc Hs. unfold rank. change (v_in (set_at s None v)) with (v_in v). change (v_early (set_at s None v)) with (v_early v).
  rewrite !at_set. assert (counted (at_ s v) = 1) as E by (rewrite Ht; simpl; by rewrite Hc).
  destruct Hs as [-> | [-> | ->]]; slots; lia.
Qed.

(** An instruction at execute is sent to the caches. *)
Definition waiting t : Transaction := t <| wait_mem := true |>.

Lemma live_send l v t b : live l v → at_ Execute v = Some t → (b = true → is_mem t) →
  live l (set_at Execute (Some (t <| wait_mem := b |>)) v).
Proof.
  intros [] Hx Hb. constructor; try done.
  - intros Hi. destruct (l_mem0 Hi) as (t' & Ht & Hm). rewrite Hx in Ht. injection Ht as <-. by eexists.
  - intros r Hr. destruct (l_prod0 r Hr) as [H|(t' & Ht & Hm)]; [by left|]. right. rewrite Hx in Ht. injection Ht as <-.
    by eexists.
  - intros s' t' Hs Ht. rewrite !at_set in Ht.
    rewrite !decide_False in Ht by (by destruct Hs as [-> | ->]). by apply (l_mext0 s').
  - intros s' t' Ht. rewrite at_set in Ht. case_decide; [|by apply (l_slot0 s')]. injection Ht as <-. by apply (l_slot0 Execute t).
  - intros t' Ht. rewrite at_set in Ht. case_decide; [|by apply l_wait0]. injection Ht as <-. exact Hb.
Qed.

Lemma rank_send l v t : at_ Execute v = Some t → counted_inflight t = true → wait_mem t = false →
  rank l (set_at Execute (Some (waiting t)) v) < rank l v.
Proof.
  intros Hx Hc Hw. unfold rank. slots. rewrite Hx. simpl. rewrite Hc, Hw. lia.
Qed.

(** From execute to memory. *)
Lemma live_to_memory l v t : live l v → at_ Execute v = Some t → time Memory v ≠ InfTime →
  (mem_op (trace_inst t) = MemLoad → ¬ stuck v (dst t)) →
  live l (set_at Execute None (set_at Memory (Some t) v)).
Proof.
  intros [] Hx Hi Hl. constructor; try done.
  - intros r Hr. destruct (l_prod0 r Hr) as [H|(t' & Ht & Hm & Hd)]; [by left|]. exfalso. rewrite Hx in Ht.
    injection Ht as <-. apply (Hl Hm). by rewrite Hd.
  - intros s' t' Hs Ht. rewrite !at_set in Ht.
    rewrite !decide_False in Ht by (by destruct Hs as [-> | ->]). by apply (l_mext0 s').
  - intros s' t' Ht. rewrite !at_set in Ht. case_decide; [done|]. case_decide; [|by apply (l_slot0 s')].
    injection Ht as <-. by apply (l_slot0 Execute).
Qed.

Lemma rank_to_memory l v t : at_ Execute v = Some t → at_ Memory v = None → counted_inflight t = true →
  rank l (set_at Execute None (set_at Memory (Some t) v)) < rank l v.
Proof.
  intros Hx Hm Hc. unfold rank. slots. rewrite Hx, Hm. simpl. rewrite Hc. destruct (wait_mem t); simpl; lia.
Qed.

(** An answered load or store goes on to memory. *)
Lemma rank_answer l v v' t t' u : at_ Execute v = Some t → at_ Memory v = None → counted_inflight t = true →
  counted_inflight t' = true → v_sl v' = v_sl (set_at Execute (Some t') v) → v_in v' = v_in v → v_early v' = v_early v →
  rank l (set_at Execute None (set_at Memory (Some t') (set_time Memory u v'))) < rank l v.
Proof.
  intros Hx Hm Hc Hc' Esl Ein Eea. unfold rank. slots.
  change (at_ ?s (set_time Memory u v')) with (get s (v_sl v')). rewrite Esl.
  change (get ?s (v_sl (set_at Execute (Some t') v))) with (at_ s (set_at Execute (Some t') v)). slots.
  change (v_in (set_at Execute None (set_at Memory (Some t') (set_time Memory u v')))) with (v_in v').
  change (v_early (set_at Execute None (set_at Memory (Some t') (set_time Memory u v')))) with (v_early v').
  rewrite Ein, Eea, Hx, Hm. cbn [counted xrank]. rewrite Hc, Hc'. destruct (wait_mem t); simpl; lia.
Qed.

(** *** Registers *)

Lemma stuck_insert v v' rd u r : v_reg v' = <[Z.to_nat rd := u]> (v_reg v) → 0 <= rd < zlen (v_reg v) → 0 <= r →
  stuck v' r ↔ if decide (r = rd) then u = InfTime else stuck v r.
Proof.
  intros E Hrd Hr. unfold stuck. rewrite E. case_decide as Hd.
  - subst. rewrite vec_at_set_eq by done. naive_solver.
  - by rewrite vec_at_set_ne by lia.
Qed.

Lemma stuck_range v r : stuck v r → 0 <= r.
Proof. intros Hs. apply vec_at_range in Hs. lia. Qed.

(** A register gets a time: nobody new waits for it. *)
Lemma live_reg l v rd u u' : live l v → 0 <= rd < 32 → rd ≠ 0 → u < InfTime →
  let v' := v <| v_reg := <[Z.to_nat rd := u]> (v_reg v) |> in
  (time Decode v ≠ InfTime → live l v') ∧ (time Decode v = InfTime → u' ≠ InfTime ∨
    (∃ t, at_ Fetch v = Some t ∧ blocked v' t) → live l (set_time Decode u' v')).
Proof.
  intros Hl Hrd Hne Hu v'. pose proof Hl as []. destruct l_regs0 as [Hro Hrf].
  assert (0 <= rd < zlen (v_reg v)) as Hlen by (destruct Hro as [-> _]; lia).
  assert (∀ r, stuck v' r → stuck v r) as Hst.
  { intros r Hs. pose proof (stuck_range _ _ Hs) as Hr. apply (stuck_insert v v' rd u r) in Hs; [|done..].
    case_decide; [lia | done]. }
  assert (regs_ok (v_reg v') ∧ Forall (λ x, x <= InfTime) (v_reg v')) as Hreg.
  { split; [|simpl; apply list.Forall_insert; [done | lia]].
    destruct (regs_set (v_reg v) rd u Hro Hrd Hne) as (l' & E & Hok). apply vec_set_Ok in E as [_ ->]. exact Hok. }
  split.
  - intros Hd. constructor; try done.
    + intros r Hr. by apply l_prod0, Hst.
    + intros s t Hs Ht Hr. by apply (l_mext0 s t Hs Ht), Hst.
  - intros Hd Hu'. constructor; try done.
    + intros s H1 H2 H3. rewrite time_set, decide_False by done. by apply l_fin0.
    + intros Hi. rewrite time_set, decide_True in Hi by done. destruct Hu' as [?|(t & Ht & Hb)]; [done|]. by exists t.
    + intros r Hr. by apply l_prod0, Hst.
    + intros s t Hs Ht Hr. by apply (l_mext0 s t Hs Ht), Hst.
Qed.

Lemma due_reg d v rd u : due d v → u <= d → due d (v <| v_reg := <[Z.to_nat rd := u]> (v_reg v) |>).
Proof. intros [] Hu. constructor; try done. simpl. apply list.Forall_insert; [done | by left]. Qed.

Lemma src_ready_spec {P} (p : Pipeline P) i r : src_ready p i = Ok r → Forall (λ x, x <= InfTime) (reg_ready_ p) →
  r <= InfTime ∧ (∀ d, Forall (by_ d) (reg_ready_ p) → by_ d r) ∧
  (r = InfTime → ∃ q, (q = src_reg0 i ∨ q = src_reg1 i) ∧ stuck (view p) q).
Proof.
  unfold src_ready. intros Hr Hf. res_inv Hr. res_inv Hr. res_inv Hr. subst r.
  pose proof (Forall_vec_at _ _ _ _ Hf Ha) as H1. pose proof (Forall_vec_at _ _ _ _ Hf Ha0) as H2. simpl in H1, H2.
  split; [lia|]. split.
  - intros d Hd. pose proof (Forall_vec_at _ _ _ _ Hd Ha) as [?|?]; pose proof (Forall_vec_at _ _ _ _ Hd Ha0) as [?|?];
      unfold by_; lia.
  - intros Hm. destruct (Z.max_spec a a0) as [[_ E]|[_ E]]; rewrite E in Hm; subst; [exists (src_reg1 i) | exists (src_reg0 i)];
      (split; [auto | done]).
Qed.

(** [update_reg_time]: the register's time is known and decode is woken. *)
Record reg_set (u rd : Z) l {P} (p p' : Pipeline P) : Prop := {
  s_live : live l (view p');
  s_free : ¬ stuck (view p') rd;
  s_stuck r : stuck (view p') r → stuck (view p) r;
  s_due d : now + 1 <= d → u <= d → due d (view p) → due d (view p');
  s_form : ∃ rr x, p' = p <| reg_ready_ := rr |> <| stage_update_ ::= put Decode x |>;
  s_dec : time Decode (view p) ≠ InfTime → time Decode (view p') = time Decode (view p)
}.

(** The first half: the register is written. *)
Lemma reg_write_live {P} (p a : Pipeline P) l rd u :
  (if rd =? 0 then mret p else l ← vec_set (reg_ready_ p) rd u; mret (p <| reg_ready_ := l |>)) = Ok a →
  live l (view p) → 0 <= rd < 32 → u < InfTime →
  ∃ rr, a = p <| reg_ready_ := rr |> ∧ Forall (λ x, x <= InfTime) rr ∧ (time Decode (view p) ≠ InfTime → live l (view a)) ∧
    (∀ x, time Decode (view p) = InfTime → x ≠ InfTime ∨ (∃ t, at_ Fetch (view p) = Some t ∧ blocked (view a) t) →
      live l (set_time Decode x (view a))) ∧ ¬ stuck (view a) rd ∧ (∀ r, stuck (view a) r → stuck (view p) r) ∧
    (∀ d, u <= d → due d (view p) → due d (view a)).
Proof.
  intros Ha Hl Hrd Hu. destruct (l_regs _ _ Hl) as [Hro Hrf]. destruct (Z.eqb_spec rd 0) as [->|Hne].
  - injection Ha as <-. exists (reg_ready_ p). split; [by destruct p|].
    split; [done|]. split; [done|]. split; [|split; [|split; [done|done]]].
    + intros x _ Hx. destruct (decide (x = InfTime)) as [->|]; [|by apply live_set].
      destruct Hx as [?|(t & Ht & Hb)]; [done | by apply (live_dec _ _ t)].
    + intros Hs. by apply (stuck_pos _ _ _ Hl) in Hs.
  - res_inv Ha. res_inv Ha. subst a. apply vec_set_Ok in Ha0 as [Hlen ->].
    pose proof (stuck_insert (view p) (view (p <| reg_ready_ := <[Z.to_nat rd := u]> (reg_ready_ p) |>)) rd u) as Hs.
    eexists. split; [done|]. split; [apply list.Forall_insert; [done | lia]|].
    split; [by apply (live_reg l (view p) rd u 0)|].
    split; [intros x Hd Hx; by apply (live_reg l (view p) rd u x)|]. split; [|split].
    + intros Hx. apply Hs in Hx; [|done|exact Hlen|lia]. rewrite decide_True in Hx by done. lia.
    + intros r Hx. pose proof (stuck_range _ _ Hx). apply Hs in Hx; [|done|exact Hlen|lia]. case_decide; [lia | done].
    + intros d Hd Hdue. by apply (due_reg d (view p)).
Qed.

Lemma reg_time_live {P} (p p' : Pipeline P) l rd u : update_reg_time now rd u p = Ok p' → live l (view p) →
  0 <= rd < 32 → u < InfTime → reg_set u rd l p p'.
Proof.
  intros E Hl Hrd Hu. unfold update_reg_time in E. res_inv E. res_inv E. res_inv E. res_inv E. res_inv E. subst p'. clear Ha1.
  destruct (reg_write_live p a l rd u Ha Hl Hrd Hu) as (rr & Ea & Hle & Hl1 & Hl2 & Hfree & Hst & Hdue).
  assert (slot Fetch a = slot Fetch p ∧ get Decode (stage_update_ a) = get Decode (stage_update_ p)) as [Es Et] by (by subst a).
  change (at_F (sim_pipe_ a)) with (slot Fetch a) in Ha0. change (at_D (stage_update_ a)) with (get Decode (stage_update_ a)) in Ha0.
  rewrite Es, Et in Ha0. change (get Decode (stage_update_ p)) with (time Decode (view p)) in Ha0.
  assert (a0 = a → time Decode (view p) ≠ InfTime → reg_set u rd l p a0) as Hsame.
  { intros -> Hne. constructor; [by apply Hl1 | done | done | intros d _ ? ?; by apply Hdue | | intros _; by subst a].
    exists rr, (get Decode (stage_update_ p)). subst a. by destruct p as [??????? [] ?????????]. }
  destruct (Z.eqb_spec (time Decode (view p)) InfTime) as [Hi|Hni]; [|apply Hsame; [|done]; case_match; by injection Ha0].
  destruct (l_dec _ _ Hl Hi) as (t & Ht & Hb). change (at_ Fetch (view p)) with (slot Fetch p) in Ht. rewrite Ht in Ha0.
  assert (negb (src_reg0 (trace_inst t) =? 0) || negb (src_reg1 (trace_inst t) =? 0) = true) as Hsrc.
  { destruct Hb as (r & Hr & Hs). pose proof (stuck_pos _ _ _ Hl Hs). apply orb_true_iff. rewrite !negb_true_iff, !Z.eqb_neq.
    destruct Hr as [->| ->]; auto. }
  rewrite Hsrc in Ha0. cbn [andb] in Ha0. res_inv Ha0.
  rename a3 into ready, Ha1 into Hrdy.
  destruct (src_ready_spec a (trace_inst t) ready Hrdy) as (Hr1 & Hr2 & Hr3); [by subst a|].
  assert (∀ x, (x = now + 1 ∨ x = ready) → a0 = a <| stage_update_ ::= put Decode x |> → reg_set u rd l p a0) as Hset.
  { intros x Hx ->. assert (x ≠ InfTime ∨ ∃ t, at_ Fetch (view p) = Some t ∧ blocked (view a) t) as Hx'.
    { destruct (decide (x = InfTime)) as [->|]; [|by left]. right. exists t. split; [done|].
      destruct Hx as [Hx|Hx]; [unfold InfTime in *; lia|]. by apply Hr3. }
    constructor.
    - by apply (Hl2 x).
    - exact Hfree.
    - exact Hst.
    - intros d Hd Hud Hdd. apply (due_set Decode x (view a)); [by apply Hdue|]. left.
      destruct Hx as [->| ->]; [left; lia|]. apply Hr2. apply (d_reg _ _ (Hdue d Hud Hdd)).
    - exists rr, x. by subst a.
    - done. }
  destruct (ready <=? now).
  - rewrite u64_small in Ha0 by (unfold InfTime in *; lia). unfold schedule in Ha0. res_inv Ha0. res_inv Ha0.
    apply (Hset (now + 1)); [by left | done].
  - unfold schedule in Ha0. res_inv Ha0. res_inv Ha0. apply (Hset ready); [by right | done].
Qed.

(** *** From decode to execute or an extension unit *)

Definition unit_slot (s : PipeStage) : Prop := s = Execute ∨ s = IntMulExt ∨ s = IntDivExt.

Lemma live_hand_over l v s t : live l v → unit_slot s → at_ Decode v = Some t → at_ s v = None →
  (stuck v (dst t) → s = Execute ∧ mem_op (trace_inst t) = MemLoad) → wait_mem t = false →
  live l (set_at Decode None (set_at s (Some t) v)).
Proof.
  intros [] Hs Hd Hn Hst Hw. constructor; try done.
  - intros Hi. destruct (l_mem0 Hi) as (t' & Ht & Hm). exists t'. split; [|done]. rewrite !at_set.
    rewrite decide_False by done. rewrite decide_False; [done|]. intros <-. by rewrite Hn in Ht.
  - intros Hi. destruct (l_dec0 Hi) as (t' & Ht & Hm). exists t'. split; [|done]. rewrite !at_set.
    rewrite decide_False by done. rewrite decide_False; [done|]. by destruct Hs as [-> | [-> | ->]].
  - intros r Hr. right. destruct (l_prod0 r Hr) as [(t' & Ht & Hdt)|(t' & Ht & Hm & Hdt)].
    + rewrite Hd in Ht. injection Ht as <-. rewrite <- Hdt in Hr. destruct (Hst Hr) as [-> Hld].
      exists t. by rewrite !at_set.
    + exists t'. split; [|done]. rewrite !at_set. rewrite decide_False by done. rewrite decide_False; [done|].
      intros <-. by rewrite Hn in Ht.
  - intros s' t' Hs' Ht. rewrite !at_set in Ht. rewrite decide_False in Ht by (by destruct Hs' as [-> | ->]).
    case_decide as He; [|by apply (l_mext0 s')]. injection Ht as <-. intros Hx. destruct (Hst Hx) as [-> _].
    by destruct Hs' as [-> | ->].
  - intros s' t' Ht. rewrite !at_set in Ht. case_decide; [done|]. case_decide; [|by apply (l_slot0 s')].
    injection Ht as <-. by apply (l_slot0 Decode).
  - intros t' Ht Hw'. rewrite !at_set in Ht. rewrite decide_False in Ht by done. case_decide; [|by apply l_wait0].
    injection Ht as <-. congruence.
Qed.

Lemma rank_hand_over l v s t : unit_slot s → at_ Decode v = Some t → at_ s v = None → counted_inflight t = true →
  rank l (set_at Decode None (set_at s (Some t) v)) < rank l v.
Proof.
  intros Hs Hd Hn Hc. unfold rank. change (v_in (set_at _ _ (set_at _ _ v))) with (v_in v).
  change (v_early (set_at _ _ (set_at _ _ v))) with (v_early v).
  destruct Hs as [-> | [-> | ->]]; slots; rewrite Hd, Hn; simpl; rewrite Hc; try destruct (wait_mem t); simpl; lia.
Qed.

(** *** Decode *)

Lemma live_decode l v t rr u : live l v → at_ Decode v = None → at_ Fetch v = Some t → u ≠ InfTime →
  0 <= dst t < 32 → (rr = v_reg v ∧ dst t = 0 ∨ rr = <[Z.to_nat (dst t) := InfTime]> (v_reg v) ∧ dst t ≠ 0) →
  (∀ s t', s = IntMulExt ∨ s = IntDivExt → at_ s v = Some t' → dst t ≠ 0 → dst t' ≠ dst t) →
  live l (set_at Fetch None (set_at Decode (Some t) (set_time Decode u (v <| v_reg := rr |>)))).
Proof.
  intros Hl Hd Hf Hu Hr Hrr Hw. pose proof Hl as []. destruct l_regs0 as [Hro Hrf].
  assert (0 <= dst t < zlen (v_reg v)) as Hlen by (destruct Hro as [-> _]; lia).
  set (v' := set_at _ _ _).
  assert (∀ r, stuck v' r → r = dst t ∧ dst t ≠ 0 ∨ stuck v r) as Hst.
  { intros r Hs. pose proof (stuck_range _ _ Hs) as Hr0. destruct Hrr as [[-> _]|[-> Hne]]; [by right|].
    apply (stuck_insert v v' (dst t) InfTime) in Hs; [|done..]. case_decide; [by left | by right]. }
  constructor; try done.
  - intros s H1 H2 H3. change (time s v') with (time s (set_time Decode u v)). rewrite time_set, decide_False by done.
    by apply l_fin0.
  - intros r Hs. destruct (Hst r Hs) as [[-> _]|Hs']; [by left; exists t|].
    destruct (l_prod0 r Hs') as [(t' & Ht & _)|H]; [by rewrite Hd in Ht | by right].
  - intros s t' Hs Ht Hx. assert (at_ s v = Some t') as Ht' by (by destruct Hs as [-> | ->]).
    destruct (Hst _ Hx) as [[E Hne]|Hx']; [by apply (Hw s t' Hs Ht') | by apply (l_mext0 s t' Hs Ht')].
  - change (v_reg v') with rr. destruct Hrr as [[-> _]|[-> Hne]]; [done|].
    destruct (regs_set (v_reg v) (dst t) InfTime Hro Hr Hne) as (l' & E & Hok). apply vec_set_Ok in E as [_ ->].
    split; [done | by apply list.Forall_insert].
  - intros s t' Ht. unfold v' in Ht. rewrite !at_set in Ht. case_decide; [done|]. case_decide; [|by apply (l_slot0 s)].
    injection Ht as <-. by apply (l_slot0 Fetch).
Qed.

Lemma rank_decode l v t rr u : at_ Decode v = None → at_ Fetch v = Some t → counted_inflight t = true →
  rank l (set_at Fetch None (set_at Decode (Some t) (set_time Decode u (v <| v_reg := rr |>)))) < rank l v.
Proof.
  intros Hd Hf Hc. unfold rank. cbn [v_in v_early set_at set_time over]. slots.
  change (at_ ?s (set_time Decode u (v <| v_reg := rr |>))) with (at_ s v). rewrite Hd, Hf. simpl. rewrite Hc. simpl. lia.
Qed.

(** *** Fetch *)

Lemma live_flush l v u : live l v → time Decode v ≠ InfTime →
  live [] (set_at Fetch None v <| v_early := 0 |> <| v_resume := u |>).
Proof.
  intros [] Hd. constructor; try done.
  - intros s t Hs Ht. apply (l_mext0 s t Hs). by destruct Hs as [-> | ->].
  - intros s t Ht. change (at_ s (set_at Fetch None v) = Some t) in Ht. rewrite at_set in Ht. case_decide; [done|].
    by apply (l_slot0 s).
Qed.

Lemma rank_flush l v u : live l v → rank [] (set_at Fetch None v <| v_early := 0 |> <| v_resume := u |>) <= rank l v.
Proof.
  intros Hl. pose proof (lrank_nonneg _ _ Hl). pose proof (l_early _ _ Hl). pose proof (counted_nonneg (at_ Fetch v)). unfold rank.
  change (at_ ?s (set_at Fetch None v <| v_early := 0 |> <| v_resume := u |>)) with (at_ s (set_at Fetch None v)).
  change (v_in (set_at Fetch None v <| v_early := 0 |> <| v_resume := u |>)) with (v_in v).
  change (v_early (set_at Fetch None v <| v_early := 0 |> <| v_resume := u |>)) with 0.
  slots. cbn [lrank]. lia.
Qed.

(** The first entry of the queue: its hold passes, or it goes to the fetch stage. *)
Lemma live_hold l v t : live (t :: l) v → 0 < bp_meta_hold t → live ((t <| bp_meta_hold ::= Z.pred |>) :: l) v.
Proof.
  intros [] Ht. constructor; try done. apply Forall_cons_iff in l_queue0 as [[H1 H2] H3].
  apply Forall_cons_iff. split; [split; [done | simpl; lia] | done].
Qed.

Lemma live_pop l v t : live (t :: l) v → at_ Fetch v = None → live l (set_at Fetch (Some t) v).
Proof.
  intros [] Hf. constructor; try done.
  - intros Hi. destruct (l_dec0 Hi) as (t' & Ht & _). by rewrite Hf in Ht.
  - intros s t' Hs Ht. apply (l_mext0 s t' Hs). by destruct Hs as [-> | ->].
  - intros s t' Ht. rewrite at_set in Ht. case_decide; [|by apply (l_slot0 s)]. injection Ht as <-.
    by apply Forall_cons_iff in l_queue0 as [[? _] _].
  - by apply Forall_cons_iff in l_queue0 as [_ ?].
Qed.

Lemma rank_pop l v t : live (t :: l) v → at_ Fetch v = None → counted_inflight t = true →
  rank l (set_at Fetch (Some t) v) < rank (t :: l) v.
Proof.
  intros [] Hf Hc. apply Forall_cons_iff in l_queue0 as [[_ Hh] _]. unfold rank.
  change (v_in (set_at Fetch (Some t) v)) with (v_in v). change (v_early (set_at Fetch (Some t) v)) with (v_early v).
  slots. rewrite Hf. cbn [lrank counted]. unfold qrank. rewrite Hc. simpl. lia.
Qed.

Lemma rank_pop_wrong l v t : at_ Fetch v = None → counted_inflight t = false →
  rank l (set_at Fetch (Some t) v) = rank (t :: l) v.
Proof.
  intros Hf Hc. unfold rank.
  change (v_in (set_at Fetch (Some t) v)) with (v_in v). change (v_early (set_at Fetch (Some t) v)) with (v_early v).
  slots. rewrite Hf. cbn [lrank counted]. unfold qrank. rewrite Hc. simpl. lia.
Qed.

(** A fetch joins the queue. *)
Lemma live_push l v t i e r : live l v → runnable (trace_inst t) → 0 <= bp_meta_hold t <= 2 → 0 <= e <= 2 →
  (i = v_in v ∨ i = None) → live (l ++ [t]) (v <| v_in := i |> <| v_early := e |> <| v_resume := r |>).
Proof.
  intros [] Ht Hh He Hi. constructor; try done.
  - intros t' Ht'. simpl in Ht'. apply l_input0. by destruct Hi as [-> | ->].
  - apply Forall_app. split; [done|]. by apply Forall_cons.
Qed.
End moves.
End CoreRank.
