(* ===== verification/CoreStages.v ===== *)
(** * The stages make progress

    The handlers of the core, seen through [CoreRank]: each moves an instruction
    towards write-back, or only chooses the time when it looks again. *)

From S2P Require Import Prelude Types Trace BranchPred BranchUnit Btb Ras CacheEnv Ifq Pipeline PipelineSafe PipelineRun CoreRank.

Module CoreStages.
Import Pipe PipeSafe PipeRun CoreRank.

(** ** What the handlers do to the view *)

Lemma view_flush_stall {P} n (p : Pipeline P) : view (flush_stall_cycles n p) = view p.
Proof.
  unfold flush_stall_cycles. cbv zeta. destruct (_ <=? _); [done|].
  destruct (in_br_recovery (stall_ p) && negb (bool_decide (cause (stall_ p) = NoStall))); [done|]. by destruct (cause (stall_ p)).
Qed.
Lemma view_set_stall {P} n c (p : Pipeline P) : view (set_stall n c p) = view p.
Proof. unfold set_stall. destruct (decide _); [done|]. etransitivity; [|apply (view_flush_stall n)]. done. Qed.
Lemma queue_flush_stall {P} n (p : Pipeline P) :
  fetch_queue_ (flush_stall_cycles n p) = fetch_queue_ p ∧ fetch_ (flush_stall_cycles n p) = fetch_ p.
Proof.
  unfold flush_stall_cycles. cbv zeta. destruct (_ <=? _); [done|].
  destruct (in_br_recovery (stall_ p) && negb (bool_decide (cause (stall_ p) = NoStall))); [done|]. by destruct (cause (stall_ p)).
Qed.
Lemma view_sched {P} s u (p : Pipeline P) : view (p <| stage_update_ ::= put s u |>) = set_time s u (view p).
Proof. done. Qed.
Lemma rank_time l s u v : rank l (set_time s u v) = rank l v.
Proof. done. Qed.
Lemma view_queue {P} (p : Pipeline P) q : IFQ.cap_ q = IFQ.cap_ (fetch_queue_ p) → view (p <| fetch_queue_ := q |>) = view p.
Proof. intros E. unfold view. simpl. by rewrite E. Qed.
Lemma view_commit {P} n s t (p : Pipeline P) :
  view (commit n s t p) = set_at s None (view p) ∧ fetch_queue_ (commit n s t p) = fetch_queue_ p.
Proof.
  unfold commit. cbv zeta. set (p1 := p <| ongoing_insts_ ::= _ |>).
  pose proof (view_flush_stall n p1) as E. destruct (queue_flush_stall n p1) as [Eq _].
  set (p2 := flush_stall_cycles n p1) in *. split; [|exact Eq].
  transitivity (set_at s None (view p2)); [done | by rewrite E].
Qed.
Lemma set_time_same s v : set_time s (time s v) v = v.
Proof. unfold set_time, time, over. simpl. rewrite put_get. by destruct v. Qed.

Lemma wp_and {S A} (m : ST S A) (Q1 Q2 : A → S → Prop) s : wp m Q1 s → wp m Q2 s → wp m (λ a s', Q1 a s' ∧ Q2 a s') s.
Proof. unfold wp. by destruct (m s) as [[a s']|]. Qed.

Lemma view_stall {P} n c (p : Pipeline P) b : view (if b : bool then set_stall n c p else p) = view p.
Proof. destruct b; [apply view_set_stall | done]. Qed.

(** ** The stages *)

Section handlers.
Context {P : Type} `{DirPredictor P} (binv : P → Prop) `{!DirPredictorLaws P binv} (k w : Z).
Implicit Types (p : Pipeline P) (h : Ports) (l : list Transaction) (v : View) (st : Pipeline P * Ports).
#[local] Notation core := (core binv k w).

(** The rank falls. *)
Definition moved l v (now : Z) l' v' : Prop :=
  live l' v' ∧ rank l' v' < rank l v ∧ ∀ d, now + 36 <= d → due d v → due d v'.

(** What it takes for stage [s] to move an instruction, once its time has come. *)
Definition sure (s : PipeStage) l v h : Prop :=
  let now := t_now h in
  match s with
  | WriteBack => at_ Memory v ≠ None ∨
      at_ Execute v = None ∧ (at_ IntDivExt v ≠ None ∧ v_div v <= now ∨ at_ IntMulExt v ≠ None ∧ v_mul v <= now)
  | Memory => ∃ t, at_ Execute v = Some t ∧ wait_mem t = false ∧ at_ Memory v = None ∧ ∀ po, t_drdy h po = (true, true)
  | Execute => ∃ t, at_ Decode v = Some t ∧ at_ Execute v = None ∧ ext_op (trace_inst t) = ExtNone
  | IntMulExt => ∃ t, at_ Decode v = Some t ∧ at_ IntMulExt v = None ∧ ext_op (trace_inst t) ∈ [IntMulH; IntMulL]
  | IntDivExt => ∃ t, at_ Decode v = Some t ∧ at_ IntDivExt v = None ∧ ext_op (trace_inst t) ∈ [IntDiv; IntRem]
  | Decode => ∃ t, at_ Fetch v = Some t ∧ at_ Decode v = None ∧ at_ IntMulExt v = None ∧ at_ IntDivExt v = None ∧
      ∀ r x, r = src_reg0 (trace_inst t) ∨ r = src_reg1 (trace_inst t) → vec_at (v_reg v) r = Ok x → x <= now
  | Fetch => at_ Fetch v = None ∧ ∃ t l', l = t :: l' ∧ wait_mem t = false
  end.

(** A handler of stage [s] moves an instruction, and certainly if [must], or only
    schedules its stage, for a time already waited for or the next tick. *)
Definition outcome (s : PipeStage) (must : Prop) l st st' : Prop :=
  ∃ l', IFQ.holds l' (fetch_queue_ st'.1) ∧
    (moved l (view st.1) (t_now st.2) l' (view st'.1) ∨
     ¬ must ∧ l' = l ∧ st'.2 = st.2 ∧ live l (view st'.1) ∧ (∃ u, view st'.1 = set_time s u (view st.1)) ∧
     ∀ d, t_now st.2 + 1 <= d → due d (view st.1) → due d (view st'.1)).

Lemma outcome_idle s (must : Prop) l p h p' u : IFQ.holds l (fetch_queue_ p') → ¬ must →
  view p' = set_time s u (view p) → live l (set_time s u (view p)) →
  (s = Fetch ∨ u = InfTime ∨ ∀ d, t_now h + 1 <= d → due d (view p) → u <= d) →
  outcome s must l (p, h) (p', h).
Proof.
  intros Hq Hs E Hl Hu. exists l. split; [done|]. right. cbn [fst snd]. rewrite E. do 4 (split; [done|]). split; [by exists u|].
  intros d Hd Hdd. apply due_set; [done|]. destruct Hu as [->|[->|Hu]]; [by right | left; by right | left; left; by apply Hu].
Qed.

Lemma outcome_same s (must : Prop) l p h : IFQ.holds l (fetch_queue_ p) → ¬ must → live l (view p) → outcome s must l (p, h) (p, h).
Proof.
  intros Hq Hs Hl. exists l. split; [done|]. right. do 4 (split; [done|]). split; [|done].
  exists (time s (view p)). by rewrite set_time_same.
Qed.

Lemma outcome_moved s (must : Prop) l p h l' p' h' : IFQ.holds l' (fetch_queue_ p') →
  live l' (view p') → rank l' (view p') < rank l (view p) → (∀ d, t_now h + 36 <= d → due d (view p) → due d (view p')) →
  outcome s must l (p, h) (p', h').
Proof. intros Hq Hl Hr Hd. exists l'. split; [done|]. by left. Qed.

Lemma writeback_live l p h : core false false l p h → live l (view p) → prev_stage_valid (t_now h) WriteBack p = true →
  wp do_writeback (λ _, outcome WriteBack (sure WriteBack l (view p) h) l (p, h)) (p, h).
Proof.
  intros Hc Hl Hv. pose proof (c_tick Hc) as [Ht1 Ht2]. unfold do_writeback. pstep.
  destruct (commit_source (t_now h) p) as [s|] eqn:Es.
  - destruct (commit_source_spec _ _ _ Es) as (Hs & t & Ht). pstep. apply (wp_deref _ t); [exact Ht|]. pstep.
    rewrite (soon (t_now h) 1) by lia. rewrite schedule_Ok by lia. eexists. split; [done|].
    assert (counted_inflight t = true) as Hcnt by (apply (c_slots Hc s t Ht); by destruct Hs as [-> | [-> | ->]]).
    destruct (view_commit (t_now h) s t p) as [Ev Eq]. generalize dependent (commit (t_now h) s t p). intros p1 Ev Eq.
    cbn [fst snd]. apply (outcome_moved _ _ _ _ _ l); rewrite ?view_sched, ?Ev.
    + change (IFQ.holds l (fetch_queue_ p1)). rewrite Eq. apply (c_q Hc).
    + apply live_set; [|unfold InfTime in *; lia]. by apply live_commit.
    + rewrite rank_time. by apply (rank_commit l (view p) s t).
    + intros d Hd Hdd. apply due_set; [by apply due_slots | left; left; lia].
  - pstep. rewrite (soon (t_now h) 1) by lia. rewrite schedule_Ok by lia. eexists. split; [done|].
    set (u := Z.max _ _). destruct (l_units _ _ Hl) as [Hm Hd]. unfold prev_stage_valid in Hv.
    change (v_mul (view p)) with (mul_ready_tick_ p) in Hm. change (v_div (view p)) with (div_ready_tick_ p) in Hd.
    unfold commit_source in Es. destruct (slot Memory p) eqn:EM; [done|]. cbn [present orb] in Es, Hv.
    change (at_X (sim_pipe_ p)) with (slot Execute p) in *. change (at_Mul (sim_pipe_ p)) with (slot IntMulExt p) in *.
    change (at_Div (sim_pipe_ p)) with (slot IntDivExt p) in *.
    assert (u <= mul_ready_tick_ p ∨ u <= div_ready_tick_ p ∨ u <= t_now h + 1) as Hu.
    { unfold u. destruct (present (slot IntDivExt p)), (present (slot IntMulExt p)); try done; lia. }
    apply (outcome_idle _ _ _ _ _ _ u); [exact (c_q Hc) | | done | |].
    + intros [?|[HX Hx]]; [done|]. change (at_ ?s (view p)) with (slot s p) in *.
      change (v_mul (view p)) with (mul_ready_tick_ p) in Hx. change (v_div (view p)) with (div_ready_tick_ p) in Hx.
      rewrite HX in Es. cbn [present negb andb] in Es. destruct Hx as [[Hx Hy]|[Hx Hy]]; apply Z.leb_le in Hy; rewrite Hy in Es.
      * rewrite andb_true_r in Es. by destruct (slot IntDivExt p).
      * rewrite andb_true_r in Es. destruct (present (slot IntDivExt p) && _); [done|]. by destruct (slot IntMulExt p).
    + apply live_set; [done|]. unfold InfTime in *. lia.
    + right; right. intros d Hd' []. simpl in *. lia.
Qed.

(** *** Memory *)

Lemma slot_view s p : at_ s (view p) = slot s p.
Proof. done. Qed.

Lemma view_set_at s o p : view (set_slot s o p) = set_at s o (view p).
Proof. done. Qed.

Lemma view_wait b p t : slot Execute p = Some t → view (set_wait b p) = set_at Execute (Some (t <| wait_mem := b |>)) (view p).
Proof. intros E. unfold set_wait, modify_slot. rewrite E. by rewrite view_set_at. Qed.

Lemma view_to_memory p t : slot Execute p = Some t → view (move_to_memory p) = set_at Execute None (set_at Memory (Some t) (view p)).
Proof. intros E. unfold move_to_memory. rewrite E. by rewrite !view_set_at. Qed.

Lemma is_mem_load t : mem_op (trace_inst t) = MemLoad → is_mem t.
Proof. unfold is_mem. by intros ->. Qed.
Lemma is_mem_store t : mem_op (trace_inst t) = MemStore → is_mem t.
Proof. unfold is_mem. by intros ->. Qed.

(** The request of a load or store is sent if the port takes it. *)
Lemma send_live bw bd l p h po a d m (b : bool) (Q : unit → Pipeline P * Ports → Prop) : core bw bd l p h → t_lsu h = None →
  (¬ (∀ po, t_drdy h po = (true, true)) → Q tt (p <| stage_update_ ::= put Memory InfTime |>, h)) →
  (∀ h', t_now h' = t_now h → Q tt (set_wait true (p <| stage_update_ ::= put Memory InfTime |>), h')) →
  wp (send_lsu_req po a d m b) Q (p, h).
Proof.
  intros Hc Hlsu HQ1 HQ2. pose proof (c_tick Hc). unfold send_lsu_req. pstep.
  change (lsu_ready po h) with (t_drdy h po). destruct (t_drdy h po) as [rd wr] eqn:Edr. pstep.
  rewrite schedule_Ok by lia. eexists. split; [done|]. pstep.
  destruct (if b then wr else rd) eqn:Er.
  - pstep. cbn [fst snd].
    assert (∀ mo, (if is_Read mo then rd else wr) = true → wp (lsu_request po mo)
      (λ _ e, Q tt (set_wait true (p <| stage_update_ ::= put Memory InfTime |>), e)) h) as Hreq.
    { intros mo Hr. unfold wp, lsu_request. rewrite Hlsu, Edr. destruct mo; simpl in Hr; rewrite Hr; by apply HQ2. }
    destruct b; pstep; (eapply wp_mono; [by apply Hreq|]); intros [] e He; exact He.
  - apply HQ1. intros Hall. rewrite Hall in Edr. injection Edr as <- <-. by destruct b.
Qed.

Lemma sent_live bw bd l p h t must p' h' : core bw bd l p h → live l (view p) → slot Execute p = Some t →
  counted_inflight t = true → wait_mem t = false → is_mem t →
  view p' = set_at Execute (Some (waiting t)) (set_time Memory InfTime (view p)) → fetch_queue_ p' = fetch_queue_ p →
  outcome Memory must l (p, h) (p', h').
Proof.
  intros Hc Hl Hx Hcnt Hw Hmem Ev Eq. apply (outcome_moved _ _ _ _ _ l); rewrite ?Ev, ?Eq.
  - apply (c_q Hc).
  - apply live_send; [by apply (live_mem _ _ t) | done | done].
  - by apply (rank_send l (view p) t).
  - intros d Hd Hdd. apply due_slots, due_set; [done | left; by right].
Qed.

Lemma memory_live bw bd l p h t : core bw bd l p h → live l (view p) → slot Execute p = Some t → slot Memory p = None →
  get Memory (stage_update_ p) <= t_now h →
  wp do_memory (λ _, outcome Memory (sure Memory l (view p) h) l (p, h)) (p, h).
Proof.
  intros Hc Hl Hx Hm Htm. pose proof (c_tick Hc) as [Ht1 Ht2]. pose proof (c_nc Hc) as Hnc. pose proof (c_lsu Hc) as Hlsu.
  rewrite Hx in Hlsu. destruct Hlsu as [Hlsu _].
  assert (counted_inflight t = true) as Hcnt by (by apply (c_slots Hc Execute t Hx)).
  unfold do_memory. pstep. rewrite Hx. split; [done|]. pstep. apply (wp_deref _ t); [done|].
  rewrite Hnc. rewrite andb_false_r. destruct (wait_mem t) eqn:Hw.
  { pstep. rewrite schedule_Ok by lia. eexists. split; [done|].
    apply (outcome_idle _ _ _ _ _ _ InfTime); [apply (c_q Hc) | | done | | by auto].
    - intros (t' & Ht & Hf & _). rewrite slot_view, Hx in Ht. injection Ht as <-. congruence.
    - apply (live_mem _ _ t); [done | done |]. by apply (l_wait _ _ Hl). }
  assert (t_lsu h = None) as Hno by (by destruct (t_lsu h)).
  remember (set_stall (t_now h) LsuStall p) as p1 eqn:Ep1.
  pose proof (view_set_stall (t_now h) LsuStall p) as Ev. rewrite <- Ep1 in Ev.
  destruct (set_stall_frame (t_now h) LsuStall p) as (_ & _ & _ & Eq & _). rewrite <- Ep1 in Eq.
  assert (core bw bd l p1 h) as Hc1 by (rewrite Ep1; by apply core_stall).
  assert (slot Execute p1 = Some t) as Hx1 by (by rewrite <- slot_view, Ev).
  assert (is_mem t → ¬ (∀ po, t_drdy h po = (true, true)) →
    outcome Memory (sure Memory l (view p) h) l (p, h) (p1 <| stage_update_ ::= put Memory InfTime |>, h)) as Hidle.
  { intros Hmem Hn. apply (outcome_idle _ _ _ _ _ _ InfTime); [apply (c_q Hc1) | | by rewrite view_sched, Ev | | by auto].
    - by intros (t' & _ & _ & _ & Hr).
    - by apply (live_mem _ _ t). }
  assert (view (set_wait true (p1 <| stage_update_ ::= put Memory InfTime |>)) =
    set_at Execute (Some (waiting t)) (set_time Memory InfTime (view p))) as Ew.
  { rewrite (view_wait true _ t) by exact Hx1. by rewrite view_sched, Ev. }
  destruct (Z.eqb_spec (mem_op (trace_inst t)) MemLoad) as [El|Hnl];
    [|destruct (Z.eqb_spec (mem_op (trace_inst t)) MemStore) as [Est|Hns]].
  - pstep. rewrite <- Ep1. apply (send_live bw bd l); [done | done | by apply Hidle, is_mem_load |].
    intros h' _. apply (sent_live bw bd _ _ _ t); try done. by apply is_mem_load.
  - pstep. rewrite <- Ep1. apply (send_live bw bd l); [done | done | |].
    + intros Hn. pstep. rewrite schedule_Ok by lia. eexists. split; [done|].
      specialize (Hidle (is_mem_store _ Est) Hn). exact Hidle.
    + intros h' Et. pstep. rewrite schedule_Ok by lia. eexists. split; [done|].
      apply (sent_live bw bd _ _ _ t); try done. by apply is_mem_store.
  - pstep. rewrite (soon (t_now h) 1) by lia. rewrite schedule_Ok by lia. eexists. split; [done|]. pstep.
    apply (outcome_moved _ _ _ _ _ l); rewrite ?(view_to_memory _ t) by exact Hx; rewrite ?view_sched.
    + apply (c_q Hc).
    + apply live_to_memory; [apply live_set; [done | unfold InfTime in *; lia] | done | | done].
      rewrite time_set, decide_True by done. unfold InfTime in *; lia.
    + by apply (rank_to_memory l (view p) t).
    + intros d Hd Hdd. apply due_slots, due_slots, due_set; [done | left; left; lia].
Qed.

(** *** The extension units *)

Lemma live_mul l v u : live l v → u < InfTime → live l (v <| v_mul := u |>).
Proof. intros [] Hu. constructor; try done. by destruct l_units0. Qed.
Lemma live_div l v u : live l v → u < InfTime → live l (v <| v_div := u |>).
Proof. intros [] Hu. constructor; try done. by destruct l_units0. Qed.

(** What decode holds leaves it. *)
Lemma view_hand_over s p t : slot Decode p = Some t → view (hand_over s p) = set_at Decode None (set_at s (Some t) (view p)).
Proof. intros E. unfold hand_over. rewrite E. by rewrite !view_set_at. Qed.

Lemma issue_live bw l p h t s lat f (Q : Prop) : core bw false l p h → slot Decode p = Some t → slot s p = None →
  s = IntMulExt ∨ s = IntDivExt → 0 <= lat <= 34 →
  core bw false l (f p) h → sim_pipe_ (f p) = sim_pipe_ p → fetch_queue_ (f p) = fetch_queue_ p → live l (view (f p)) →
  rank l (view (f p)) = rank l (view p) → (∀ d, t_now h + lat <= d → due d (view p) → due d (view (f p))) →
  wp (issue_mext (t_now h) lat s t f) (λ _, outcome s Q l (p, h)) (p, h).
Proof.
  intros Hc Hd Hs Hcase Hlat Hcf Ef Eqf Hlf Hrf Hdf. destruct (c_slots Hc _ _ Hd) as (Hok & Hw & Hcnt).
  pose proof (c_tick Hc) as [Ht1 Ht2]. pose proof Hok as ((_ & Hrd & _) & _).
  unfold issue_mext. rewrite wp_bind. apply flush_false_nop; [done|]. pstep. rewrite (soon (t_now h) lat) by lia.
  destruct (update_reg_time_Ok (t_now h) (dst_reg (trace_inst t)) (t_now h + lat) (f p))
    as (rr & x & E & _); [apply Hcf | done | lia | lia | intros y Hy; by apply (c_slots Hcf Fetch) |].
  eexists. split; [exact E|]. pstep.
  destruct (reg_time_live (t_now h) Ht1 Ht2 (f p) _ l (dst_reg (trace_inst t)) (t_now h + lat) E Hlf Hrd) as [Hl2 Hfree _ Hdue _ _];
    [unfold InfTime in *; lia|].
  set (p2 := f p <| reg_ready_ := rr |> <| stage_update_ ::= put Decode x |>) in *.
  rewrite schedule_Ok by lia. eexists. split; [done|]. pstep. rewrite async_Ok by lia. eexists. split; [done|]. pstep.
  match goal with |- outcome _ _ _ _ (set_slot Decode None (set_slot s (slot Decode ?q) ?q), _) => set (p3 := q) end.
  assert (view p3 = set_time WriteBack (t_now h + lat) (set_time s (t_now h + lat) (view p2))) as E3 by done.
  assert (slot Decode p3 = Some t ∧ slot s p3 = None) as [Hd3 Hs3].
  { unfold slot in *. change (sim_pipe_ p3) with (sim_pipe_ (f p)). by rewrite Ef. }
  apply (outcome_moved _ _ _ _ _ l).
  - change (IFQ.holds l (fetch_queue_ (f p))). rewrite Eqf. apply (c_q Hc).
  - fold (hand_over s p3). rewrite (view_hand_over s p3 t Hd3). apply live_hand_over.
    + rewrite E3. apply live_set; [apply live_set; [done|] |]; unfold InfTime in *; lia.
    + by destruct Hcase as [-> | ->]; unfold unit_slot; auto.
    + done.
    + done.
    + rewrite E3. intros Hx. by destruct Hfree.
    + by apply Hw.
  - fold (hand_over s p3). rewrite (view_hand_over s p3 t Hd3). rewrite <- Hrf.
    change (rank l (view (f p))) with (rank l (view p3)). apply rank_hand_over; try done; [|by apply Hcnt].
    by destruct Hcase as [-> | ->]; unfold unit_slot; auto.
  - intros d Hd' Hdd. fold (hand_over s p3). rewrite (view_hand_over s p3 t Hd3). apply due_slots, due_slots. rewrite E3.
    apply due_set; [apply due_set; [apply Hdue; [lia | lia | apply Hdf; [lia | done]] |] |]; left; left; lia.
Qed.

Lemma mul_live bw l p h t : core bw false l p h → live l (view p) → slot Decode p = Some t → slot IntMulExt p = None →
  wp do_mul_ext (λ _, outcome IntMulExt (sure IntMulExt l (view p) h) l (p, h)) (p, h).
Proof.
  intros Hc Hl Hd Hs. pose proof (c_tick Hc). unfold do_mul_ext. pstep. apply (assert_decoded_wp binv k w bw l p h t); [done | done |].
  pstep. apply (wp_deref _ t); [done|]. destruct (_ || _) eqn:Eop.
  - assert (u64 (t_now h + MulLat) = t_now h + MulLat) as Eu by (apply soon; unfold MulLat; lia).
    rewrite Eu. apply (issue_live bw); try done; [by left | by destruct Hc; constructor | |].
    + apply (live_mul l (view p) (t_now h + MulLat)); [done|]. unfold InfTime, MulLat in *. lia.
    + intros d Hdd []. by constructor.
  - pstep. apply outcome_same; [apply (c_q Hc) | | done]. intros (t' & Ht & _ & Hop). rewrite slot_view, Hd in Ht.
    injection Ht as <-. 
    apply elem_of_cons in Hop as [Hop|[Hop|Hop%elem_of_nil]%elem_of_cons]; [rewrite Hop in Eop; by vm_compute in Eop .. | done].
Qed.

Lemma div_live bw l p h t : core bw false l p h → live l (view p) → slot Decode p = Some t → slot IntDivExt p = None →
  wp do_div_ext (λ _, outcome IntDivExt (sure IntDivExt l (view p) h) l (p, h)) (p, h).
Proof.
  intros Hc Hl Hd Hs. pose proof (c_tick Hc). unfold do_div_ext. pstep. apply (assert_decoded_wp binv k w bw l p h t); [done | done |].
  pstep. apply (wp_deref _ t); [done|]. destruct (_ || _) eqn:Eop.
  - assert (u64 (t_now h + DivLat) = t_now h + DivLat) as Eu by (apply soon; unfold DivLat; lia).
    rewrite Eu. apply (issue_live bw); try done; [by right | by destruct Hc; constructor | |].
    + apply (live_div l (view p) (t_now h + DivLat)); [done|]. unfold InfTime, DivLat in *. lia.
    + intros d Hdd []. by constructor.
  - pstep. apply outcome_same; [apply (c_q Hc) | | done]. intros (t' & Ht & _ & Hop). rewrite slot_view, Hd in Ht.
    injection Ht as <-. 
    apply elem_of_cons in Hop as [Hop|[Hop|Hop%elem_of_nil]%elem_of_cons]; [rewrite Hop in Eop; by vm_compute in Eop .. | done].
Qed.

(** *** Execute *)

Definition flushed (u : Z) v : View := set_at Fetch None v <| v_early := 0 |> <| v_resume := u |>.

Lemma flush_view bw l p h t : core bw false l p h → slot Decode p = Some t → br_mispred t = true →
  ∃ p', flush_frontend (t_now h) p = Ok p' ∧ IFQ.holds [] (fetch_queue_ p') ∧ view p' = flushed (t_now h + 1) (view p).
Proof.
  intros Hc Hd Hm. pose proof (c_tick Hc) as [Ht1 Ht2]. pose proof (c_path Hc) as Hp. unfold young in Hp. rewrite Hd in Hp.
  destruct (path_mis _ _ _ _ Hp Hm) as (_ & _ & Hwr). apply Forall_app in Hwr as [HwF Hwl].
  unfold flush_frontend. set (p1 := p <| fetch_ ::= _ |>).
  rewrite (uncount_nothing l p1) by (done || exact (c_q Hc)). cbn [mbind res_bind].
  destruct (IFQ.clear_spec l (fetch_queue_ p1)) as (q & -> & Hq & Ecap); [exact (c_q Hc)|]. cbn [mbind res_bind].
  set (p2 := p1 <| fetch_queue_ := q |>).
  match goal with |- context [match slot Fetch p2 with Some _ => _ | None => _ end] =>
    set (p3 := match slot Fetch p2 with Some _ => _ | None => _ end) end.
  assert (view p3 = set_at Fetch None (view p) ∧ fetch_queue_ p3 = q) as [E3 Eq3].
  { unfold p3. change (slot Fetch p2) with (slot Fetch p). 
    assert (view p2 = view p) as E2 by (unfold p2; by rewrite (view_queue p1 q Ecap)).
    destruct (slot Fetch p) as [f|] eqn:Ef.
    - destruct (counted_inflight f); rewrite view_set_at; (split; [|done]); by rewrite <- E2.
    - split; [|done]. rewrite E2. unfold slot in Ef. destruct p as [????? [] ???????????]. simpl in Ef. by subst. }
  clearbody p3. eexists. split; [done|].
  match goal with |- context [flush_stall_cycles _ ?q] => set (p4 := q) end.
  assert (view p4 = flushed (t_now h + 1) (view p)) as E4.
  { transitivity (view p3 <| v_early := 0 |> <| v_resume := u64 (t_now h + kBranchMissPenalty) |>); [done|].
    rewrite E3. change kBranchMissPenalty with 1. by rewrite (soon (t_now h) 1) by lia. }
  destruct (queue_flush_stall (t_now h) p4) as [Eq _]. pose proof (view_flush_stall (t_now h) p4) as Ev.
  generalize dependent (flush_stall_cycles (t_now h) p4). intros p5 Eq5 Ev5.
  split; [change (IFQ.holds [] (fetch_queue_ p5)); rewrite Eq5; change (IFQ.holds [] (fetch_queue_ p3)); by rewrite Eq3|].
  change (view p5 = flushed (t_now h + 1) (view p)). by rewrite Ev5.
Qed.

(** After resolution the pipeline is ready to hand the instruction over. *)
Definition resolved_ l p h t st' : Prop :=
  st'.2 = h ∧ ∃ l', IFQ.holds l' (fetch_queue_ st'.1) ∧ live l' (view st'.1) ∧ rank l' (view st'.1) <= rank l (view p) ∧
    (∀ d, t_now h + 2 <= d → due d (view p) → due d (view st'.1)) ∧ slot Decode st'.1 = Some t ∧ slot Execute st'.1 = None ∧
    (∀ x, slot Fetch st'.1 = Some x → trans_ok x) ∧ time Decode (view st'.1) ≠ InfTime.

Lemma resolve_live bw l p h t : core bw false l p h → live l (view p) → slot Decode p = Some t → slot Execute p = None →
  wp (when (is_branch (trace_inst t)) (resolve_branch (t_now h) t)) (λ _, resolved_ l p h t) (p, h).
Proof.
  intros Hc Hl Hd Hx. pose proof (c_tick Hc) as [Ht1 Ht2]. destruct (c_slots Hc _ _ Hd) as (Hok & _ & _). pose proof Hok as ((Hpc & _) & _).
  assert (time Decode (view p) ≠ InfTime) as Hni.
  { pose proof (c_dec Hc) as Hs. rewrite Hd in Hs. specialize (Hs ltac:(done)). unfold time. simpl in *. unfold InfTime in *. lia. }
  assert (∀ p1, view p1 = view p → IFQ.holds l (fetch_queue_ p1) → resolved_ l p h t (p1, h)) as Hsame.
  { intros p1 E Hq. split; [done|]. exists l. cbn [fst snd]. rewrite <- !slot_view, E. repeat (split; [done|]).
    split; [|done]. intros x Hx'. by apply (c_slots Hc Fetch). }
  rewrite wp_when. destruct (is_branch (trace_inst t)) eqn:Eb; [|apply Hsame; [done | apply (c_q Hc)]].
  unfold resolve_branch. rewrite wp_bind. apply (bpu_update_wp binv k w bw false l); [done | done | done |]. intros b Hcb.
  set (pb := p <| bpu := b |>) in *. destruct (br_mispred t) eqn:Em; pstep; [|apply Hsame; [done | apply (c_q Hc)]].
  destruct (flush_view bw l pb h t Hcb Hd Em) as (p' & -> & Hq & Ev). eexists. split; [done|].
  split; [done|]. exists []. cbn [fst snd]. rewrite <- !slot_view, Ev. change (view pb) with (view p).
  split; [done|]. split; [by apply (live_flush l)|]. split; [by apply rank_flush|].
  split; [|split; [done|]; split; [done|]; split; [done | done]].
  intros d Hdd []. constructor; try done. simpl. lia.
Qed.

Lemma execute_live bw l p h t : core bw false l p h → live l (view p) → slot Decode p = Some t → slot Execute p = None →
  wp do_execute (λ _, outcome Execute (sure Execute l (view p) h) l (p, h)) (p, h).
Proof.
  intros Hc Hl Hd Hx. destruct (c_slots Hc _ _ Hd) as (Hok & Hw & Hcnt). pose proof Hok as ((_ & Hrd & _) & _).
  pose proof (c_tick Hc) as [Ht1 Ht2]. destruct (l_slot _ _ Hl Decode t Hd) as (Hkind & Hst & _).
  unfold do_execute. pstep. apply (assert_decoded_wp binv k w bw l p h t); [done | done |]. pstep.
  apply (wp_deref _ t); [done|]. destruct (Z.eqb_spec (ext_op (trace_inst t)) ExtNone) as [Eext|Eext]; cbn [negb].
  2: { pstep. apply outcome_same; [apply (c_q Hc) | | done].
    intros (t' & Ht & _ & Hop). rewrite slot_view, Hd in Ht. by injection Ht as <-. }
  rewrite wp_bind. eapply wp_mono; [by apply (resolve_live bw l p h t)|].
  intros [] [p1 h1] (Eh & l1 & Hq1 & Hl1 & Hr1 & Hd1 & Hdec & Hex & Hfe & Hni).
  cbn [fst snd] in *. subst h1. rewrite wp_bind. apply flush_false_nop; [done|]. rewrite wp_bind.
  eapply (wp_mono _ (λ _ st', st'.2 = h ∧ IFQ.holds l1 (fetch_queue_ st'.1) ∧ live l1 (view st'.1) ∧
    rank l1 (view st'.1) <= rank l (view p) ∧ (∀ d, t_now h + 2 <= d → due d (view p) → due d (view st'.1)) ∧
    slot Decode st'.1 = Some t ∧ slot Execute st'.1 = None ∧ (stuck (view st'.1) (dst t) → mem_op (trace_inst t) = MemLoad))).
  { rewrite wp_when. destruct (Z.eqb_spec (mem_op (trace_inst t)) MemNone) as [Em|Em].
    - pstep. set (u := if _ && _ then _ else _).
      assert (t_now h <= u <= t_now h + 2) as Hu by (unfold u; rewrite (soon (t_now h) 2) by lia; destruct (_ && _); lia).
      destruct (update_reg_time_Ok (t_now h) (dst_reg (trace_inst t)) u p1) as (rr & x & E & Hrr & _);
        [apply (l_regs _ _ Hl1) | done | lia | lia | exact Hfe |].
      eexists. split; [exact E|].
      destruct (reg_time_live (t_now h) Ht1 Ht2 p1 _ l1 (dst_reg (trace_inst t)) u E Hl1 Hrd) as [Hl2 Hfree _ Hdue _ _];
        [unfold InfTime in *; lia|].
      cbn [fst snd]. split; [done|]. split; [done|]. split; [done|]. split; [done|].
      split; [intros d Hdd Hv; apply Hdue; [lia | lia | by apply Hd1]|]. split; [done|]. split; [done|]. intros Hs. by destruct Hfree.
    - cbn [fst snd]. repeat (split; [done|]). intros Hs. destruct Hkind as [?|[?|Hk]]; [done | done|].
      exfalso. apply (stuck_pos _ _ _ Hl1 Hs). by apply Hst. }
  intros [] [p2 h2] (Eh & Hq2 & Hl2 & Hr2 & Hd2 & Hdec2 & Hex2 & Hs2). cbn [fst snd] in *. subst h2. pstep.
  rewrite (soon (t_now h) 1) by lia. rewrite schedule_Ok by lia. eexists. split; [done|].
  fold (hand_over Execute p2). apply (outcome_moved _ _ _ _ _ l1); [exact Hq2 | ..];
    rewrite view_sched, (view_hand_over Execute p2 t Hdec2).
  - apply live_set; [|unfold InfTime in *; lia]. apply live_hand_over; [done | by left | done | done | by auto | by apply Hw].
  - rewrite rank_time. eapply Z.lt_le_trans; [|exact Hr2]. apply rank_hand_over; [by left | done | done | by apply Hcnt].
  - intros d Hdd Hv. apply due_set; [|left; left; lia]. apply due_slots, due_slots. apply Hd2; [lia | done].
Qed.

(** *** Decode *)

Lemma decode_stall_live bw bd l p h u (must : Prop) : core bw bd l p h → ¬ must → t_now h <= u →
  live l (set_time Decode u (view p)) → (u = InfTime ∨ ∀ d, t_now h + 1 <= d → due d (view p) → u <= d) →
  wp (decode_stall (t_now h) u) (λ _, outcome Decode must l (p, h)) (p, h).
Proof.
  intros Hc Hm Hu Hl Hd. unfold decode_stall. rewrite wp_bind, wp_self, wp_bind. cbn [fst snd].
  apply (wp_mono _ (λ _ st', view st'.1 = view p ∧ fetch_queue_ st'.1 = fetch_queue_ p ∧ st'.2 = h)).
  { rewrite wp_when. destruct (negb _); pstep; [|done]. split; [apply view_set_stall|]. split; [|done].
    by destruct (set_stall_frame (t_now h) RAW p) as (_ & _ & _ & -> & _). }
  intros [] [p1 h1] (Ev & Eq & Eh). cbn [fst snd] in *. subst h1. pstep. rewrite schedule_Ok by done. eexists. split; [done|].
  apply (outcome_idle _ _ _ _ _ _ u); [change (IFQ.holds l (fetch_queue_ p1)); rewrite Eq; apply (c_q Hc) | done | | done |].
  - by rewrite view_sched, Ev.
  - destruct Hd as [->|Hd]; auto.
Qed.

(** It waits for a unit or a register that will be ready at [x]. *)
Lemma decode_until_live bw bd l p h x (must : Prop) : core bw bd l p h → live l (view p) → ¬ must → x < InfTime →
  (∀ d, t_now h + 1 <= d → due d (view p) → x <= d) →
  wp (decode_stall (t_now h) (if x <=? t_now h then u64 (t_now h + 1) else x)) (λ _, outcome Decode must l (p, h)) (p, h).
Proof.
  intros Hc Hl Hmust Hx Hdx. pose proof (c_tick Hc) as [Ht1 Ht2]. rewrite (soon (t_now h) 1) by lia.
  destruct (Z.leb_spec x (t_now h)); (apply (decode_stall_live bw bd); [done | done | lia | apply live_set; [done|] |]);
    unfold InfTime in *; (lia || (right; intros d; auto; lia)).
Qed.

Lemma decode_pass_live bw bd l p h t r (must : Prop) : core bw bd l p h → live l (view p) → slot Decode p = None →
  slot Fetch p = Some t → counted_inflight t = true → r <= t_now h →
  (∀ s t', s = IntMulExt ∨ s = IntDivExt → slot s p = Some t' → dst t ≠ 0 → dst t' ≠ dst t) →
  wp (decode_pass (t_now h) r t) (λ _, outcome Decode must l (p, h)) (p, h).
Proof.
  intros Hc Hl Hd Hf Hcnt Hr Hwaw. pose proof (c_tick Hc) as [Ht1 Ht2]. pose proof (c_regs Hc) as Hreg.
  destruct (c_slots Hc Fetch t Hf) as (((_ & Hrd & _) & _) & _).
  unfold decode_pass. rewrite wp_bind, wp_self. cbv zeta. rewrite wp_bind. cbn [fst snd].
  apply (wp_mono _ (λ _ st', view st'.1 = view p ∧ fetch_queue_ st'.1 = fetch_queue_ p ∧ st'.2 = h)).
  { rewrite wp_when. destruct (negb _); pstep; [|done]. split; [apply view_set_stall|]. split; [|done].
    by destruct (set_stall_frame (t_now h) NoInst p) as (_ & _ & _ & -> & _). }
  intros [] [p1 h1] (Ev & Eq & Eh). cbn [fst snd] in *. subst h1. pstep.
  rewrite Z.max_l by done. rewrite (soon (t_now h) 1) by lia. rewrite schedule_Ok by lia. eexists. split; [done|]. pstep.
  set (p2 := p1 <| stage_update_ ::= put Decode (t_now h + 1) |>).
  assert (∃ rr, (if dst_reg (trace_inst t) =? 0 then mret p2
     else l0 ← vec_set (reg_ready_ p2) (dst_reg (trace_inst t)) InfTime; mret (p2 <| reg_ready_ := l0 |>))
     = Ok (p2 <| reg_ready_ := rr |>) ∧
     (rr = reg_ready_ p ∧ dst t = 0 ∨ rr = <[Z.to_nat (dst t) := InfTime]> (reg_ready_ p) ∧ dst t ≠ 0)) as (rr & -> & Hrr).
  { change (reg_ready_ p2) with (v_reg (view p1)). rewrite Ev. destruct (Z.eqb_spec (dst_reg (trace_inst t)) 0) as [E|E].
    - exists (reg_ready_ p1). split; [by destruct p1|]. left. split; [|done]. exact (f_equal v_reg Ev).
    - rewrite vec_set_lt by (destruct Hreg as [H1 _]; change (v_reg (view p)) with (reg_ready_ p); lia).
      eexists. split; [done|]. by right. }
  eexists. split; [done|]. pstep. set (p3 := p2 <| reg_ready_ := rr |>).
  assert (view (set_slot Fetch None (set_slot Decode (Some t) p3)) =
    set_at Fetch None (set_at Decode (Some t) (set_time Decode (t_now h + 1) (view p <| v_reg := rr |>)))) as E3.
  { rewrite !view_set_at. by rewrite <- Ev. }
  apply (outcome_moved _ _ _ _ _ l); rewrite ?E3.
  - change (IFQ.holds l (fetch_queue_ p1)). rewrite Eq. apply (c_q Hc).
  - apply live_decode; try done. unfold InfTime in *; lia.
  - by apply rank_decode.
  - intros d Hdd []. apply due_slots, due_slots, due_set; [|left; left; lia]. constructor; try done.
    change (Forall (by_ d) rr). destruct Hrr as [[-> _]|[-> _]]; [done|]. apply list.Forall_insert; [done | by right].
Qed.

Lemma waw_spec p rd s : has_mext_waw p rd s = true → ∃ t, slot s p = Some t ∧ dst t = rd.
Proof. unfold has_mext_waw. destruct (slot s p) as [t|]; [|done]. intros ?%Z.eqb_eq. by exists t. Qed.

Lemma sure_src l p h t r : slot Fetch p = Some t → src_ready p (trace_inst t) = Ok r → sure Decode l (view p) h → r <= t_now h.
Proof.
  intros Hf Hr (t' & Ht & _ & _ & _ & Hall). rewrite slot_view, Hf in Ht. injection Ht as <-. unfold src_ready in Hr.
  res_inv Hr. res_inv Hr. res_inv Hr. subst r. pose proof (Hall _ _ (or_introl eq_refl) Ha).
  pose proof (Hall _ _ (or_intror eq_refl) Ha0). lia.
Qed.

Lemma decode_live bw bd l p h t : core bw bd l p h → live l (view p) → slot Decode p = None → slot Fetch p = Some t →
  wp do_decode (λ _, outcome Decode (sure Decode l (view p) h) l (p, h)) (p, h).
Proof.
  intros Hc Hl Hd Hf. pose proof (c_tick Hc) as [Ht1 Ht2].
  destruct (fetch_on_path binv k w bw bd l p h t Hc Hd Hf) as [Hwp Hcnt].
  destruct (c_slots Hc Fetch t Hf) as (Hok & _ & _). pose proof Hok as (Hfed & _).
  pose proof Hfed as (_ & Hrd & _). pose proof (c_regs Hc) as Hreg. destruct (l_regs _ _ Hl) as [_ Hinf].
  unfold do_decode. pstep. apply (wp_deref _ t); [done|]. rewrite Hwp.
  destruct (negb _ && _) eqn:Ex.
  { apply andb_true_iff in Ex as [_ Ex]. destruct (l_units _ _ Hl) as [Hm1 Hm2].
    change (v_mul (view p)) with (mul_ready_tick_ p) in Hm1. change (v_div (view p)) with (div_ready_tick_ p) in Hm2.
    apply (decode_until_live bw bd); [done | done | ..].
    - intros (t' & _ & _ & Hm & Hv & _). rewrite slot_view in Hm, Hv. rewrite Hm, Hv in Ex. done.
    - destruct (present (slot IntMulExt p)), (present (slot IntDivExt p)); try done; lia.
    - intros d Hdd [_ _ Hdm Hdv _].
      change (v_mul (view p)) with (mul_ready_tick_ p) in Hdm. change (v_div (view p)) with (div_ready_tick_ p) in Hdv.
      destruct (present (slot IntMulExt p)), (present (slot IntDivExt p)); try done; lia. }
  clear Ex. pstep. destruct (src_ready_Ok p (trace_inst t) Hreg Hfed) as [r Hr]. exists r. split; [done|].
  destruct (src_ready_spec p (trace_inst t) r Hr Hinf) as (Hr1 & Hr2 & Hr3).
  pose proof (sure_src l p h t r Hf Hr) as Hsure.
  destruct (Z.eqb_spec r InfTime) as [->|Hri].
  { apply (decode_stall_live bw bd); [done | intros Hs; specialize (Hsure Hs); lia | lia | | by left].
    apply (live_dec _ _ t); [done | done |]. exact (Hr3 eq_refl). }
  destruct (Z.ltb_spec (t_now h) r) as [Hlt|Hge].
  { apply (decode_stall_live bw bd); [done | intros Hs; specialize (Hsure Hs); lia | lia | by apply live_set | right].
    intros d Hdd Hdue. destruct (Hr2 d (d_reg _ _ Hdue)); [done | congruence]. }
  destruct (negb _ && _) eqn:Ew.
  - pstep. destruct (regs_get _ _ Hreg Hrd) as [x Hx]. exists x. split; [done|].
    apply andb_true_iff in Ew as [_ Ew].
    assert (∃ s t', (s = IntMulExt ∨ s = IntDivExt) ∧ slot s p = Some t' ∧ dst t' = dst t) as (s & t' & Hs & Ht' & Hdst).
    { apply orb_true_iff in Ew as [(t' & ? & ?)%waw_spec|(t' & ? & ?)%waw_spec]; eauto 10. }
    assert (x ≠ InfTime) as Hxi.
    { intros ->. apply (l_mext _ _ Hl s t' Hs Ht'). by rewrite Hdst. }
    apply (decode_until_live bw bd); [done | done | ..].
    + intros (t2 & _ & _ & Hm & Hv & _). rewrite slot_view in Hm, Hv. destruct Hs as [-> | ->]; congruence.
    + pose proof (Forall_vec_at _ _ _ _ Hinf Hx) as Hle. simpl in Hle. lia.
    + intros d Hdd Hdue. destruct (Forall_vec_at _ _ _ _ (d_reg _ _ Hdue) Hx); [done | congruence].
  - apply (decode_pass_live bw bd); try done. intros s t' Hs Ht' Hne Heq. apply andb_false_iff in Ew as [Ew|Ew].
    + apply negb_false_iff, Z.eqb_eq in Ew. done.
    + apply orb_false_iff in Ew as [E1 E2]. unfold has_mext_waw in E1, E2.
      destruct Hs as [-> | ->]; rewrite Ht' in *; [apply Z.eqb_neq in E1 | apply Z.eqb_neq in E2]; done.
Qed.

(** *** Fetch *)

(** Nothing is lost: the rank does not rise and no later time is waited for. *)
Definition drift l v (now : Z) l' v' : Prop :=
  live l' v' ∧ rank l' v' <= rank l v ∧ ∀ d, now + 1 <= d → due d v → due d v'.

(** The fetch stage and the requests may also move a wrong-path fetch. *)
Definition advance (must : Prop) l st st' : Prop :=
  ∃ l', IFQ.holds l' (fetch_queue_ st'.1) ∧
    (moved l (view st.1) (t_now st.2) l' (view st'.1) ∨ ¬ must ∧ drift l (view st.1) (t_now st.2) l' (view st'.1)).

Lemma advance_drift (must : Prop) l st l' p' h' : IFQ.holds l' (fetch_queue_ p') → ¬ must →
  drift l (view st.1) (t_now st.2) l' (view p') → advance must l st (p', h').
Proof. intros Hq Hm Hd. exists l'. split; [done|]. by right. Qed.

Lemma advance_moved (must : Prop) l st l' p' h' : IFQ.holds l' (fetch_queue_ p') →
  moved l (view st.1) (t_now st.2) l' (view p') → advance must l st (p', h').
Proof. intros Hq Hd. exists l'. split; [done|]. by left. Qed.

Lemma advance_start (must : Prop) l p p' h st : view p = view p' → advance must l (p, h) st → advance must l (p', h) st.
Proof. unfold advance. cbn [fst snd]. by intros ->. Qed.

Lemma drift_same l v now : live l v → drift l v now l v.
Proof. intros Hl. split; [done|]. split; [lia | done]. Qed.

(** With an empty queue the stage only waits. *)
Lemma fetch1_empty bw bd p h : core bw bd [] p h → live [] (view p) →
  wp do_fetch_1 (λ _, outcome Fetch (sure Fetch [] (view p) h) [] (p, h)) (p, h).
Proof.
  intros Hc Hl. pose proof (c_tick Hc) as [Ht1 Ht2]. pose proof (c_q Hc) as Hq.
  unfold do_fetch_1. pstep. rewrite (IFQ.empty_spec _ _ Hq). pstep. rewrite schedule_Ok by lia. eexists. split; [done|].
  apply (outcome_idle _ _ _ _ _ _ InfTime); [exact Hq | by intros (_ & t & l' & ? & _) | done | by apply live_fetch | by auto].
Qed.

Lemma fetch1_live bw bd l p h : core bw bd l p h → live l (view p) → slot Fetch p = None →
  wp do_fetch_1 (λ _, advance (slot Decode p = None ∧ sure Fetch l (view p) h) l (p, h)) (p, h).
Proof.
  intros Hc Hl Hf. pose proof (c_tick Hc) as [Ht1 Ht2]. pose proof (c_q Hc) as Hq.
  unfold do_fetch_1. pstep. rewrite (IFQ.empty_spec _ _ Hq).
  assert (∀ u, t_now h <= u → ¬ (slot Decode p = None ∧ sure Fetch l (view p) h) → wp (upd (schedule (t_now h) Fetch u))
    (λ _, advance (slot Decode p = None ∧ sure Fetch l (view p) h) l (p, h)) (p, h)) as Hsched.
  { intros u Hu Hn. pstep. rewrite schedule_Ok by done. eexists. split; [done|].
    apply (advance_drift _ _ _ l); [done | done |]. rewrite view_sched. split; [by apply live_fetch|]. split; [done|].
    intros d _ Hd. apply due_set; [done | by right]. }
  destruct l as [|t l]; [apply Hsched; [lia | by intros (_ & _ & t & l' & ? & _)]|].
  pstep. exists (Some t). split; [by apply (IFQ.front_spec l)|]. pstep.
  apply (wp_deref _ t); [done|].
  destruct (wait_mem t) eqn:Hw; [apply Hsched; [lia | intros (_ & _ & t' & l' & [= <- <-] & ?); congruence]|].
  assert (slot Decode p = None → counted_inflight t = true) as Hcnt.
  { intros Hd. pose proof (c_path Hc) as Hp. unfold young in Hp. rewrite Hd, Hf in Hp. apply (path_head _ _ _ _ Hp). }
  destruct (Z.ltb_spec 0 (bp_meta_hold t)) as [Hh|Hh].
  - pstep. set (t' := t <| bp_meta_hold ::= Z.pred |>).
    destruct (IFQ.set_front_spec l (fetch_queue_ p) t t' Hq) as (q & -> & Hq' & Ecap). cbn [mbind res_bind].
    eexists. split; [done|]. pstep. rewrite (soon (t_now h) 1) by lia. rewrite schedule_Ok by lia. eexists. split; [done|].
    set (p1 := p <| fetch_queue_ := q |>). pose proof (view_queue p q Ecap) as E1. fold p1 in E1.
    assert (live (t' :: l) (set_time Fetch (t_now h + 1) (view p))) as Hl' by (by apply live_fetch, live_hold).
    assert (∀ d, due d (view p) → due d (set_time Fetch (t_now h + 1) (view p))) as Hdue.
    { intros d Hd. apply due_set; [done | by right]. }
    assert (lrank (t' :: l) = lrank (t :: l) - b2z (counted_inflight t)) as Er.
    { simpl. unfold qrank. simpl. destruct (counted_inflight t); simpl; lia. }
    destruct (counted_inflight t) eqn:Ec.
    + apply (advance_moved _ _ _ (t' :: l)); [done|]. rewrite view_sched, E1. split; [done|]. split; [|by auto].
      rewrite rank_time. unfold rank. rewrite Er. simpl. lia.
    + apply (advance_drift _ _ _ (t' :: l)); [done | naive_solver |]. rewrite view_sched, E1. split; [done|]. split; [|by auto].
      rewrite rank_time. unfold rank. rewrite Er. simpl. lia.
  - pstep. rewrite Hf. split; [done|]. pstep.
    destruct (IFQ.ifq_pop_spec l (fetch_queue_ p) t Hq) as (q & E & Hq' & Ecap).
    change (fetch_queue_ (set_slot Fetch (Some t) p)) with (fetch_queue_ p). rewrite E. cbn [mbind res_bind].
    eexists. split; [done|]. set (p1 := set_slot Fetch (Some t) p).
    assert (view (p1 <| fetch_queue_ := q |>) = set_at Fetch (Some t) (view p)) as Ev.
    { rewrite (view_queue p1 q) by exact Ecap. apply view_set_at. }
    destruct (counted_inflight t) eqn:Ec.
    + apply (advance_moved _ _ _ l); [exact Hq'|]. rewrite Ev. split; [by apply live_pop|]. split; [by apply rank_pop|].
      intros d _ Hd. by apply due_slots.
    + apply (advance_drift _ _ _ l); [exact Hq' | naive_solver |]. rewrite Ev.
      split; [by apply live_pop|]. split; [|intros d _ Hd; by apply due_slots].
      cbn [fst]. by rewrite rank_pop_wrong.
Qed.

(** *** Requests *)

Lemma push_view l p t : IFQ.holds l (fetch_queue_ p) → IFQ.full (fetch_queue_ p) = false →
  ∃ p', push_ifq t p = Ok p' ∧ IFQ.holds (l ++ [t]) (fetch_queue_ p') ∧ view p' = view p.
Proof.
  intros Hq Hf. rewrite (IFQ.full_spec l _ Hq) in Hf. apply Z.leb_gt in Hf.
  destruct (IFQ.ifq_push_spec l (fetch_queue_ p) t Hq Hf) as (q & E & Hq' & Ecap).
  exists (p <| fetch_queue_ := q |>). unfold push_ifq. rewrite E. split; [done|]. split; [done|]. by apply view_queue.
Qed.

Lemma view_wp_advance pred p : view (wp_advance pred p) = view p.
Proof.
  unfold wp_advance. cbv zeta.
  destruct (wp_redirect_s2 _), (wp_redirect_s1 _), (will_redirect pred && _); done.
Qed.
Lemma queue_wp_advance pred p : fetch_queue_ (wp_advance pred p) = fetch_queue_ p.
Proof.
  unfold wp_advance. cbv zeta.
  destruct (wp_redirect_s2 _), (wp_redirect_s1 _), (will_redirect pred && _); done.
Qed.

(** The request: the port takes it, and nothing of the view changes. *)
Lemma request_wp h a Q : t_irdy h = true → (∀ h', t_now h' = t_now h → Q tt h') → wp (imem_read a) Q h.
Proof. intros Hr HQ. unfold wp, imem_read, ports_env. rewrite Hr. by apply HQ. Qed.

Lemma wrong_live bw bd l p h (must : Prop) : core bw bd l p h → live l (view p) → t_irdy h = true → ¬ must →
  wp fetch_wrong_path (λ _, advance must l (p, h)) (p, h).
Proof.
  intros Hc Hl Hr Hm. unfold fetch_wrong_path. pstep. pose proof (c_q Hc) as Hq.
  destruct (IFQ.full (fetch_queue_ p)) eqn:Hfull; [apply (advance_drift _ _ _ l); [done | done | by apply drift_same]|].
  rewrite wp_bind, wp_call_bpu. cbn [fst snd].
  destruct (BU.unit_predict_Ok binv k w (bpu p) (wrong_path_pc (fetch_ p))) as (r & b & Hp & _); [apply Hc | apply (c_wpc Hc) |].
  exists r, b. split; [exact Hp|]. pstep.
  set (t := make_trans _ true true). set (p1 := p <| bpu := b |> <| stats ::= _ |>).
  destruct (push_view l p1 t Hq Hfull) as (p2 & -> & Hq2 & Ev2). eexists. split; [done|]. pstep.
  apply request_wp; [done|]. intros h' _. pstep.
  apply (advance_drift _ _ _ (l ++ [t])); [| done |].
  - rewrite queue_wp_advance. exact Hq2.
  - rewrite view_wp_advance. change (view (push_orphan false p2)) with (view p2). rewrite Ev2.
    change (view p1) with (view p). split; [|split; [|done]].
    + destruct Hl. constructor; try done. apply Forall_app. split; [done|]. apply Forall_singleton. 
      split; [|done]. split; [by left|]. split; [done|]. apply elem_of_cons. by left.
    + cbn [fst]. unfold rank. rewrite lrank_app. change (lrank [t]) with 0. lia.
Qed.

(** What follows the request of a real fetch. *)
Lemma view_after now i pred acc p : 0 <= v_early (view p) <= 2 →
  ∃ e r, view (after_fetch now i pred acc p) = view p <| v_early := e |> <| v_resume := r |> ∧ 0 <= e <= 2 ∧
    (r = v_resume (view p) ∨ r = Z.max (v_resume (view p)) (u64 (now + 2))) ∧
    fetch_queue_ (after_fetch now i pred acc p) = fetch_queue_ p.
Proof.
  intros He. unfold after_fetch. cbv zeta.
  exists (if acc && will_redirect pred then 2 else v_early (view p)),
    (if tage_overrode_bimodal pred then Z.max (v_resume (view p)) (u64 (now + 2)) else v_resume (view p)).
  destruct (tage_overrode_bimodal pred), (acc && will_redirect pred); (split; [done|]; split; [lia | auto]).
Qed.

Lemma fetch_tail_live l p0 p h t i pred acc a (must : Prop) : IFQ.holds l (fetch_queue_ p) → IFQ.full (fetch_queue_ p) = false →
  live l (view p0) → t_irdy h = true → view p = view p0 <| v_in := None |> → counted (v_in (view p0)) = 1 →
  counted_inflight t = true → 0 <= t_now h ∧ t_now h + 40 < InfTime → runnable (trace_inst t) → 0 <= bp_meta_hold t <= 2 →
  wp (env (imem_read a);; modify_self (push_orphan false);; modify_self (after_fetch (t_now h) i pred acc);; upd (push_ifq t))
     (λ _, advance must l (p0, h)) (p, h).
Proof.
  intros Hq Hfull Hl Hr Ev Hin Hcnt [Ht1 Ht2] Hrun Hhold. pstep. apply request_wp; [done|]. intros h' _.
  pstep. set (p1 := push_orphan false p).
  destruct (view_after (t_now h) i pred acc p1) as (e & r & Ev1 & He & Hre & Eq1).
  { change (view p1) with (view p). rewrite Ev. apply (l_early _ _ Hl). }
  destruct (push_view l (after_fetch (t_now h) i pred acc p1) t) as (p' & E & Hq' & Ev'); [by rewrite Eq1 | by rewrite Eq1 |].
  change (view p1) with (view p) in Hre, Ev1. rewrite Ev in Ev1, Hre. cbn [v_resume over] in Hre.
  exists p'. split; [exact E|]. apply (advance_moved _ _ _ (l ++ [t])); [done|]. rewrite Ev', Ev1. cbn [fst snd].
  generalize dependent (view p0). intros v0 Hl Ev Hin Ev1 Hre.
  split; [|split].
  - by apply live_push; [..|by right].
  - unfold rank. rewrite lrank_app. pose proof (l_early _ _ Hl).
    change (at_ ?s (v0 <| v_in := None |> <| v_early := e |> <| v_resume := r |>)) with (at_ s v0).
    cbn [v_in v_early over counted lrank]. unfold qrank. rewrite Hin, Hcnt. lia.
  - intros d Hd []. constructor; try done. simpl. destruct Hre as [-> | ->]; [done|].
    rewrite (soon (t_now h) 2) by lia. lia.
Qed.

Lemma fetch_real_live bw bd l p h (must : Prop) : core bw bd l p h → live l (view p) → t_irdy h = true →
  IFQ.full (fetch_queue_ p) = false → (must → input_buffer_ p ≠ None) →
  wp fetch_real (λ _, advance must l (p, h)) (p, h).
Proof.
  intros Hc Hl Hr Hfull Hm. unfold fetch_real. pstep. pose proof (c_tick Hc) as Ht. pose proof (c_q Hc) as Hq.
  destruct (input_buffer_ p) as [c|] eqn:Hin.
  2: { pstep. apply (advance_drift _ _ _ l); [done | by intros ?%Hm | by apply drift_same]. }
  destruct (c_input Hc c Hin) as (i & -> & Hi). destruct (l_input _ _ Hl _ Hin) as [Hrun Hhold]. pstep.
  change (trace_inst (make_trans i false false <| wait_mem := true |>)) with i.
  match goal with |- context [if ?g && BU.is_no_bpu (bpu p) then ?x else ?y] =>
    set (cand := if g && BU.is_no_bpu (bpu p) then x else y) end.
  assert (trace_inst cand = i ∧ counted_inflight cand = true ∧ 0 <= bp_meta_hold cand <= 2) as (E1 & E2 & E3).
  { unfold cand. destruct (_ && _); [destruct (br_taken i)|]; simpl; repeat split; lia. }
  clearbody cand. rewrite wp_call_bpu. cbn [fst snd].
  destruct (predict_at_fetch_Ok binv k w (bpu p) (pc i) (is_branch i)) as (r & b1 & Hp & _); [apply Hc | apply Hi |].
  exists r, b1. split; [exact Hp|]. rewrite wp_bind, wp_call_bpu. cbn [fst snd].
  set (p1 := p <| input_buffer_ := None |> <| bpu := b1 |>). change (bpu p1) with b1.
  set (acc := (BU.judge b1 (real_taken i) (real_target i) r).1).
  set (b2 := (BU.judge b1 (real_taken i) (real_target i) r).2).
  exists acc, b2. split; [unfold acc, b2; by destruct (BU.judge _ _ _ _)|].
  set (t := cand <| br_pred := r |> <| br_mispred := negb acc |>).
  set (p2 := p1 <| bpu := b2 |>). clearbody acc b2.
  assert (counted (v_in (view p)) = 1) as Hone by (change (v_in (view p)) with (input_buffer_ p); by rewrite Hin).
  assert (runnable (trace_inst t)) as Hrun' by (simpl; by rewrite E1).
  rewrite wp_bind, wp_when. destruct acc; cbn [negb].
  - by apply (fetch_tail_live l p p2).
  - rewrite wp_modify_self. cbn [fst snd]. unfold enter_wrong_path.
    match goal with |- context [flush_stall_cycles _ ?q] => set (p3 := q) end.
    destruct (queue_flush_stall (t_now h) p3) as [Eq _]. pose proof (view_flush_stall (t_now h) p3) as Ev.
    generalize dependent (flush_stall_cycles (t_now h) p3). intros p4 Eq4 Ev4.
    match goal with |- wp _ _ (?q, _) => set (p5 := q) end.
    assert (fetch_queue_ p5 = fetch_queue_ p ∧ view p5 = view p <| v_in := None |>) as [Eq5 Ev5].
    { split; [exact Eq4|]. change (view p5) with (view p4). by rewrite Ev4. }
    clearbody p5. apply (fetch_tail_live l p p5); rewrite ?Eq5; done.
Qed.

(** What it takes for the fetch of the next instruction. *)
Definition fetchable l v h : Prop :=
  l = [] ∧ at_ Decode v = None ∧ at_ Fetch v = None ∧ v_in v ≠ None ∧ v_resume v <= t_now h ∧ t_irdy h = true.

Lemma fetch0_live bw bd l p h : core bw bd l p h → live l (view p) →
  wp do_fetch_0 (λ _, advance (fetchable l (view p) h) l (p, h)) (p, h).
Proof.
  intros Hc Hl. unfold do_fetch_0. pstep. pose proof (c_q Hc) as Hq. change (imem_ready h) with (t_irdy h).
  destruct (Z.ltb_spec (t_now h) (resume_tick (fetch_ p))) as [Hres|Hres].
  { pstep. apply (advance_drift _ _ _ l).
    - by destruct (set_stall_frame (t_now h) BrMispred p) as (_ & _ & _ & -> & _).
    - intros (_ & _ & _ & _ & Hx & _). simpl in Hx. lia.
    - rewrite view_set_stall. by apply drift_same. }
  destruct (t_irdy h) eqn:Hr; cbn [negb].
  2: { pstep. apply (advance_drift _ _ _ l); [done | | by apply drift_same]. intros (_ & _ & _ & _ & _ & ?). congruence. }
  destruct (Z.ltb_spec 0 (early_redir_remaining (fetch_ p))) as [He|He].
  { unfold fetch_early_redir. pstep. apply request_wp; [done|]. intros h' _. pstep.
    apply (advance_moved _ _ _ l); [done|]. 
    match goal with |- moved _ _ _ _ (view ?q) => set (p1 := q) end.
    assert (view p1 = view p <| v_early ::= Z.pred |>) as E1 by done. rewrite E1. split; [|split; [|by intros d _ []]].
    - destruct Hl. constructor; try done. simpl in *. lia.
    - unfold rank. cbn [fst]. change (v_early (view p <| v_early ::= Z.pred |>)) with (Z.pred (v_early (view p))).
      change (at_ ?s (view p <| v_early ::= Z.pred |>)) with (at_ s (view p)).
      change (v_in (view p <| v_early ::= Z.pred |>)) with (v_in (view p)). lia. }
  assert (fetchable l (view p) h → wrong_path (fetch_ p) && negb (wp_flushed (fetch_ p)) = false ∧
    IFQ.full (fetch_queue_ p) = false ∧ input_buffer_ p ≠ None) as Hmust.
  { intros (-> & Hd & Hf & Hin & _). rewrite slot_view in Hd, Hf. pose proof (c_path Hc) as Hp. unfold young in Hp.
    rewrite Hd, Hf in Hp. split; [|split; [|done]].
    - destruct (wrong_path (fetch_ p)), (wp_flushed (fetch_ p)); try done. destruct Hp as (pre & x & post & E & _). by destruct pre.
    - rewrite (IFQ.full_spec [] _ Hq). apply Z.leb_gt. apply (l_cap _ _ Hl). }
  destruct (_ && _) eqn:Ewp.
  { apply (wrong_live bw bd); [done | done | done | by intros [? _]%Hmust]. }
  rewrite wp_bind. apply (wp_mono _ (λ _ st', core bw bd l st'.1 h ∧ view st'.1 = view p ∧ st'.2 = h ∧
    fetch_queue_ st'.1 = fetch_queue_ p ∧ input_buffer_ st'.1 = input_buffer_ p)).
  { rewrite wp_when. destruct (wrong_path (fetch_ p)) eqn:Hwp; [|done]. rewrite wp_modify_self. cbn [fst snd].
    split; [|done]. apply andb_false_iff in Ewp as [?|Hfl%negb_false_iff]; [done|].
    destruct Hc. constructor; try done. rewrite Hwp, Hfl in c_path0. simpl in *.
    split; [done|]. change (Forall clean (young l p)). by rewrite c_path0. }
  intros [] [p1 h1] (Hc1 & Ev & Eh & Eq & Ein). cbn [fst snd] in *. subst h1.
  destruct (IFQ.full (fetch_queue_ p)) eqn:Hfull.
  - pstep. apply (advance_drift _ _ _ l); [by rewrite Eq | by intros (_ & ? & _)%Hmust |]. rewrite Ev. by apply drift_same.
  - apply (wp_mono _ (λ _, advance (fetchable l (view p) h) l (p1, h))); [|intros [] st'; by apply advance_start].
    apply (fetch_real_live bw bd); [done | by rewrite Ev | done | by rewrite Eq |]. rewrite Ein. apply Hmust.
Qed.
End handlers.
End CoreStages.
