(* ===== verification/CoreLive.v ===== *)
(** * The core finishes what it was fed

    The stages of [CoreStages] put together: a tick in which every time has come
    moves an instruction.  Rounds of an environment that answers drain the core. *)

From S2P Require Import Prelude Types Trace BranchPred BranchUnit Btb Ras CacheEnv Ifq Pipeline PipelineSafe PipelineRun CoreRank CoreStages.

Module CoreLive.
Import Pipe PipeSafe PipeRun CoreRank CoreStages.

Section update.
Context {P : Type} `{DirPredictor P} (binv : P → Prop) `{!DirPredictorLaws P binv} (k w : Z).
Implicit Types (p : Pipeline P) (h : Ports) (l : list Transaction) (v : View) (st : Pipeline P * Ports).
#[local] Notation core := (core binv k w).
#[local] Notation inv := (inv binv k w).

(** ** Steps in a row *)

Lemma moved_moved l v n l1 v1 l2 v2 : moved l v n l1 v1 → moved l1 v1 n l2 v2 → moved l v n l2 v2.
Proof. intros (H1 & H2 & H3) (H4 & H5 & H6). split; [done|]. split; [lia | auto]. Qed.
Lemma moved_drift l v n l1 v1 l2 v2 : moved l v n l1 v1 → drift l1 v1 n l2 v2 → moved l v n l2 v2.
Proof. intros (H1 & H2 & H3) (H4 & H5 & H6). split; [done|]. split; [lia|]. intros d Hd Hv. apply H6; [lia | auto]. Qed.
Lemma drift_moved l v n l1 v1 l2 v2 : drift l v n l1 v1 → moved l1 v1 n l2 v2 → moved l v n l2 v2.
Proof. intros (H1 & H2 & H3) (H4 & H5 & H6). split; [done|]. split; [lia|]. intros d Hd Hv. apply H6; [lia|]. apply H3; [lia | done]. Qed.
Lemma drift_drift l v n l1 v1 l2 v2 : drift l v n l1 v1 → drift l1 v1 n l2 v2 → drift l v n l2 v2.
Proof. intros (H1 & H2 & H3) (H4 & H5 & H6). split; [done|]. split; [lia | auto]. Qed.

Lemma holds_unique l l' (q : IFQ.IFQRingBuf Transaction) : IFQ.holds l q → IFQ.holds l' q → l = l'.
Proof.
  intros H1 H2. apply IFQ.entries_spec in H1, H2. rewrite H1 in H2. injection H2 as E.
  by apply (inj (fmap Some)) in E.
Qed.

(** Two views that differ in the times of the stages [done] at most. *)
Definition alike (dn : list PipeStage) v v' : Prop :=
  v' = v <| v_st := v_st v' |> ∧ ∀ s, s ∉ dn → time s v' = time s v.

Lemma sure_alike s dn l v v' h : alike dn v v' → sure s l v' h → sure s l v h.
Proof. intros [-> _]. by destruct v, s. Qed.

Lemma rank_alike dn l v v' : alike dn v v' → rank l v' = rank l v.
Proof. intros [-> _]. by destruct v. Qed.

Lemma alike_set s dn v v' u : alike dn v v' → alike (s :: dn) v (set_time s u v').
Proof.
  intros [E Ht]. split; [rewrite E at 1; by destruct v|]. intros s' Hs'. apply not_elem_of_cons in Hs' as [Hne Hs'].
  rewrite time_set, decide_False by done. by apply Ht.
Qed.

(** A stage that can move an instruction is one the tick runs. *)
Lemma sure_runs s bw bd l p h : core bw bd l p h → sure s l (view p) h →
  slot s p = None ∧ prev_stage_valid (t_now h) s p = true.
Proof.
  intros Hc Hs. assert (∀ s', s' ∈ [Execute; IntMulExt; IntDivExt] → (∃ t, slot Decode p = Some t ∧ slot s' p = None) →
    slot s' p = None ∧ prev_stage_valid (t_now h) s' p = true) as Hunit.
  { intros s' Hs' (t & Ht & Hn). split; [done|].
    apply elem_of_cons in Hs' as [->|[->|[->|?%elem_of_nil]%elem_of_cons]%elem_of_cons]; [unfold prev_stage_valid; by rewrite Ht..|done]. }
  destruct s; unfold sure in Hs; cbv zeta in Hs.
  - split; [by destruct Hs | done].
  - destruct Hs as (t & Ht & Hd & _). rewrite slot_view in Ht, Hd. split; [done|]. unfold prev_stage_valid. by rewrite Ht.
  - apply Hunit; [by rewrite ?elem_of_cons; auto|]. destruct Hs as (t & ? & ? & _). by exists t.
  - apply Hunit; [by rewrite ?elem_of_cons; auto|]. destruct Hs as (t & ? & ? & _). by exists t.
  - apply Hunit; [by rewrite ?elem_of_cons; auto|]. destruct Hs as (t & ? & ? & _). by exists t.
  - destruct Hs as (t & Ht & _ & Hd & _). rewrite slot_view in Ht, Hd. split; [done|]. unfold prev_stage_valid. by rewrite Ht.
  - split; [apply (c_wb Hc)|]. unfold prev_stage_valid. rewrite !orb_true_iff, !andb_true_iff, !Z.leb_le.
    change (v_div (view p)) with (div_ready_tick_ p) in Hs.
    change (v_mul (view p)) with (mul_ready_tick_ p) in Hs. rewrite !slot_view in Hs.
    destruct (slot Memory p), (slot IntDivExt p), (slot IntMulExt p); naive_solver.
Qed.

(** ** The stages of one tick

    Since the start of the tick either an instruction moved, or the stages that
    had their turn had nothing to do and only chose their times. *)

Definition idle (dn : list PipeStage) l0 st0 l st : Prop :=
  l = l0 ∧ st.2 = st0.2 ∧ live l (view st.1) ∧ alike dn (view st0.1) (view st.1) ∧
  (∀ s, s ∈ dn → ¬ (sure s l0 (view st0.1) st0.2 ∧ time s (view st0.1) <= t_now st0.2)) ∧
  ∀ d, t_now st0.2 + 1 <= d → due d (view st0.1) → due d (view st.1).

Definition begun (bw bd : bool) (dn : list PipeStage) l0 st0 st : Prop :=
  ∃ l, core bw bd l st.1 st.2 ∧ t_now st.2 = t_now st0.2 ∧
    (moved l0 (view st0.1) (t_now st0.2) l (view st.1) ∨ idle dn l0 st0 l st).

Lemma idle_drift dn l0 st0 l st : idle dn l0 st0 l st → drift l0 (view st0.1) (t_now st0.2) l (view st.1).
Proof. intros (-> & _ & Hl & Ha & _ & Hd). split; [done|]. split; [by rewrite (rank_alike _ _ _ _ Ha) | done]. Qed.

Lemma begun_live dn l0 st0 l st :
  moved l0 (view st0.1) (t_now st0.2) l (view st.1) ∨ idle dn l0 st0 l st → live l (view st.1).
Proof. intros [[? _]|(_ & _ & ? & _)]; done. Qed.

(** A stage is passed over. *)
Lemma idle_skip dn l0 st0 l st s : idle dn l0 st0 l st → s ∉ dn →
  ¬ (sure s l (view st.1) st.2 ∧ time s (view st.1) <= t_now st.2) → idle (s :: dn) l0 st0 l st.
Proof.
  intros (-> & Eh & Hl & [Ea Ht] & Hn & Hd) Hs Hno. split; [done|]. split; [done|]. split; [done|]. split; [|split; [|done]].
  - split; [done|]. intros s' [_ Hs']%not_elem_of_cons. by apply Ht.
  - intros s' [->|Hs']%elem_of_cons; [|by apply Hn]. rewrite <- Ht, <- Eh by done. intros [Hsu ?]. apply Hno. split; [|done].
    rewrite Ea. by destruct (view st0.1), s.
Qed.

(** A stage has its turn. *)
Lemma idle_turn dn l0 st0 l st s l' st' must : idle dn l0 st0 l st → s ∉ dn → (sure s l (view st.1) st.2 → must) →
  IFQ.holds l' (fetch_queue_ st'.1) → outcome s must l st st' →
  moved l0 (view st0.1) (t_now st0.2) l' (view st'.1) ∨ idle (s :: dn) l0 st0 l' st'.
Proof.
  intros Hi Hs Hmust Hq (l2 & Hq2 & Ho). rewrite <- (holds_unique _ _ _ Hq Hq2) in Ho. clear l2 Hq2.
  pose proof (idle_drift _ _ _ _ _ Hi) as Hdr. destruct Hi as (-> & Eh & Hl & Ha & Hn & Hd).
  destruct Ho as [Hm|(Hno & -> & Eh' & Hl' & [u Eu] & Hd')]; [left | right].
  - rewrite Eh in Hm. by eapply drift_moved.
  - rewrite Eh in Eh', Hd'. split; [done|]. split; [done|]. split; [done|]. split; [rewrite Eu; by apply alike_set|]. split; [|auto].
    intros s' [->|Hs']%elem_of_cons; [|by apply Hn]. intros [Hsu _]. apply Hno, Hmust.
    destruct Ha as [Ea _]. rewrite Ea, Eh. by destruct (view st0.1), s.
Qed.

(** Stage [s] in the row of stages: its safety and its outcome. *)
Lemma stage_begun bw bd bw' bd' dn s l0 st0 st : begun bw bd dn l0 st0 st → s ∉ dn →
  implb bw bw' = true → implb bd bd' = true →
  (∀ l, core bw bd l st.1 st.2 → slot s st.1 = None → prev_stage_valid (t_now st.2) s st.1 = true →
    wp (run_stage s) (λ _ st', inv bw' bd' st') st) →
  (∀ l, core bw bd l st.1 st.2 → live l (view st.1) → slot s st.1 = None → prev_stage_valid (t_now st.2) s st.1 = true →
    time s (view st.1) <= t_now st.2 → wp (run_stage s) (λ _, outcome s (sure s l (view st.1) st.2) l st) st) →
  wp (try_stage s) (λ _ st', begun bw' bd' (s :: dn) l0 st0 st') st.
Proof.
  intros (l & Hc & Et & Hb) Hs Hw Hd Hsafe Hlive. pose proof (begun_live _ _ _ _ _ Hb) as Hl.
  eapply (wp_mono _ (λ _ st', (∃ l', core bw' bd' l' st'.1 st'.2 ∧
    (moved l0 (view st0.1) (t_now st0.2) l' (view st'.1) ∨ idle (s :: dn) l0 st0 l' st')) ∧ PipeRun.view st'.2 = PipeRun.view st.2)).
  2: { intros [] st' [(l' & Hc' & Hm) [= E _ _ _]]. exists l'. split; [done|]. split; [congruence | done]. }
  apply wp_steady; [apply stage_steady|]. unfold try_stage. pstep.
  destruct (negb (present (slot s st.1)) && _ && _) eqn:E.
  - apply andb_true_iff in E as [[E1 E2]%andb_true_iff E3%Z.leb_le].
    assert (slot s st.1 = None) as Hn by (by destruct (slot s st.1)).
    eapply wp_mono; [apply wp_and; [exact (Hsafe l Hc Hn E2) | exact (Hlive l Hc Hl Hn E2 E3)]|].
    intros [] st' [[l' Hc'] Ho]. exists l'. split; [done|]. destruct Hb as [Hb|Hb].
    + left. pose proof (c_q Hc') as Hq. destruct Ho as (l2 & Hq2 & Ho). rewrite <- (holds_unique _ _ _ Hq Hq2) in Ho.
      rewrite Et in Ho. destruct Ho as [Ho|(_ & -> & _ & Hl' & [u Eu] & Hdue)]; [by eapply moved_moved|].
      eapply moved_drift; [exact Hb|]. split; [done|]. split; [rewrite Eu; by rewrite rank_time | done].
    + eapply idle_turn; [done | done | | apply (c_q Hc') | exact Ho]. done.
  - exists l. split; [by eapply core_mono|]. destruct Hb as [Hb|Hb]; [by left | right]. apply idle_skip; [done..|].
    intros [Hsu Ht]. destruct (sure_runs s bw bd l st.1 st.2 Hc Hsu) as [E1 E2]. rewrite E1, E2 in E.
    cbn [present negb andb] in E. apply Z.leb_gt in E. unfold time in Ht. simpl in Ht. lia.
Qed.

(** Something can move in this tick. *)
Definition back : list PipeStage := [Decode; Execute; IntMulExt; IntDivExt; Memory; WriteBack].
Definition ready l v h : Prop :=
  (∃ s, s ∈ back ∧ sure s l v h ∧ time s v <= t_now h) ∨
  (at_ Decode v = None ∧ sure Fetch l v h ∧ time Fetch v <= t_now h) ∨ fetchable l v h.

Lemma in_back s : s ≠ Fetch → s ∈ back.
Proof. intros Hs. unfold back. rewrite !elem_of_cons. destruct s; tauto. Qed.

Lemma fetch_back : Fetch ∉ back.
Proof. unfold back. rewrite !elem_of_cons, elem_of_nil. naive_solver. Qed.

(** After the fetch stage; [l0] is the queue at the start of the tick. *)
Definition fetched l0 st0 l st : Prop :=
  moved l0 (view st0.1) (t_now st0.2) l (view st.1) ∨ idle (Fetch :: back) l0 st0 l st ∨
  ¬ (at_ Decode (view st0.1) = None ∧ sure Fetch l0 (view st0.1) st0.2 ∧ time Fetch (view st0.1) <= t_now st0.2) ∧
  (∀ s, s ∈ back → ¬ (sure s l0 (view st0.1) st0.2 ∧ time s (view st0.1) <= t_now st0.2)) ∧
  l0 ≠ [] ∧ drift l0 (view st0.1) (t_now st0.2) l (view st.1).

Lemma fetch_begun l0 st0 st : begun true true back l0 st0 st →
  wp (try_stage Fetch) (λ _ st', ∃ l, core true true l st'.1 st'.2 ∧ t_now st'.2 = t_now st0.2 ∧ fetched l0 st0 l st') st.
Proof.
  intros (l & Hc & Et & Hb). pose proof (begun_live _ _ _ _ _ Hb) as Hl.
  eapply (wp_mono _ (λ _ st', (∃ l', core true true l' st'.1 st'.2 ∧ fetched l0 st0 l' st') ∧
    PipeRun.view st'.2 = PipeRun.view st.2)).
  2: { intros [] st' [(l' & Hc' & Hm) [= E _ _ _]]. exists l'. split; [done|]. split; [congruence | done]. }
  apply wp_steady; [apply stage_steady|]. unfold try_stage. pstep.
  destruct (negb (present (slot Fetch st.1)) && _ && _) eqn:E.
  2: { exists l. split; [done|]. destruct Hb as [Hb|Hb]; [by left | right; left]. apply idle_skip; [done | apply fetch_back |].
    intros [Hsu Ht]. destruct (sure_runs Fetch true true l st.1 st.2 Hc Hsu) as [E1 E2]. rewrite E1, E2 in E.
    cbn [present negb andb] in E. apply Z.leb_gt in E.
    change (time Fetch (view st.1)) with (get Fetch (stage_update_ st.1)) in Ht. lia. }
  apply andb_true_iff in E as [[E1 _]%andb_true_iff E3%Z.leb_le].
  assert (slot Fetch st.1 = None) as Hn by (by destruct (slot Fetch st.1)). destruct st as [p h]. cbn [fst snd] in *.
  pose proof (fetch1_wp binv k w true true l p h Hc Hn) as Hsafe.
  destruct Hb as [Hb|Hb].
  - eapply wp_mono; [apply wp_and; [exact Hsafe | by apply (fetch1_live binv k w true true l p h)]|].
    intros [] st' [(l' & Hc' & _) (l2 & Hq2 & Ho)]. exists l'. split; [done|]. left.
    rewrite <- (holds_unique _ _ _ (c_q Hc') Hq2) in Ho. cbn [fst snd] in Ho. rewrite Et in Ho.
    destruct Ho as [Ho|[_ Ho]]; [by eapply moved_moved | by eapply moved_drift].
  - destruct l0 as [|t0 l0].
    + assert (l = []) as -> by apply Hb.
      eapply wp_mono; [apply wp_and; [exact Hsafe | by apply (fetch1_empty binv k w true true p h)]|].
      intros [] st' [(l' & Hc' & _) Ho]. exists l'. split; [done|].
      destruct (idle_turn back [] st0 [] (p, h) Fetch l' st' _ Hb fetch_back (λ H, H) (c_q Hc') Ho) as [?|?];
        [by left | by right; left].
    + eapply wp_mono; [apply wp_and; [exact Hsafe | by apply (fetch1_live binv k w true true l p h)]|].
      intros [] st' [(l' & Hc' & _) (l2 & Hq2 & Ho)]. exists l'. split; [done|].
      rewrite <- (holds_unique _ _ _ (c_q Hc') Hq2) in Ho. cbn [fst snd] in Ho. rewrite Et in Ho.
      pose proof (idle_drift _ _ _ _ _ Hb) as Hdr. cbn [fst snd] in Hdr.
      destruct Ho as [Ho|[Hno Ho]]; [left; by eapply drift_moved|]. right; right.
      destruct Hb as (-> & Eh & _ & [Ea Ht] & Hnb & _). cbn [fst snd] in *. split; [|split; [done|]; split; [done | by eapply drift_drift]].
      intros (Hd & Hsu & _). apply Hno. rewrite <- slot_view, Ea, Eh. by destruct (view st0.1).
Qed.

(** The requests, last. *)
Lemma requests_begun l0 st0 l st : core true true l st.1 st.2 → t_now st.2 = t_now st0.2 → fetched l0 st0 l st →
  wp do_fetch_0 (λ _ st', ∃ l', core true true l' st'.1 st'.2 ∧ t_now st'.2 = t_now st0.2 ∧
    (moved l0 (view st0.1) (t_now st0.2) l' (view st'.1) ∨
     ¬ ready l0 (view st0.1) st0.2 ∧ drift l0 (view st0.1) (t_now st0.2) l' (view st'.1))) st.
Proof.
  intros Hc Et Hf. destruct st as [p h]. cbn [fst snd] in *.
  assert (live l (view p)) as Hl by (destruct Hf as [[? _]|[(_ & _ & ? & _)|(_ & _ & _ & ? & _)]]; done).
  eapply wp_mono; [apply wp_and; [by apply (fetch0_wp binv k w true true l p h) | by apply (fetch0_live binv k w true true l p h)]|].
  intros [] st' [(l' & Hc' & Et') (l2 & Hq2 & Ho)]. rewrite <- (holds_unique _ _ _ (c_q Hc') Hq2) in Ho.
  cbn [fst snd] in Ho. rewrite Et in Ho. exists l'. split; [done|]. split; [congruence|].
  destruct Hf as [Hm|[Hi|(Hno & Hnb & Hne & Hd)]].
  - left. destruct Ho as [Ho|[_ Ho]]; [by eapply moved_moved | by eapply moved_drift].
  - pose proof (idle_drift _ _ _ _ _ Hi) as Hd. destruct Ho as [Ho|[Hnf Ho]]; [left; by eapply drift_moved | right].
    split; [|by eapply drift_drift]. destruct Hi as (-> & Eh & _ & [Ea _] & Hn & _). cbn [fst snd] in *.
    intros [(s & Hs & Hx)|[(_ & Hx)|Hx]].
    + apply (Hn s); [by apply elem_of_cons; right | done].
    + apply (Hn Fetch); [by apply elem_of_cons; left | done].
    + apply Hnf. rewrite Ea, Eh. by destruct (view st0.1).
  - destruct Ho as [Ho|[_ Ho]]; [left; by eapply drift_moved | right]. split; [|by eapply drift_drift].
    intros [(s & Hs & Hx)|[Hx|[? _]]]; [by apply (Hnb s) | done | done].
Qed.

(** [turn s from to lem live]: the turn of stage [s]. *)
Tactic Notation "turn" constr(s) constr(bw) constr(bd) constr(bw') constr(bd') uconstr(lem) uconstr(livelem) :=
  match goal with H : begun _ _ ?dn ?l0 ?st0 _ |- _ =>
    rewrite wp_bind; eapply wp_mono;
    [ apply (stage_begun bw bd bw' bd' dn s l0 st0);
      [ exact H | unfold back; rewrite ?elem_of_cons, ?elem_of_nil; naive_solver | done | done
      | let l := fresh "l" in let Hc := fresh "Hc" in let Hs := fresh "Hs" in let Hp := fresh "Hp" in
        intros l Hc Hs Hp; cbn [fst snd] in *; try (apply present_Some in Hp as [? Hp]);
        eapply wp_mono; [by eapply lem | intros [] ? ?; unfold inv; naive_solver]
      | let l := fresh "l" in let Hc := fresh "Hc" in let Hl := fresh "Hl" in let Hs := fresh "Hs" in
        let Hp := fresh "Hp" in let Ht := fresh "Ht" in
        intros l Hc Hl Hs Hp Ht; cbn [fst snd] in *; try (apply present_Some in Hp as [? Hp]); by eapply livelem ]
    | clear H; intros [] [? ?] ? ]
  end.

(** What a tick does, for the queue [l0] and the state [st0] it starts from. *)
Definition ticked l0 st0 st : Prop := ∃ l, core true true l st.1 st.2 ∧ t_now st.2 = t_now st0.2 ∧
  (moved l0 (view st0.1) (t_now st0.2) l (view st.1) ∨
   ¬ ready l0 (view st0.1) st0.2 ∧ drift l0 (view st0.1) (t_now st0.2) l (view st.1)).

Lemma stages_live l0 st0 st m (Q : unit → Pipeline P * Ports → Prop) : begun false false [] l0 st0 st →
  (∀ st', ticked l0 st0 st' → wp m Q st') →
  wp (try_stage WriteBack;; try_stage Memory;; try_stage IntDivExt;; try_stage IntMulExt;;
      try_stage Execute;; try_stage Decode;; try_stage Fetch;; do_fetch_0;; m) Q st.
Proof.
  destruct st as [p h]. intros Hb Hm.
  turn WriteBack false false true false writeback_wp writeback_live.
  turn Memory true false true false memory_wp memory_live.
  turn IntDivExt true false true false div_wp div_live.
  turn IntMulExt true false true false mul_wp mul_live.
  turn Execute true false true false execute_wp execute_live.
  turn Decode true false true true decode_wp decode_live.
  rewrite wp_bind. eapply wp_mono; [by apply fetch_begun|].
  intros [] st' (l & Hc & Et & Hf). rewrite wp_bind. eapply wp_mono; [by apply (requests_begun l0 st0 l)|].
  intros []. exact Hm.
Qed.

Lemma update_live l p h : core false false l p h → live l (view p) →
  wp update_impl (λ _, ticked l (p, h)) (p, h).
Proof.
  intros Hc Hl. unfold update_impl. rewrite wp_bind, wp_modify_self. cbn [fst snd].
  set (p0 := p <| bpu ::= BU.begin_tick |>).
  apply (stages_live l (p0, h)).
  - exists l. split; [pose proof (c_bu Hc); destruct Hc; by constructor|]. split; [done|]. right.
    do 3 (split; [done|]). split; [by destruct (view p0)|]. split; [|done]. by intros s ?%elem_of_nil.
  - intros [p' h'] (l' & Hc' & Et & Hm). rewrite wp_bind, wp_now_, wp_modify_self. exists l'. cbn [fst snd] in *.
    split; [destruct Hc'; by constructor | done].
Qed.

(** ** The calls from outside *)

(** The rank does not rise, and no time after the present is waited for. *)
Definition calm l v (now : Z) l' v' : Prop :=
  live l' v' ∧ rank l' v' <= rank l v ∧ ∀ d, now <= d → due d v → due d v'.

Lemma calm_same l v n : live l v → calm l v n l v.
Proof. intros Hl. split; [done|]. split; [lia | done]. Qed.
Lemma calm_drift l v n l' v' : calm l v n l' v' → drift l v n l' v'.
Proof. intros (H1 & H2 & H3). split; [done|]. split; [done|]. intros d Hd. apply H3. lia. Qed.
Lemma calm_calm l v n l1 v1 l2 v2 : calm l v n l1 v1 → calm l1 v1 n l2 v2 → calm l v n l2 v2.
Proof. intros (H1 & H2 & H3) (H4 & H5 & H6). split; [done|]. split; [lia | auto]. Qed.

Lemma lrank_insert l (j : nat) t t' : l !! j = Some t → qrank t' = qrank t → lrank (<[j := t']> l) = lrank l.
Proof.
  intros Hj E. rewrite <- (take_drop_middle l j t Hj) at 2. rewrite insert_take_drop by (by eapply lookup_lt_Some).
  rewrite !lrank_app. simpl. lia.
Qed.

(** The response to a fetch. *)
Lemma ifu_live bw bd l p h p' : core bw bd l p h → live l (view p) → handle_ifu_resp (t_now h) p = Ok p' →
  ∃ l', IFQ.holds l' (fetch_queue_ p') ∧ calm l (view p) (t_now h) l' (view p') ∧ ongoing_insts_ p' = ongoing_insts_ p.
Proof.
  intros Hc Hl E. pose proof (c_tick Hc) as [Ht1 Ht2]. unfold handle_ifu_resp in E.
  destruct (resp_is_orphan (fetch_ p)) as [|o rest]; [done|]. set (p1 := p <| fetch_ ::= _ |>) in E. destruct o.
  { injection E as <-. exists l. split; [apply (c_q Hc)|]. split; [by apply calm_same | done]. }
  change (fetch_queue_ p1) with (fetch_queue_ p) in E. rewrite (IFQ.find_spec wait_mem l _ (c_q Hc)) in E.
  destruct (list_find (λ t, Is_true (wait_mem t)) l) as [[j t]|] eqn:Hfind; [|done].
  cbn [fmap option_fmap option_map mbind res_bind fst] in E.
  apply list_find_Some in Hfind as (Hj & _ & _).
  destruct (IFQ.modify_spec l (fetch_queue_ p) j t (λ t, t <| wait_mem := false |>) (c_q Hc) Hj) as (q & E2 & Hq & Ecap).
  rewrite E2 in E. cbn [mbind res_bind] in E. rewrite (soon (t_now h) 1) in E by lia. rewrite async_Ok in E by lia. injection E as <-.
  eexists. split; [exact Hq|]. split; [|done].
  match goal with |- calm _ _ _ _ (view ?x) => assert (view x = set_time Fetch (t_now h + 1) (view p)) as -> end.
  { exact (f_equal (set_time Fetch (t_now h + 1)) (view_queue p1 q Ecap)). }
  split; [|split].
  - apply live_fetch. destruct Hl. constructor; try done. apply list.Forall_insert; [done|].
    exact (proj1 (Forall_lookup _ _) l_queue0 j t Hj).
  - rewrite rank_time. unfold rank. by rewrite (lrank_insert l j t).
  - intros d _ Hd. apply due_set; [done | by right].
Qed.

Lemma schedule_calm l p s n c : live l (view p) → 0 <= n → n + 40 < InfTime →
  calm l (view p) n l (view (p <| stage_update_ ::= put s n |> <| calc_nxtupd_ := c |>)).
Proof.
  intros Hl Hn0 Hn. change (view (p <| stage_update_ ::= put s n |> <| calc_nxtupd_ := c |>)) with (set_time s n (view p)).
  split; [apply live_set; [done | unfold InfTime in *; lia]|]. split; [by rewrite rank_time|].
  intros d Hd Hdd. apply due_set; [done | left; by left].
Qed.

(** An acknowledgement wakes the stage that waits for the cache. *)
Lemma ack_live bw bd l p h a p' : core bw bd l p h → live l (view p) → ack_mem_avail (t_now h) a p = Ok p' →
  calm l (view p) (t_now h) l (view p') ∧ ongoing_insts_ p' = ongoing_insts_ p.
Proof.
  intros Hc Hl E. pose proof (c_tick Hc) as [Ht1 Ht2]. unfold ack_mem_avail in E.
  assert (∀ s, async_schedule (t_now h) s (t_now h) p = Ok p' →
    calm l (view p) (t_now h) l (view p') ∧ ongoing_insts_ p' = ongoing_insts_ p) as Hs.
  { intros s Hs. rewrite async_Ok in Hs by lia. injection Hs as <-.
    split; [by apply schedule_calm | done]. }
  destruct (ack_id a =? 0); [by apply (Hs Fetch)|]. destruct (_ || _); [|done].
  destruct (slot Execute p) as [t|]; [|injection E as <-; split; [by apply calm_same | done]].
  destruct (_ && _); [by apply (Hs Memory) | injection E as <-; split; [by apply calm_same | done]].
Qed.

(** The response to a load or store moves the instruction at execute. *)
Lemma lsu_live bw bd l p h x p' : core bw bd l p h → live l (view p) → t_lsu h = Some x →
  handle_lsu_resp (t_now h) p = Ok p' → IFQ.holds l (fetch_queue_ p') ∧ moved l (view p) (t_now h) l (view p').
Proof.
  intros Hc Hl Hx E. pose proof (c_tick Hc) as [Ht1 Ht2]. pose proof (c_lsu Hc) as Hlsu. unfold handle_lsu_resp in E.
  destruct (slot Execute p) as [t|] eqn:Ht; [|congruence]. rewrite Hx in Hlsu. destruct Hlsu as [Hw Hm].
  rewrite Hw, (Hm Hw) in E. cbn [present negb assert_ mbind res_bind] in E.
  set (p1 := set_wait false p) in E. set (t1 := t <| wait_mem := false |>).
  destruct (c_slots Hc _ _ Ht) as (((_ & Hrd & _) & _) & _ & Hcnt).
  assert (view p1 = set_at Execute (Some t1) (view p)) as Ev1 by (by apply view_wait).
  assert (live l (view p1)) as Hl1 by (rewrite Ev1; by apply live_send).
  assert (fetch_queue_ p1 = fetch_queue_ p) as Eq1 by done. clearbody p1.
  res_inv E.
  assert (fetch_queue_ a = fetch_queue_ p ∧ live l (view a) ∧ v_sl (view a) = v_sl (view p1) ∧ v_in (view a) = v_in (view p1) ∧
    v_early (view a) = v_early (view p1) ∧ (mem_op (trace_inst t) = MemLoad → ¬ stuck (view a) (dst t)) ∧
    ∀ d, t_now h + 36 <= d → due d (view p1) → due d (view a)) as (Eqa & Hla & Esl & Ein & Eea & Hfree & Hduea).
  { destruct (Z.eqb_spec (mem_op (trace_inst t)) MemLoad) as [Em|Em]; [|by injection Ha as <-].
    rewrite (soon (t_now h) 2) in Ha by lia.
    destruct (reg_time_live (t_now h) Ht1 Ht2 p1 _ l _ _ Ha Hl1 Hrd) as [Hl2 Hfree _ Hdue (rr & x' & ->) _]; [unfold InfTime in *; lia|].
    repeat (split; [done|]). intros d Hd Hdd. apply Hdue; [lia | lia | done]. }
  clear Ha. set (p3 := set_stall (t_now h) LsuStall a) in E.
  assert (view p3 = view a ∧ fetch_queue_ p3 = fetch_queue_ p) as [Ev3 Eq3].
  { split; [apply view_set_stall|]. unfold p3. by destruct (set_stall_frame (t_now h) LsuStall a) as (_ & _ & _ & -> & _). }
  clearbody p3. res_inv E.
  assert (view a0 = view a ∧ fetch_queue_ a0 = fetch_queue_ p) as [Ev4 Eq4].
  { destruct (at_F (sim_pipe_ p3)) as [f|]; [|by injection Ha as <-]. res_inv Ha. res_inv Ha. subst a0. destruct (_ <? _); [|done].
    rewrite view_set_stall. split; [done|]. by destruct (set_stall_frame (t_now h) RAW p3) as (_ & _ & _ & -> & _). }
  clear Ha. rewrite (soon (t_now h) 1) in E by lia. rewrite async_Ok in E by lia. cbn [mbind res_bind] in E.
  set (p5 := a0 <| stage_update_ ::= put Memory (t_now h + 1) |> <| calc_nxtupd_ ::= (λ c, Z.min c (t_now h + 1)) |>) in E.
  assert (p' = move_to_memory p5) as -> by (by injection E).
  assert (view p5 = set_time Memory (t_now h + 1) (view a)) as Ev5 by (rewrite <- Ev4; done).
  assert (slot Execute p5 = Some t1) as Hx5.
  { rewrite <- slot_view, Ev5. change (get Execute (v_sl (view a)) = Some t1). by rewrite Esl, Ev1. }
  assert (fetch_queue_ p5 = fetch_queue_ p) as Eq5 by exact Eq4.
  split; [change (IFQ.holds l (fetch_queue_ p5)); rewrite Eq5; apply (c_q Hc)|].
  rewrite (view_to_memory p5 t1 Hx5), Ev5. split; [|split].
  - apply live_to_memory; [apply live_set; [done | unfold InfTime in *; lia] | | | exact Hfree].
    + change (get Execute (v_sl (view a)) = Some t1). by rewrite Esl, Ev1.
    + rewrite time_set, decide_True by done. unfold InfTime in *; lia.
  - apply (rank_answer l (view p) _ t); try done; rewrite ?slot_view; auto.
    + by rewrite Esl, Ev1.
    + by rewrite Ein, Ev1.
    + by rewrite Eea, Ev1.
  - intros d Hd Hdd. apply due_slots, due_slots, due_set; [|left; left; lia]. apply Hduea; [done|]. rewrite Ev1. by apply due_slots.
Qed.

(** ** Every tick that waits for nothing moves an instruction *)

Lemma not_stuck_time l v s d : live l v → due d v → s ≠ Fetch → time s v ≠ InfTime → time s v <= d.
Proof. intros Hl Hd Hs Hn. by destruct (d_time _ _ Hd s Hs). Qed.

Lemma nobody_stuck l v r : live l v → at_ Decode v = None → at_ Execute v = None → ¬ stuck v r.
Proof.
  intros Hl Hd Hx Hs. destruct (l_prod _ _ Hl r Hs) as [(t & Ht & _)|(t & Ht & _)]; congruence.
Qed.

(** A decoded instruction has a unit to go to. *)
Lemma decoded_sure l v h t : live l v → at_ Decode v = Some t → at_ Execute v = None → at_ IntMulExt v = None →
  at_ IntDivExt v = None → ∃ s, s ≠ Fetch ∧ s ≠ Decode ∧ s ≠ Memory ∧ sure s l v h.
Proof.
  intros Hl Hd Hx Hm Hv. destruct (l_slot _ _ Hl Decode t Hd) as (_ & _ & Hext).
  assert (ext_op (trace_inst t) = ExtNone ∨ ext_op (trace_inst t) ∈ [IntMulH; IntMulL] ∨ ext_op (trace_inst t) ∈ [IntDiv; IntRem])
    as [He|[He|He]] by (rewrite !elem_of_cons in *; tauto); [exists Execute | exists IntMulExt | exists IntDivExt];
    (do 3 (split; [done|])); by exists t.
Qed.

Lemma ripe l p h : core false false l p h → live l (view p) → due (t_now h) (view p) → t_lsu h = None → t_fetches h = 0 →
  t_irdy h = true → (∀ po, t_drdy h po = (true, true)) → time Fetch (view p) <= t_now h →
  (∀ t, slot Execute p = Some t → is_mem t → time Memory (view p) <= t_now h) → 0 < total l p → ready l (view p) h.
Proof.
  intros Hc Hl Hd Hlsu Hfet Hir Hdr Htf Htm Htot.
  assert (∀ s, s ≠ Fetch → s ≠ Decode → s ≠ Memory → time s (view p) <= t_now h) as Htime.
  { intros s H1 H2 H3. apply (not_stuck_time l); [done | done | done |]. by apply (l_fin _ _ Hl). }
  assert (∀ s, s ∈ back → sure s l (view p) h → time s (view p) <= t_now h → ready l (view p) h) as Hback.
  { intros s Hs Hsu Ht. left. by exists s. }
  destruct (slot Memory p) as [tm|] eqn:EM.
  { apply (Hback WriteBack); [by apply in_back | | by apply Htime]. left. by rewrite slot_view, EM. }
  destruct (slot Execute p) as [tx|] eqn:EX.
  { apply (Hback Memory); [by apply in_back | |].
    - pose proof (c_lsu Hc) as Hx. rewrite EX, Hlsu in Hx. destruct Hx as [Hx _]. exists tx. by rewrite !slot_view.
    - destruct (decide (time Memory (view p) = InfTime)) as [Hi|]; [|by apply (not_stuck_time l)].
      destruct (l_mem _ _ Hl Hi) as (t & Ht & Hm). rewrite slot_view in Ht. apply (Htm t); [congruence | done]. }
  destruct (slot IntDivExt p) as [td|] eqn:ED.
  { apply (Hback WriteBack); [by apply in_back | | by apply Htime]. right. rewrite !slot_view, EX, ED.
    split; [done|]. left. split; [done | apply (d_div _ _ Hd)]. }
  destruct (slot IntMulExt p) as [tu|] eqn:EU.
  { apply (Hback WriteBack); [by apply in_back | | by apply Htime]. right. rewrite !slot_view, EX, EU.
    split; [done|]. right. split; [done | apply (d_mul _ _ Hd)]. }
  destruct (slot Decode p) as [td|] eqn:EDec.
  { destruct (decoded_sure l (view p) h td Hl EDec EX EU ED) as (s & Hf & Hd' & Hm & Hsu).
    by apply (Hback s); [apply in_back | | apply Htime]. }
  destruct (slot Fetch p) as [tf|] eqn:EF.
  { apply (Hback Decode); [by apply in_back | |].
    - exists tf. rewrite !slot_view. repeat (split; [done|]). intros r x _ Hx.
      destruct (Forall_vec_at _ _ _ _ (d_reg _ _ Hd) Hx) as [?| ->]; [done|]. by destruct (nobody_stuck l (view p) r Hl).
    - apply (not_stuck_time l); [done | done | done |]. intros Hi. destruct (l_dec _ _ Hl Hi) as (t & _ & r & _ & Hs).
      by destruct (nobody_stuck l (view p) r Hl). }
  destruct l as [|t l].
  - right; right. split; [done|]. rewrite !slot_view. repeat (split; [done|]). split; [|split; [apply (d_resume _ _ Hd) | done]].
    intros Hi. change (v_in (view p)) with (input_buffer_ p) in Hi. unfold total in Htot.
    rewrite EM, EX, ED, EU, EDec, EF, Hi in Htot. simpl in Htot. lia.
  - right; left. split; [done|]. split; [|done]. split; [done|]. exists t, l. split; [done|].
    destruct (c_orph Hc) as [H1 H2]. rewrite Hfet in H1. destruct (resp_is_orphan (fetch_ p)); [|unfold zlen in H1; simpl in H1; lia].
    simpl in H2. destruct (wait_mem t); [|done]. simpl in H2. pose proof (countb_nonneg wait_mem l). lia.
Qed.

(** ** Rounds

    In a round the clock ticks, the caches answer everything that is outstanding,
    say that they are ready again, and the core is updated. *)

Definition all_ready (_ : port) : bool * bool := (true, true).
Definition round : ST (Pipeline P * Ports) unit := λ s,
  run ([OTick; OReady true all_ready; OLsuResp] ++ repeat OFetchResp (Z.to_nat (t_fetches s.2)) ++
       [OAck 0 Read; OAck 1 Read; OUpdate]) s.
Fixpoint rounds (n : nat) : ST (Pipeline P * Ports) unit :=
  match n with O => mret tt | S n => round;; rounds n end.

(** Inside a round, which began with the queue [l0], the view [v0] and [o0]
    instructions. *)
Record mid l0 v0 (o0 n : Z) l st : Prop := {
  m_core : core false false l st.1 st.2;
  m_now : t_now st.2 = n ∧ t_updated st.2 = false;
  m_lsu : t_lsu st.2 = None;
  m_ready : t_irdy st.2 = true ∧ ∀ po, t_drdy st.2 po = (true, true);
  m_so_far : moved l0 v0 n l (view st.1) ∨ calm l0 v0 n l (view st.1) ∧ ongoing_insts_ st.1 = o0
}.

Lemma mid_live l0 v0 o0 n l st : mid l0 v0 o0 n l st → live l (view st.1).
Proof. intros []. by destruct m_so_far0 as [[? _]|[[? _] _]]. Qed.

Lemma mid_calm l0 v0 o0 n l l' st st' : mid l0 v0 o0 n l st → core false false l' st'.1 st'.2 →
  t_now st'.2 = n ∧ t_updated st'.2 = false → t_lsu st'.2 = None →
  (t_irdy st'.2 = true ∧ ∀ po, t_drdy st'.2 po = (true, true)) →
  calm l (view st.1) n l' (view st'.1) ∧ ongoing_insts_ st'.1 = ongoing_insts_ st.1 → mid l0 v0 o0 n l' st'.
Proof.
  intros [] Hc Hn Hlsu Hr [Hcalm Ho]. constructor; try done.
  destruct m_so_far0 as [Hm|[Hm Ho']]; [left | right; split; [by eapply calm_calm | congruence]].
  eapply moved_drift; [exact Hm | by apply calm_drift].
Qed.

Lemma fetch_resp_mid l0 v0 o0 n l st : mid l0 v0 o0 n l st →
  wp (step OFetchResp) (λ _ st', ∃ l', mid l0 v0 o0 n l' st' ∧ t_fetches st'.2 = Z.max 0 (t_fetches st.2 - 1)) st.
Proof.
  destruct st as [p h]. intros Hm. pose proof (mid_live _ _ _ _ _ _ Hm) as Hl. pose proof Hm as [Hc [Hn Hu] Hlsu Hr _]. cbn [fst snd] in *.
  assert (0 <= t_fetches h) as Hpos by (destruct (c_orph Hc) as [<- _]; apply zlen_nonneg).
  unfold wp, step. destruct (Z.ltb_spec 0 (t_fetches h)) as [Hf|Hf]; [|exists l; split; [done | simpl; lia]].
  match goal with |- match ?m ?s with _ => _ end =>
    apply (wp_upd _ (λ _ s', ∃ l', mid l0 v0 o0 n l' s' ∧ t_fetches s'.2 = _) s) end. cbn [fst snd].
  destruct (ifu_core binv k w _ _ l p h Hc Hf) as (p' & l' & E & Hc'). exists p'. split; [exact E|].
  destruct (ifu_live _ _ l p h p' Hc Hl E) as (l2 & Hq & Hcalm). rewrite <- (holds_unique _ _ _ (c_q Hc') Hq) in Hcalm.
  exists l'. split; [|simpl; lia]. rewrite Hn in Hcalm. by eapply mid_calm.
Qed.

Lemma fetch_resps_mid l0 v0 o0 n m : ∀ l st, mid l0 v0 o0 n l st → t_fetches st.2 <= Z.of_nat m →
  wp (run (repeat OFetchResp m)) (λ _ st', ∃ l', mid l0 v0 o0 n l' st' ∧ t_fetches st'.2 = 0) st.
Proof.
  induction m as [|m IH]; intros l st Hm Hle; pose proof (m_core _ _ _ _ _ _ Hm) as Hc;
    assert (0 <= t_fetches st.2) as Hpos by (destruct (c_orph Hc) as [<- _]; apply zlen_nonneg);
    [exists l; split; [done | lia]|]. cbn [repeat run]. rewrite wp_bind.
  eapply wp_mono; [by apply (fetch_resp_mid l0 v0 o0 n l)|]. intros [] st' (l' & Hm' & E). apply (IH l'); [done | lia].
Qed.

Lemma ack_mid l0 v0 o0 n l st id : id = 0 ∨ id = 1 → mid l0 v0 o0 n l st →
  wp (step (OAck id Read)) (λ _ st', mid l0 v0 o0 n l st' ∧ t_fetches st'.2 = t_fetches st.2 ∧
    ack_mem_avail n (MkAckTrans id Read) st.1 = Ok st'.1) st.
Proof.
  destruct st as [p h]. intros Hid Hm. pose proof (mid_live _ _ _ _ _ _ Hm) as Hl.
  pose proof Hm as [Hc [Hn Hu] Hlsu Hr _]. cbn [fst snd] in *. unfold wp, step.
  match goal with |- match ?m ?s with _ => _ end =>
    apply (wp_upd _ (λ _ s', mid l0 v0 o0 n l s' ∧ t_fetches s'.2 = _ ∧ _ = Ok s'.1) s) end.
  cbn [fst snd]. destruct (ack_core binv k w _ _ l p h (MkAckTrans id Read) Hc) as (p' & E & Hc'); [simpl; tauto|].
  exists p'. split; [exact E|]. split; [|split; [done | by rewrite <- Hn]].
  eapply mid_calm; [exact Hm | done | done | done | done |]. cbn [fst snd]. rewrite <- Hn. by eapply ack_live.
Qed.

(** The clock ticks, the caches are ready, and the load or store is answered. *)
Lemma start_mid b l p h : core b b l p h → t_now h + 41 < InfTime → live l (view p) →
  wp (run [OTick; OReady true all_ready; OLsuResp])
    (λ _ st', mid l (view p) (ongoing_insts_ p) (t_now h + 1) l st' ∧ t_fetches st'.2 = t_fetches h) (p, h).
Proof.
  intros Hc Hn Hl. cbn [run]. rewrite wp_bind. unfold wp at 1. cbn [step]. rewrite wp_bind. unfold wp at 1. cbn [step]. rewrite wp_bind.
  set (h2 := _ <| t_irdy := true |> <| t_drdy := all_ready |>).
  assert (core false false l p h2) as Hc2.
  { assert (core false false l p (h <| t_now ::= Z.succ |> <| t_updated := false |>)) as []
      by (by apply (core_later binv k w b)). by constructor. }
  assert (t_now h2 = t_now h + 1) as En by (simpl; lia).
  assert (∀ l' p' h', core false false l' p' h' → t_now h' = t_now h2 → t_updated h' = false → t_lsu h' = None →
    t_irdy h' = true → t_drdy h' = all_ready →
    moved l (view p) (t_now h + 1) l' (view p') ∨ calm l (view p) (t_now h + 1) l' (view p') ∧ ongoing_insts_ p' = ongoing_insts_ p →
    mid l (view p) (ongoing_insts_ p) (t_now h + 1) l' (p', h')) as Hmk.
  { intros l' p' h' Hc' E1 E2 E3 E4 E5 Hm. constructor; try done; cbn [snd]. split; [done|]. by rewrite E5. }
  unfold wp at 1. cbn [step]. destruct (t_lsu h2) as [[po m]|] eqn:El.
  - match goal with |- match ?m ?s with _ => _ end => apply (wp_upd _ (λ _ s', wp (mret tt)
      (λ _ st', mid l (view p) (ongoing_insts_ p) (t_now h + 1) l st' ∧ t_fetches st'.2 = t_fetches h) s') s) end. cbn [fst snd].
    destruct (lsu_core binv k w _ _ l p h2 (po, m) Hc2 El) as (p' & E & Hc'). exists p'. split; [destruct po; exact E|].
    destruct (lsu_live _ _ l p h2 _ p' Hc2 Hl El E) as [_ Hm]. split; [|done]. apply Hmk; try done. left. by rewrite <- En.
  - split; [|done]. apply Hmk; try done. right. split; [by apply calm_same | done].
Qed.

Lemma core_run_app (o1 o2 : list op) : ∀ st, run (P := P) (o1 ++ o2) st = (run o1;; run o2) st.
Proof.
  induction o1 as [|o o1 IH]; intros st; [done|]. cbn [run app]. unfold mbind, ST_bind. destruct (step o st) as [[[] st']|]; [|done].
  apply IH.
Qed.

Lemma wp_run_app (o1 o2 : list op) Q st : wp (run o1) (λ _ st', wp (run o2) Q st') st → wp (run (P := P) (o1 ++ o2)) Q st.
Proof. intros Hw. unfold wp. rewrite core_run_app. by apply wp_bind in Hw. Qed.

(** The last calls of a round: the instruction cache wakes fetch, the data cache
    wakes memory, and the core is updated. *)
Lemma total_zero bw bd l p h : core bw bd l p h → total l p = 0 → ongoing_insts_ p = 0.
Proof. intros Hc E. by rewrite (c_ongoing Hc), E. Qed.

Definition round_post l0 v0 (o0 n : Z) st : Prop := ∃ l, core true true l st.1 st.2 ∧ t_updated st.2 = true ∧ t_now st.2 = n ∧
  (moved l0 v0 n l (view st.1) ∨ drift l0 v0 n l (view st.1) ∧ (due n v0 → o0 = 0)).

Lemma update_mid l0 v0 o0 n l st : mid l0 v0 o0 n l st → t_fetches st.2 = 0 → next_update st.1 <= n →
  time Fetch (view st.1) <= n → (∀ t, slot Execute st.1 = Some t → is_mem t → time Memory (view st.1) <= n) →
  wp (step OUpdate) (λ _, round_post l0 v0 o0 n) st.
Proof.
  destruct st as [p h]. intros Hm Hf Hnx Htf Htm. pose proof (mid_live _ _ _ _ _ _ Hm) as Hl.
  pose proof Hm as [Hc [Hn Hu] Hlsu [Hi Hd] Hso]. cbn [fst snd] in *.
  unfold wp, step. rewrite Hu. set (h1 := h <| t_updated := true |>).
  assert (core false false l p h1) as Hc1 by (destruct Hc; by constructor).
  change (wp do_update (λ _, round_post l0 v0 o0 n) (p, h1)). unfold do_update.
  rewrite wp_bind, wp_self, wp_bind, wp_now_, wp_when. cbn [fst snd].
  change (t_now h1) with (t_now h). rewrite Hn, (proj2 (Z.leb_le _ _) Hnx).
  eapply wp_mono; [apply wp_steady; [apply update_steady | by apply (update_live l p h1)]|].
  intros [] [p' h'] [(l' & Hc' & Et & Hm') [= E1 E2 _ _]]. cbn [fst snd] in *.
  exists l'. split; [done|]. split; [done|]. split; [cbn [snd]; congruence|]. change (t_now h1) with (t_now h) in Hm'. rewrite Hn in Hm'.
  destruct Hso as [Hso|[Hso Ho]].
  - left. destruct Hm' as [Hm'|[_ Hm']]; [by eapply moved_moved | by eapply moved_drift].
  - destruct Hm' as [Hm'|[Hno Hm']]; [left; eapply drift_moved; [by apply calm_drift | done] | right].
    split; [eapply drift_drift; [by apply calm_drift | done]|]. intros Hdue. rewrite <- Ho. apply (total_zero _ _ _ _ _ Hc1).
    destruct (decide (0 < total l p)) as [Hpos|]; [|pose proof (total_range _ _ _ _ _ _ _ _ Hc1); lia].
    destruct Hno. assert (t_now h1 = n) as En by exact Hn. apply ripe; rewrite ?En; try done. by apply Hso.
Qed.

Lemma round_live b l p h : core b b l p h → t_now h + 41 < InfTime → live l (view p) →
  wp round (λ _, round_post l (view p) (ongoing_insts_ p) (t_now h + 1)) (p, h).
Proof.
  intros Hc Hn Hl. unfold round. apply wp_run_app. eapply wp_mono; [by apply (start_mid b)|].
  intros [] st1 [Hm1 Ef1]. apply wp_run_app. cbn [snd].
  assert (0 <= t_fetches h) as Hpos by (destruct (c_orph Hc) as [<- _]; apply zlen_nonneg).
  eapply wp_mono; [apply (fetch_resps_mid l (view p) (ongoing_insts_ p) (t_now h + 1) _ l); [exact Hm1 | lia]|].
  intros [] st2 (l2 & Hm2 & Ef2).
  cbn [run]. rewrite wp_bind. eapply wp_mono; [apply (ack_mid l (view p) (ongoing_insts_ p) (t_now h + 1) l2); [by left | exact Hm2]|].
  intros [] st3 (Hm3 & Ef3 & Ea3). rewrite wp_bind.
  eapply wp_mono; [apply (ack_mid l (view p) (ongoing_insts_ p) (t_now h + 1) l2); [by right | exact Hm3]|].
  intros [] st4 (Hm4 & Ef4 & Ea4). rewrite wp_bind.
  set (n := t_now h + 1) in *.
  assert (next_update st3.1 <= n ∧ time Fetch (view st3.1) = n) as [Hnx3 Htf3].
  { unfold ack_mem_avail in Ea3. cbn [ack_id] in Ea3. rewrite async_Ok in Ea3 by lia. injection Ea3 as <-. simpl. split; [lia | done]. }
  assert (next_update st4.1 <= n ∧ time Fetch (view st4.1) = n ∧
    ∀ t, slot Execute st4.1 = Some t → is_mem t → time Memory (view st4.1) <= n) as (Hnx & Htf & Htm).
  { unfold ack_mem_avail in Ea4. cbn [ack_id] in Ea4. cbn [Z.eqb orb] in Ea4. rewrite async_Ok in Ea4 by lia.
    pose proof (c_lsu (m_core _ _ _ _ _ _ Hm3)) as Hw. rewrite (m_lsu _ _ _ _ _ _ Hm3) in Hw.
    destruct (slot Execute st3.1) as [t|] eqn:Ex; [|injection Ea4 as <-; split; [done|]; split; [done|]; congruence].
    destruct Hw as [Hw _]. rewrite Hw in Ea4. cbn [present negb andb] in Ea4.
    destruct (Z.eqb_spec (mem_op (trace_inst t)) MemNone) as [Em|Em]; cbn [negb] in Ea4.
    - injection Ea4 as <-. split; [done|]. split; [done|]. intros t' Ht' Hm. rewrite Ex in Ht'. injection Ht' as <-. by destruct Hm.
    - injection Ea4 as E. rewrite <- E. split; [change (Z.min (next_update st3.1) n <= n); lia|]. split; [done|]. intros _ _ _. 
      change (n <= n). lia. }
  eapply wp_mono; [apply (update_mid l (view p) (ongoing_insts_ p) n l2 st4); [done | congruence | done | by rewrite Htf | done]|].
  by intros [].
Qed.

(** ** Whole runs *)

(** What is fed can be finished. *)
Definition op_runs (o : op) : Prop := match o with OFeed i => runnable i | _ => True end.

Definition awake st : Prop := ∃ l, IFQ.holds l (fetch_queue_ st.1) ∧ live l (view st.1) ∧ due (t_now st.2 + 36) (view st.1).

Lemma due_moved l v n l' v' n' : moved l v n l' v' → due (n + 36) v → n <= n' → live l' v' ∧ due (n' + 36) v'.
Proof. intros (Hl & _ & Hd) Hdue Hn. split; [done|]. apply (due_mono (n + 36)); [lia|]. apply Hd; [lia | done]. Qed.
Lemma due_drift l v n l' v' n' : drift l v n l' v' → due (n + 36) v → n <= n' → live l' v' ∧ due (n' + 36) v'.
Proof. intros (Hl & _ & Hd) Hdue Hn. split; [done|]. apply (due_mono (n + 36)); [lia|]. apply Hd; [lia | done]. Qed.

Lemma live_feed l v t : live l v → runnable (trace_inst t) → bp_meta_hold t = 0 → live l (v <| v_in := Some t |>).
Proof. intros [] Hr Hh. constructor; try done. intros t' [= <-]. done. Qed.

Lemma feed_awake l p h i : core (t_updated h) (t_updated h) l p h → live l (view p) → due (t_now h + 36) (view p) →
  input_buffer_ p = None → fed_ok i → runnable i → wp (feed_inst i) (λ _, awake) (p, h <| t_fed ::= Z.succ |>).
Proof.
  intros Hc Hl Hd Hin Hi Hr. unfold feed_inst. pstep. rewrite Hin. split; [done|]. pstep.
  match goal with |- wp do_fetch_0 _ (?q, ?e) => set (p1 := q); set (h1 := e) end.
  assert (core (t_updated h) (t_updated h) l p1 h1) as Hc1 by (by apply feed_core).
  assert (live l (view p1)) as Hl1 by (by apply (live_feed l (view p))).
  assert (due (t_now h + 36) (view p1)) as Hd1 by (destruct Hd; by constructor).
  eapply wp_mono; [apply wp_and; [by apply (fetch0_wp binv k w (t_updated h) (t_updated h) l p1 h1) |
    by apply (fetch0_live binv k w (t_updated h) (t_updated h) l p1 h1)]|].
  intros [] [p' h'] [(l2 & Hc' & Et) (l' & Hq & Hm)]. cbn [fst snd] in *. exists l'. split; [done|]. cbn [fst snd]. rewrite Et.
  destruct Hm as [Hm|[_ Hm]]; [by apply (due_moved _ _ _ _ _ _ Hm) | by apply (due_drift _ _ _ _ _ _ Hm)].
Qed.

Lemma step_awake n o st : sinv binv k w (n + 1) st → 0 <= n → awake st → op_ok o → op_runs o → wp (step o) (λ _, awake) st.
Proof.
  destruct st as [p h]. intros [[l Hc] Hn] Hpos (l2 & Hq2 & Hl & Hd) Ho Hr. cbn [fst snd] in *.
  rewrite <- (holds_unique _ _ _ (c_q Hc) Hq2) in Hl. clear l2 Hq2. pose proof (c_tick Hc) as [Ht1 Ht2].
  assert (∀ p' h', view p' = view p → fetch_queue_ p' = fetch_queue_ p → t_now h <= t_now h' → awake (p', h')) as Hsame.
  { intros p' h' Ev Eq Ht. exists l. cbn [fst snd]. rewrite Ev, Eq. split; [apply (c_q Hc)|]. split; [done|].
    apply (due_mono (t_now h + 36)); [lia | done]. }
  destruct o; cbn [op_ok op_runs] in *; unfold wp, step.
  - apply Hsame; [done | done | simpl; lia].
  - destruct (t_updated h) eqn:Eu; [apply Hsame; [done | done | lia]|]. set (h1 := h <| t_updated := true |>).
    assert (core false false l p h1) as Hc1 by (destruct Hc; by constructor).
    change (wp do_update (λ _ s', awake s') (p, h1)). unfold do_update.
    rewrite wp_bind, wp_self, wp_bind, wp_now_, wp_when. cbn [fst snd].
    destruct (_ <=? _); [|apply Hsame; [done | done | simpl; lia]].
    eapply wp_mono; [by apply (update_live l p h1)|]. intros [] [p' h'] (l' & Hc' & Et & Hm). cbn [fst snd] in *.
    exists l'. split; [apply (c_q Hc')|]. cbn [fst snd]. rewrite Et.
    destruct Hm as [Hm|[_ Hm]]; [by apply (due_moved _ _ _ _ _ _ Hm) | by apply (due_drift _ _ _ _ _ _ Hm)].
  - destruct (inst_avail p) eqn:Ea; [|apply Hsame; [done | done | lia]].
    apply (feed_awake l); try done. unfold inst_avail in Ea. by destruct (input_buffer_ p).
  - destruct (Z.ltb_spec 0 (t_fetches h)) as [Hf|]; [|apply Hsame; [done | done | lia]].
    match goal with |- match ?m ?s with _ => _ end => apply (wp_upd _ (λ _ s', awake s') s) end. cbn [fst snd].
    destruct (ifu_core binv k w _ _ l p h Hc Hf) as (p' & l' & E & Hc'). exists p'. split; [exact E|].
    destruct (ifu_live _ _ l p h p' Hc Hl E) as (l2 & Hq & Hcalm & _). exists l2. split; [done|].
    by apply (due_drift _ _ _ _ _ _ (calm_drift _ _ _ _ _ Hcalm)).
  - destruct (t_lsu h) as [[po m]|] eqn:El; [|apply Hsame; [done | done | lia]].
    match goal with |- match ?m ?s with _ => _ end => apply (wp_upd _ (λ _ s', awake s') s) end. cbn [fst snd].
    destruct (lsu_core binv k w _ _ l p h (po, m) Hc El) as (p' & E & Hc'). exists p'. split; [destruct po; exact E|].
    destruct (lsu_live _ _ l p h _ p' Hc Hl El E) as [Hq Hm]. exists l. split; [done|]. by apply (due_moved _ _ _ _ _ _ Hm).
  - match goal with |- match ?m ?s with _ => _ end => apply (wp_upd _ (λ _ s', awake s') s) end. cbn [fst snd].
    destruct (ack_core binv k w _ _ l p h (MkAckTrans id m) Hc) as (p' & E & Hc'); [done|]. exists p'. split; [exact E|].
    destruct (ack_live _ _ l p h _ p' Hc Hl E) as [Hcalm _]. exists l. split; [apply (c_q Hc')|].
    by apply (due_drift _ _ _ _ _ _ (calm_drift _ _ _ _ _ Hcalm)).
  - apply Hsame; [done | done | simpl; lia].
  - apply Hsame; [done | done | simpl; lia].
  - apply Hsame; [done | done | simpl; lia].
Qed.

Lemma run_awake m ops st : sinv binv k w (zlen ops + m) st → awake st → Forall op_ok ops → Forall op_runs ops → 0 <= m →
  wp (run ops) (λ _ st', sinv binv k w m st' ∧ awake st') st.
Proof.
  intros Hs Ha Ho Hr Hm. revert st Hs Ha. induction ops as [|o ops IH]; intros st Hs Ha; [done|].
  apply Forall_cons_iff in Ho as [Ho Hos]. apply Forall_cons_iff in Hr as [Hr Hrs]. cbn [run]. rewrite wp_bind.
  rewrite IFQ.zlen_cons in Hs.
  pose proof (zlen_nonneg ops). replace (zlen ops + 1 + m) with (zlen ops + m + 1) in Hs by lia.
  eapply wp_mono; [apply wp_and; [apply (core_step_wp binv k w (zlen ops + m)); [done | lia | done] |
    apply (step_awake (zlen ops + m)); [done | lia | done..]]|].
  intros [] st' [Hs' Ha']. by apply IH.
Qed.

Lemma make_awake ifq b lat nxt irdy drdy : 0 < ifq < 2 ^ 63 → awake (make ifq b lat true nxt, start irdy drdy).
Proof.
  intros Hq. exists []. cbn [fst snd]. split; [apply IFQ.make_holds; lia|].
  assert (∀ s, time s (view (make ifq b lat true nxt)) = 0) as Ht by (by intros []).
  assert (∀ s, at_ s (view (make ifq b lat true nxt)) = None) as Hn by (by intros []).
  split; constructor; try done.
  - intros s _ _ _. by rewrite Ht.
  - intros r Hr. exfalso. unfold stuck in Hr.
    assert (Forall (λ x, x = 0) (replicate 32 0)) as Hz by (by repeat constructor).
    pose proof (Forall_vec_at _ _ _ _ Hz Hr) as Hx. done.
  - intros s t _ Ht'. by rewrite Hn in Ht'.
  - split; [done|]. by repeat constructor.
  - intros s t Ht'. by rewrite Hn in Ht'.
  - simpl. lia.
  - intros s _. rewrite Ht. left. simpl. lia.
  - repeat constructor; simpl; lia.
Qed.

(** The instructions of the core, weighted, and the ticks until all its times have
    come: every round lowers the sum while there is an instruction. *)
Lemma round_falls b l p h j : core b b l p h → live l (view p) → 0 <= j <= 36 → due (t_now h + j) (view p) →
  ongoing_insts_ p ≠ 0 → t_now h + 41 < InfTime →
  ∃ p' h' l' j', round (p, h) = Ok (tt, (p', h')) ∧ core true true l' p' h' ∧ live l' (view p') ∧ 0 <= j' <= 36 ∧
    due (t_now h' + j') (view p') ∧ 37 * rank l' (view p') + j' < 37 * rank l (view p) + j ∧ t_now h' = t_now h + 1.
Proof.
  intros Hc Hl Hj Hd Hne Hn. pose proof (round_live b l p h Hc Hn Hl) as Hr.
  apply wp_run in Hr as ([] & [p' h'] & Er & l' & Hc' & _ & Et & Hm). cbn [fst snd] in *. exists p', h', l'.
  destruct Hm as [(Hl' & Hlt & Hdue)|[(Hl' & Hle & Hdue) Hz]].
  - exists 36. split; [done|]. split; [done|]. split; [done|]. split; [lia|]. rewrite Et. split; [|split; [lia | done]].
    apply Hdue; [lia | apply (due_mono (t_now h + j)); [lia | done]].
  - destruct (decide (j <= 1)) as [Hj1|Hj1]; [destruct Hne; apply Hz; apply (due_mono (t_now h + j)); [lia | done]|].
    exists (j - 1). split; [done|]. split; [done|]. split; [done|]. split; [lia|]. rewrite Et. split; [|split; [lia | done]].
    replace (t_now h + 1 + (j - 1)) with (t_now h + j) by lia. apply Hdue; [lia | done].
Qed.

Lemma rounds_drain m : ∀ b l p h j, core b b l p h → live l (view p) → 0 <= j <= 36 → due (t_now h + j) (view p) →
  37 * rank l (view p) + j <= Z.of_nat m → t_now h + Z.of_nat m + 41 < InfTime →
  ∃ n p' h' b' l', (n <= m)%nat ∧ rounds n (p, h) = Ok (tt, (p', h')) ∧ ongoing_insts_ p' = 0 ∧ core b' b' l' p' h'.
Proof.
  induction m as [|m IH]; intros b l p h j Hc Hl Hj Hd Hm Hn;
    (destruct (decide (ongoing_insts_ p = 0)) as [E|Hne]; [exists 0%nat, p, h, b, l; split; [lia | done]|]);
    destruct (round_falls b l p h j Hc Hl Hj Hd Hne ltac:(lia)) as (p1 & h1 & l1 & j1 & Er & Hc1 & Hl1 & Hj1 & Hd1 & Hlt & Et);
    pose proof (rank_nonneg _ _ Hl1); [lia|].
  destruct (IH true l1 p1 h1 j1 Hc1 Hl1 Hj1 Hd1 ltac:(lia) ltac:(lia)) as (n & p' & h' & b' & l' & Hle & Hrun & Hfin).
  exists (S n), p', h', b', l'. split; [lia|]. split; [|done]. cbn [rounds]. unfold mbind, ST_bind. by rewrite Er.
Qed.

(** Nothing is fed in a round. *)
Definition ghosts (h : Ports) : Z * Z := (t_fed h, t_past h).
Definition serves (o : op) : bool := match o with OFeed _ | OReset | ODrain => false | _ => true end.

Lemma step_ghosts o st st' : serves o = true → step (P := P) o st = Ok (tt, st') → ghosts st'.2 = ghosts st.2.
Proof.
  destruct st as [p h]. intros Hs Hr.
  assert (∀ f h1, upd (P := P) f (p, h1) = Ok (tt, st') → ghosts h1 = ghosts h → ghosts st'.2 = ghosts h) as Hupd.
  { intros f h1 E Hg. apply steady_upd in E. injection E as _ _ E1 E2. unfold ghosts in *. cbn [snd] in *. congruence. }
  destruct o; try done; cbn [step] in Hr.
  - by injection Hr as <-.
  - destruct (t_updated h); [by injection Hr as <-|].
    change (do_update (P := P) (p, h <| t_updated := true |>) = Ok (tt, st')) in Hr.
    assert (steady (P := P) do_update) as Hst by
      (apply steady_bind; [apply steady_self | intros ?]; apply steady_bind; [apply steady_now | intros ?];
       apply steady_when, update_steady).
    apply Hst in Hr. injection Hr as _ _ E1 E2. unfold ghosts. by rewrite E1, E2.
  - destruct (0 <? t_fetches h); [by eapply Hupd | by injection Hr as <-].
  - destruct (t_lsu h) as [[po m]|]; [by eapply Hupd | by injection Hr as <-].
  - by eapply Hupd.
  - by injection Hr as <-.
Qed.

Lemma run_ghosts ops : Forall (λ o, serves o = true) ops → ∀ st st', run (P := P) ops st = Ok (tt, st') → ghosts st'.2 = ghosts st.2.
Proof.
  induction 1 as [|o ops Ho _ IH]; intros st st' Hr; [by injection Hr as <-|]. cbn [run] in Hr. unfold mbind, ST_bind in Hr.
  destruct (step o st) as [[[] st1]|] eqn:E; [|done]. rewrite (IH st1 st' Hr). by eapply step_ghosts.
Qed.

Lemma rounds_ghosts n : ∀ st st', rounds n st = Ok (tt, st') → ghosts st'.2 = ghosts st.2.
Proof.
  induction n as [|n IH]; intros st st' Hr; [by injection Hr as <-|]. cbn [rounds] in Hr. unfold mbind, ST_bind in Hr.
  destruct (round st) as [[[] st1]|] eqn:E; [|done]. rewrite (IH st1 st' Hr). revert E. apply run_ghosts.
  repeat (apply Forall_cons; [done|]). apply Forall_app. split; [|by repeat (apply Forall_cons; [done|])].
  apply Forall_forall. by intros o ->%repeat_spec.
Qed.
End update.

(** ** The theorem *)

Section theorems.
Context {P : Type} `{DirPredictor P} (binv : P → Prop) `{!DirPredictorLaws P binv} (k w : Z).
Variables (ifq : Z) (b : BU.BranchUnit P) (lat nxt : Z) (irdy : bool) (drdy : port → bool * bool).
Hypotheses (Hb : BU.wf binv k w b) (Hifq : 0 < ifq < 2 ^ 63).

(** The bound on the rounds, for the number of instructions in the machine. *)
Definition drain_rounds (n : Z) : Z := 37 * (20 * n + 2) + 36.

(** C7: the core finishes what it was fed.  From every state it can reach, whatever
    the caches and the clock did, it takes at most [drain_rounds] rounds of caches
    that answer until every instruction has committed: none waits for a younger one,
    no two wait for each other, no stage sleeps through the answer it waits for.
    The records fed are [runnable]: a store has no destination register, and an
    extension is a multiplication or a division. *)
Theorem core_drains ops p h : Forall op_ok ops → Forall op_runs ops → zlen ops + 40 < InfTime →
  run ops (make ifq b lat true nxt, start irdy drdy) = Ok (tt, (p, h)) →
  zlen ops + drain_rounds (ongoing_insts_ p) + 41 < InfTime →
  ∃ n p' h', Z.of_nat n <= drain_rounds (ongoing_insts_ p) ∧ rounds n (p, h) = Ok (tt, (p', h')) ∧ is_finished p' = true ∧
    u64 (t_past h + insts (stats p')) = u64 (t_fed h).
Proof.
  intros Ho Hr Hn0 Hrun Hn. set (m := drain_rounds (ongoing_insts_ p)) in *.
  destruct (pipe_reach binv k w ifq b lat nxt irdy drdy ops Hb ltac:(lia) Hn0 Ho) as (p1 & h1 & l1 & b1 & Hrun1 & Hc1).
  rewrite Hrun in Hrun1. injection Hrun1 as <- <-.
  assert (0 <= ongoing_insts_ p) as Hpos by (rewrite (c_ongoing Hc1); apply u64_range).
  assert (0 <= m) as Hm by (unfold m, drain_rounds; lia).
  pose proof (run_awake binv k w (m + 1) ops _ (make_sinv binv k w ifq b lat nxt irdy drdy (zlen ops + (m + 1)) Hb ltac:(lia) ltac:(lia))
    (make_awake ifq b lat nxt irdy drdy Hifq) Ho Hr ltac:(lia)) as Hw.
  unfold wp in Hw. rewrite Hrun in Hw. destruct Hw as [[[l Hc] Ht] (l2 & Hq2 & Hl & Hd)]. cbn [fst snd] in *.
  rewrite <- (holds_unique _ _ _ (c_q Hc) Hq2) in Hl.
  destruct (rounds_drain binv k w (Z.to_nat m) _ l p h 36 Hc Hl ltac:(lia) Hd) as (n & p' & h' & b' & l' & Hle & Hrn & Hfin & Hc').
  - pose proof (rank_bound _ _ Hl) as Hrk. rewrite Z2Nat.id by done. unfold m, drain_rounds. rewrite (c_ongoing Hc).
    rewrite u64_small by (pose proof (total_range _ _ _ _ _ _ _ _ Hc); lia). unfold total.
    change (v_in (view p)) with (input_buffer_ p) in Hrk. rewrite !slot_view in Hrk. lia.
  - rewrite Z2Nat.id by done. lia.
  - exists n, p', h'. split; [lia|]. split; [done|]. split; [by apply Z.eqb_eq|].
    pose proof (rounds_ghosts _ _ _ Hrn) as [= E1 E2]. pose proof (c_fed Hc') as Hfed. rewrite Hfin, Z.add_0_r in Hfed. congruence.
Qed.
End theorems.

(** ** A concrete run: the one of [PipelineRun], which ends with loads in flight *)

#[local] Notation core_end := (run core_ops (make 8 core_ex 3 true 0, start true ready_ex)).

Definition few_in_flight (r : res (unit * (Pipeline StaticPredictor * Ports))) : bool :=
  match r with Ok (_, (p, _)) => (0 <? ongoing_insts_ p) && (ongoing_insts_ p <? 100) | Err _ => false end.

Lemma core_end_few : few_in_flight core_end = true.
Proof. by vm_compute. Qed.

Lemma core_ops_run : Forall op_runs core_ops.
Proof.
  unfold core_ops. apply Forall_app. split; [|apply List.Forall_cons; [done | apply List.Forall_nil]].
  assert (∀ i, runnable i → Forall op_runs (cycle_of i)) as Hcyc.
  { intros i Hi. repeat (apply List.Forall_cons; [done|]). apply List.Forall_nil. }
  assert (runnable add_ex ∧ runnable br_ex ∧ runnable mul_ex ∧ runnable load_ex) as (H1 & H2 & H3 & H4).
  { unfold runnable. rewrite !elem_of_cons. repeat split; (done || tauto). }
  apply Forall_flat_map, Forall_app. split.
  { repeat (apply List.Forall_cons; [by apply Hcyc|]). apply List.Forall_nil. }
  apply Forall_forall. intros i ->%repeat_spec. by apply Hcyc.
Qed.

Lemma core_drains_witness : match core_end with
  | Ok (tt, (p, h)) => 0 < ongoing_insts_ p ∧ ∃ n p' h', Z.of_nat n <= drain_rounds (ongoing_insts_ p) ∧
    rounds n (p, h) = Ok (tt, (p', h')) ∧ is_finished p' = true ∧ u64 (t_past h + insts (stats p')) = u64 (t_fed h)
  | _ => False end.
Proof.
  pose proof core_end_few as Hx. destruct core_end as [[[] [p h]]|] eqn:E; [|done].
  apply andb_true_iff in Hx as [Hx1%Z.ltb_lt Hx2%Z.ltb_lt]. split; [done|].
  apply (core_drains BU.sinv 4 16 8 core_ex 3 0 true ready_ex core_ex_wf) with (ops := core_ops);
    [lia | apply core_ops_ok | apply core_ops_run | apply core_ops_ok | exact E |].
  assert (zlen core_ops <= 1000) by (by vm_compute). unfold drain_rounds, InfTime. lia.
Defined.
End CoreLive.
