(* ===== verification/CoreFrame.v ===== *)
(** * What the core's handlers leave alone

    [is_draining_] is written by [set_draining] alone, and [ongoing_insts_] only
    where an instruction is fed, flushed or commits: neither a fetch nor an answer
    of the caches changes it. *)

From S2P Require Import Prelude Types Trace BranchPred BranchUnit CacheEnv Ifq Pipeline.

Module CoreFrame.
Import Pipe.

(** [f] keeps the value of [v]. *)
Definition pure_keeps {P V} (v : Pipeline P → V) (f : Pipeline P → res (Pipeline P)) : Prop :=
  ∀ p p', f p = Ok p' → v p' = v p.

Definition counts {P} (p : Pipeline P) : bool * Z := (is_draining_ p, ongoing_insts_ p).

(** The first test of a run [Hr], and its straight-line end. *)
Ltac case_in Hr := match type of Hr with context [match ?x with _ => _ end] => destruct x eqn:? end.
Ltac ends Hr := repeat res_inv Hr; subst; done.

Section frame.
Context {P E : Type} `{DirPredictor P} `{CpuEnv E}.

(** *** Changes of the core *)

Lemma flush_stall_counts now (p : Pipeline P) : counts (flush_stall_cycles now p) = counts p.
Proof. unfold flush_stall_cycles. case_match; [done|]. cbv zeta. case_match; [done|]. by destruct (cause _). Qed.
Lemma set_stall_counts now c (p : Pipeline P) : counts (set_stall now c p) = counts p.
Proof. unfold set_stall. case_match; [done|]. rewrite <- (flush_stall_counts now p). done. Qed.

Lemma schedule_counts now s t : pure_keeps (P := P) counts (schedule now s t).
Proof. intros p p' Hr. unfold schedule in Hr. by repeat res_inv Hr; subst. Qed.
Lemma async_counts now s t : pure_keeps (P := P) counts (async_schedule now s t).
Proof.
  intros p p' Hr. unfold async_schedule in Hr. res_inv Hr. res_inv Hr. subst. by apply (schedule_counts now s t) in Ha.
Qed.
Lemma push_ifq_counts t : pure_keeps (P := P) counts (push_ifq t).
Proof. intros p p' Hr. unfold push_ifq in Hr. by repeat res_inv Hr; subst. Qed.

Lemma reg_time_counts now rd t : pure_keeps (P := P) counts (update_reg_time now rd t).
Proof.
  intros p p' Hr. unfold update_reg_time in Hr. res_inv Hr. res_inv Hr. res_inv Hr. res_inv Hr. res_inv Hr. subst.
  transitivity (counts a).
  - clear Ha. case_in Ha0; [|ends Ha0]. case_in Ha0; [|ends Ha0].
    res_inv Ha0. case_in Ha0; by apply schedule_counts in Ha0.
  - case_in Ha; ends Ha.
Qed.

Lemma uncount_draining : pure_keeps (P := P) is_draining_ uncount_queue.
Proof. intros p p' Hr. unfold uncount_queue in Hr. by repeat res_inv Hr; subst. Qed.

Lemma flush_frontend_draining now : pure_keeps (P := P) is_draining_ (flush_frontend now).
Proof.
  intros p p' Hr. unfold flush_frontend in Hr. res_inv Hr. res_inv Hr. res_inv Hr. subst.
  apply uncount_draining in Ha.
  match goal with |- context [flush_stall_cycles now ?q] => pose proof (flush_stall_counts now q) as Hc end.
  injection Hc as Hc _. etransitivity; [exact Hc|].
  transitivity (is_draining_ a); [|exact Ha]. simpl. case_match; [|done]. by case_match.
Qed.

Lemma commit_draining now s t (p : Pipeline P) : is_draining_ (commit now s t p) = is_draining_ p.
Proof.
  unfold commit. match goal with |- context [flush_stall_cycles now ?q] => pose proof (flush_stall_counts now q) as Hc end.
  injection Hc as Hc _. exact Hc.
Qed.

Lemma ifu_counts now : pure_keeps (P := P) counts (handle_ifu_resp now).
Proof.
  intros p p' Hr. unfold handle_ifu_resp in Hr. case_in Hr; [done|]. case_in Hr; [ends Hr|].
  res_inv Hr. case_in Hr; [|done]. res_inv Hr. by apply async_counts in Hr.
Qed.

Lemma lsu_counts now : pure_keeps (P := P) counts (handle_lsu_resp now).
Proof.
  intros p p' Hr. unfold handle_lsu_resp in Hr. case_in Hr; [|done]. do 5 res_inv Hr. res_inv Hr. subst.
  transitivity (counts a3); [done|]. apply async_counts in Ha3. rewrite Ha3.
  transitivity (counts a1).
  - rewrite <- (set_stall_counts now LsuStall a1). case_in Ha2; [|ends Ha2].
    res_inv Ha2. res_inv Ha2. subst. case_match; [apply set_stall_counts | done].
  - transitivity (counts (set_wait false p)); [|done].
    case_in Ha1; [by apply reg_time_counts in Ha1 | ends Ha1].
Qed.

Lemma recv_counts now r : pure_keeps (P := P) counts (recv_mem_resp now r).
Proof.
  intros p p' Hr. unfold recv_mem_resp in Hr. case_in Hr; [res_inv Hr; by apply ifu_counts in Hr|].
  case_in Hr; [by apply lsu_counts in Hr | done].
Qed.
Lemma ack_counts now a : pure_keeps (P := P) counts (ack_mem_avail now a).
Proof.
  intros p p' Hr. unfold ack_mem_avail in Hr. case_in Hr; [by apply async_counts in Hr|]. case_in Hr; [|done].
  case_in Hr; [|ends Hr]. case_in Hr; [by apply async_counts in Hr | ends Hr].
Qed.
End frame.

(** *** Handlers *)

Section handlers.
Context {P E V : Type} `{DirPredictor P} `{CpuEnv E} (v : Pipeline P → V).

Lemma keeps_upd (f : Pipeline P → res (Pipeline P)) : pure_keeps v f → keeps (E := E) v (upd f).
Proof.
  intros Hf s [] s'. unfold upd, update_self. destruct (f s.1) as [p|] eqn:E1; [|done]. intros [= <-]. by apply Hf.
Qed.
Lemma keeps_call {A} (f : BU.BranchUnit P → res (A * BU.BranchUnit P)) : (∀ p b, v (p <| bpu := b |>) = v p) →
  keeps (E := E) v (call_bpu f).
Proof.
  intros Hv s a s'. unfold call_bpu, update_self. destruct (f (bpu s.1)) as [[x b]|]; [|done]. intros [= _ <-]. apply Hv.
Qed.
Lemma keeps_deref {A} (o : option A) : keeps (E := E) v (deref o).
Proof. destruct o; [apply keeps_ret | done]. Qed.
Lemma keeps_gets {A} (f : Pipeline P * E → A) : keeps v (gets f).
Proof. by intros s a s' [= _ <-]. Qed.
Lemma keeps_assert b : keeps (E := E) v (assertM b).
Proof. apply keeps_lift. Qed.
End handlers.

Section kept.
Context {P E : Type} `{DirPredictor P} `{CpuEnv E}.
#[local] Hint Resolve keeps_deref keeps_gets keeps_assert : keeps.

(** [frame_tac]: through a handler, deciding each change of the core. *)
Ltac pure_tac := let p := fresh "p" in let p' := fresh "p'" in let Hr := fresh "Hr" in
  intros p p' Hr; repeat first [res_inv Hr | case_in Hr]; subst; done.
Ltac frame_tac := repeat first
  [ apply keeps_bind; [|intros ?] | apply keeps_when | solve [eauto with keeps]
  | apply keeps_modify; intros ?; solve [done | apply set_stall_counts]
  | apply keeps_call; done
  | apply keeps_upd; solve [apply schedule_counts | apply async_counts | apply push_ifq_counts | apply reg_time_counts | pure_tac]
  | progress cbv zeta | case_match ].

Lemma enter_counts now i pred (p : Pipeline P) : counts (enter_wrong_path now i pred p) = counts p.
Proof.
  unfold enter_wrong_path. match goal with |- context [flush_stall_cycles now ?q] => pose proof (flush_stall_counts now q) as Hc end.
  exact Hc.
Qed.
Lemma advance_counts pred (p : Pipeline P) : counts (wp_advance pred p) = counts p.
Proof. unfold wp_advance. cbv zeta. repeat case_match; done. Qed.
Lemma after_counts now i pred b (p : Pipeline P) : counts (after_fetch now i pred b p) = counts p.
Proof. unfold after_fetch. cbv zeta. repeat case_match; done. Qed.

Lemma fetch0_keeps : keeps (E := E) (counts (P := P)) do_fetch_0.
Proof.
  unfold do_fetch_0, fetch_early_redir, fetch_wrong_path, fetch_real. frame_tac;
    apply keeps_modify; intros p; first [apply advance_counts | apply enter_counts | apply after_counts].
Qed.

(** What keeps both keeps the flag. *)
Lemma keeps_flag {A} (m : ST (Pipeline P * E) A) : keeps counts m → keeps is_draining_ m.
Proof. intros Hm s a s' Hr. by injection (Hm s a s' Hr). Qed.
Lemma pure_flag (f : Pipeline P → res (Pipeline P)) : pure_keeps counts f → pure_keeps is_draining_ f.
Proof. intros Hf p p' Hr. by injection (Hf p p' Hr). Qed.

Ltac flag_tac := repeat first
  [ apply keeps_bind; [|intros ?] | apply keeps_when | solve [eauto with keeps]
  | apply keeps_modify; intros ?; solve [done | apply commit_draining | by injection (set_stall_counts _ _ _)
      | match goal with |- is_draining_ (set_stall ?n ?c ?p) = _ => by injection (set_stall_counts n c p) end ]
  | apply keeps_call; done
  | apply keeps_upd; first [apply flush_frontend_draining
      | solve [apply pure_flag; solve [apply schedule_counts | apply async_counts | apply reg_time_counts]] | solve [pure_tac]]
  | progress cbv zeta | case_match ].

Lemma false_hit_keeps now t : keeps (E := E) (is_draining_ (P := P)) (flush_false_btb_hit now t).
Proof. unfold flush_false_btb_hit, bpu_update, clear_btb. flag_tac. Qed.
#[local] Hint Resolve false_hit_keeps : keeps.

Lemma stage_keeps s : keeps (E := E) (is_draining_ (P := P)) (try_stage s).
Proof.
  unfold try_stage. flag_tac. destruct s; cbn [run_stage].
  - unfold do_fetch_1. flag_tac.
  - unfold do_decode, decode_stall, decode_pass. flag_tac.
  - unfold do_execute, assert_decoded, resolve_branch, bpu_update. flag_tac.
  - unfold do_mul_ext, assert_decoded, issue_mext. flag_tac.
  - unfold do_div_ext, assert_decoded, issue_mext. flag_tac.
  - unfold do_memory, send_lsu_req. flag_tac.
  - unfold do_writeback. flag_tac.
Qed.

Lemma fetch0_flag : keeps (E := E) (is_draining_ (P := P)) do_fetch_0.
Proof. apply keeps_flag, fetch0_keeps. Qed.
#[local] Hint Resolve stage_keeps fetch0_flag : keeps.
#[local] Opaque do_fetch_0 try_stage.

Lemma update_keeps : keeps (E := E) (is_draining_ (P := P)) do_update.
Proof. unfold do_update, update_impl. flag_tac. Qed.
End kept.
End CoreFrame.
