(* ===== verification/CoreSim.v ===== *)
(** * The core in related environments

    The counterpart of [EnvSim] for the handlers of [Pipeline].  The relation
    carries two flags: whether the readiness of the instruction port and of the
    data ports is known to agree.  A request uses its flag up: the core asks a port
    once per call, before it sends. *)

From S2P Require Import Prelude Types Trace BranchPred BranchUnit CacheEnv EnvSim Ifq Pipeline.

Module CoreSim.
Import Pipe.

Record core_sim {E1 E2} `{CpuEnv E1, CpuEnv E2} (R : bool → bool → E1 → E2 → Prop) : Prop := {
  cs_weak bi bd bi' bd' e1 e2 : implb bi' bi = true → implb bd' bd = true → R bi bd e1 e2 → R bi' bd' e1 e2;
  cs_tick bi bd e1 e2 : R bi bd e1 e2 → cpu_tick e1 = cpu_tick e2;
  cs_irdy bd e1 e2 : R true bd e1 e2 → imem_ready e1 = imem_ready e2;
  cs_drdy bi po e1 e2 : R bi true e1 e2 → lsu_ready po e1 = lsu_ready po e2;
  cs_fetch bd a : esim (R true bd) (R false bd) (imem_read a) (imem_read a);
  cs_load bi po a : esim (R bi true) (R bi false) (lsu_read po a) (lsu_read po a);
  cs_store bi po a d m : esim (R bi true) (R bi false) (lsu_write po a d m) (lsu_write po a d m)
}.

Section sims.
Context {P E1 E2 : Type} `{DirPredictor P} `{CpuEnv E1, CpuEnv E2}.
Context (R : bool → bool → E1 → E2 → Prop) (HR : core_sim R).

Lemma now_sim bi bd : sim (C := Pipeline P) (R bi bd) (R bi bd) now_ now_.
Proof. apply sim_gets. intros. by eapply cs_tick. Qed.
Lemma upd_sim bi bd (f : Pipeline P → res (Pipeline P)) : sim (R bi bd) (R bi bd) (upd f) (upd f).
Proof. apply sim_update. Qed.
Lemma call_sim {A} bi bd (f : BU.BranchUnit P → res (A * BU.BranchUnit P)) :
  sim (R bi bd) (R bi bd) (call_bpu f) (call_bpu f).
Proof. apply sim_update. Qed.
Lemma deref_sim {A} bi bd (o : option A) : sim (C := Pipeline P) (R bi bd) (R bi bd) (deref o) (deref o).
Proof. destruct o; [apply sim_ret | apply sim_fail]. Qed.
#[local] Hint Resolve now_sim upd_sim call_sim deref_sim : sim.

(** *** Handlers that send nothing *)

Lemma fetch1_sim bi bd : sim (C := Pipeline P) (R bi bd) (R bi bd) do_fetch_1 do_fetch_1.
Proof. unfold do_fetch_1, assertM. sim_tac. Qed.
Lemma decode_sim bi bd : sim (C := Pipeline P) (R bi bd) (R bi bd) do_decode do_decode.
Proof. unfold do_decode, decode_stall, decode_pass. sim_tac. Qed.
Lemma false_hit_sim bi bd now t :
  sim (C := Pipeline P) (R bi bd) (R bi bd) (flush_false_btb_hit now t) (flush_false_btb_hit now t).
Proof. unfold flush_false_btb_hit, bpu_update, clear_btb. sim_tac. Qed.
#[local] Hint Resolve false_hit_sim : sim.
Lemma execute_sim bi bd : sim (C := Pipeline P) (R bi bd) (R bi bd) do_execute do_execute.
Proof. unfold do_execute, assert_decoded, resolve_branch, bpu_update, assertM. sim_tac. Qed.
Lemma mul_sim bi bd : sim (C := Pipeline P) (R bi bd) (R bi bd) do_mul_ext do_mul_ext.
Proof. unfold do_mul_ext, assert_decoded, issue_mext, assertM. sim_tac. Qed.
Lemma div_sim bi bd : sim (C := Pipeline P) (R bi bd) (R bi bd) do_div_ext do_div_ext.
Proof. unfold do_div_ext, assert_decoded, issue_mext, assertM. sim_tac. Qed.
Lemma writeback_sim bi bd : sim (C := Pipeline P) (R bi bd) (R bi bd) do_writeback do_writeback.
Proof. unfold do_writeback. sim_tac. Qed.

(** *** Loads and stores *)

Lemma leaf_sim {A} bi bd bi' bd' (m1 : ST (Pipeline P * E1) A) m2 : implb bi' bi = true → implb bd' bd = true →
  sim (R bi bd) (R bi bd) m1 m2 → sim (R bi bd) (R bi' bd') m1 m2.
Proof. intros. by apply (sim_post _ (R bi bd)); [intros; by eapply cs_weak|]. Qed.

Lemma send_sim bi po a d m b :
  sim (C := Pipeline P) (R bi true) (R bi false) (send_lsu_req po a d m b) (send_lsu_req po a d m b).
Proof.
  unfold send_lsu_req. apply (sim_bind _ (R bi true)); [apply now_sim | intros now].
  apply (sim_bind _ (R bi true)); [apply sim_gets; intros; by eapply cs_drdy | intros [rd wr]].
  apply (sim_bind _ (R bi true)); [apply upd_sim | intros _].
  destruct (if b then wr else rd); [|apply leaf_sim; [by destruct bi | done | apply sim_ret]]. cbn [when].
  apply (sim_bind _ (R bi true)); [apply sim_modify | intros _].
  destruct b; apply sim_env; [by apply cs_store | by apply cs_load].
Qed.

Lemma memory_sim bi : sim (C := Pipeline P) (R bi true) (R bi false) do_memory do_memory.
Proof.
  assert (∀ A (m1 : ST (Pipeline P * E1) A) m2, sim (R bi true) (R bi true) m1 m2 → sim (R bi true) (R bi false) m1 m2)
    as Hleaf by (intros; apply leaf_sim; [by destruct bi | done | done]).
  unfold do_memory, assertM.
  apply (sim_bind _ (R bi true)); [apply sim_self | intros p]. apply (sim_bind _ (R bi true)); [apply now_sim | intros now].
  apply (sim_bind _ (R bi true)); [apply sim_lift | intros _]. apply (sim_bind _ (R bi true)); [apply deref_sim | intros t].
  cbv zeta. case_match; [case_match; apply Hleaf; sim_tac|]. case_match; [apply Hleaf; sim_tac|].
  match goal with |- context [send_lsu_req ?po] => generalize po; intros q end.
  case_match.
  - apply (sim_bind _ (R bi true)); [apply sim_modify | intros _]. apply send_sim.
  - case_match; [|apply Hleaf; sim_tac]. apply (sim_bind _ (R bi true)); [apply sim_modify | intros _].
    apply (sim_bind _ (R bi false)); [apply send_sim | intros _]. apply upd_sim.
Qed.

(** *** Fetches *)

Lemma imem_sim bd a : sim (C := Pipeline P) (R true bd) (R false bd) (env (imem_read a)) (env (imem_read a)).
Proof. by apply sim_env, cs_fetch. Qed.

Ltac fetch_tac bd := repeat first
  [ match goal with
    | |- sim _ _ (env (imem_read _) ≫= _) _ => apply (sim_bind _ (R false bd)); [apply imem_sim | intros ?]; solve [sim_tac]
    | |- sim _ _ (_ ≫= _) _ => apply (sim_bind _ (R true bd)); [solve [sim_tac] | intros ?]
    end
  | solve [apply leaf_sim; [done | by destruct bd | sim_tac]] | progress cbv zeta | case_match ].

Lemma fetch0_sim bd : sim (C := Pipeline P) (R true bd) (R false bd) do_fetch_0 do_fetch_0.
Proof.
  unfold do_fetch_0. apply (sim_bind _ (R true bd)); [apply sim_self | intros p].
  apply (sim_bind _ (R true bd)); [apply now_sim | intros now].
  apply (sim_bind _ (R true bd)); [apply sim_gets; intros; by eapply cs_irdy | intros rdy].
  case_match; [fetch_tac bd|]. case_match; [fetch_tac bd|].
  case_match; [unfold fetch_early_redir; fetch_tac bd|]. case_match; [unfold fetch_wrong_path; fetch_tac bd|].
  apply (sim_bind _ (R true bd)); [sim_tac | intros _]. case_match; [fetch_tac bd|]. unfold fetch_real. fetch_tac bd.
Qed.

Lemma feed_sim bd i : sim (C := Pipeline P) (R true bd) (R false bd) (feed_inst i) (feed_inst i).
Proof.
  unfold feed_inst, assertM. apply (sim_bind _ (R true bd)); [apply sim_self | intros p].
  apply (sim_bind _ (R true bd)); [apply sim_lift | intros _]. apply (sim_bind _ (R true bd)); [apply sim_modify | intros _].
  apply fetch0_sim.
Qed.

(** *** The tick *)

Lemma try_sim s bi bd bd' : (∀ bi, sim (C := Pipeline P) (R bi bd) (R bi bd') (run_stage s) (run_stage s)) →
  implb bd' bd = true → sim (C := Pipeline P) (R bi bd) (R bi bd') (try_stage s) (try_stage s).
Proof.
  intros Hs Hb. unfold try_stage. apply (sim_bind _ (R bi bd)); [apply sim_self | intros p].
  apply (sim_bind _ (R bi bd)); [apply now_sim | intros now]. destruct (_ && _); [apply Hs|].
  apply leaf_sim; [by destruct bi | done | apply sim_ret].
Qed.

Lemma update_sim : sim (C := Pipeline P) (R true true) (R false false) do_update do_update.
Proof.
  unfold do_update. apply (sim_bind _ (R true true)); [apply sim_self | intros p].
  apply (sim_bind _ (R true true)); [apply now_sim | intros now].
  destruct (_ <=? _); [|apply leaf_sim; [done | done | apply sim_ret]]. cbn [when]. unfold update_impl.
  apply (sim_bind _ (R true true)); [apply sim_modify | intros _].
  apply (sim_bind _ (R true true)); [apply try_sim; [intros; apply writeback_sim | done] | intros _].
  apply (sim_bind _ (R true false)); [apply try_sim; [intros; apply memory_sim | done] | intros _].
  apply (sim_bind _ (R true false)); [apply try_sim; [intros; apply div_sim | done] | intros _].
  apply (sim_bind _ (R true false)); [apply try_sim; [intros; apply mul_sim | done] | intros _].
  apply (sim_bind _ (R true false)); [apply try_sim; [intros; apply execute_sim | done] | intros _].
  apply (sim_bind _ (R true false)); [apply try_sim; [intros; apply decode_sim | done] | intros _].
  apply (sim_bind _ (R true false)); [apply try_sim; [intros; apply fetch1_sim | done] | intros _].
  apply (sim_bind _ (R false false)); [apply fetch0_sim | intros _].
  apply (sim_bind _ (R false false)); [apply now_sim | intros now2]. apply sim_modify.
Qed.
End sims.
End CoreSim.
