(* ===== verification/Config.v ===== *)
(** * Options and construction

    The part of [src/main.cc] before the simulation loop: number parsing
    ([parse_size], [parse_entries_pow2]), the option loop of [parse_args], the
    debug flags of [src/defines/debug.hh], and the factories that turn options
    into a branch unit.  [std::stoul] and [std::stoi] are modelled as far as the
    source uses them; [getopt_long] is not: the option loop takes what it returns. *)

From stdpp Require Import strings.
From Stdlib Require Import Ascii String DecimalString DecimalPos DecimalN.
From S2P Require Import Prelude BranchPred Bimodal Btb Tage BranchUnit Repl Prefetcher.

Module Config.

(** ** Numbers *)

Definition chars : string → list ascii := list_ascii_of_string.

Definition is_space (c : ascii) : bool :=
  let n := N_of_ascii c in ((9 <=? n) && (n <=? 13) || (n =? 32))%N.

Definition digit (c : ascii) : option Z :=
  let n := Z.of_N (N_of_ascii c) in if (48 <=? n) && (n <=? 57) then Some (n - 48) else None.

Fixpoint skip_space (l : list ascii) : list ascii :=
  match l with c :: l' => if is_space c then skip_space l' else l | [] => [] end.

(** The digits at the head, in base ten, above [acc]. *)
Fixpoint digits (acc : Z) (l : list ascii) : Z :=
  match l with
  | c :: l' => match digit c with Some d => digits (acc * 10 + d) l' | None => acc end
  | [] => acc
  end.

Definition starts_digit (l : list ascii) : bool :=
  match l with c :: _ => match digit c with Some _ => true | None => false end | [] => false end.

(** [strtoul]/[strtol] in base 10: blanks, a sign, digits; the rest is ignored.
    Without a digit the caller throws [std::invalid_argument]. *)
Definition strto (l : list ascii) : res (bool * Z) :=
  let l := skip_space l in
  let '(neg, l) := match l with
                   | "-"%char :: l' => (true, l')
                   | "+"%char :: l' => (false, l')
                   | _ => (false, l)
                   end in
  if starts_digit l then mret (neg, digits 0 l) else Err InvalidArgument.

(** A magnitude beyond [unsigned long] throws [std::out_of_range]; a minus sign
    negates in [unsigned long]. *)
Definition stoul (l : list ascii) : res Z :=
  '(neg, n) ← strto l;
  if 2 ^ 64 <=? n then Err OutOfRange else mret (if (neg : bool) then u64 (- n) else n).

Definition stoi (l : list ascii) : res Z :=
  '(neg, n) ← strto l;
  let v := if (neg : bool) then - n else n in
  if (- 2 ^ 31 <=? v) && (v <? 2 ^ 31) then mret v else Err OutOfRange.

Definition ends_with (suf : string) (l : list ascii) : bool := bool_decide (chars suf `suffix_of` l).
Definition drop_last (n : nat) (l : list ascii) : list ascii := take (length l - n) l.

Definition parse_size (l : list ascii) : res Z :=
  let '(mult, num) :=
    if ends_with "kB" l || ends_with "KB" l then (1024, drop_last 2 l)
    else if ends_with "MB" l then (1024 * 1024, drop_last 2 l)
    else if ends_with "B" l then (1, drop_last 1 l)
    else (1, l) in
  n ← stoul num;
  mret (u64 (n * mult)).

(** [std::countr_zero] *)
Fixpoint ctz (w : nat) (n : Z) : Z :=
  match w with O => 0 | S w => if Z.odd n then 0 else 1 + ctz w (n / 2) end.
Definition countr_zero (n : Z) : Z := ctz 64 n.

Definition parse_entries_pow2 (l : list ascii) : res Z :=
  n ← stoul l;
  if n =? 0 then mret 0
  else if negb (Z.land n (n - 1) =? 0) then Err InvalidArgument
  else mret (countr_zero n).

(** ** Comma-separated lists *)

(** The pieces [std::getline] with [','] and the loop of [create_bpu_core] see;
    [acc] is the current piece, reversed. *)
Fixpoint split_go (acc l : list ascii) : list (list ascii) :=
  match l with
  | [] => match acc with [] => [] | _ => [rev acc] end
  | c :: l' => if decide (c = ","%char) then rev acc :: split_go [] l' else split_go (c :: acc) l'
  end.
Definition split : list ascii → list (list ascii) := split_go [].

Fixpoint parse_all (ls : list (list ascii)) : res (list Z) :=
  match ls with
  | [] => mret []
  | l :: ls => n ← stoi l; ns ← parse_all ls; mret (n :: ns)
  end.
Definition parse_hists (l : list ascii) : res (list Z) := parse_all (split l).

(** ** Debug flags *)

Definition flag_bits (s : list ascii) : Z :=
  if decide (s = chars "Cache") then Z.shiftl 1 1
  else if decide (s = chars "BranchPred") then Z.shiftl 1 2
  else if decide (s = chars "Pipeline") then Z.shiftl 1 3
  else if decide (s = chars "IFQueue") then Z.shiftl 1 4
  else if decide (s = chars "LDQueue") then Z.shiftl 1 5
  else if decide (s = chars "STQueue") then Z.shiftl 1 6
  else if decide (s = chars "LSUnit") then Z.lor (Z.shiftl 1 5) (Z.shiftl 1 6)
  else if decide (s = chars "Mem") then Z.shiftl 1 7
  else if decide (s = chars "Main") then Z.shiftl 1 0
  else if decide (s = chars "Clock") then Z.shiftl 1 62
  else if decide (s = chars "Event") then Z.shiftl 1 63
  else if decide (s = chars "All") then 2 ^ 64 - 1
  else 0.

Definition set_flags (flags : Z) (s : list ascii) : Z := fold_left (λ f s, Z.lor f (flag_bits s)) (split s) flags.

(** ** Options *)

Record Options : Type := MkOptions {
  sram_lat : Z; trace_file : string;
  l1i_size : Z; l1i_blksize : Z; l1i_assoc : Z;
  l1d_size : Z; l1d_blksize : Z; l1d_assoc : Z;
  max_insts : Z; max_ticks : Z; out_dir : string; dry_run : bool;
  bpu_type : string; bpu_entries_pow2 : Z; btb_entries_pow2 : Z; ras_depth : Z; ghr_bits : Z;
  tage_comp_pow2 : Z; tage_hists : string; print_mode : Z;
  stbuf_entries : Z; mmio_lat : Z; freq_mhz : Z;
  l1i_pref_type : string; l1d_pref_type : string; l1i_repl : string; l1d_repl : string;
  sram_dff : bool; l1i_cwf : bool; enabled_flags : Z
}.
#[global] Instance eta_Options : Eta Options := λ r,
  MkOptions r.(sram_lat) r.(trace_file) r.(l1i_size) r.(l1i_blksize) r.(l1i_assoc) r.(l1d_size) r.(l1d_blksize)
    r.(l1d_assoc) r.(max_insts) r.(max_ticks) r.(out_dir) r.(dry_run) r.(bpu_type) r.(bpu_entries_pow2)
    r.(btb_entries_pow2) r.(ras_depth) r.(ghr_bits) r.(tage_comp_pow2) r.(tage_hists) r.(print_mode)
    r.(stbuf_entries) r.(mmio_lat) r.(freq_mhz) r.(l1i_pref_type) r.(l1d_pref_type) r.(l1i_repl) r.(l1d_repl)
    r.(sram_dff) r.(l1i_cwf) r.(enabled_flags).

(** The initial values of the globals. *)
Definition defaults : Options :=
  MkOptions 1 "" 1024 16 1 0 16 1 (2 ^ 64 - 1) (2 ^ 64 - 1) "" false
    "" 4 4 0 0 7 "2,4,8,16,32,64" 2 0 3 1000 "none" "none" "plru" "plru" true false 0.

(** [parse_args] continues, or [main] returns with a code. *)
Inductive parsed : Type := Continue (o : Options) | Exit (code : Z).

Definition repl_names : list string := ["plru"; "lru"; "srrip"; "rr"]%string.

(** The handler around [parse_entries_pow2]: only [std::invalid_argument] is caught. *)
Definition catch_invalid (m : res Z) (k : Z → Options) : res parsed :=
  match m with
  | Ok n => Ok (Continue (k n))
  | Err InvalidArgument => Ok (Exit 1)
  | Err e => Err e
  end.

(** One turn of the loop: [opt] and [optarg] as [getopt_long] returns them. *)
Definition apply_opt (opt : Z) (optarg : string) (o : Options) : res parsed :=
  let a := chars optarg in
  let c (x : ascii) := Z.of_N (N_of_ascii x) in
  let set {A} (m : res A) (f : A → Options) : res parsed := v ← m; mret (Continue (f v)) in
  let ok (o : Options) : res parsed := mret (Continue o) in
  if opt =? c "s"%char then set (parse_size a) (λ v, o <| l1i_size := v |>)
  else if opt =? c "b"%char then set (parse_size a) (λ v, o <| l1i_blksize := v |>)
  else if opt =? c "a"%char then set (parse_size a) (λ v, o <| l1i_assoc := v |>)
  else if opt =? c "S"%char then set (parse_size a) (λ v, o <| l1d_size := v |>)
  else if opt =? c "B"%char then set (parse_size a) (λ v, o <| l1d_blksize := v |>)
  else if opt =? c "A"%char then set (parse_size a) (λ v, o <| l1d_assoc := v |>)
  else if opt =? c "n"%char then set (stoul a) (λ v, o <| max_insts := v |>)
  else if opt =? c "N"%char then set (stoul a) (λ v, o <| max_ticks := v |>)
  else if opt =? c "d"%char then ok (o <| enabled_flags ::= (λ f, set_flags f a) |>)
  else if opt =? c "O"%char then ok (o <| out_dir := optarg |>)
  else if opt =? c "D"%char then ok (o <| dry_run := true |>)
  else if opt =? c "T"%char then ok (o <| bpu_type := optarg |>)
  else if opt =? c "e"%char then catch_invalid (parse_entries_pow2 a) (λ v, o <| bpu_entries_pow2 := v |>)
  else if opt =? c "t"%char then catch_invalid (parse_entries_pow2 a) (λ v, o <| btb_entries_pow2 := v |>)
  else if opt =? c "R"%char then set (stoul a) (λ v, o <| ras_depth := v |>)
  else if opt =? c "Z"%char then set (stoul a) (λ v, o <| stbuf_entries := v |>)
  else if opt =? c "P"%char then ok (o <| l1i_pref_type := optarg |>)
  else if opt =? 215 then
    mret (if bool_decide (optarg ∈ repl_names) then Continue (o <| l1i_repl := optarg |>) else Exit 1)
  else if opt =? c "p"%char then ok (o <| l1d_pref_type := optarg |>)
  else if opt =? 216 then
    mret (if bool_decide (optarg ∈ repl_names) then Continue (o <| l1d_repl := optarg |>) else Exit 1)
  else if opt =? 201 then ok (o <| print_mode := 1 |>)
  else if opt =? 200 then ok (o <| print_mode := 0 |>)
  else if opt =? 203 then set (stoul a) (λ v, o <| sram_lat := u32 v |>)
  else if opt =? 204 then ok (o <| sram_dff := true |>)
  else if opt =? 205 then ok (o <| sram_dff := false |>)
  else if opt =? 206 then set (stoul a) (λ v, o <| mmio_lat := v |>)
  else if opt =? 207 then set (stoi a) (λ v, o <| freq_mhz := v |>)
  else if opt =? 211 then ok (o <| l1i_cwf := true |>)
  else if opt =? 212 then set (stoul a) (λ v, o <| ghr_bits := v |>)
  else if opt =? 213 then ok (o <| tage_hists := optarg |>)
  else if opt =? 214 then set (stoi a) (λ v, o <| tage_comp_pow2 := v |>)
  else mret (Exit 1).

Fixpoint apply_opts (opts : list (Z * string)) (o : Options) : res parsed :=
  match opts with
  | [] => mret (Continue o)
  | (opt, optarg) :: opts =>
    r ← apply_opt opt optarg o;
    match r with Continue o => apply_opts opts o | Exit code => mret (Exit code) end
  end.

(** [parse_args]: the options, then the arguments that are none ([argv] from [optind]). *)
Definition parse_args (opts : list (Z * string)) (rest : list string) : res parsed :=
  r ← apply_opts opts defaults;
  match r with
  | Exit code => mret (Exit code)
  | Continue o =>
    mret match rest with
         | f :: _ => Continue (o <| trace_file := f |>)
         | [] => if dry_run o then Continue o else Exit 1
         end
  end.

(** ** Factories *)

Definition make_prefetcher (type : string) : option Pf.Prefetcher :=
  if decide (type = "nextline"%string) then Some (Pf.make Pf.NextLine)
  else if decide (type = "stride"%string) then Some (Pf.make (Pf.Stride 0 0))
  else if decide (type = "tagged"%string) then Some (Pf.make Pf.Tagged)
  else None.

(** [std::unique_ptr<BranchPred>]: the classes the factory can make. *)
Inductive AnyPredictor : Type :=
| ABimodal (p : Bimodal.BimodalPredictor)
| AGShare (p : GShare.GSharePredictor)
| ATournament (p : Tournament.TournamentPredictor)
| ATage (p : TAGE.TagePredictor)
| AStatic (p : StaticPredictor).

#[export] Existing Instances Bimodal.bimodal_predictor Bimodal.bimodal_laws GShare.gshare_predictor GShare.gshare_laws
  Tournament.tournament_predictor Tournament.tournament_laws TAGE.tage_predictor TAGE.tage_laws.

(** Virtual dispatch. *)
#[export] Instance any_predictor : DirPredictor AnyPredictor := {|
  predict p pc t :=
    match p with
    | ABimodal p => '(r, p) ← predict p pc t; mret (r, ABimodal p)
    | AGShare p => '(r, p) ← predict p pc t; mret (r, AGShare p)
    | ATournament p => '(r, p) ← predict p pc t; mret (r, ATournament p)
    | ATage p => '(r, p) ← predict p pc t; mret (r, ATage p)
    | AStatic p => '(r, p) ← predict p pc t; mret (r, AStatic p)
    end;
  update p pc tk hit cnt ghr :=
    match p with
    | ABimodal p => ABimodal <$> update p pc tk hit cnt ghr
    | AGShare p => AGShare <$> update p pc tk hit cnt ghr
    | ATournament p => ATournament <$> update p pc tk hit cnt ghr
    | ATage p => ATage <$> update p pc tk hit cnt ghr
    | AStatic p => AStatic <$> update p pc tk hit cnt ghr
    end;
  on_mispred p tk cnt ghr :=
    match p with
    | ABimodal p => ABimodal <$> on_mispred p tk cnt ghr
    | AGShare p => AGShare <$> on_mispred p tk cnt ghr
    | ATournament p => ATournament <$> on_mispred p tk cnt ghr
    | ATage p => ATage <$> on_mispred p tk cnt ghr
    | AStatic p => AStatic <$> on_mispred p tk cnt ghr
    end;
  on_resolved p tk r :=
    match p with
    | ABimodal p => ABimodal <$> on_resolved p tk r
    | AGShare p => AGShare <$> on_resolved p tk r
    | ATournament p => ATournament <$> on_resolved p tk r
    | ATage p => ATage <$> on_resolved p tk r
    | AStatic p => AStatic <$> on_resolved p tk r
    end;
  bp_stats p :=
    match p with
    | ABimodal p => bp_stats p | AGShare p => bp_stats p | ATournament p => bp_stats p
    | ATage p => bp_stats p | AStatic p => bp_stats p
    end;
  bp_reset_stats p :=
    match p with
    | ABimodal p => ABimodal (bp_reset_stats p) | AGShare p => AGShare (bp_reset_stats p)
    | ATournament p => ATournament (bp_reset_stats p) | ATage p => ATage (bp_reset_stats p)
    | AStatic p => AStatic (bp_reset_stats p)
    end;
  is_NoBPU p :=
    match p with
    | ABimodal p => is_NoBPU p | AGShare p => is_NoBPU p | ATournament p => is_NoBPU p
    | ATage p => is_NoBPU p | AStatic p => is_NoBPU p
    end
|}.

Definition create_bpu_core (o : Options) : res AnyPredictor :=
  let hist := if 0 <? ghr_bits o then ghr_bits o else 12 in
  let k := bpu_entries_pow2 o in
  if decide (bpu_type o = "bimodal"%string) then mret (ABimodal (Bimodal.make k 1))
  else if decide (bpu_type o = "gshare"%string) then mret (AGShare (GShare.make k hist 1))
  else if decide (bpu_type o = "tournament"%string) then mret (ATournament (Tournament.make k hist))
  else if decide (bpu_type o = "tage"%string) then
    hlens ← parse_hists (chars (tage_hists o));
    p ← TAGE.make k (tage_comp_pow2 o) hlens;
    mret (ATage p)
  else if decide (bpu_type o = "alwaystaken"%string) then mret (AStatic (make_static AlwaysTaken))
  else if decide (bpu_type o = "btfnt"%string) then mret (AStatic (make_static BTFNT))
  else if decide (bpu_type o = "none"%string) then mret (AStatic (make_static NoBPU))
  else if decide (bpu_type o = ""%string) then mret (AStatic (make_static NoBPU))
  else Err AssertFailed.

(** [32 - k - 2] is [size_t] arithmetic. *)
Definition tag_bits (k : Z) : Z := Z.min (u64 (32 - k - 2)) 16.

Definition create_btb (o : Options) : BTB.BTBBase :=
  if btb_entries_pow2 o =? 0 then BTB.make_none
  else BTB.make_compressed (btb_entries_pow2 o) (tag_bits (btb_entries_pow2 o)) (sram_dff o).

Definition no_bpu (o : Options) : bool := bool_decide (bpu_type o = "none"%string ∨ bpu_type o = ""%string).

Definition create_branch_unit (o : Options) : res (BU.BranchUnit AnyPredictor) :=
  let o := if no_bpu o then o <| btb_entries_pow2 := 0 |> <| ras_depth := 0 |> else o in
  bpu ← create_bpu_core o;
  mret (BU.make bpu (Some (create_btb o)) (ras_depth o)).

(** ** Decimal numerals *)

(** The numeral of [n], as [std::to_string] prints it. *)
Definition dec (n : Z) : list ascii := chars (NilEmpty.string_of_uint (N.to_uint (Z.to_N n))).

Fixpoint uval (d : Decimal.uint) (acc : Z) : Z :=
  match d with
  | Decimal.Nil => acc
  | Decimal.D0 d => uval d (acc * 10)
  | Decimal.D1 d => uval d (acc * 10 + 1)
  | Decimal.D2 d => uval d (acc * 10 + 2)
  | Decimal.D3 d => uval d (acc * 10 + 3)
  | Decimal.D4 d => uval d (acc * 10 + 4)
  | Decimal.D5 d => uval d (acc * 10 + 5)
  | Decimal.D6 d => uval d (acc * 10 + 6)
  | Decimal.D7 d => uval d (acc * 10 + 7)
  | Decimal.D8 d => uval d (acc * 10 + 8)
  | Decimal.D9 d => uval d (acc * 10 + 9)
  end.

Lemma of_uint_acc_val d p : Zpos (Pos.of_uint_acc d p) = uval d (Zpos p).
Proof. revert p. induction d as [|d IH|d IH|d IH|d IH|d IH|d IH|d IH|d IH|d IH|d IH]; intros p; cbn -[Z.mul Z.add Pos.mul];
  [done|..]; rewrite IH; f_equal; lia. Qed.

Lemma of_uint_val d : Z.of_N (N.of_uint d) = uval d 0.
Proof.
  unfold N.of_uint. induction d as [|d IH|d IH|d IH|d IH|d IH|d IH|d IH|d IH|d IH|d IH]; cbn -[Z.mul Z.add Pos.mul];
    try done; apply of_uint_acc_val.
Qed.

Lemma digits_uint d acc t : starts_digit t = false →
  digits acc (chars (NilEmpty.string_of_uint d) ++ t) = uval d acc.
Proof.
  intros Ht. revert acc. induction d as [|d IH|d IH|d IH|d IH|d IH|d IH|d IH|d IH|d IH|d IH]; intros acc.
  { simpl. destruct t as [|c t]; simpl in *; [done|]. by destruct (digit c). }
  { change (digits (acc * 10 + 0) (chars (NilEmpty.string_of_uint d) ++ t) = uval d (acc * 10)).
    rewrite IH. f_equal. lia. }
  all: apply IH.
Qed.

Definition is_digit (c : ascii) : bool := match digit c with Some _ => true | None => false end.

Lemma dec_digits n : Forall (λ c, is_digit c = true) (dec n).
Proof.
  unfold dec. generalize (N.to_uint (Z.to_N n)).
  induction u as [|d IH|d IH|d IH|d IH|d IH|d IH|d IH|d IH|d IH|d IH]; simpl; repeat constructor; done.
Qed.

Lemma dec_starts n t : starts_digit (dec n ++ t) = true.
Proof.
  unfold dec. assert (N.to_uint (Z.to_N n) ≠ Decimal.Nil) as Hn.
  { destruct (Z.to_N n); [done|]. apply DecimalPos.Unsigned.to_uint_nonnil. }
  by destruct (N.to_uint (Z.to_N n)).
Qed.

Lemma strto_digits l : starts_digit l = true → strto l = Ok (false, digits 0 l).
Proof.
  destruct l as [|c l]; [done|]. intros Hd. unfold strto.
  assert (skip_space (c :: l) = c :: l) as -> by (revert Hd; by destruct c as [[] [] [] [] [] [] [] []]).
  revert Hd. by destruct c as [[] [] [] [] [] [] [] []].
Qed.

Lemma digits_dec n t : 0 <= n → starts_digit t = false → digits 0 (dec n ++ t) = n.
Proof.
  intros Hn Ht. unfold dec. rewrite digits_uint by done. rewrite <- of_uint_val, DecimalN.Unsigned.of_to. lia.
Qed.

Lemma stoul_dec n : 0 <= n < 2 ^ 64 → stoul (dec n) = Ok n.
Proof.
  intros Hn. unfold stoul. pose proof (dec_starts n []) as Hs. rewrite app_nil_r in Hs.
  rewrite strto_digits by done. pose proof (digits_dec n []) as Hd. rewrite app_nil_r in Hd.
  rewrite Hd by (lia || done). cbn [mbind res_bind]. by rewrite (proj2 (Z.leb_gt _ _)) by lia.
Qed.

Lemma stoi_dec n : 0 <= n < 2 ^ 31 → stoi (dec n) = Ok n.
Proof.
  intros Hn. unfold stoi. pose proof (dec_starts n []) as Hs. rewrite app_nil_r in Hs.
  rewrite strto_digits by done. pose proof (digits_dec n []) as Hd. rewrite app_nil_r in Hd.
  rewrite Hd by (lia || done). cbn [mbind res_bind].
  by rewrite (proj2 (Z.leb_le _ _)), (proj2 (Z.ltb_lt _ _)) by lia.
Qed.

(** ** Sizes and entry counts *)

Lemma ends_dec s n t : Forall (λ c, is_digit c = false) (chars s) →
  ends_with s (dec n ++ t) = bool_decide (chars s `suffix_of` t).
Proof.
  intros Hs. unfold ends_with. apply bool_decide_ext. split.
  - intros [k E]. apply app_eq_app in E as (l & [[E1 E2] | [_ ->]]); [|by eexists].
    destruct l as [|c l]; [by rewrite E2|]. exfalso. rewrite E2 in Hs. apply Forall_cons_iff in Hs as [Hc _].
    pose proof (dec_digits n) as Hd. rewrite E1 in Hd. apply Forall_app in Hd as [_ [Hd _]%Forall_cons_iff]. congruence.
  - intros [k ->]. exists (dec n ++ k). by rewrite (assoc_L (++)).
Qed.

Lemma drop_last_app n (l t : list ascii) : length t = n → drop_last n (l ++ t) = l.
Proof. intros <-. unfold drop_last. rewrite length_app. apply take_app_length'. lia. Qed.

(** Sizes are read back as printed: a decimal numeral with no unit, or with
    B, kB, KB or MB, is the number times the unit, modulo 2^64. *)
Theorem parse_size_round_trip n suf mult :
  (suf, mult) ∈ [(""%string, 1); ("B"%string, 1); ("kB"%string, 1024); ("KB"%string, 1024); ("MB"%string, 1048576)] →
  0 <= n < 2 ^ 64 → parse_size (dec n ++ chars suf) = Ok (u64 (n * mult)).
Proof.
  intros Hin Hn. rewrite !elem_of_cons, elem_of_nil in Hin.
  destruct Hin as [[= -> ->] | [[= -> ->] | [[= -> ->] | [[= -> ->] | [[= -> ->] | []]]]]];
    unfold parse_size; rewrite !ends_dec by (by repeat constructor);
    repeat match goal with |- context [bool_decide ?Q] =>
      let v := eval vm_compute in (bool_decide Q) in change (bool_decide Q) with v end; cbn [orb];
    rewrite ?drop_last_app by done; rewrite ?app_nil_r, stoul_dec by done; done.
Qed.

Lemma ctz_pow2 w k : 0 <= k < Z.of_nat w → ctz w (2 ^ k) = k.
Proof.
  revert k. induction w as [|w IH]; intros k Hk; [lia|]. simpl. destruct (Z.eq_dec k 0) as [->|Hne]; [done|].
  rewrite Z.odd_pow by lia. cbn [Z.odd]. replace (2 ^ k / 2) with (2 ^ (k - 1)); [rewrite IH; lia|].
  rewrite Z.pow_sub_r by lia. done.
Qed.

Lemma entries_of n : 0 <= n < 2 ^ 64 →
  (if n =? 0 then mret 0 else if negb (Z.land n (n - 1) =? 0) then Err InvalidArgument else mret (countr_zero n)) =
  (if n =? 0 then Ok 0 else if n =? 2 ^ Z.log2 n then Ok (Z.log2 n) else Err InvalidArgument).
Proof.
  intros Hn. destruct (Z.eqb_spec n 0) as [|Hn0]; [done|].
  destruct (Z.eqb_spec n (2 ^ Z.log2 n)) as [E|E].
  - rewrite E at 1 2. rewrite pow2_land_pred by apply Z.log2_nonneg. simpl. unfold countr_zero, mret, res_ret.
    f_equal. rewrite E at 1. apply ctz_pow2. split; [apply Z.log2_nonneg|]. apply Z.log2_lt_pow2; lia.
  - destruct (Z.eqb_spec (Z.land n (n - 1)) 0) as [E'|]; [|done]. by apply land_pred_pow2 in E'; [|lia].
Qed.

(** A table size is accepted exactly when it is 0 or a power of two, and comes
    back as its logarithm; 0 and 1 both give 0. *)
Theorem parse_entries_spec n : 0 <= n < 2 ^ 64 →
  parse_entries_pow2 (dec n) =
    if n =? 0 then Ok 0 else if n =? 2 ^ Z.log2 n then Ok (Z.log2 n) else Err InvalidArgument.
Proof. intros Hn. unfold parse_entries_pow2. rewrite stoul_dec by done. by apply entries_of. Qed.

(** ** History lengths *)

(** The numbers, comma-separated. *)
Fixpoint join (ns : list Z) : list ascii :=
  match ns with
  | [] => []
  | [n] => dec n
  | n :: ns => dec n ++ ","%char :: join ns
  end.

Lemma split_go_piece acc l r : Forall (λ c, is_digit c = true) l →
  split_go acc (l ++ ","%char :: r) = (rev acc ++ l) :: split_go [] r.
Proof.
  intros Hl. revert acc. induction Hl as [|c l Hc _ IH]; intros acc; simpl.
  - by rewrite app_nil_r.
  - destruct (decide (c = ","%char)) as [->|]; [done|]. rewrite IH. simpl. by rewrite <- (assoc_L (++)).
Qed.

Lemma split_go_last acc l : Forall (λ c, is_digit c = true) l → l ≠ [] → split_go acc l = [rev acc ++ l].
Proof.
  intros Hl. revert acc. induction Hl as [|c l Hc _ IH]; intros acc Hne; simpl; [done|].
  destruct (decide (c = ","%char)) as [->|]; [done|]. destruct l as [|c' l]; [done|].
  rewrite IH by done. simpl. by rewrite <- (assoc_L (++)).
Qed.

Lemma dec_nonnil n : dec n ≠ [].
Proof. intros E. pose proof (dec_starts n []) as H. by rewrite E in H. Qed.

Lemma split_join ns : split (join ns) = dec <$> ns.
Proof.
  unfold split. induction ns as [|n ns IH]; [done|]. destruct ns as [|n' ns].
  - simpl. rewrite split_go_last; [done | apply dec_digits | apply dec_nonnil].
  - change (join (n :: n' :: ns)) with (dec n ++ ","%char :: join (n' :: ns)).
    rewrite split_go_piece by apply dec_digits. simpl rev. rewrite IH. done.
Qed.

(** The history lengths of TAGE are read back as printed. *)
Theorem parse_hists_round_trip ns : Forall (λ n, 0 <= n < 2 ^ 31) ns → parse_hists (join ns) = Ok ns.
Proof.
  intros Hns. unfold parse_hists. rewrite split_join. induction Hns as [|n ns Hn _ IH]; [done|].
  change (dec <$> n :: ns) with (dec n :: (dec <$> ns)). cbn [parse_all]. rewrite stoi_dec by done.
  cbn [mbind res_bind]. by rewrite IH.
Qed.

(** ** What the option loop accepts *)

Lemma digits_nonneg acc l : 0 <= acc → 0 <= digits acc l.
Proof.
  revert acc. induction l as [|c l IH]; intros acc Ha; simpl; [done|].
  destruct (digit c) as [d|] eqn:Ed; [|done]. apply IH. unfold digit in Ed. case_match; [|done]. injection Ed as <-. lia.
Qed.

Lemma stoul_range l n : stoul l = Ok n → 0 <= n < 2 ^ 64.
Proof.
  unfold stoul, strto. cbv zeta.
  match goal with |- context [match ?x with pair _ _ => if starts_digit _ then _ else _ end] => destruct x as [neg l'] end.
  destruct (starts_digit l'); [|done]. cbn [mbind res_bind mret res_ret].
  pose proof (digits_nonneg 0 l'). destruct (Z.leb_spec (2 ^ 64) (digits 0 l')); [done|].
  intros [= <-]. destruct neg; [apply u64_range | lia].
Qed.

Lemma parse_entries_range l n : parse_entries_pow2 l = Ok n → 0 <= n < 64.
Proof.
  unfold parse_entries_pow2. intros (m & Hm & H)%bind_Ok_inv. apply stoul_range in Hm. rewrite entries_of in H by done.
  destruct (Z.eqb_spec m 0); [by injection H as <-|]. destruct (_ =? _); [|done]. injection H as <-.
  split; [apply Z.log2_nonneg|]. apply Z.log2_lt_pow2; lia.
Qed.

Definition accepted (o : Options) : Prop :=
  l1i_repl o ∈ repl_names ∧ l1d_repl o ∈ repl_names ∧
  0 <= bpu_entries_pow2 o < 64 ∧ 0 <= btb_entries_pow2 o < 64.

Lemma catch_Ok m k r : catch_invalid m k = Ok r → (∃ n, m = Ok n ∧ r = Continue (k n)) ∨ r = Exit 1.
Proof. destruct m as [n|[]]; try done; intros [= <-]; [left; by exists n | by right]. Qed.

Lemma apply_opt_accepted opt arg o o' : accepted o → apply_opt opt arg o = Ok (Continue o') → accepted o'.
Proof.
  intros Ho. unfold apply_opt. cbv zeta beta.
  repeat match goal with |- context [if opt =? ?c then _ else _] => destruct (opt =? c) end; intros H; try done.
  all: try (apply bind_Ok_inv in H as (v & _ & H)).
  all: try (apply catch_Ok in H as [(n & Hn%parse_entries_range & [= ->]) | ?]; [|done]).
  all: try case_bool_decide.
  all: try (injection H as <-); try done.
  all: destruct Ho as (? & ? & ? & ?); by (split; [|split; [|split]]).
Qed.

Lemma apply_opts_accepted opts o o' : accepted o → apply_opts opts o = Ok (Continue o') → accepted o'.
Proof.
  revert o. induction opts as [|[opt arg] opts IH]; intros o Ho; simpl; [by intros [= <-]|].
  intros (r & Hr & H)%bind_Ok_inv. destruct r as [o1|]; [|done]. by apply (IH o1); [eapply apply_opt_accepted|].
Qed.

(** C37: options that [parse_args] lets through name a replacement policy for both
    caches, so that the policy factory does not fail, and give table sizes below
    2^64 entries. *)
Theorem accepted_options opts rest o assoc sets : parse_args opts rest = Ok (Continue o) →
  (∃ p, Repl.make_repl_policy (l1i_repl o) assoc sets = Ok p) ∧
  (∃ p, Repl.make_repl_policy (l1d_repl o) assoc sets = Ok p) ∧
  0 <= bpu_entries_pow2 o < 64 ∧ 0 <= btb_entries_pow2 o < 64.
Proof.
  intros H. assert (accepted o) as (H1 & H2 & H3 & H4).
  { unfold parse_args in H. apply bind_Ok_inv in H as (r & Hr & H). destruct r as [o1|]; [|done].
    apply apply_opts_accepted in Hr; [|by (split; [by left|]; split; [by left|])].
    destruct rest; [destruct (dry_run o1); [|done]|]; by injection H as <-. }
  assert (∀ r, r ∈ repl_names → ∃ p, Repl.make_repl_policy r assoc sets = Ok p) as Hrepl.
  { intros r. unfold repl_names. rewrite !elem_of_cons, elem_of_nil.
    intros [-> | [-> | [-> | [-> | []]]]]; by eexists. }
  split; [by apply Hrepl|]. by split; [apply Hrepl|].
Qed.

(** ** Every configured unit is lawful *)

(** The predictor keeps its invariant; [k]: the logarithm of its table size, [c]
    that of TAGE's components. *)
Definition any_inv (k c : Z) (p : AnyPredictor) : Prop :=
  match p with
  | ABimodal p => Bimodal.wf p
  | AGShare p => GShare.wf k p
  | ATournament p => Tournament.wf k p
  | ATage p => TAGE.wf k c p
  | AStatic _ => True
  end.

Lemma lift_any {P A : Type} (inv : P → Prop) (inv' : A → Prop) (f : P → A) (m : res P) :
  (∀ p, inv p → inv' (f p)) → (∃ p', m = Ok p' ∧ inv p') → ∃ a, f <$> m = Ok a ∧ inv' a.
Proof. intros Hf (p' & -> & Hp). exists (f p'). split; [done | by apply Hf]. Qed.

#[export] Instance any_laws k c : DirPredictorLaws AnyPredictor (any_inv k c).
Proof.
  split.
  - intros [p|p|p|p|p] pc t Hp Hpc; cbn [any_inv predict any_predictor] in *;
      destruct (predict_law p pc t Hp Hpc) as (r & p' & -> & Hp' & Hs); (eexists r, _; split; [done|]; by split).
  - intros [p|p|p|p|p] pc tk hit cnt ghr Hp Hpc Hs; cbn [any_inv update any_predictor] in *;
      (eapply lift_any; [|by apply update_law]; done).
  - intros [p|p|p|p|p] tk cnt ghr Hp Hs; cbn [any_inv on_mispred any_predictor] in *;
      (eapply lift_any; [|by apply on_mispred_law]; done).
  - intros [p|p|p|p|p] tk r Hp Hs; cbn [any_inv on_resolved any_predictor] in *;
      (eapply lift_any; [|by apply on_resolved_law]; done).
  - intros [p|p|p|p|p] Hp; cbn [any_inv bp_reset_stats any_predictor] in *; first [done | by apply reset_law].
Qed.

(** The ranges in which the factory's shifts are defined and its assertions hold.
    [c]: the component size of TAGE. *)
Record unit_opts_ok (o : Options) : Prop := {
  uo_type : bpu_type o ∈ ["bimodal"; "gshare"; "tournament"; "tage"; "alwaystaken"; "btfnt"; "none"; ""]%string;
  uo_bpu : 0 <= bpu_entries_pow2 o < 30;
  uo_btb : 0 <= btb_entries_pow2 o < 30;
  uo_ras : 0 <= ras_depth o < 2 ^ 63;
  uo_ghr : 0 <= ghr_bits o < 32;
  uo_tage : bpu_type o = "tage"%string → 1 <= tage_comp_pow2 o < 32 ∧
    ∃ h hs, parse_hists (chars (tage_hists o)) = Ok (h :: hs)
}.

Lemma tage_make_Ok b c h hs : 1 <= c → ∃ p, TAGE.make b c (h :: hs) = Ok p.
Proof.
  intros Hc. unfold TAGE.make. cbv zeta.
  assert (1 <= Z.min (zlen (h :: hs)) TAGE.MAX_COMP <= zlen (h :: hs)) as Hn.
  { unfold zlen. simpl length. unfold TAGE.MAX_COMP. lia. }
  rewrite !(proj2 (Z.leb_le 1 _)) by lia. cbn [assert_ mbind res_bind].
  set (l := _ <$> take _ _). set (n := Z.min _ _) in *.
  destruct (vec_at_lt l (n - 1)) as [v ->]; [|by eexists].
  unfold l, zlen in *. rewrite length_fmap, length_take. lia.
Qed.

Lemma core_lawful o : unit_opts_ok o →
  ∃ p, create_bpu_core o = Ok p ∧ any_inv (bpu_entries_pow2 o) (tage_comp_pow2 o) p.
Proof.
  intros [Ht Hb _ _ Hg Htage]. unfold create_bpu_core. cbv zeta.
  assert (1 <= (if 0 <? ghr_bits o then ghr_bits o else 12) < 32) as Hh by (destruct (Z.ltb_spec 0 (ghr_bits o)); lia).
  assert (cnt_ok 1) as Hc by (unfold cnt_ok; lia).
  destruct (decide _); [eexists; split; [done|]; by apply Bimodal.bimodal_wf_make|].
  destruct (decide _); [eexists; split; [done|]; apply GShare.gshare_wf_make; [lia | done | done]|].
  destruct (decide _); [eexists; split; [done|]; apply Tournament.tournament_wf_make; lia|].
  destruct (decide _) as [E|].
  { destruct (Htage E) as (Hc' & h & hs & ->). cbn [mbind res_bind].
    destruct (tage_make_Ok (bpu_entries_pow2 o) (tage_comp_pow2 o) h hs) as [p Hp]; [lia|].
    exists (ATage p). rewrite Hp. split; [done|]. eapply TAGE.tage_make_wf; [done | lia | exact Hp]. }
  do 4 (destruct (decide _); [by eexists|]). exfalso. rewrite !elem_of_cons, elem_of_nil in Ht. naive_solver.
Qed.

Lemma btb_lawful o : 0 <= btb_entries_pow2 o < 30 →
  BTB.wf (btb_entries_pow2 o) (tag_bits (btb_entries_pow2 o)) (create_btb o).
Proof.
  intros Hb. unfold create_btb. destruct (_ =? _); [done|]. apply BTB.btb_wf_make; [done|].
  unfold tag_bits. assert (0 <= u64 (32 - btb_entries_pow2 o - 2)) by apply u64_range. lia.
Qed.

Lemma unit_lawful o : unit_opts_ok o → ∃ b k w, create_branch_unit o = Ok b ∧
  BU.good (any_inv (bpu_entries_pow2 o) (tage_comp_pow2 o)) k w (b, []).
Proof.
  intros Ho. unfold create_branch_unit. set (o' := if no_bpu o then _ else o).
  assert (unit_opts_ok o' ∧ bpu_entries_pow2 o' = bpu_entries_pow2 o ∧ tage_comp_pow2 o' = tage_comp_pow2 o)
    as (Ho' & <- & <-) by (unfold o'; destruct (no_bpu o); [|done]; split; [destruct Ho; by constructor | done]).
  destruct (core_lawful o' Ho') as (p & -> & Hp). cbn [mbind res_bind].
  eexists _, (btb_entries_pow2 o'), (tag_bits (btb_entries_pow2 o')). split; [done|].
  split; [|by repeat constructor]. apply BU.unit_wf_make; [done | by apply btb_lawful, Ho' | apply Ho'].
Qed.

(** A predictor name [create_bpu_core] does not know. *)
Lemma unknown_predictor_fails o :
  bpu_type o ∉ ["bimodal"; "gshare"; "tournament"; "tage"; "alwaystaken"; "btfnt"; "none"; ""]%string →
  create_bpu_core o = Err AssertFailed.
Proof.
  intros Ht. rewrite !not_elem_of_cons in Ht. destruct_and! Ht. unfold create_bpu_core. by rewrite !decide_False.
Qed.

(** C36: the branch unit [main] builds from options in range never fails: not when
    it is built, and not in any run of fetches, resolutions, ticks and resets.  In
    range ([unit_opts_ok]): one of the eight predictor names (the empty one
    included), tables and target buffer of at most 2^29 entries, a stack depth below
    2^63, a history of at most 31 bits, and for TAGE components of 2 to 2^31 entries
    and a list of history lengths that parses and is not empty.  Outside this range
    the construction can fail: an unknown name or an empty list is a failed
    assertion ([unknown_predictor_fails]), a list that does not parse an exception. *)
Theorem configured_unit_safe o ops : unit_opts_ok o → Forall BU.op_ok ops →
  ∃ b b' preds, create_branch_unit o = Ok b ∧ BU.run (b, []) ops = Ok (b', preds).
Proof.
  intros Ho Hops. destruct (unit_lawful o Ho) as (b & k & w & -> & Hg).
  destruct (BU.run_good _ k w (b, []) ops Hg Hops) as ([b' preds] & Hr & _). by exists b, b', preds.
Qed.

(** ** Witnesses *)

Lemma parse_size_round_trip_witness : parse_size (chars "16kB") = Ok 16384.
Proof. apply (parse_size_round_trip 16 "kB" 1024); [right; right; left | lia]. Defined.

Lemma parse_entries_spec_witness : parse_entries_pow2 (chars "256") = Ok 8 ∧ parse_entries_pow2 (chars "12") = Err InvalidArgument.
Proof. split; [apply (parse_entries_spec 256); lia | apply (parse_entries_spec 12); lia]. Defined.

Lemma parse_hists_round_trip_witness : parse_hists (chars "2,8,32") = Ok [2; 8; 32].
Proof. apply (parse_hists_round_trip [2; 8; 32]). repeat constructor; lia. Defined.

Definition opts_ex : list (Z * string) :=
  [(84, "tage"%string); (101, "1024"%string); (215, "lru"%string); (213, "2,8,32"%string); (82, "8"%string)].
Definition parsed_ex : Options :=
  match parse_args opts_ex ["trace.bin"%string] with Ok (Continue o) => o | _ => defaults end.

Lemma accepted_options_witness : bpu_entries_pow2 parsed_ex = 10 ∧ ∃ p, Repl.make_repl_policy (l1i_repl parsed_ex) 2 32 = Ok p.
Proof.
  split; [reflexivity|]. apply (accepted_options opts_ex ["trace.bin"%string] parsed_ex 2 32). reflexivity.
Defined.

Lemma configured_unit_safe_witness : ∃ b b' preds, create_branch_unit parsed_ex = Ok b ∧
  BU.run (b, []) [BU.Fetch 0x80000000 true; BU.Tick] = Ok (b', preds).
Proof.
  apply configured_unit_safe.
  - constructor; vm_compute; try (by repeat constructor); try done.
    intros _. split; [done|]. by exists 2, [8; 32].
  - repeat constructor; done.
Defined.

End Config.
