(* ===== verification/Sim.v ===== *)
(** * The simulator

    [main] of [src/main.cc]: construction of the system from the options, the
    loop over the trace, and how the components reach each other.  The memory
    fabric calls the caches, the caches call the fabric and the core, the core
    calls the caches; while an object runs, the rest of the system is its
    environment.  The core is the one object that could be called while it runs
    (by the write-through cache, on a store): that is the error [Reentrant]. *)

From stdpp Require Import strings.
From S2P Require Import Prelude Types Trace BranchPred BranchUnit Repl Prefetcher CacheBase.
From S2P Require Import CacheEnv PipeCache StoreBuffer Caches RamConn Sdram Pipeline Config.

Module Sim.

(** ** What a cache sees: the clock, the fabric, and the core unless it is running *)

Record World (P : Type) : Type := MkWorld {
  w_tick : Z;
  w_arb : Ram.RAMArbiter;
  w_core : option (Pipe.Pipeline P)
}.
Arguments MkWorld {P} _ _ _.
Arguments w_tick {P} _.
Arguments w_arb {P} _.
Arguments w_core {P} _.
#[global] Instance eta_World {P} : Eta (World P) := λ r, MkWorld r.(w_tick) r.(w_arb) r.(w_core).

(** The three caches. *)
Record Caches : Type := MkCaches { icache : PipeCache.PipeCache; dcache : DCache; dmem_bypass : NC.NoCache }.
#[global] Instance eta_Caches : Eta Caches := λ r, MkCaches r.(icache) r.(dcache) r.(dmem_bypass).

(** A method of a part of the state. *)
Definition focus {S C E A} (get : S → C) (put : C → S → S) (m : ST (C * E) A) : ST (S * E) A := λ s,
  match m (get s.1, s.2) with Ok (a, (c, e)) => Ok (a, (put c s.1, e)) | Err x => Err x end.

Definition on_ic {E A} : ST (PipeCache.PipeCache * E) A → ST (Caches * E) A := focus icache (λ c s, s <| icache := c |>).
Definition on_dc {E A} : ST (DCache * E) A → ST (Caches * E) A := focus dcache (λ c s, s <| dcache := c |>).
Definition on_nc {E A} : ST (NC.NoCache * E) A → ST (Caches * E) A := focus dmem_bypass (λ c s, s <| dmem_bypass := c |>).

Section system.
Context {P : Type} `{DirPredictor P}.

(** The callbacks [main] hands to the caches: [proc->recv_mem_resp], [proc->ack_mem_avail]. *)
Definition call_core (f : Z → Pipe.Pipeline P → res (Pipe.Pipeline P)) : ST (World P) unit := λ w,
  match w_core w with
  | Some p => p ← f (w_tick w) p; mret (tt, w <| w_core := Some p |>)
  | None => Err Reentrant
  end.

#[export] Instance world_env : CacheEnv (World P) := {|
  curr_tick := w_tick;
  mem_recv_req req := λ w, a ← Ram.recv_req req (w_tick w) (w_arb w); mret (tt, w <| w_arb := a |>);
  cpu_resp_recv r := call_core (λ now, Pipe.recv_mem_resp now r);
  cpu_ack_recv a := call_core (λ now, Pipe.ack_mem_avail now a)
|}.

(** ** What the fabric sees: its hosts, by id *)

Record Hosts : Type := MkHosts { h_tick : Z; h_core : Pipe.Pipeline P; h_caches : Caches }.

Definition host_resp (id : Z) (t : MemTrans) : ST (Caches * World P) unit :=
  if id =? 0 then on_ic (ca_resp t)
  else if id =? 1 then on_dc (ca_resp t)
  else if id =? 2 then on_nc (ca_resp t)
  else fail OutOfRange.

#[export] Instance hosts_env : Ram.HostEnv Hosts := {|
  Ram.arb_tick := h_tick;
  Ram.host_recv id t := λ s,
    match host_resp id t (h_caches s.2, MkWorld (h_tick s.2) s.1 (Some (h_core s.2))) with
    | Ok (_, (cs, MkWorld now a (Some p))) => Ok (tt, (a, MkHosts now p cs))
    | Ok (_, (_, MkWorld _ _ None)) => Err NullDeref
    | Err x => Err x
    end
|}.

(** ** What the core sees: its ports *)

Record Ports : Type := MkPorts { e_tick : Z; e_arb : Ram.RAMArbiter; e_caches : Caches }.

Definition call_cache (m : ST (Caches * World P) unit) : ST Ports unit := λ e,
  match m (e_caches e, MkWorld (e_tick e) (e_arb e) None) with
  | Ok (_, (cs, w)) => Ok (tt, MkPorts (w_tick w) (w_arb w) cs)
  | Err x => Err x
  end.

#[export] Instance ports_env : Pipe.CpuEnv Ports := {|
  Pipe.cpu_tick := e_tick;
  Pipe.imem_ready e := (ca_ready (icache (e_caches e))).1;
  Pipe.imem_read a := call_cache (on_ic (ca_read a));
  Pipe.lsu_ready po e :=
    match po with
    | Pipe.Dmem => ca_ready (dcache (e_caches e))
    | Pipe.DmemNc => ca_ready (dmem_bypass (e_caches e))
    end;
  Pipe.lsu_read po a :=
    call_cache match po with Pipe.Dmem => on_dc (ca_read a) | Pipe.DmemNc => on_nc (ca_read a) end;
  Pipe.lsu_write po a d m :=
    call_cache match po with Pipe.Dmem => on_dc (ca_write a d m) | Pipe.DmemNc => on_nc (ca_write a d m) end
|}.

(** ** The whole system *)

Record Sys : Type := MkSys { tick : Z; core : Pipe.Pipeline P; memory : Ram.RAMArbiter; caches : Caches }.
#[global] Instance eta_Sys : Eta Sys := λ r, MkSys r.(tick) r.(core) r.(memory) r.(caches).

Definition run_memory (m : ST (Ram.RAMArbiter * Hosts) unit) : ST Sys unit := λ s,
  match m (memory s, MkHosts (tick s) (core s) (caches s)) with
  | Ok (_, (a, h)) => Ok (tt, MkSys (h_tick h) (h_core h) a (h_caches h))
  | Err x => Err x
  end.

Definition run_caches (m : ST (Caches * World P) unit) : ST Sys unit := λ s,
  match m (caches s, MkWorld (tick s) (memory s) (Some (core s))) with
  | Ok (_, (cs, MkWorld now a (Some p))) => Ok (tt, MkSys now p a cs)
  | Ok (_, (_, MkWorld _ _ None)) => Err NullDeref
  | Err x => Err x
  end.

Definition run_core (m : ST (Pipe.Pipeline P * Ports) unit) : ST Sys unit := λ s,
  match m (core s, MkPorts (tick s) (memory s) (caches s)) with
  | Ok (_, (p, e)) => Ok (tt, MkSys (e_tick e) p (e_arb e) (e_caches e))
  | Err x => Err x
  end.

(** [for (auto dev : devlist) dev->do_update();] *)
Definition update_devices : ST Sys unit :=
  run_memory Ram.do_update;;
  run_caches (on_nc ca_update);;
  run_caches (on_dc ca_update);;
  run_caches (on_ic ca_update);;
  run_core Pipe.do_update.

(** [set_global_tick(curr_tick() + 1)] *)
Definition next_tick : ST Sys unit :=
  s ← gets id;
  let t := u64 (tick s + 1) in
  assertM (tick s <=? t);;
  modify (λ s, s <| tick := t |>).

(** [for (auto* obj : simlist) obj->reset_stats();]; the prefetcher of the
    instruction cache, when there is one, is the last of the list. *)
Definition reset_stats (s : Sys) : Sys :=
  let ic := ca_reset (icache (caches s)) in
  let ic := ic <| PipeCache.base ::= (λ b, b <| CB.prefetcher_ ::= fmap Pf.reset_stats |>) |> in
  s <| memory ::= Ram.reset_stats |>
    <| caches := MkCaches ic (ca_reset (dcache (caches s))) (ca_reset (dmem_bypass (caches s))) |>
    <| core ::= (λ p, Pipe.reset_stats (tick s) (p <| Pipe.bpu ::= BU.reset_stats |>)) |>.

Definition fence_i : ST Sys unit :=
  run_caches (on_ic ca_flush);;
  run_caches (on_dc ca_flush);;
  run_caches (on_nc ca_flush);;
  run_caches (on_ic ca_update);;
  run_caches (on_dc ca_update);;
  run_caches (on_nc ca_update).

(** ** The loop *)

Record Loop : Type := MkLoop {
  sys : Sys;
  file : list Z;
  inst : TraceInst;
  has_next : bool;
  stop_after_dump : bool;
  dump_cnt : Z;
  inst_cnt : Z;
  sanitizer : TraceSanitizer;
  sanitizer_all : TraceSanitizer
}.
#[global] Instance eta_Loop : Eta Loop := λ r,
  MkLoop r.(sys) r.(file) r.(inst) r.(has_next) r.(stop_after_dump) r.(dump_cnt) r.(inst_cnt)
         r.(sanitizer) r.(sanitizer_all).

Definition on_sys (m : ST Sys unit) : ST Loop unit := λ l,
  match m (sys l) with Ok (_, s) => Ok (tt, l <| sys := s |>) | Err x => Err x end.

(** [core->set_draining()] *)
Definition drain (l : Loop) : Loop := l <| sys ::= (λ s, s <| core ::= Pipe.set_draining |>) |>.

Definition feed (max_insts : Z) : ST Loop unit :=
  l ← gets id;
  if negb (Pipe.inst_avail (core (sys l))) then mret tt
  else if negb (stop_after_dump l) && has_next l && (inst_cnt l <? max_insts) then
    let '(more, i, rest) := next (inst l) (file l) in
    modify (λ l, l <| file := rest |> <| inst := i |> <| has_next := more |>);;
    if negb more then modify drain
    else
      on_sys (run_core (Pipe.feed_inst i));;
      modify (λ l, l <| sanitizer ::= (λ s, record s i) |> <| sanitizer_all ::= (λ s, record s i) |>
                     <| inst_cnt ::= incr |>)
  else modify drain.

(** The handling of the last record's [sys_op]. *)
Definition sys_ops : ST Loop unit :=
  l ← gets id;
  let done (l : Loop) := l <| inst ::= (λ i, i <| sys_op := SysNone |>) |> in
  if sys_op (inst l) =? SysResetStats then
    modify (λ l, done l <| sys ::= reset_stats |> <| sanitizer := sanitizer_reset |>)
  else if sys_op (inst l) =? SysFenceI then
    modify done;;
    on_sys fence_i
  else if sys_op (inst l) =? SysDumpStats then
    modify (λ l, done l <| dump_cnt ::= incr |> <| stop_after_dump := true |>)
  else mret tt.

(** The body of the loop, up to the handling of [sys_op]. *)
Definition turn_head (max_insts : Z) : ST Loop unit :=
  on_sys update_devices;;
  feed max_insts;;
  on_sys next_tick.

Definition turn (max_insts : Z) : ST Loop unit :=
  turn_head max_insts;;
  sys_ops.

(** [while (!core->is_finished() && curr_tick() < max_ticks)] *)
Definition goes_on (max_ticks : Z) (l : Loop) : bool :=
  negb (Pipe.is_finished (core (sys l))) && (tick (sys l) <? max_ticks).

(** The [do ... while] loop, of at most [fuel] turns. *)
Fixpoint sim_loop (fuel : nat) (max_insts max_ticks : Z) : ST Loop unit :=
  match fuel with
  | O => fail OutOfFuel
  | S n =>
    turn max_insts;;
    l ← gets id;
    if goes_on max_ticks l then sim_loop n max_insts max_ticks else mret tt
  end.
End system.
Arguments Hosts : clear implicits.
Arguments Sys : clear implicits.
Arguments Loop : clear implicits.

(** ** Construction *)

Import Config.

Definition l1i_pipe_depth : Z := 2.
Definition l1d_pipe_depth : Z := 1.
Definition ifq_size : Z := 8.

(** [size / (blksize * assoc)] *)
Definition sets_of (size blksize assoc : Z) : res Z := udiv size (u64 (blksize * assoc)).

Definition make_icache (o : Options) : res PipeCache.PipeCache :=
  sets ← sets_of (l1i_size o) (l1i_blksize o) (l1i_assoc o);
  repl ← Repl.make_repl_policy (l1i_repl o) (l1i_assoc o) sets;
  PipeCache.make l1i_pipe_depth (l1i_size o) (l1i_blksize o) (l1i_assoc o) (make_prefetcher (l1i_pref_type o))
    0 (sram_dff o) false (l1i_cwf o) 1 (Some repl).

Definition make_dcache (o : Options) : res DCache :=
  if 0 <? l1d_size o then
    sets ← sets_of (l1d_size o) (l1d_blksize o) (l1d_assoc o);
    repl ← Repl.make_repl_policy (l1d_repl o) (l1d_assoc o) sets;
    DPipe <$> PipeCache.make l1d_pipe_depth (l1d_size o) (l1d_blksize o) (l1d_assoc o)
      (make_prefetcher (l1d_pref_type o)) 1 (sram_dff o) true false 0 (Some repl)
  else if stbuf_entries o =? 0 then DNone <$> NC.make 1
  else Err AssertFailed.

(** The objects of [main], at tick 0.  [nxtupd] is the value of the core's
    uninitialised member. *)
Definition build (o : Options) (nxtupd : Z) : res (Sys AnyPredictor) :=
  bu ← create_branch_unit o;
  ic ← make_icache o;
  dc ← make_dcache o;
  nc ← NC.make 2;
  mem ← Ram.soc_fabric (freq_mhz o) (sram_lat o) (mmio_lat o);
  mret (MkSys 0 (Pipe.make ifq_size bu (mmio_lat o) true nxtupd) mem (MkCaches ic dc nc)).

(** [main], from the first record of the trace on.  [inst0] is the value of the
    local [inst] before it is first assigned. *)
Definition run_main (fuel : nat) (o : Options) (nxtupd : Z) (inst0 : TraceInst) (trace : list Z)
    : res (Loop AnyPredictor) :=
  s ← build o nxtupd;
  '(_, l) ← sim_loop fuel (max_insts o) (max_ticks o)
              (MkLoop s trace inst0 true false 0 0 sanitizer_reset sanitizer_reset);
  mret l.
End Sim.
