(* ===== verification/SimSafe.v ===== *)
(** * The whole simulator is safe and ends

    The invariant of [Sim]: each cache keeps its invariant against a [Port], the
    fabric's slots hold exactly the requests outstanding at the three ports, and
    the core is owed exactly the answers the ports owe.  Each part is proved
    against its contract environment; [EnvSim] and [CoreSim] carry that over to
    the real system, where the other parts keep the contract. *)

From stdpp Require Import strings.
From S2P Require Import Prelude Types Trace BranchPred BranchUnit Btb Ras Repl Prefetcher CacheBase CacheEnv EnvSim.
From S2P Require Import PipeCache StoreBuffer Caches RamConn Sdram Ifq Pipeline PipelineSafe PipelineRun CoreFrame CoreSim Config Sim.

Module SimSafe.
Import Sim.
#[local] Existing Instances Pipe.port_eq_dec PipeSafe.ports_env.

(** ** The three ports *)

Record Trio : Type := MkTrio { at_ic : Port; at_dc : Port; at_nc : Port }.
Implicit Types (π : Trio).

Definition nth_port (i : Z) π : Port := if i =? 0 then at_ic π else if i =? 1 then at_dc π else at_nc π.
Definition put_port (i : Z) (p : Port) π : Trio :=
  if i =? 0 then MkTrio p (at_dc π) (at_nc π)
  else if i =? 1 then MkTrio (at_ic π) p (at_nc π)
  else MkTrio (at_ic π) (at_dc π) p.
Definition host (i : Z) : Prop := i = 0 ∨ i = 1 ∨ i = 2.

Lemma nth_put i j p π : host i → host j → nth_port j (put_port i p π) = if decide (j = i) then p else nth_port j π.
Proof. intros [-> | [-> | ->]] [-> | [-> | ->]]; done. Qed.
Lemma put_nth i π : put_port i (nth_port i π) π = π.
Proof. unfold put_port, nth_port. destruct π. by destruct (i =? 0), (i =? 1). Qed.

(** Requests on their way to or from memory. *)
Definition load_of (p : Port) : Z := b2z (Pipe.present (p_rd p)) + b2z (Pipe.present (p_wr p)).
Definition load π : Z := load_of (at_ic π) + load_of (at_dc π) + load_of (at_nc π).

Lemma load_range p : 0 <= load_of p <= 2.
Proof. unfold load_of. destruct (p_rd p), (p_wr p); simpl; lia. Qed.
Lemma load_put i p π : host i → load (put_port i p π) = load π - load_of (nth_port i π) + load_of p.
Proof. intros [-> | [-> | ->]]; unfold load, put_port, nth_port; simpl; lia. Qed.
Lemma load_settle m p r : outstanding m p = Some r → load_of (settle m p) = load_of p - 1.
Proof. destruct m; unfold load_of; simpl; intros ->; simpl; lia. Qed.
Lemma outstanding_settle m m' p : outstanding m' (settle m p) = if decide (m' = m) then None else outstanding m' p.
Proof. by destruct m, m'. Qed.

Section system.
Context {P : Type} `{DirPredictor P} (binv : P → Prop) `{!DirPredictorLaws P binv} (k w : Z).
Context (dok : Z → Z → Ram.RamDevice → Prop) (T L M : Z) `{!Ram.DeviceLaws dok T L M}.
Context (HM : 0 <= M) (HT : 0 <= T) (Hend : T + M + 42 < InfTime).
Context (si oi ai sd od ad : Z).

#[local] Notation arb_ok := (Ram.arb_ok dok T L M 3).

(** ** The parts *)

(** The fabric, in the middle of a completion when [mid] is not [None].  [K]: the
    accesses the devices may still be asked for, counting the ones on their way. *)
Definition mem_ok (mid : option MemRWOpt) (K t : Z) (a : Ram.RAMArbiter) π : Prop :=
  (∃ n, arb_ok mid n t a ∧ K - load π <= n) ∧
  ∀ i m, host i → Ram.key <$> Ram.slot m i a = Ram.key <$> outstanding m (nth_port i π).

Record port_ok (t i : Z) (p : Port) : Prop := {
  po_tick : p_tick p = t;
  po_id : p_id p = i;
  po_words : p_words p <= L;
  po_stores : p_stores p = negb (i =? 0)
}.
Definition ports_ok (t : Z) π : Prop := ∀ i, host i → port_ok t i (nth_port i π).

(** What the core is owed. *)
Definition owed (po : Pipe.port) (h : PipeSafe.Ports) : Z :=
  match PipeSafe.t_lsu h with Some (po', _) => b2z (bool_decide (po' = po)) | None => 0 end.

Record cpu_link (h : PipeSafe.Ports) π : Prop := {
  u_fetch : PipeSafe.t_fetches h = p_cpu (at_ic π);
  u_dmem : owed Pipe.Dmem h = p_cpu (at_dc π);
  u_nc : owed Pipe.DmemNc h = p_cpu (at_nc π)
}.

(** What else is known of the core: the instructions that committed before the
    last reset of the statistics, whether it drains, and that it is not finished
    (where [g_busy] says so). *)
Record Ghost : Type := MkGhost { g_past : Z; g_drain : bool; g_busy : bool }.
#[global] Instance eta_Ghost : Eta Ghost := λ r, MkGhost r.(g_past) r.(g_drain) r.(g_busy).

Definition tracks (g : Ghost) (p : Pipe.Pipeline P) : Prop :=
  Pipe.is_draining_ p = g_drain g ∧ (g_busy g = true → Pipe.is_finished p = false).

(** [b]: the core has been updated in this tick; [F]: the instructions fed. *)
Definition core_ok (b : bool) (F : Z) (g : Ghost) (t : Z) (p : Pipe.Pipeline P) π : Prop :=
  ∃ l h, PipeSafe.core binv k w b b l p h ∧
    (PipeSafe.t_now h, PipeSafe.t_fed h, PipeSafe.t_past h) = (t, F, g_past g) ∧ cpu_link h π ∧ tracks g p.

Lemma tracks_counts g p p' : CoreFrame.counts p' = CoreFrame.counts p → tracks g p → tracks g p'.
Proof. intros [= E1 E2]. unfold tracks, Pipe.is_finished. by rewrite E1, E2. Qed.

Definition caches_ok (cs : Caches) π : Prop :=
  PipeCache.inv si oi ai false (icache cs) (at_ic π) ∧ dc_ok sd od ad (dcache cs) (at_dc π) ∧
  NoLaws.nc_ok (dmem_bypass cs) (at_nc π).

(** ** Requests reach the fabric *)

Lemma mem_accept mid K t a π i req : mem_ok mid K t a π → ports_ok t π → 6 <= K → host i →
  req_allowed (nth_port i π) req = true → outstanding (mt_mop req) (nth_port i π) = None →
  ∃ a', Ram.recv_req req t a = Ok a' ∧ ∀ p', (∀ m, outstanding m p' = if decide (m = mt_mop req) then Some req
      else outstanding m (nth_port i π)) → mem_ok mid K t a' (put_port i p' π).
Proof.
  intros [(n & Ha & Hn) Hs] Hp HK Hi Hreq Hnone. unfold req_allowed in Hreq.
  destruct (Hp i Hi) as [_ Eid HL _]. rewrite Eid in Hreq.
  apply andb_true_iff in Hreq as [[E%Z.eqb_eq Hb1%Z.leb_le]%andb_true_iff Hb2%Z.leb_le].
  assert (load π <= 5) as Hload.
  { pose proof (load_range (at_ic π)). pose proof (load_range (at_dc π)). pose proof (load_range (at_nc π)).
    assert (load_of (nth_port i π) <= 1) as Hle.
    { unfold load_of. destruct (mt_mop req); simpl in Hnone; rewrite Hnone; simpl;
        [destruct (p_wr _) | destruct (p_rd _)]; simpl; lia. }
    unfold load. destruct Hi as [-> | [-> | ->]]; unfold nth_port in Hle; simpl in Hle; lia. }
  destruct (Ram.arb_accept dok T L M 3 ltac:(lia) mid n t a req Ha) as (a' & Ea & Ha' & Hkey); [lia | | |].
  - split; [|lia]. rewrite E. by destruct Hi as [-> | [-> | ->]].
  - unfold Ram.free. specialize (Hs i (mt_mop req) Hi). rewrite Hnone in Hs. rewrite E.
    by destruct (Ram.slot (mt_mop req) i a).
  - exists a'. split; [done|]. intros p' Hp'. split.
    + exists (n - 1). split; [done|]. rewrite load_put by done.
      assert (load_of p' = load_of (nth_port i π) + 1) as ->; [|lia].
      pose proof (Hp' Read) as Hr. pose proof (Hp' Write) as Hw. unfold load_of. simpl in Hr, Hw. rewrite Hr, Hw.
      destruct (mt_mop req); simpl in Hnone |- *; rewrite Hnone; simpl; lia.
    + intros j m Hj. rewrite Hkey by (destruct Hj as [-> | [-> | ->]]; done). rewrite nth_put by done.
      destruct (decide (j = i)) as [->|Hne].
      * rewrite Hp'. destruct (decide (m = mt_mop req)) as [->|Hm].
        -- rewrite !decide_True by (done || congruence). done.
        -- rewrite !decide_False by (done || congruence). by apply Hs.
      * rewrite decide_False by congruence. by apply Hs.
Qed.

Lemma ports_put t i p π : ports_ok t π → host i → port_ok t i p → ports_ok t (put_port i p π).
Proof. intros Hp Hi Ho j Hj. rewrite nth_put by done. case_decide as E; [by rewrite E | by apply Hp]. Qed.

Lemma same_port_ok t i p p' : same_port p p' → port_ok t i p → port_ok t i p'.
Proof. intros [= E1 E2 E3 E4] []. constructor; congruence. Qed.

(** ** A cache runs *)

(** The world of a running cache, while the core may be called. *)
Definition world_ok (mid : option MemRWOpt) (K : Z) (b : bool) (F : Z) (g : Ghost) π (x : World P) : Prop :=
  mem_ok mid K (w_tick x) (w_arb x) π ∧ ports_ok (w_tick x) π ∧
  ∃ c, w_core x = Some c ∧ core_ok b F g (w_tick x) c π.

(** The same while the core is the caller. *)
Definition quiet_ok (mid : option MemRWOpt) (K : Z) π (x : World P) : Prop :=
  mem_ok mid K (w_tick x) (w_arb x) π ∧ ports_ok (w_tick x) π ∧ w_core x = None.

Definition world_rel mid K b F g i π (p : Port) (x : World P) : Prop :=
  world_ok mid K b F g (put_port i p π) x.
Definition quiet_rel mid K i π (q : Quiet) (x : World P) : Prop := quiet_ok mid K (put_port i (q_port q) π) x.

Lemma put_put i p p' π : put_port i p' (put_port i p π) = put_port i p' π.
Proof. unfold put_port. by destruct (i =? 0), (i =? 1). Qed.

Lemma nth_put_same i p π : host i → nth_port i (put_port i p π) = p.
Proof. intros Hi. rewrite nth_put by done. by rewrite decide_True. Qed.

(** A request through the port of a running cache. *)
Lemma port_mem i mid K t a π p p' req : mem_ok mid K t a (put_port i p π) → ports_ok t (put_port i p π) → 6 <= K →
  host i → mem_recv_req req p = Ok (tt, p') →
  ∃ a', Ram.recv_req req t a = Ok a' ∧ mem_ok mid K t a' (put_port i p' π) ∧ ports_ok t (put_port i p' π) ∧
    p_cpu p' = p_cpu p.
Proof.
  intros Hm Hp HK Hi E. cbn [mem_recv_req port_env] in E. unfold port_req in E.
  destruct (req_allowed p req) eqn:Ea; [|done].
  assert (outstanding (mt_mop req) p = None ∧ same_port p p' ∧ p_cpu p' = p_cpu p ∧
    ∀ m, outstanding m p' = if decide (m = mt_mop req) then Some req else outstanding m p) as (Hn & Hs & Hc & Ho).
  { destruct (mt_mop req), (p_rd p) eqn:Er, (p_wr p) eqn:Ew; try done; injection E as <-;
      (split; [done|]); (split; [done|]); (split; [done|]); intros [|]; simpl; try done; by rewrite ?Er, ?Ew. }
  destruct (mem_accept mid K t a (put_port i p π) i req) as (a' & Ea' & Hm'); try done; [by rewrite nth_put_same..|].
  exists a'. split; [done|]. rewrite <- (put_put i p p' π). split; [apply Hm'; intros m; by rewrite nth_put_same by done|].
  split; [|done]. apply ports_put; [done | done|]. apply (same_port_ok t i p); [done|].
  rewrite <- (nth_put_same i p π) by done. by apply Hp.
Qed.

Lemma owed_range po h : 0 <= owed po h <= 1.
Proof. unfold owed. destruct (PipeSafe.t_lsu h) as [[po' m]|]; [|lia]. by destruct (bool_decide _). Qed.

(** At most one load or store is owed. *)
Lemma owed_one h po po' : 0 < owed po h → po' ≠ po → owed po' h = 0.
Proof.
  unfold owed. destruct (PipeSafe.t_lsu h) as [[q m]|]; [|done]. destruct (decide (q = po)) as [->|Hne].
  - intros _ Hq. by rewrite bool_decide_false by congruence.
  - by rewrite bool_decide_false.
Qed.

(** The core takes the answer a port owes it. *)
Lemma core_resp b F g t c i p π r : core_ok b F g t c (put_port i p π) → host i → port_ok t i p →
  resp_allowed p r = true →
  ∃ c', Pipe.recv_mem_resp t r c = Ok c' ∧ core_ok b F g t c' (put_port i (p <| p_cpu ::= Z.pred |>) π).
Proof.
  intros (l & h & Hc & [= <- <- Eg] & [Uf Ud Un] & Htr) Hi [_ Eid _ Est] Hr. unfold resp_allowed in Hr.
  apply andb_true_iff in Hr as [[Hpos%Z.ltb_lt E%Z.eqb_eq]%andb_true_iff Hrd]. rewrite Eid in E. rewrite Est in Hrd.
  unfold Pipe.recv_mem_resp. rewrite E.
  assert (∀ po, 0 <= owed po h <= 1) as Hpo by (intros; apply owed_range).
  destruct Hi as [-> | Hi].
  - cbn [Z.eqb]. rewrite orb_false_r in Hrd. rewrite Hrd. cbn [assert_ mbind res_bind].
    destruct (PipeRun.ifu_core binv k w b b l c h Hc) as (c' & l' & Ec & Hc').
    { rewrite Uf. exact Hpos. }
    rewrite Ec. exists c'. split; [done|]. exists l', (h <| PipeSafe.t_fetches ::= Z.pred |>). split; [done|].
    split; [by rewrite <- Eg|]. split; [constructor; [simpl in *; congruence | done | done]|].
    eapply tracks_counts; [eapply CoreFrame.ifu_counts, Ec | done].
  - replace (i =? 0) with false by (by destruct Hi as [-> | ->]).
    replace ((i =? 1) || (i =? 2)) with true by (by destruct Hi as [-> | ->]).
    assert (∃ x, PipeSafe.t_lsu h = Some x) as [x Hx].
    { destruct (PipeSafe.t_lsu h) as [x|] eqn:Ex; [by exists x|]. exfalso. unfold owed in Ud, Un. rewrite Ex in Ud, Un.
      destruct Hi as [-> | ->]; simpl in Ud, Un; lia. }
    destruct (PipeRun.lsu_core binv k w b b l c h x Hc Hx) as (c' & Ec & Hc'). rewrite Ec. exists c'. split; [done|].
    exists l, (h <| PipeSafe.t_lsu := None |>). split; [done|]. split; [by rewrite <- Eg|].
    split; [|eapply tracks_counts; [eapply CoreFrame.lsu_counts, Ec | done]].
    pose proof (owed_one h Pipe.Dmem Pipe.DmemNc) as Ho1. pose proof (owed_one h Pipe.DmemNc Pipe.Dmem) as Ho2.
    pose proof (Hpo Pipe.Dmem). pose proof (Hpo Pipe.DmemNc).
    destruct Hi as [-> | ->]; simpl in Ud, Un |- *; (constructor; [done|..]); change (owed _ _) with 0; simpl.
    + lia.
    + rewrite <- Un. rewrite Ho1; [done | lia | done].
    + rewrite <- Ud. rewrite Ho2; [done | lia | done].
    + lia.
Qed.

Lemma core_link b F g t c π π' : core_ok b F g t c π →
  (p_cpu (at_ic π'), p_cpu (at_dc π'), p_cpu (at_nc π')) = (p_cpu (at_ic π), p_cpu (at_dc π), p_cpu (at_nc π)) →
  core_ok b F g t c π'.
Proof. intros (l & h & Hc & Et & [] & Htr) [= E1 E2 E3]. exists l, h. split; [done|]. split; [done|].
  split; [constructor; congruence | done]. Qed.

Lemma core_put b F g t c i p p' π : core_ok b F g t c (put_port i p π) → p_cpu p' = p_cpu p →
  core_ok b F g t c (put_port i p' π).
Proof.
  intros Hc E. eapply core_link; [exact Hc|]. unfold put_port. destruct (i =? 0), (i =? 1); simpl; by rewrite E.
Qed.

(** What [Port] promises to a cache, the system keeps. *)
Lemma world_sim mid K b F g i π : host i → 6 <= K → env_sim (world_rel mid K b F g i π).
Proof.
  intros Hi HK. constructor.
  - intros p x (_ & Hp & _). specialize (Hp i Hi). rewrite nth_put_same in Hp by done. apply Hp.
  - intros req p x [] p' (Hm & Hp & c & Ec & Hc) E.
    destruct (port_mem i mid K (w_tick x) (w_arb x) π p p' req) as (a' & Ea & Hm' & Hp' & E'); try done.
    exists (x <| w_arb := a' |>). split; [cbn [mem_recv_req world_env]; by rewrite Ea|].
    split; [done|]. split; [done|]. exists c. split; [done|]. by apply (core_put _ _ _ _ _ i p).
  - intros r p x [] p' (Hm & Hp & c & Ec & Hc) E. cbn [cpu_resp_recv port_env] in E. unfold port_resp in E.
    destruct (resp_allowed p r) eqn:Er; [|done]. injection E as <-.
    pose proof (Hp i Hi) as Ho. rewrite nth_put_same in Ho by done.
    destruct (core_resp b F g (w_tick x) c i p π r Hc Hi Ho Er) as (c' & Ec' & Hc').
    exists (x <| w_core := Some c' |>). split; [cbn [cpu_resp_recv world_env]; unfold call_core; by rewrite Ec, Ec'|].
    split; [|split; [|by exists c']].
    + destruct Hm as [(n & Ha & Hn) Hs]. split; [exists n; split; [done|]|].
      * rewrite !load_put in * by done. exact Hn.
      * intros j m Hj. specialize (Hs j m Hj). rewrite nth_put in Hs |- * by done.
        case_decide; [|done]. by destruct m.
    + rewrite <- (put_put i p). apply ports_put; [done | done|]. by apply (same_port_ok _ _ p).
  - intros a p x [] p' (Hm & Hp & c & Ec & Hc) E. cbn [cpu_ack_recv port_env] in E. unfold port_ack in E.
    destruct (Z.eqb_spec (ack_id a) (p_id p)) as [Eid|]; [|done]. injection E as <-.
    pose proof (Hp i Hi) as [_ Eid' _ _]. rewrite nth_put_same in Eid' by done.
    pose proof Hc as (l & h & Hc' & Et & Hl & Htr). pose proof Et as [= E1 E2 E3].
    destruct (PipeRun.ack_core binv k w b b l c h a Hc') as (c2 & Ec2 & Hc2); [by rewrite Eid, Eid'|].
    exists (x <| w_core := Some c2 |>). rewrite E1 in Ec2.
    split; [cbn [cpu_ack_recv world_env]; unfold call_core; by rewrite Ec, Ec2|].
    split; [done|]. split; [done|]. exists c2. split; [done|]. exists l, h. split; [done|]. split; [done|]. split; [done|].
    eapply tracks_counts; [eapply CoreFrame.ack_counts, Ec2 | done].
Qed.

Lemma quiet_sim mid K i π : host i → 6 <= K → env_sim (quiet_rel mid K i π).
Proof.
  intros Hi HK. constructor; [|intros req [p] x [] [p'] (Hm & Hp & Ec) E |done|done].
  - intros [p] x (_ & Hp & _). specialize (Hp i Hi). rewrite nth_put_same in Hp by done. apply Hp.
  - cbn [mem_recv_req quiet_env] in E. unfold quiet_req in E. cbn [q_port] in *.
    destruct (port_req req p) as [[[] p1]|] eqn:Eq; [|done]. injection E as ->.
    destruct (port_mem i mid K (w_tick x) (w_arb x) π p p' req) as (a' & Ea & Hm' & Hp' & _); try done.
    exists (x <| w_arb := a' |>). split; [cbn [mem_recv_req world_env]; by rewrite Ea|]. done.
Qed.

Lemma same_tick i p π t t' : host i → ports_ok t π → ports_ok t' (put_port i p π) → same_port (nth_port i π) p → t' = t.
Proof.
  intros Hi Hp Hp' [= E _ _ _]. destruct (Hp i Hi) as [<- _ _ _]. destruct (Hp' i Hi) as [<- _ _ _].
  by rewrite nth_put_same.
Qed.

(** A method that a contract port allows runs in the world. *)
Lemma in_world {C} (cinv : C → Port → Prop) mid K b F g i π x c (m1 : ST (C * Port) unit) (m2 : ST (C * World P) unit) :
  host i → 6 <= K → world_ok mid K b F g π x → (∀ R : Port → World P → Prop, env_sim R → sim R R m1 m2) →
  wp m1 (λ _ s', cinv s'.1 s'.2 ∧ same_port (nth_port i π) s'.2) (c, nth_port i π) →
  wp m2 (λ _ s', w_tick s'.2 = w_tick x ∧ ∃ p, cinv s'.1 p ∧ world_ok mid K b F g (put_port i p π) s'.2) (c, x).
Proof.
  intros Hi HK Hx Hs Hw. eapply wp_mono.
  - eapply (sim_wp _ _ m1 m2 _ c (nth_port i π) x); [by apply Hs, (world_sim mid K b F g i π) | | exact Hw].
    unfold world_rel. by rewrite put_nth.
  - intros [] [c' x'] (p & Hr & Hc & Hp). cbn [fst snd] in *. split; [|by exists p].
    destruct Hr as (_ & Hp' & _). destruct Hx as (_ & Hp0 & _). by apply (same_tick i p π).
Qed.

(** One that the core calls. *)
Lemma in_quiet {C} (cinv : C → Port → Prop) K i π x c p0 (m1 : ST (C * Quiet) unit) (m2 : ST (C * World P) unit) :
  let p := nth_port i π in
  host i → 6 <= K → quiet_ok None K π x → (∀ R : Quiet → World P → Prop, env_sim R → sim R R m1 m2) →
  outstanding Read p0 = outstanding Read p → outstanding Write p0 = outstanding Write p → same_port p p0 →
  wp m1 (λ _ s', cinv s'.1 (q_port s'.2) ∧ same_port p (q_port s'.2) ∧ p_cpu (q_port s'.2) = p_cpu p + 1) (c, MkQuiet p0) →
  wp m2 (λ _ s', w_tick s'.2 = w_tick x ∧
    ∃ p', cinv s'.1 p' ∧ p_cpu p' = p_cpu p + 1 ∧ quiet_ok None K (put_port i p' π) s'.2) (c, x).
Proof.
  intros p Hi HK (Hm & Hp & Hn) Hs Er Ew Hsame Hw. eapply wp_mono.
  - eapply (sim_wp _ _ m1 m2 _ c (MkQuiet p0) x); [by apply Hs, (quiet_sim None K i π) | | exact Hw].
    split; [|split; [|done]]; cbn [q_port].
    + destruct Hm as [(n & Ha & Hb) Hk]. split.
      * exists n. split; [done|]. rewrite load_put by done. fold p. unfold load_of. simpl in Er, Ew. rewrite Er, Ew. lia.
      * intros j m Hj. rewrite Hk by done. rewrite nth_put by done. case_decide as E; [|done]. subst j. fold p.
        by destruct m; simpl in *; rewrite ?Er, ?Ew.
    + apply ports_put; [done | done|]. by apply (same_port_ok _ _ p); [|apply Hp].
  - intros [] [c' x'] ([p'] & Hr & Hc & Hsame' & E). cbn [fst snd q_port] in *. split; [|by exists p'].
    destruct Hr as (_ & Hp' & _). by apply (same_tick i p' π).
Qed.

Lemma wp_focus {S C E A} (get : S → C) put (m : ST (C * E) A) Q (cs : S) e :
  wp m (λ a s', Q a (put s'.1 cs, s'.2)) (get cs, e) → wp (focus get put m) Q (cs, e).
Proof. unfold wp, focus. simpl. by destruct (m (get cs, e)) as [[a [c' e']]|]. Qed.

(** ** Updates and flushes of the caches *)

Definition caches_world K b F g t (s : Caches * World P) : Prop :=
  w_tick s.2 = t ∧ ∃ π, caches_ok s.1 π ∧ world_ok None K b F g π s.2.

Definition method : Type := ∀ C, Cache C → ∀ E, CacheEnv E → ST (C * E) unit.
Definition lawful (f : method) : Prop := ∀ C (HC : Cache C) cinv, CacheLaws C cinv →
  (∀ c p, cinv c p → wp (f C HC Port _) (λ _ s', cinv s'.1 s'.2 ∧ same_port p s'.2) (c, p)) ∧
  ∀ E1 HE1 E2 HE2 (R : E1 → E2 → Prop), env_sim R → sim R R (f C HC E1 HE1) (f C HC E2 HE2).

Lemma update_lawful : lawful (@ca_update).
Proof. intros C HC cinv HL. split; [apply law_update | intros; by apply law_sim_update]. Qed.
Lemma flush_lawful : lawful (@ca_flush).
Proof. intros C HC cinv HL. split; [apply law_flush | intros; by apply law_sim_flush]. Qed.

#[local] Existing Instances PipeCache.pipe_cache.

Lemma method_runs (f : method) K b F g t s : lawful f → 6 <= K → caches_world K b F g t s →
  let Q := λ (_ : unit) s', caches_world K b F g t s' in
  wp (on_ic (f _ _ _ _)) Q s ∧ wp (on_dc (f _ _ _ _)) Q s ∧ wp (on_nc (f _ _ _ _)) Q s.
Proof.
  intros Hf HK (<- & π & (Hic & Hdc & Hnc) & Hx). destruct s as [cs x]. cbn [fst snd] in *. cbv zeta. split; [|split].
  - apply wp_focus. destruct (Hf _ _ _ (PipeLaws.pipe_laws si oi ai false)) as [Hw Hs].
    eapply wp_mono; [eapply (in_world _ None K b F g 0 π); [by left | done | done | intros; by apply Hs | by apply Hw]|].
    intros [] [c' x'] (Et & p & Hc & Hx'). split; [done|]. by exists (put_port 0 p π).
  - apply wp_focus. destruct (Hf _ _ _ (dcache_laws sd od ad)) as [Hw Hs].
    eapply wp_mono; [eapply (in_world _ None K b F g 1 π); [by right; left | done | done | intros; by apply Hs | by apply Hw]|].
    intros [] [c' x'] (Et & p & Hc & Hx'). split; [done|]. by exists (put_port 1 p π).
  - apply wp_focus. destruct (Hf _ _ _ NoLaws.nocache_laws) as [Hw Hs].
    eapply wp_mono; [eapply (in_world _ None K b F g 2 π); [by right; right | done | done | intros; by apply Hs | by apply Hw]|].
    intros [] [c' x'] (Et & p & Hc & Hx'). split; [done|]. by exists (put_port 2 p π).
Qed.

(** ** The fabric completes a request *)

Definition fabric_ok K b F g (s : Ram.RAMArbiter * Hosts P) : Prop :=
  ∃ π, mem_ok None K (h_tick s.2) s.1 π ∧ ports_ok (h_tick s.2) π ∧ caches_ok (h_caches s.2) π ∧
    core_ok b F g (h_tick s.2) (h_core s.2) π.

Lemma resp_same_key r r' : Ram.key r = Ram.key r' → resp_key (r <| mt_dir := Resp |>) = resp_key (r' <| mt_dir := Resp |>).
Proof. destruct r, r'. unfold Ram.key, resp_key. simpl. by intros [= -> -> -> -> -> ->]. Qed.

(** The answer reaches the cache it is for. *)
Lemma host_resp_wp i m r r' K b F g π cs x : host i → 6 <= K → caches_ok cs π →
  outstanding m (nth_port i π) = Some r' → Ram.key r = Ram.key r' →
  world_ok (Some m) K b F g (put_port i (settle m (nth_port i π)) π) x →
  wp (host_resp i (r <| mt_dir := Resp |>)) (λ _ s', w_tick s'.2 = w_tick x ∧
    ∃ π', caches_ok s'.1 π' ∧ world_ok (Some m) K b F g π' s'.2) (cs, x).
Proof.
  intros Hi HK (Hic & Hdc & Hnc) Hr Hkey Hx. set (π1 := put_port i _ π) in *.
  assert (nth_port i π1 = settle m (nth_port i π)) as E1 by (by apply nth_put_same).
  assert (∀ C (HC : Cache C) cinv (HL : CacheLaws C cinv) c, cinv c (nth_port i π) →
    wp (ca_resp (r <| mt_dir := Resp |>)) (λ _ s', w_tick s'.2 = w_tick x ∧ ∃ p, cinv s'.1 p ∧
      world_ok (Some m) K b F g (put_port i p π) s'.2) (c, x)) as Hrun.
  { intros C HC cinv HL c Hc. pose proof (resp_same_key r r' Hkey) as Hk. unfold wp. rewrite (law_key _ _ (c, x) Hk).
    match goal with |- match ?f ?s with _ => _ end => change (wp f (λ _ s', w_tick s'.2 = w_tick x ∧ ∃ p, cinv s'.1 p ∧
      world_ok (Some m) K b F g (put_port i p π) s'.2) s) end.
    eapply wp_mono; [eapply (in_world cinv _ _ _ _ _ i π1); [done | done | exact Hx | intros; by apply law_sim_resp|]|].
    - rewrite E1. eapply wp_mono; [by apply (law_resp c _ m r' Hc)|].
      intros [] s' [Hc' Hs]. split; [done|]. revert Hs. unfold same_port. by destruct m.
    - intros [] s' (Et & p & Hc' & Hx'). split; [done|]. exists p. unfold π1 in Hx'. by rewrite put_put in Hx'. }
  unfold host_resp. destruct Hi as [-> | [-> | ->]]; cbn [Z.eqb Pos.eqb]; apply wp_focus.
  - eapply wp_mono; [by apply (Hrun _ _ _ (PipeLaws.pipe_laws si oi ai false))|].
    intros [] [c' x'] (Et & p & Hc & Hx'). split; [done|]. by exists (put_port 0 p π).
  - eapply wp_mono; [by apply (Hrun _ _ _ (dcache_laws sd od ad))|].
    intros [] [c' x'] (Et & p & Hc & Hx'). split; [done|]. by exists (put_port 1 p π).
  - eapply wp_mono; [by apply (Hrun _ _ _ NoLaws.nocache_laws)|].
    intros [] [c' x'] (Et & p & Hc & Hx'). split; [done|]. by exists (put_port 2 p π).
Qed.

Lemma load_bounds π : 0 <= load π <= 6.
Proof.
  pose proof (load_range (at_ic π)). pose proof (load_range (at_dc π)). pose proof (load_range (at_nc π)).
  unfold load. lia.
Qed.

Lemma mem_fewer mid K K' t a π : mem_ok mid K t a π → K' <= K → mem_ok mid K' t a π.
Proof. intros [(n & Ha & Hn) Hs] HK. split; [|done]. exists n. split; [done | lia]. Qed.

Lemma complete_runs m K b F g s : 9 <= K → fabric_ok K b F g s →
  wp (Ram.complete m) (λ _ s', h_tick s'.2 = h_tick s.2 ∧ fabric_ok (K - 2) b F g s') s.
Proof.
  intros HK (π & Hmem & Hp & Hcs & Hc). destruct s as [a e]. cbn [fst snd] in *.
  pose proof Hmem as [(n & Ha & Hn) Hs]. pose proof (load_bounds π).
  eapply (Ram.arb_complete dok T L M 3 HM ltac:(lia) m n (h_tick e)); [exact Ha | done | lia | |].
  { split; [done|]. exists π. split; [|done]. apply (mem_fewer _ K); [done | lia]. }
  set (i := Ram.serving m a). intros r a1 Hslot Hsv _ _ Hok1 Hs1.
  assert (host i) as Hi by (unfold host; lia).
  pose proof (Hs i m Hi) as Hkey. rewrite Hslot in Hkey.
  destruct (outstanding m (nth_port i π)) as [r'|] eqn:Hr; [|done]. apply (inj Some) in Hkey.
  set (p1 := settle m (nth_port i π)). set (π1 := put_port i p1 π).
  assert (world_ok (Some m) (K - 1) b F g π1 (MkWorld (h_tick e) a1 (Some (h_core e)))) as Hx.
  { split; [|split].
    - split.
      + exists n. split; [done|]. unfold π1, p1. rewrite load_put, (load_settle m _ r') by done. lia.
      + intros j m' Hj. cbn [w_arb]. rewrite Hs1 by (unfold host in Hj; lia). unfold π1. rewrite nth_put by done.
        destruct (decide (j = i)) as [->|Hne].
        * unfold p1. rewrite outstanding_settle. destruct (decide (m' = m)) as [->|Hm];
            [by rewrite decide_True | rewrite decide_False by congruence; by apply Hs].
        * rewrite decide_False by congruence. by apply Hs.
    - apply ports_put; [done | done|]. apply (same_port_ok _ _ (nth_port i π)); [by destruct m | by apply Hp].
    - exists (h_core e). split; [done|]. apply (core_put _ _ _ _ _ _ (nth_port i π)); [by rewrite put_nth | by destruct m]. }
  pose proof (host_resp_wp i m r r' (K - 1) b F g π (h_caches e) _ Hi ltac:(lia) Hcs Hr Hkey Hx) as Hw.
  unfold wp, Ram.host_recv, hosts_env. cbn [fst snd]. fold (mt_dir (r <| mt_dir := Resp |>)). unfold wp in Hw.
  destruct (host_resp i _ _) as [[[] [cs' [t' a' c']]]|]; [|done].
  destruct Hw as (Et & π' & Hcs' & (Hm' & Hp' & c2 & Ec & Hc')). cbn [fst snd w_tick w_core w_arb] in *. subst t' c'.
  split; [done|]. destruct Hm' as [(n' & Ha' & Hn') Hs']. pose proof (load_bounds π').
  exists n'. split; [lia|]. split; [done|]. intros a2 Ha2 Hk2. cbn [fst snd h_tick]. split; [done|].
  exists π'. split; [|done]. split; [exists (n' - 1); split; [done | lia]|].
  intros j m' Hj. rewrite Hk2 by (unfold host in Hj; lia). by apply Hs'.
Qed.

Lemma fabric_runs K b F g s : 11 <= K → fabric_ok K b F g s →
  wp Ram.do_update (λ _ s', h_tick s'.2 = h_tick s.2 ∧ fabric_ok (K - 4) b F g s') s.
Proof.
  intros HK Hs. unfold Ram.do_update. rewrite wp_bind, Ram.wp_arb, wp_bind, Ram.wp_arb_now.
  destruct (_ <=? _).
  - unfold Ram.update_impl. rewrite wp_bind. eapply wp_mono; [apply (complete_runs Read K b F g s); [lia | done]|].
    intros [] s1 [Et1 Hs1]. eapply wp_mono; [apply (complete_runs Write (K - 2) b F g s1); [lia | done]|].
    intros [] s2 [Et2 Hs2]. split; [congruence|]. by replace (K - 4) with (K - 2 - 2) by lia.
  - rewrite wp_ret. split; [done|]. destruct Hs as (π & Hm & Hrest). exists π. split; [|done].
    apply (mem_fewer _ K); [done | lia].
Qed.

(** ** The core runs *)

Definition data_ready (po : Pipe.port) (cs : Caches) : bool * bool :=
  match po with Pipe.Dmem => ca_ready (dcache cs) | Pipe.DmemNc => ca_ready (dmem_bypass cs) end.

(** [bi], [bd]: whether the ports' readiness is as the contract environment says. *)
Definition ports_rel K (bi bd : bool) (h : PipeSafe.Ports) (e : Ports) : Prop :=
  ∃ π, mem_ok None K (e_tick e) (e_arb e) π ∧ ports_ok (e_tick e) π ∧ caches_ok (e_caches e) π ∧
    PipeSafe.t_now h = e_tick e ∧ cpu_link h π ∧
    (bi = true → PipeSafe.t_irdy h = (ca_ready (icache (e_caches e))).1) ∧
    (bd = true → ∀ po, PipeSafe.t_drdy h po = data_ready po (e_caches e)).

Lemma call_cache_wp (m : ST (Caches * World P) unit) (Q : unit → Ports → Prop) e :
  wp m (λ _ s', Q tt (MkPorts (w_tick s'.2) (w_arb s'.2) s'.1)) (e_caches e, MkWorld (e_tick e) (e_arb e) None) →
  wp (call_cache m) Q e.
Proof. unfold wp, call_cache. by destruct (m _) as [[[] [cs x]]|]. Qed.

(** A request to a cache that is ready. *)
Lemma send_wp {C} (cinv : C → Port → Prop) K i π t a c (m1 : ST (C * Quiet) unit) (m2 : ST (C * World P) unit) :
  let p := nth_port i π in
  host i → 6 <= K → mem_ok None K t a π → ports_ok t π →
  (∀ R : Quiet → World P → Prop, env_sim R → sim R R m1 m2) →
  wp m1 (λ _ s', cinv s'.1 (q_port s'.2) ∧ same_port p (q_port s'.2) ∧ p_cpu (q_port s'.2) = p_cpu p + 1)
    (c, MkQuiet (p <| p_cpu ::= Z.succ |>)) →
  wp m2 (λ _ s', w_tick s'.2 = t ∧ ∃ p', cinv s'.1 p' ∧ p_cpu p' = p_cpu p + 1 ∧
    mem_ok None K t (w_arb s'.2) (put_port i p' π) ∧ ports_ok t (put_port i p' π)) (c, MkWorld t a None).
Proof.
  intros p Hi HK Hm Hp Hs Hw.
  eapply wp_mono; [eapply (in_quiet cinv K i π _ c (p <| p_cpu ::= Z.succ |>) m1 m2); done|].
  intros [] [c' [t' a' o]] (Et & p' & Hc & Ecpu & Hm' & Hp' & _). cbn [fst snd w_tick w_arb] in *. subst t'.
  split; [done|]. by exists p'.
Qed.

Lemma owed_none h : PipeSafe.t_lsu h = None → ∀ po, owed po h = 0.
Proof. unfold owed. by intros ->. Qed.

Lemma link_fetch h π p' : cpu_link h π → p_cpu p' = p_cpu (at_ic π) + 1 →
  cpu_link (h <| PipeSafe.t_fetches ::= Z.succ |> <| PipeSafe.t_irdy := false |>) (put_port 0 p' π).
Proof. intros [] E. constructor; simpl; [lia | done | done]. Qed.

Definition port_of (po : Pipe.port) : Z := match po with Pipe.Dmem => 1 | Pipe.DmemNc => 2 end.

Lemma link_lsu h π po m p' : cpu_link h π → PipeSafe.t_lsu h = None →
  p_cpu p' = p_cpu (nth_port (port_of po) π) + 1 →
  cpu_link (h <| PipeSafe.t_lsu := Some (po, m) |> <| PipeSafe.t_drdy := λ _, (false, false) |>) (put_port (port_of po) p' π).
Proof.
  intros [Uf Ud Un] Hn E. rewrite (owed_none h Hn) in Ud, Un.
  destruct po; unfold nth_port in E; simpl in E; constructor; unfold owed; simpl; done || lia.
Qed.

(** What [PipeSafe.Ports] lets the core ask, the caches take. *)
Lemma fetch_allowed K bd a : 6 <= K →
  esim (ports_rel K true bd) (ports_rel K false bd) (Pipe.imem_read a) (@Pipe.imem_read _ (ports_env (P := P)) a).
Proof.
  intros HK h e [] h' (π & Hm & Hp & (Hic & Hdc & Hnc) & Et & Hl & Hi & Hd) E. cbn [Pipe.imem_read PipeSafe.ports_env] in E.
  destruct (PipeSafe.t_irdy h) eqn:Er; [|done]. injection E as <-. specialize (Hi eq_refl).
  assert (wp (@Pipe.imem_read _ (ports_env (P := P)) a) (λ _ e', ports_rel K false bd
    (h <| PipeSafe.t_fetches ::= Z.succ |> <| PipeSafe.t_irdy := false |>) e') e) as Hw.
  { cbn [Pipe.imem_read ports_env]. apply call_cache_wp, wp_focus.
    eapply wp_mono; [eapply (send_wp _ K 0 π (e_tick e) (e_arb e) (icache (e_caches e)));
      [by left | done | done | done | intros R HR; by apply (law_sim_read (cinv := PipeCache.inv si oi ai false)) |
       by apply (law_read (cinv := PipeCache.inv si oi ai false))]|].
    intros [] [c' x] (Ex & p' & Hc' & Ecpu & Hm' & Hp'). cbn [fst snd] in *.
    exists (put_port 0 p' π). cbn [e_tick e_arb e_caches]. rewrite Ex. split; [done|]. split; [done|].
    split; [done|]. split; [done|]. split; [by apply link_fetch|]. done. }
  apply wp_run in Hw as ([] & e' & He & Hrel). by exists e'.
Qed.

Lemma lsu_allowed K bi po m (m2 : ST Ports unit) : 6 <= K →
  (∀ π e, mem_ok None K (e_tick e) (e_arb e) π → ports_ok (e_tick e) π → caches_ok (e_caches e) π →
     match m with Read => (data_ready po (e_caches e)).1 | Write => (data_ready po (e_caches e)).2 end = true →
     wp m2 (λ _ e', e_tick e' = e_tick e ∧ icache (e_caches e') = icache (e_caches e) ∧ ∃ p',
       mem_ok None K (e_tick e') (e_arb e') (put_port (port_of po) p' π) ∧
       ports_ok (e_tick e') (put_port (port_of po) p' π) ∧ caches_ok (e_caches e') (put_port (port_of po) p' π) ∧
       p_cpu p' = p_cpu (nth_port (port_of po) π) + 1) e) →
  esim (ports_rel K bi true) (ports_rel K bi false) (PipeSafe.lsu_request po m) m2.
Proof.
  intros HK H2 h e [] h' (π & Hm & Hp & Hcs & Et & Hl & Hi & Hd) E. specialize (Hd eq_refl po).
  unfold PipeSafe.lsu_request in E. destruct (PipeSafe.t_lsu h) eqn:El; [done|].
  destruct (match m with Read => _ | Write => _ end) eqn:Er; [|done]. injection E as <-.
  rewrite Hd in Er. specialize (H2 π e Hm Hp Hcs Er). apply wp_run in H2 as ([] & e' & He & Et' & Eic & p' & H3 & H4 & H5 & H6).
  exists e'. split; [done|]. exists (put_port (port_of po) p' π). split; [done|]. split; [done|]. split; [done|].
  split; [simpl; congruence|]. split; [by apply link_lsu|]. split; [|done]. rewrite Eic. exact Hi.
Qed.

Lemma lsu_at {C} (cinv : C → Port → Prop) (HC : Cache C) (HL : CacheLaws C cinv) K po m a d mask π t arb c :
  6 <= K → mem_ok None K t arb π → ports_ok t π → cinv c (nth_port (port_of po) π) →
  match m with Read => (ca_ready c).1 | Write => (ca_ready c).2 end = true →
  wp (match m with Read => ca_read a | Write => ca_write a d mask end) (λ _ s', w_tick s'.2 = t ∧ ∃ p', cinv s'.1 p' ∧
    p_cpu p' = p_cpu (nth_port (port_of po) π) + 1 ∧
    mem_ok None K t (w_arb s'.2) (put_port (port_of po) p' π) ∧ ports_ok t (put_port (port_of po) p' π))
    (c, @MkWorld P t arb None).
Proof.
  intros HK Hm Hp Hc Hr. assert (host (port_of po)) as Hi by (destruct po; [by right; left | by right; right]).
  assert (p_stores (nth_port (port_of po) π) = true) as Hst by (destruct (Hp _ Hi) as [_ _ _ ->]; by destruct po).
  destruct m.
  - eapply (send_wp cinv K (port_of po)); [done | done | done | done | intros; by apply law_sim_read | by apply law_read].
  - eapply (send_wp cinv K (port_of po)); [done | done | done | done | intros; by apply law_sim_write | by apply law_write].
Qed.

Definition data_call (po : Pipe.port) (m : MemRWOpt) (a d mask : Z) : ST (Caches * World P) unit :=
  match po, m with
  | Pipe.Dmem, Read => on_dc (ca_read a)
  | Pipe.Dmem, Write => on_dc (ca_write a d mask)
  | Pipe.DmemNc, Read => on_nc (ca_read a)
  | Pipe.DmemNc, Write => on_nc (ca_write a d mask)
  end.

Lemma data_call_allowed K bi po m a d mask : 6 <= K →
  esim (ports_rel K bi true) (ports_rel K bi false) (PipeSafe.lsu_request po m) (call_cache (data_call po m a d mask)).
Proof.
  intros HK. apply lsu_allowed; [done|]. intros π e Hm Hp (Hic & Hdc & Hnc) Hr. apply call_cache_wp.
  destruct po; cbn [data_ready data_call] in *.
  - pose proof (lsu_at _ _ (dcache_laws sd od ad) K Pipe.Dmem m a d mask π (e_tick e) (e_arb e) _ HK Hm Hp Hdc Hr) as Hw.
    destruct m; (apply wp_focus; eapply wp_mono; [exact Hw|]); intros [] [c' x] (Et & p' & Hc & E & Hm' & Hp'); cbn [fst snd] in *;
      (split; [exact Et|]); (split; [done|]); exists p'; cbn [e_tick e_arb e_caches]; rewrite Et; exact (conj Hm' (conj Hp' (conj (conj Hic (conj Hc Hnc)) E))).
  - pose proof (lsu_at _ _ NoLaws.nocache_laws K Pipe.DmemNc m a d mask π (e_tick e) (e_arb e) _ HK Hm Hp Hnc Hr) as Hw.
    destruct m; (apply wp_focus; eapply wp_mono; [exact Hw|]); intros [] [c' x] (Et & p' & Hc & E & Hm' & Hp'); cbn [fst snd] in *;
      (split; [exact Et|]); (split; [done|]); exists p'; cbn [e_tick e_arb e_caches]; rewrite Et; exact (conj Hm' (conj Hp' (conj (conj Hic (conj Hdc Hc)) E))).
Qed.

#[local] Instance real_env : Pipe.CpuEnv Ports := ports_env (P := P).

Lemma ports_sim K : 6 <= K → CoreSim.core_sim (ports_rel K).
Proof.
  intros HK. constructor.
  - intros bi bd bi' bd' h e Hbi Hbd (π & H1 & H2 & H3 & H4 & H5 & H6 & H7). exists π. repeat (split; [done|]).
    split; [intros ->; apply H6; by destruct bi | intros ->; apply H7; by destruct bd].
  - intros bi bd h e (π & _ & _ & _ & Et & _). exact Et.
  - intros bd h e (π & _ & _ & _ & _ & _ & Hr & _). by apply Hr.
  - intros bi po h e (π & _ & _ & _ & _ & _ & _ & Hr). cbn [Pipe.lsu_ready PipeSafe.ports_env]. rewrite Hr by done.
    by destruct po.
  - intros bd a. by apply fetch_allowed.
  - intros bi po a. pose proof (data_call_allowed K bi po Read a 0 0 HK) as Hd. by destruct po.
  - intros bi po a d m. pose proof (data_call_allowed K bi po Write a d m HK) as Hd. by destruct po.
Qed.

(** ** The system *)

Definition sys_ok K b F g (s : Sys P) : Prop :=
  ∃ π, mem_ok None K (tick s) (memory s) π ∧ ports_ok (tick s) π ∧ caches_ok (caches s) π ∧
    core_ok b F g (tick s) (core s) π.

(** A part of the tick: the clock stands still. *)
Definition part K b F g (m : ST (Sys P) unit) K' b' F' g' : Prop := ∀ s, sys_ok K b F g s →
  wp m (λ _ s', tick s' = tick s ∧ sys_ok K' b' F' g' s') s.

Lemma part_bind K b F g m1 K1 b1 F1 g1 m2 K2 b2 F2 g2 : part K b F g m1 K1 b1 F1 g1 → part K1 b1 F1 g1 m2 K2 b2 F2 g2 →
  part K b F g (m1;; m2) K2 b2 F2 g2.
Proof.
  intros H1 H2 s Hs. rewrite wp_bind. eapply wp_mono; [by apply H1|]. intros [] s1 [E1 Hs1].
  eapply wp_mono; [by apply H2|]. intros [] s2 [E2 Hs2]. split; [congruence | done].
Qed.

Lemma memory_part K b F g : 11 <= K → part K b F g (run_memory Ram.do_update) (K - 4) b F g.
Proof.
  intros HK s Hs. pose proof (fabric_runs K b F g (memory s, MkHosts (tick s) (core s) (caches s)) HK Hs) as Hw.
  unfold wp, run_memory in *. destruct (Ram.do_update _) as [[[] [a h]]|]; [|done]. destruct Hw as [E Hf]. by split.
Qed.

Lemma caches_part K b F g (m : ST (Caches * World P) unit) :
  (∀ t s, caches_world K b F g t s → wp m (λ _ s', caches_world K b F g t s') s) →
  part K b F g (run_caches m) K b F g.
Proof.
  intros Hm s (π & H1 & H2 & H3 & H4). specialize (Hm (tick s) (caches s, MkWorld (tick s) (memory s) (Some (core s)))).
  assert (caches_world K b F g (tick s) (caches s, MkWorld (tick s) (memory s) (Some (core s)))) as Hs.
  { split; [done|]. exists π. split; [done|]. split; [done|]. split; [done|]. by exists (core s). }
  specialize (Hm Hs). unfold wp, run_caches in *. destruct (m _) as [[[] [cs x]]|]; [|done].
  destruct Hm as (Et & π' & Hc' & Hm' & Hp' & c & Ec & Hc). destruct x as [t a o]. cbn [fst snd w_tick w_arb w_core] in *.
  subst t o. split; [done|]. by exists π'.
Qed.

Lemma method_parts (f : method) K b F g : lawful f → 6 <= K →
  part K b F g (run_caches (on_ic (f _ _ _ _))) K b F g ∧ part K b F g (run_caches (on_dc (f _ _ _ _))) K b F g ∧
  part K b F g (run_caches (on_nc (f _ _ _ _))) K b F g.
Proof.
  intros Hf HK. split; [|split]; apply caches_part; intros t s Hs; by apply (method_runs f K b F g t s Hf HK Hs).
Qed.

(** The contract environment from which the core's ports are as they are. *)
Definition as_ready (cs : Caches) (h : PipeSafe.Ports) : PipeSafe.Ports :=
  h <| PipeSafe.t_irdy := (ca_ready (icache cs)).1 |> <| PipeSafe.t_drdy := λ po, data_ready po cs |>.

Lemma core_ready bw bd l p h cs : PipeSafe.core binv k w bw bd l p h → PipeSafe.core binv k w bw bd l p (as_ready cs h).
Proof. intros []. by constructor. Qed.

(** A handler of the core, proved against the contract, runs in the system. *)
Lemma core_part K F g b b' F' g' (G : PipeSafe.Ports → PipeSafe.Ports) bi' bd' (P0 : Pipe.Pipeline P → Prop)
    (m1 : ST (Pipe.Pipeline P * PipeSafe.Ports) unit) (m2 : ST (Pipe.Pipeline P * Ports) unit) :
  sim (ports_rel K true true) (ports_rel K bi' bd') m1 m2 → g_past g' = g_past g →
  (∀ h, (PipeSafe.t_now (G h), PipeSafe.t_fed (G h), PipeSafe.t_past (G h)) =
        (PipeSafe.t_now h, PipeSafe.t_fed h + (F' - F), PipeSafe.t_past h) ∧
    PipeSafe.t_fetches (G h) = PipeSafe.t_fetches h ∧ PipeSafe.t_lsu (G h) = PipeSafe.t_lsu h ∧
    PipeSafe.t_irdy (G h) = PipeSafe.t_irdy h ∧ PipeSafe.t_drdy (G h) = PipeSafe.t_drdy h) →
  (∀ l p h, P0 p → tracks g p → PipeSafe.core binv k w b b l p h →
     wp m1 (λ _ s', ((∃ l', PipeSafe.core binv k w b' b' l' s'.1 s'.2) ∧ PipeRun.view s'.2 = PipeRun.view (G h)) ∧
       tracks g' s'.1) (p, G h)) →
  ∀ s, P0 (core s) → sys_ok K b F g s →
  wp (run_core m2) (λ _ s', tick s' = tick s ∧ sys_ok K b' F' g' s') s.
Proof.
  intros Hsim Egg HG Hm s HP (π & H1 & H2 & H3 & l & h & Hc & [= Et EF Ep] & Hl & Htr).
  set (h1 := G (as_ready (caches s) h)). destruct (HG (as_ready (caches s) h)) as (Ev & Ef & El & Ei & Ed). fold h1 in Ev, Ef, El, Ei, Ed.
  injection Ev as E1 E2 E3. cbn in E1, E2, E3.
  assert (ports_rel K true true h1 (MkPorts (tick s) (memory s) (caches s))) as Hrel.
  { exists π. split; [done|]. split; [done|]. split; [done|]. split; [cbn [e_tick]; congruence|].
    split; [destruct Hl as [Uf Ud Un]; constructor; unfold owed in *; rewrite ?Ef, ?El; done|].
    split; intros _; [by rewrite Ei | intros po; by rewrite Ed]. }
  pose proof (sim_wp _ _ m1 m2 _ (core s) h1 _ Hsim Hrel (Hm l (core s) _ HP Htr (core_ready _ _ _ _ _ (caches s) Hc))) as Hw.
  unfold wp, run_core in *. destruct (m2 _) as [[[] [p' e']]|]; [|done].
  destruct Hw as (h' & (π' & M1 & M2 & M3 & M4 & M5 & _) & ((l' & Hc') & Ev') & Htr'). cbn [fst snd] in *. fold h1 in Ev'.
  unfold PipeRun.view in Ev'. injection Ev' as V1 _ V3 V4. cbn [tick]. split; [congruence|].
  exists π'. split; [done|]. split; [done|]. split; [done|]. exists l', h'. split; [done|]. split; [|done].
  cbn [tick]. f_equal; [f_equal|]; [done | | congruence]. rewrite V3, E2. cbn. lia.
Qed.

Lemma wp_keeps {C E V A} (v : C → V) (m : ST (C * E) A) Q s : keeps v m → wp m Q s →
  wp m (λ a s', Q a s' ∧ v s'.1 = v s.1) s.
Proof. intros Hv. unfold wp. destruct (m s) as [[a s']|] eqn:E1; [|done]. intros HQ. split; [done | by apply (Hv s a)]. Qed.

(** After the core's update nothing is known of [g_busy]. *)
Definition idle_known (g : Ghost) : Ghost := g <| g_busy := false |>.
Definition busy_known (g : Ghost) : Ghost := g <| g_busy := true |>.

Lemma update_part K F g : 6 <= K → part K false F g (run_core Pipe.do_update) K true F (idle_known g).
Proof.
  intros HK s Hs. eapply (core_part K F g false true F (idle_known g) id false false (λ _, True));
    [apply CoreSim.update_sim, ports_sim, HK | done | intros h; rewrite Z.sub_diag, Z.add_0_r; done | | done | done].
  intros l p h _ Htr Hc. eapply wp_mono; [apply (wp_keeps (Pipe.is_draining_)); [apply CoreFrame.update_keeps|]|].
  - unfold Pipe.do_update. rewrite wp_bind, wp_self, wp_bind, PipeSafe.wp_now_, wp_when.
    instantiate (1 := λ _ s', (∃ l', PipeSafe.core binv k w true true l' s'.1 s'.2) ∧ PipeRun.view s'.2 = PipeRun.view h).
    destruct (_ <=? _).
    + eapply wp_mono; [apply PipeRun.wp_steady; [apply PipeRun.update_steady|apply (PipeRun.core_update_wp binv k w); by exists l]|].
      intros [] s' [(l' & Hc') Hv]. split; [by exists l' | exact Hv].
    + split; [|done]. exists l. by apply (PipeRun.core_mono binv k w false false).
  - intros [] s' [Hs' Ed]. split; [exact Hs'|]. split; [|done]. cbn [fst] in Ed. rewrite Ed. apply Htr.
Qed.

Lemma feed_part K F g i s : 6 <= K → PipeSafe.fed_ok i → Pipe.inst_avail (core s) = true → sys_ok K true F g s →
  wp (run_core (Pipe.feed_inst i)) (λ _ s', tick s' = tick s ∧ sys_ok K true (F + 1) (busy_known g) s') s.
Proof.
  intros HK Hi Ha Hs.
  eapply (core_part K F g true true (F + 1) (busy_known g) (λ h, h <| PipeSafe.t_fed ::= Z.succ |>) false true
    (λ p, Pipe.inst_avail p = true)); [apply CoreSim.feed_sim, ports_sim, HK | done | | | done | done].
  - intros h. replace (F + 1 - F) with 1 by lia. done.
  - intros l p h Hp Htr Hc. unfold Pipe.feed_inst.
    assert (Pipe.input_buffer_ p = None) as Hin by (unfold Pipe.inst_avail in Hp; by destruct (Pipe.input_buffer_ p)).
    PipeSafe.pstep. rewrite Hin. split; [done|]. PipeSafe.pstep.
    eapply wp_mono; [apply (wp_keeps CoreFrame.counts); [apply CoreFrame.fetch0_keeps|]|].
    + apply PipeRun.wp_steady; [apply PipeRun.fetch0_steady|]. apply (PipeRun.fetch0_wp binv k w true true l).
      by apply PipeRun.feed_core.
    + intros [] s' [[(l' & Hc' & _) Hv] [= E1 E2]]. cbn [fst] in E1, E2. split; [split; [by exists l' | exact Hv]|].
      split; [rewrite E1; apply Htr|]. intros _. unfold Pipe.is_finished. rewrite E2. cbn.
      rewrite (PipeSafe.c_ongoing Hc). pose proof (PipeRun.total_range binv k w true true l p h Hc).
      apply Z.eqb_neq. unfold incr. rewrite (u64_small (PipeSafe.total _ _)), u64_small by lia. lia.
Qed.

(** *** The clock *)

Lemma tick_ok K b F g s : sys_ok K b F g s → 6 <= K → 0 <= tick s → tick s + 1 <= T →
  sys_ok K false F g (s <| tick := tick s + 1 |>).
Proof.
  intros (π & [(n & Ha & Hn) Hs] & Hp & (Hic & Hdc & Hnc) & l & h & Hc & [= Et EF Ep] & Hl & Htr) HK Ht HtT.
  pose proof (load_bounds π).
  set (later := λ p : Port, p <| p_tick ::= Z.succ |>).
  set (π' := MkTrio (later (at_ic π)) (later (at_dc π)) (later (at_nc π))).
  assert (∀ i, nth_port i π' = later (nth_port i π)) as Hnth by (intros i; unfold nth_port; by destruct (i =? 0), (i =? 1)).
  assert (∀ i, host i → p_tick (nth_port i π) + 1 < InfTime) as Hend' by (intros i Hi; destruct (Hp i Hi) as [-> _ _ _]; lia).
  exists π'. cbn [tick memory caches core]. split; [|split; [|split]].
  - split; [exists n; split; [apply (Ram.arb_later dok T L M 3); [done | lia | lia] | done]|].
    intros i m Hi. rewrite Hnth. etransitivity; [by apply Hs | by destruct m].
  - intros i Hi. rewrite Hnth. destruct (Hp i Hi) as [E1 E2 E3 E4]. constructor; [simpl; lia | done..].
  - split; [|split].
    + apply (law_time (cinv := PipeCache.inv si oi ai false)); [done | apply (Hend' 0); by left].
    + apply (law_time (cinv := dc_ok sd od ad)); [done | apply (Hend' 1); by right; left].
    + apply (law_time (cinv := NoLaws.nc_ok)); [done | apply (Hend' 2); by right; right].
  - exists l, (h <| PipeSafe.t_now ::= Z.succ |> <| PipeSafe.t_updated := false |>).
    split; [apply (PipeRun.core_later binv k w b); [done | lia]|]. split; [simpl; by rewrite Et, EF, Ep|].
    split; [by destruct Hl | done].
Qed.

Lemma next_tick_wp K b F g s : sys_ok K b F g s → 6 <= K → 0 <= tick s → tick s + 1 <= T →
  wp next_tick (λ _ s', tick s' = tick s + 1 ∧ sys_ok K false F g s') s.
Proof.
  intros Hs HK Ht HtT. unfold next_tick. wp_step.
  assert (u64 (tick s + 1) = tick s + 1) as E by (apply u64_small; unfold InfTime in *; lia).
  change (id s) with s. rewrite E. split; [apply Z.leb_le; lia|]. wp_step. split; [done|]. by apply (tick_ok K b).
Qed.

(** *** Resets and fences *)

Lemma reset_ok K b F g s : sys_ok K b F g s →
  sys_ok K b F (g <| g_past ::= Z.add (Pipe.insts (Pipe.stats (core s))) |>) (reset_stats s).
Proof.
  intros (π & [(n & Ha & Hn) Hs] & Hp & (Hic & Hdc & Hnc) & l & h & Hc & [= Et EF Ep] & Hl & Htr).
  destruct (Ram.arb_reset dok T L M 3 None n (tick s) (memory s) Ha) as [Ha' Hs'].
  exists π. split; [|split; [done|split]].
  - split; [by exists n|]. intros i m Hi. cbn [memory reset_stats]. etransitivity; [|by apply Hs]. done.
  - cbn [caches reset_stats]. split; [|split].
    + apply (PipeLaws.counters_inv si oi ai false (ca_reset (icache (caches s)))); try done;
        [by apply (law_reset (cinv := PipeCache.inv si oi ai false)) | |];
        destruct (PipeCache.i_base _ _ _ _ _ _ Hic) as [Hw _ Hco]; [|exact Hco]. destruct Hw. by constructor.
    + by apply (law_reset (cinv := dc_ok sd od ad)).
    + by apply (law_reset (cinv := NoLaws.nc_ok)).
  - exists l, (h <| PipeSafe.t_past ::= Z.add (Pipe.insts (Pipe.stats (core s))) |>). split; [|split; [|split; [by destruct Hl | exact Htr]]].
    + change (core (reset_stats s)) with (Pipe.reset_stats (tick s) (core s <| Pipe.bpu ::= BU.reset_stats |>)). rewrite <- Et.
      assert (PipeSafe.core binv k w b b l (core s <| Pipe.bpu ::= BU.reset_stats |>) h) as Hc1.
      { apply (PipeSafe.core_bpu binv k w b b l (core s) h); [done|]. destruct (PipeSafe.c_bu Hc) as (Hb & ?).
        split; [by apply reset_law | done]. }
      pose proof (PipeRun.reset_core _ _ _ _ _ _ _ Hc1) as Hr. exact Hr.
    + simpl. by rewrite Et, EF, Ep.
Qed.

Lemma fence_part K F g b : 6 <= K → part K b F g fence_i K b F g.
Proof.
  intros HK. destruct (method_parts (@ca_update) K b F g update_lawful HK) as (U1 & U2 & U3).
  destruct (method_parts (@ca_flush) K b F g flush_lawful HK) as (F1 & F2 & F3).
  unfold fence_i. by repeat (eapply part_bind; [eassumption|]).
Qed.

(** All devices are updated once. *)
Lemma devices_part K F g : 11 <= K → part K false F g update_devices (K - 4) true F (idle_known g).
Proof.
  intros HK. destruct (method_parts (@ca_update) (K - 4) false F g update_lawful ltac:(lia)) as (U1 & U2 & U3).
  unfold update_devices. eapply part_bind; [by apply memory_part|].
  repeat (eapply part_bind; [eassumption|]). apply update_part. lia.
Qed.

(** An instruction in the input buffer is in the machine. *)
Lemma input_busy K b F g s : sys_ok K b F g s → Pipe.present (Pipe.input_buffer_ (core s)) = true →
  sys_ok K b F (busy_known g) s.
Proof.
  intros (π & H1 & H2 & H3 & l & h & Hc & Et & Hl & Hd & Hb) Hin. exists π. split; [done|]. split; [done|]. split; [done|].
  exists l, h. split; [done|]. split; [done|]. split; [done|]. split; [done|]. intros _. unfold Pipe.is_finished.
  apply Z.eqb_neq. rewrite (PipeSafe.c_ongoing Hc). pose proof (PipeRun.total_range binv k w b b l (core s) h Hc) as Hr.
  rewrite u64_small by lia.
  destruct (Pipe.input_buffer_ (core s)) as [t|] eqn:Ei; [|done]. destruct (PipeSafe.c_input Hc t Ei) as (i & -> & _).
  assert (∀ o, 0 <= PipeSafe.counted o) as Ho by (intros [t|]; simpl; [by destruct (Pipe.counted_inflight t)|done]).
  unfold PipeSafe.total. rewrite Ei. cbn [PipeSafe.counted Pipe.make_trans Pipe.counted_inflight negb b2z].
  pose proof (countb_nonneg Pipe.counted_inflight l).
  pose proof (Ho (Pipe.slot Pipe.Decode (core s))). pose proof (Ho (Pipe.slot Pipe.Fetch (core s))).
  pose proof (Ho (Pipe.slot Pipe.Execute (core s))). pose proof (Ho (Pipe.slot Pipe.IntMulExt (core s))).
  pose proof (Ho (Pipe.slot Pipe.IntDivExt (core s))). pose proof (Ho (Pipe.slot Pipe.Memory (core s))). lia.
Qed.

Lemma drain_ok K b F g s : sys_ok K b F g s →
  sys_ok K b F (g <| g_drain := true |>) (s <| core ::= Pipe.set_draining |>).
Proof.
  intros (π & H1 & H2 & H3 & l & h & Hc & Et & Hl & Hd & Hb). exists π. split; [done|]. split; [done|]. split; [done|].
  exists l, h. split; [destruct Hc; by constructor|]. by repeat (split; [done|]).
Qed.

(** ** The loop *)

Section loop.
Context (inst0 : TraceInst) (trace : list Z) (max_insts max_ticks : Z).
Context (Hfed : Forall PipeSafe.fed_ok (records trace)).

Implicit Types (l : Loop P) (fed rest : list TraceInst).

(** Nothing more is to be fed. *)
Definition stopped l rest : Prop := has_next l = false ∧ rest = [] ∨ stop_after_dump l = true ∨ max_insts <= inst_cnt l.

(** The system operations [main] may see: that of [inst] before it is assigned, of
    each record fed, and, once the end of the trace has been read ([more] is false),
    of a record torn one byte before its end. *)
Definition torn_mark : list Z := if (length (leftover trace) =? 15)%nat then [nth 14 (leftover trace) 0] else [].
Definition marks (more : bool) fed : list Z := sys_op inst0 :: (sys_op <$> fed) ++ (if more then [] else torn_mark).
Definition last_mark (more : bool) fed : Z := List.last (marks more fed) 0.

(** What the loop's variables are after [fed].  The operation in [inst] is the last
    one seen, or has been handled. *)
Record book fed rest l : Prop := {
  b_trace : records trace = fed ++ rest;
  b_file : has_next l = true → records (file l) = rest ∧ leftover (file l) = leftover trace;
  b_next : has_next l = false → rest = [];
  b_cnt : inst_cnt l = zlen fed;
  b_all : sanitizer_all l = record_all sanitizer_reset fed;
  b_inst : sys_op (inst l) = last_mark (has_next l) fed ∨ sys_op (inst l) = SysNone;
  b_dump : stop_after_dump l = true → last_mark (has_next l) fed = SysDumpStats;
  b_pending : last_mark (has_next l) fed = SysDumpStats → stop_after_dump l = true ∨ sys_op (inst l) = SysDumpStats
}.

(** [past]: zero unless the statistics have been reset. *)
Definition past_ok more fed (past : Z) : Prop := past = 0 ∨ SysResetStats ∈ marks more fed.

Definition loop_st K b l fed rest g : Prop :=
  book fed rest l ∧ past_ok (has_next l) fed (g_past g) ∧ sys_ok K b (zlen fed) g (sys l) ∧ (g_drain g = true → stopped l rest).

(** At the head of the loop. *)
Definition loop_ok K t l : Prop := ∃ fed rest g, loop_st K false l fed rest g ∧ tick (sys l) = t ∧ zlen fed <= t ∧
  (t = 0 ∨ (g_busy g = true ∨ stopped l rest) ∧ sys_op (inst l) ≠ SysDumpStats).

Lemma last_mark_true fed : last_mark true fed = sys_op (List.last fed inst0).
Proof.
  unfold last_mark, marks. rewrite app_nil_r. destruct fed as [|i fed _] using rev_ind; [done|].
  rewrite fmap_app. cbn [fmap list_fmap]. by rewrite app_comm_cons, !List.last_last.
Qed.

Lemma last_mark_fed fed i : last_mark true (fed ++ [i]) = sys_op i.
Proof. by rewrite last_mark_true, List.last_last. Qed.

Lemma last_mark_torn fed i : let i' := torn (leftover trace) i in
  last_mark false fed = sys_op i' ∨ last_mark false fed = last_mark true fed ∧ sys_op i' = sys_op i.
Proof.
  cbv zeta. rewrite torn_sys_op by apply leftover_short. unfold last_mark, marks, torn_mark.
  destruct (_ =? 15)%nat; [left; by rewrite app_comm_cons, List.last_last | by right].
Qed.

Lemma last_mark_in more fed : last_mark more fed ∈ marks more fed.
Proof.
  unfold last_mark. assert (marks more fed ≠ []) as Hne by done. destruct (marks more fed) as [|x l _] using rev_ind; [done|].
  rewrite List.last_last. apply elem_of_app. right. by left.
Qed.

Lemma marks_fed x fed i : x ∈ marks true fed → x ∈ marks true (fed ++ [i]).
Proof. unfold marks. rewrite !app_nil_r, fmap_app, app_comm_cons. intros Hx. apply elem_of_app. by left. Qed.

Lemma marks_torn x fed : x ∈ marks true fed → x ∈ marks false fed.
Proof. unfold marks. rewrite app_nil_r, app_comm_cons. intros Hx. apply elem_of_app. by left. Qed.

Lemma wp_on_sys (m : ST (Sys P) unit) Q l : wp m (λ _ s, Q tt (l <| sys := s |>)) (sys l) → wp (on_sys m) Q l.
Proof. unfold wp, on_sys. by destruct (m (sys l)) as [[[] s]|]. Qed.

(** The loop's variables and the system after a step that feeds at most one record. *)
Definition fed_to K l fed rest (l' : Loop P) : Prop := tick (sys l') = tick (sys l) ∧
  ∃ fed' rest' g', loop_st K true l' fed' rest' g' ∧ (g_busy g' = true ∨ stopped l' rest') ∧ zlen fed' <= zlen fed + 1.

Lemma feed_stops K l fed rest g l' : sys_ok K true (zlen fed) g (sys l) → past_ok (has_next l') fed (g_past g) →
  sys l' = (sys l) <| core ::= Pipe.set_draining |> → book fed rest l' → stopped l' rest → fed_to K l fed rest l'.
Proof.
  intros Hs Hpast Es Hb' Hst. split; [by rewrite Es|]. exists fed, rest, (g <| g_drain := true |>).
  split; [|split; [by right | lia]]. split; [done|]. split; [done|]. split; [rewrite Es; by apply drain_ok | done].
Qed.

(** A record is read. *)
Lemma book_fed fed i rest l l' file' : book fed (i :: rest) l → has_next l = true → zlen fed < InfTime →
  take_record (file l) = Some (i, file') →
  (file l', has_next l', inst l', stop_after_dump l', inst_cnt l', sanitizer_all l') =
    (file', true, i, false, incr (inst_cnt l), record (sanitizer_all l) i) →
  book (fed ++ [i]) rest l'.
Proof.
  intros [b1 b2 b3 b4 b5 b6 b7 b8] Hn Hlt En [= E1 E2 E3 E4 E5 E6]. destruct (b2 Hn) as [Hr Htl].
  rewrite records_take, En in Hr. injection Hr as Hr. constructor; rewrite ?E1, ?E2, ?E3, ?E4, ?E5, ?E6; try done.
  - by rewrite <- app_assoc.
  - intros _. split; [done|]. by rewrite <- Htl, (leftover_take _ _ _ En).
  - rewrite b4. assert (zlen (fed ++ [i]) = zlen fed + 1) as -> by (unfold zlen; rewrite length_app; simpl; lia).
    unfold incr. apply u64_small. pose proof (zlen_nonneg fed). unfold InfTime in *. lia.
  - rewrite b5. unfold record_all. by rewrite fold_left_app.
  - left. by rewrite last_mark_fed.
  - rewrite last_mark_fed. by right.
Qed.

(** The end of the trace is read, and what is left of a torn record. *)
Lemma book_torn fed rest l l' : book fed rest l → has_next l = true → stop_after_dump l = false →
  take_record (file l) = None →
  (has_next l', inst l', stop_after_dump l', inst_cnt l', sanitizer_all l') =
    (false, torn (file l) (inst l), false, inst_cnt l, sanitizer_all l) →
  book fed rest l' ∧ rest = [].
Proof.
  intros [b1 b2 b3 b4 b5 b6 b7 b8] Hn Hst En [= E2 E3 E4 E5 E6]. destruct (b2 Hn) as [Hr Htl].
  rewrite records_take, En in Hr. rewrite (leftover_None _ En) in Htl. rewrite Hn in *. split; [|done].
  assert (last_mark false fed = sys_op (inst l') ∨ last_mark false fed = last_mark true fed ∧ sys_op (inst l') = sys_op (inst l)) as Hm.
  { rewrite E3, Htl. apply last_mark_torn. }
  constructor; rewrite ?E2, ?E4, ?E5, ?E6; try done.
  - destruct Hm as [->|[-> ->]]; [by left | done].
  - destruct Hm as [->|[-> ->]]; [by right|]. rewrite Hst in b8. done.
Qed.

(** The core takes nothing now. *)
Lemma feed_waits K l fed rest g : loop_st K true l fed rest g → Pipe.inst_avail (core (sys l)) = false →
  fed_to K l fed rest l.
Proof.
  intros (Hb & Hpast & Hs & Hd) Ha. split; [done|]. unfold Pipe.inst_avail in Ha.
  apply andb_false_iff in Ha as [Ha%negb_false_iff | Ha%negb_false_iff].
  - exists fed, rest, (busy_known g). split; [|split; [by left | lia]]. split; [done|]. split; [done|].
    split; [by apply input_busy | done].
  - exists fed, rest, g. split; [done|]. split; [|lia]. right. apply Hd.
    destruct Hs as (_ & _ & _ & _ & _ & _ & _ & _ & _ & E & _). congruence.
Qed.

Lemma feed_step K l fed rest g : 6 <= K → 0 <= zlen fed <= T → loop_st K true l fed rest g →
  wp (feed max_insts) (λ _ l', fed_to K l fed rest l') l.
Proof.
  intros HK HlT Hl. pose proof Hl as (Hb & Hpast & Hs & Hd). unfold feed. wp_step. change (id l) with l.
  destruct (Pipe.inst_avail (core (sys l))) eqn:Ha; cbn [negb]; [|rewrite wp_ret; by eapply feed_waits].
  destruct (negb (stop_after_dump l) && has_next l && (inst_cnt l <? max_insts)) eqn:Hg.
  2:{ rewrite wp_modify. eapply feed_stops; [exact Hs | exact Hpast | done | destruct Hb; by constructor |]. unfold stopped. simpl.
      apply andb_false_iff in Hg as [[Hg%negb_false_iff|Hg]%andb_false_iff | Hg%Z.ltb_ge]; [by right; left | | by right; right].
      left. split; [done | by apply (b_next _ _ _ Hb)]. }
  apply andb_true_iff in Hg as [[Hst%negb_true_iff Hn]%andb_true_iff Hmax%Z.ltb_lt]. rewrite Hn in Hpast.
  destruct (b_file _ _ _ Hb Hn) as [Hr _]. rewrite records_take in Hr. unfold next.
  destruct (take_record (file l)) as [[i file']|] eqn:En; wp_step; cbn [negb].
  2:{ rewrite wp_modify. match goal with |- fed_to _ _ _ _ ?l' =>
        destruct (book_torn fed rest l l') as [Hb' ->]; [done | done | done | done | by simpl; rewrite Hst |] end.
      eapply feed_stops; [exact Hs | | done | exact Hb' | by left]. destruct Hpast as [?|Hx]; [by left | right; by apply marks_torn]. }
  destruct rest as [|i' rest]; [done|]. injection Hr as <- Hr. pose proof Hfed as Hfo. rewrite (b_trace _ _ _ Hb) in Hfo.
  apply Forall_app in Hfo as [_ [Hf _]%Forall_cons_iff]. wp_step. apply wp_on_sys.
  eapply wp_mono; [apply (feed_part K (zlen fed) g i); done|]. intros [] s [Et Hs']. wp_step.
  split; [exact Et|]. exists (fed ++ [i]), rest, (busy_known g).
  assert (zlen (fed ++ [i]) = zlen fed + 1) as Elen by (unfold zlen; rewrite length_app; simpl; lia).
  split; [|split; [by left | lia]]. split; [|split; [|split]]; simpl.
  - eapply (book_fed fed i rest l); [exact Hb | done | unfold InfTime in *; lia | exact En | by simpl; rewrite Hst].
  - destruct Hpast as [Hpast | Hx]; [by left|]. right. by apply marks_fed.
  - by rewrite Elen.
  - intros Hdr. apply Hd in Hdr as [[Hn' _]|[Hn'|Hn']]; [congruence | congruence | lia].
Qed.

(** The handling of [sys_op]. *)
Lemma book_done fed rest l l' : book fed rest l → inst l' = inst l <| sys_op := SysNone |> →
  (file l', has_next l', inst_cnt l', sanitizer_all l') = (file l, has_next l, inst_cnt l, sanitizer_all l) →
  (stop_after_dump l' = true ↔ last_mark (has_next l) fed = SysDumpStats) → book fed rest l'.
Proof.
  intros [b1 b2 b3 b4 b5 b6 b7 b8] Ei [= E1 E2 E3 E4] Hdump. constructor; rewrite ?E1, ?E2, ?E3, ?E4; try done.
  - right. by rewrite Ei.
  - apply Hdump.
  - left. by apply Hdump.
Qed.

Lemma sys_step K l fed rest g : 6 <= K → loop_st K false l fed rest g → g_busy g = true ∨ stopped l rest →
  wp sys_ops (λ _ l', tick (sys l') = tick (sys l) ∧
    ∃ g', loop_st K false l' fed rest g' ∧ (g_busy g' = true ∨ stopped l' rest) ∧ sys_op (inst l') ≠ SysDumpStats) l.
Proof.
  intros HK (Hb & Hpast & Hs & Hd) Hbusy. unfold sys_ops. wp_step. change (id l) with l.
  assert (∀ op, op ≠ SysNone → sys_op (inst l) = op → last_mark (has_next l) fed = op) as Hop.
  { intros op Hne Ho. destruct (b_inst _ _ _ Hb) as [E|E]; congruence. }
  assert (sys_op (inst l) ≠ SysDumpStats → stop_after_dump l = true ↔ last_mark (has_next l) fed = SysDumpStats) as Hno.
  { intros Hne. split; [apply Hb|]. intros E. by destruct (b_pending _ _ _ Hb E). }
  destruct (Z.eqb_spec (sys_op (inst l)) SysResetStats) as [E1|_]; [|destruct (Z.eqb_spec (sys_op (inst l)) SysFenceI) as [E2|_];
    [|destruct (Z.eqb_spec (sys_op (inst l)) SysDumpStats) as [E3|E3]]]; wp_step.
  - split; [done|]. exists (g <| g_past ::= Z.add (Pipe.insts (Pipe.stats (core (sys l)))) |>).
    split; [|split; [exact Hbusy | done]]. split; [apply (book_done fed rest l); try done; apply Hno; by rewrite E1|].
    split; [|split; [by apply reset_ok | done]]. right. cbn. rewrite <- (Hop SysResetStats) by done. apply last_mark_in.
  - apply wp_on_sys. eapply wp_mono; [by apply (fence_part K (zlen fed) g false HK)|]. intros [] s [Et Hs'].
    split; [exact Et|]. exists g. split; [|split; [exact Hbusy | done]].
    split; [apply (book_done fed rest l); try done; apply Hno; by rewrite E2|]. by split.
  - split; [done|]. exists g. split; [|split; [by right; right; left | done]].
    split; [apply (book_done fed rest l); try done; split; [intros _; by apply Hop | done]|].
    split; [done|]. split; [done|]. intros _. by right; left.
  - split; [done|]. by exists g.
Qed.

(** Where [sys_op] is handled: the clock is at [t], and what the turn fed is counted. *)
Definition handling K t l fed rest g : Prop :=
  loop_st K false l fed rest g ∧ (g_busy g = true ∨ stopped l rest) ∧ tick (sys l) = t ∧ zlen fed <= t.

Lemma head_wp K t l : 15 <= K → 0 <= t → t + 1 <= T → loop_ok K t l →
  wp (turn_head max_insts) (λ _ l', ∃ fed rest g, handling (K - 4) (t + 1) l' fed rest g) l.
Proof.
  intros HK Ht HtT (fed & rest & g & (Hb & Hpast & Hs & Hd) & Et & Hlen & _). pose proof (zlen_nonneg fed).
  unfold turn_head. rewrite wp_bind. apply wp_on_sys.
  eapply wp_mono; [apply (devices_part K (zlen fed) g); [lia | done]|]. intros [] s1 [Et1 Hs1].
  rewrite wp_bind. set (l1 := l <| sys := s1 |>).
  eapply wp_mono; [apply (feed_step (K - 4) l1 fed rest (idle_known g)); [lia | lia |]|].
  { split; [destruct Hb; by constructor|]. by repeat (split; [done|]). }
  intros [] l2 (Et2 & fed2 & rest2 & g2 & (Hb2 & Hp2 & Hs2 & Hd2) & Hbusy & Hlen2).
  change (tick (sys l1)) with (tick s1) in Et2. apply wp_on_sys.
  eapply wp_mono; [apply (next_tick_wp (K - 4) true (zlen fed2) g2 (sys l2)); [done | lia | lia | lia]|].
  intros [] s3 [Et3 Hs3]. exists fed2, rest2, g2. split; [split; [destruct Hb2; by constructor|]; by repeat (split; [done|])|].
  split; [exact Hbusy|]. split; [change (tick s3 = t + 1); lia | lia].
Qed.

Lemma handled_wp K t l fed rest g : 6 <= K → handling K t l fed rest g → wp sys_ops (λ _ l', loop_ok K t l') l.
Proof.
  intros HK (Hl & Hbusy & Et & Hlen). eapply wp_mono; [by apply (sys_step K l fed rest g HK)|].
  intros [] l' (Et' & g' & Hl' & Hb'). exists fed, rest, g'. split; [done|]. split; [congruence|]. split; [done|]. by right.
Qed.

Lemma turn_wp K t l : 15 <= K → 0 <= t → t + 1 <= T → loop_ok K t l →
  wp (turn max_insts) (λ _ l', loop_ok (K - 4) (t + 1) l') l.
Proof.
  intros HK Ht HtT Hl. unfold turn. rewrite wp_bind. eapply wp_mono; [by apply (head_wp K t)|].
  intros [] l' (fed & rest & g & Hh). apply (handled_wp (K - 4) (t + 1) l' fed rest g); [lia | done].
Qed.

(** The loop ends well, or its fuel is used up. *)
Lemma sim_loop_ok n t l : 0 <= t → t + Z.of_nat n <= T → loop_ok (4 * Z.of_nat n + 15) t l →
  match sim_loop n max_insts max_ticks l with
  | Ok (_, l') => ∃ t', loop_ok 0 t' l' ∧ 0 < t' ∧ goes_on max_ticks l' = false
  | Err e => e = OutOfFuel ∧ (n = 0%nat ∨ t + Z.of_nat n < max_ticks)
  end.
Proof.
  revert t l. induction n as [|n IH]; intros t l Ht HtT Hl; [by split; [|left]|]. cbn [sim_loop].
  pose proof (turn_wp (4 * Z.of_nat (S n) + 15) t l ltac:(lia) Ht ltac:(lia) Hl) as Hw.
  apply wp_run in Hw as ([] & l1 & E1 & Hl1). unfold mbind, ST_bind at 1. rewrite E1. cbn [gets ST_bind].
  replace (4 * Z.of_nat (S n) + 15 - 4) with (4 * Z.of_nat n + 15) in Hl1 by lia.
  unfold gets, id. destruct (goes_on max_ticks l1) eqn:Hg.
  - specialize (IH (t + 1) l1 ltac:(lia) ltac:(lia) Hl1).
    destruct (sim_loop n max_insts max_ticks l1) as [[[] l']|e]; [done|]. destruct IH as [-> IH]. split; [done|]. right.
    destruct IH as [-> | IH]; [|lia]. unfold goes_on in Hg. apply andb_true_iff in Hg as [_ Hg%Z.ltb_lt].
    destruct Hl1 as (_ & _ & _ & _ & Et & _). lia.
  - exists (t + 1). split; [|split; [lia | done]]. destruct Hl1 as (fed & rest & g & (H1 & H2 & H3 & H4) & Hrest).
    exists fed, rest, g. split; [|done]. split; [done|]. split; [done|]. split; [|done].
    destruct H3 as (π & Hm & Hr). exists π. split; [apply (mem_fewer _ _ 0 _ _ _ Hm); lia | done].
Qed.
End loop.
End system.

(** ** The system [main] builds *)

Import Config.

(** A cache the constructor accepts: [2^s] sets of [assoc] lines of [2^o] bytes. *)
Definition geometry_ok (size blksize assoc : Z) (repl : string) : Prop :=
  (∃ s o, 1 <= s ∧ 2 <= o < 18 ∧ blksize = 2 ^ o ∧ size = 2 ^ s * (2 ^ o * assoc)) ∧
  0 < assoc ∧ size < 2 ^ 32 ∧ repl ∈ repl_names ∧ (repl = "plru"%string → Repl.plru_assoc_ok assoc = true).

(** The longest burst a cache asks for, in words. *)
Definition burst (o : Options) : Z := Z.max 1 (Z.max (l1i_blksize o / 4) (l1d_blksize o / 4)).

(** Options in range, and [n] ticks few enough for the 32-bit time of the SDRAM
    model: a tick costs it at most the accesses of four requests. *)
Record options_ok (o : Options) (n : nat) : Prop := {
  so_unit : unit_opts_ok o;
  so_icache : geometry_ok (l1i_size o) (l1i_blksize o) (l1i_assoc o) (l1i_repl o);
  so_dcache : if 0 <? l1d_size o then geometry_ok (l1d_size o) (l1d_blksize o) (l1d_assoc o) (l1d_repl o)
    else stbuf_entries o = 0;
  so_freq : 100 <= freq_mhz o < 2 ^ 31;
  so_sram : 0 <= sram_lat o < 2 ^ 31;
  so_mmio : 0 <= mmio_lat o < 2 ^ 31;
  so_time : (Z.of_nat n / (freq_mhz o / 100) + (4 * Z.of_nat n + 15) * (2 * burst o + 6) + Sdram.REFRESH_PERIOD) *
    (freq_mhz o / 100) < 2 ^ 31
}.

(** One cache of the options. *)
Lemma build_cache size blksize assoc repl depth pf id dff wb cwf delay : geometry_ok size blksize assoc repl → 0 < depth →
  (wb = true → delay = 0) →
  ∃ p c s o, sets_of size blksize assoc ≫= (λ sets, Repl.make_repl_policy repl assoc sets) = Ok p ∧
    PipeCache.make depth size blksize assoc pf id dff wb cwf delay (Some p) = Ok c ∧
    PipeCache.inv s o assoc wb c (idle_port 0 id (blksize / 4) wb).
Proof.
  intros ((s & o & Hs & Ho & -> & ->) & Ha & Hsz & Hr & Hp) Hd Hdl.
  destruct (Repl.make_repl_ok repl assoc (2 ^ s) Hr Ha ltac:(lia) Hp) as (p & Ep & Hok).
  destruct (PipeCache.built_make depth s o assoc pf id dff wb cwf delay p) as (c & Hb); try done.
  destruct (PipeCache.built_inv _ _ _ _ _ _ _ _ _ _ _ _ 0 Hb ltac:(done)) as (s' & o' & Hi & _).
  exists p, c, s', o'. split; [|split; [apply Hb | done]].
  assert (2 ^ 1 <= 2 ^ s) by (apply Z.pow_le_mono_r; lia). assert (2 ^ 2 <= 2 ^ o) by (apply Z.pow_le_mono_r; lia).
  unfold sets_of, udiv. rewrite u64_small by nia. rewrite (proj2 (Z.eqb_neq (2 ^ o * assoc) 0)) by nia.
  cbn [mbind res_bind]. by rewrite Z.div_mul by nia.
Qed.

Lemma dcache_built o n : options_ok o n → ∃ dc s b a, make_dcache o = Ok dc ∧
  dc_ok s b a dc (idle_port 0 1 (if 0 <? l1d_size o then l1d_blksize o / 4 else 1) true).
Proof.
  intros Ho. pose proof (so_dcache _ _ Ho) as Hd. unfold make_dcache. destruct (0 <? l1d_size o).
  - destruct (build_cache _ _ _ _ l1d_pipe_depth (make_prefetcher (l1d_pref_type o)) 1 (sram_dff o) true false 0 Hd)
      as (p & c & s & b & Ep & Ec & Hi); [done | done |].
    exists (DPipe c), s, b, (l1d_assoc o). split; [|exact Hi].
    destruct (sets_of _ _ _) as [sets|]; [|done]. cbn [mbind res_bind] in *. rewrite Ep. cbn [mbind res_bind].
    by rewrite Ec.
  - rewrite Hd. cbn [Z.eqb]. destruct (NoLaws.make_ok 1 0) as (c & -> & Hc). exists (DNone c), 0, 0, 0. by split.
Qed.

(** The invariant holds of what [main] builds. *)
Lemma build_ok o n nxt : options_ok o n → ∃ s k w (si oi ai sd od ad : Z), build o nxt = Ok s ∧ tick s = 0 ∧
  sys_ok (any_inv (bpu_entries_pow2 o) (tage_comp_pow2 o)) k w
    (Ram.device_ok (freq_mhz o / 100) (Z.of_nat n) (burst o)) (Z.of_nat n) (burst o) (2 ^ 31)
    si oi ai sd od ad (4 * Z.of_nat n + 15) false 0 (MkGhost 0 false false) s.
Proof.
  intros Ho. destruct (unit_lawful o (so_unit _ _ Ho)) as (bu & k & w & Ebu & Hbu & _).
  destruct (build_cache _ _ _ _ l1i_pipe_depth (make_prefetcher (l1i_pref_type o)) 0 (sram_dff o) false (l1i_cwf o) 1 (so_icache _ _ Ho))
    as (p & ic & si & oi & Ep & Eic & Hic); [done | done |].
  destruct (dcache_built o n Ho) as (dc & sd & od & ad & Edc & Hdc).
  destruct (NoLaws.make_ok 2 0) as (nc & Enc & Hnc).
  pose proof (so_freq _ _ Ho). assert (1 <= freq_mhz o / 100) as Hq by (apply Z.div_le_lower_bound; lia).
  assert (1 <= burst o) as Hbst by (unfold burst; lia).
  destruct (Ram.fabric_make_inv (Ram.device_ok (freq_mhz o / 100) (Z.of_nat n) (burst o)) (Z.of_nat n) (burst o) (2 ^ 31) 3
    ltac:(by split) (Ram.soc_devices (freq_mhz o) (sram_lat o) (mmio_lat o)) Ram.soc_map 3 0 (4 * Z.of_nat n + 15) [])
    as (a & Ea & Ha); [|lia | done |].
  { apply Ram.soc_config_ok; try lia; apply Ho. }
  pose proof (PipeRun.make_sinv (any_inv (bpu_entries_pow2 o) (tage_comp_pow2 o)) k w ifq_size bu (mmio_lat o) nxt
    true (λ _, (true, true)) 0 Hbu ltac:(by split) ltac:(done)) as [[l Hc] _]. cbn [fst snd] in Hc.
  exists (MkSys 0 (Pipe.make ifq_size bu (mmio_lat o) true nxt) a (MkCaches ic dc nc)), k, w, si, oi, (l1i_assoc o), sd, od, ad.
  split; [|split; [done|]].
  - unfold build, make_icache. rewrite Ebu. cbn [mbind res_bind]. destruct (sets_of (l1i_size o) _ _) as [sets|]; [|done].
    cbn [mbind res_bind] in Ep |- *. rewrite Ep. cbn [mbind res_bind]. rewrite Eic. cbn [mbind res_bind]. rewrite Edc.
    cbn [mbind res_bind]. rewrite Enc. cbn [mbind res_bind]. unfold Ram.soc_fabric. rewrite Ea. reflexivity.
  - exists (MkTrio (idle_port 0 0 (l1i_blksize o / 4) false)
      (idle_port 0 1 (if 0 <? l1d_size o then l1d_blksize o / 4 else 1) true) (idle_port 0 2 1 true)).
    cbn [tick memory caches core]. split; [|split; [|split]].
    + split; [exists (4 * Z.of_nat n + 15); split; [by eexists|]; unfold load, load_of; simpl; lia|].
      intros i m _. rewrite (Ram.make_slots _ _ _ _ _ m i Ea). unfold nth_port.
      destruct (i =? 0), (i =? 1), m; done.
    + intros i Hi. unfold burst. destruct Hi as [-> | [-> | ->]]; constructor; simpl; try done; try lia. case_match; lia.
    + by split.
    + exists l, (PipeRun.start true (λ _, (true, true))). split; [exact Hc|]. split; [done|]. split; [by constructor | by split].
Qed.

(** ** What a run of [main] ends in *)

(** The options leave room for the times of [n] turns. *)
Lemma options_time o n : options_ok o n → 1 <= freq_mhz o / 100 ∧ 1 <= burst o ∧ Z.of_nat n < 2 ^ 31.
Proof.
  intros Ho. pose proof (so_freq _ _ Ho) as Hf. pose proof (so_time _ _ Ho) as Htm.
  assert (1 <= freq_mhz o / 100) as Hq by (apply Z.div_le_lower_bound; lia).
  assert (1 <= burst o) as Hbst by (unfold burst; lia). split; [done|]. split; [done|].
  assert (0 <= Z.of_nat n / (freq_mhz o / 100)) by (apply Z.div_pos; lia).
  assert (0 <= Sdram.REFRESH_PERIOD) by done. nia.
Qed.

(** The loop starts in its invariant. *)
Lemma start_ok o n inst0 trace s k w si oi ai sd od ad : tick s = 0 →
  sys_ok (any_inv (bpu_entries_pow2 o) (tage_comp_pow2 o)) k w
    (Ram.device_ok (freq_mhz o / 100) (Z.of_nat n) (burst o)) (Z.of_nat n) (burst o) (2 ^ 31)
    si oi ai sd od ad (4 * Z.of_nat n + 15) false 0 (MkGhost 0 false false) s →
  loop_ok (any_inv (bpu_entries_pow2 o) (tage_comp_pow2 o)) k w
    (Ram.device_ok (freq_mhz o / 100) (Z.of_nat n) (burst o)) (Z.of_nat n) (burst o) (2 ^ 31)
    si oi ai sd od ad inst0 trace (max_insts o) (4 * Z.of_nat n + 15) 0
    (MkLoop s trace inst0 true false 0 0 sanitizer_reset sanitizer_reset).
Proof.
  intros Et Hs. exists [], (records trace), (MkGhost 0 false false). split; [|split; [done | split; [done | by left]]].
  split; [constructor; try done; [by left | by right]|]. split; [by left|]. by split.
Qed.

Lemma main_ok o n nxt inst0 trace : options_ok o n → Forall PipeSafe.fed_ok (records trace) →
  match run_main n o nxt inst0 trace with
  | Ok l => ∃ fed rest past, book inst0 trace fed rest l ∧ past_ok inst0 trace (has_next l) fed past ∧
      (stop_after_dump l = true ↔ last_mark inst0 trace (has_next l) fed = SysDumpStats) ∧
      u64 (past + Pipe.insts (Pipe.stats (core (sys l))) + Pipe.ongoing_insts_ (core (sys l))) = u64 (zlen fed) ∧
      zlen fed <= tick (sys l) ∧ 0 < tick (sys l) ∧ goes_on (max_ticks o) l = false ∧
      (Pipe.is_finished (core (sys l)) = true → stopped (max_insts o) l rest)
  | Err e => e = OutOfFuel ∧ (n = 0%nat ∨ Z.of_nat n < max_ticks o)
  end.
Proof.
  intros Ho Hfed. destruct (build_ok o n nxt Ho) as (s & k & w & si & oi & ai & sd & od & ad & Eb & Et & Hs).
  unfold run_main. rewrite Eb. cbn [mbind res_bind]. set (l0 := MkLoop _ _ _ _ _ _ _ _ _).
  destruct (options_time o n Ho) as (Hq & Hbst & Hn).
  assert (Ram.DeviceLaws (Ram.device_ok (freq_mhz o / 100) (Z.of_nat n) (burst o)) (Z.of_nat n) (burst o) (2 ^ 31)) as HD
    by (apply Ram.ram_laws; lia).
  pose proof (sim_loop_ok (any_inv (bpu_entries_pow2 o) (tage_comp_pow2 o)) k w
    (Ram.device_ok (freq_mhz o / 100) (Z.of_nat n) (burst o)) (Z.of_nat n) (burst o) (2 ^ 31) ltac:(lia)
    ltac:(unfold InfTime; lia) si oi ai sd od ad inst0 trace (max_insts o) (max_ticks o) Hfed n 0 l0
    ltac:(lia) ltac:(lia) (start_ok o n inst0 trace s k w si oi ai sd od ad Et Hs)) as Hl.
  destruct (sim_loop n (max_insts o) (max_ticks o) l0) as [[[] l]|e].
  - cbn [mbind res_bind mret res_ret]. destruct Hl as (t & (fed & rest & g & (Hb & Hp & Hsys & Hd) & Etk & Hlen & Hbusy) & Ht & Hg).
    destruct Hsys as (π & _ & _ & _ & lq & h & Hc & [= Eh1 Eh2 Eh3] & _ & Htr).
    exists fed, rest, (g_past g). split; [done|]. split; [done|]. destruct Hbusy as [|[Hbusy Hop]]; [lia|].
    split; [split; [apply Hb | intros E; by destruct (b_pending _ _ _ _ _ Hb E)]|].
    split; [|split; [lia|split; [lia|split; [done|]]]].
    + pose proof (PipeSafe.c_fed Hc) as Hfd. by rewrite Eh2, Eh3 in Hfd.
    + intros Hfin. destruct Hbusy as [Hbz|Hst]; [|done]. destruct Htr as [_ Htr]. rewrite Htr in Hfin; done.
  - cbn [mbind res_bind]. destruct Hl as [-> Hl]. split; [done|]. destruct Hl; [by left | right; lia].
Qed.

(** C1: as far as the 32-bit time of the SDRAM model reaches, a run of the
    simulator never fails.  Take a configuration in range and a number [n] of turns
    within its bound [so_time] (about 3.8 million turns with the default options,
    [defaults_span]), and any byte stream whose whole records name registers that
    exist and mark no branch as an M extension, whatever the values of the
    uninitialised variables.  In the first [n] turns no assertion of the core, the
    branch unit, the caches or the fabric fails, no index leaves its array, no
    [int] of the SDRAM model overflows, and no method of the core is called while
    the core runs.  After them the run has stopped, because no instruction is in
    flight or because the clock has reached [max_ticks], or it is still going on,
    and the latter only if [n] is below [max_ticks].  So a run always ends when
    [max_ticks] is within the bound; for a larger one, such as the default of
    2^64 - 1, the first [n] turns are safe and nothing is said of the end. *)
Theorem simulator_safe o n nxt inst0 trace : options_ok o n → Forall PipeSafe.fed_ok (records trace) →
  match run_main n o nxt inst0 trace with
  | Ok l => Pipe.is_finished (core (sys l)) = true ∨ max_ticks o <= tick (sys l)
  | Err e => e = OutOfFuel ∧ (n = 0%nat ∨ Z.of_nat n < max_ticks o)
  end.
Proof.
  intros Ho Hfed. pose proof (main_ok o n nxt inst0 trace Ho Hfed) as Hm.
  destruct (run_main _ _ _ _ _) as [l|e]; [|done]. destruct Hm as (_ & _ & _ & _ & _ & _ & _ & _ & _ & Hg & _).
  unfold goes_on in Hg. apply andb_false_iff in Hg as [Hg%negb_false_iff | Hg%Z.ltb_ge]; [by left | by right].
Qed.

(** C2: a run that ends because nothing is in flight has done its work: the
    records fed are the first whole ones of the trace, in order, one per count;
    feeding stopped only at the end of the trace, at [max_insts] or at a dump
    marker; and unless a reset marker was seen, the core's count of committed
    instructions is the number of records fed.  Markers are those of [marks]: the
    operations of the records fed, and what the variable [inst] holds besides: its
    value before the first record, and the operation in the 15th byte of a last
    record that is torn after it, which [fread] stores although it reports no
    record. *)
Theorem trace_committed o n nxt inst0 trace l : options_ok o n → Forall PipeSafe.fed_ok (records trace) →
  run_main n o nxt inst0 trace = Ok l → Pipe.is_finished (core (sys l)) = true →
  ∃ fed rest, records trace = fed ++ rest ∧ inst_cnt l = zlen fed ∧ sanitizer_all l = record_all sanitizer_reset fed ∧
    (rest = [] ∨ max_insts o <= zlen fed ∨ last_mark inst0 trace (has_next l) fed = SysDumpStats) ∧
    (SysResetStats ∉ marks inst0 trace (has_next l) fed →
     u64 (Pipe.insts (Pipe.stats (core (sys l)))) = u64 (zlen fed)).
Proof.
  intros Ho Hfed Hrun Hfin. pose proof (main_ok o n nxt inst0 trace Ho Hfed) as Hm. rewrite Hrun in Hm.
  destruct Hm as (fed & rest & past & Hb & Hp & Hd & Hcnt & _ & _ & _ & Hstop). exists fed, rest.
  split; [apply Hb|]. split; [apply Hb|]. split; [apply Hb|]. split.
  - destruct (Hstop Hfin) as [[_ ?]|[Hs|Hx]]; [by left | right; right; by apply Hd |].
    right; left. by rewrite (b_cnt _ _ _ _ _ Hb) in Hx.
  - intros Hno. destruct Hp as [-> | Hr]; [|done].
    unfold Pipe.is_finished in Hfin. apply Z.eqb_eq in Hfin. by rewrite Hfin, Z.add_0_r in Hcnt.
Qed.

(** ** A concrete run: the default options, a trace of four instructions *)

(** The stream ends in the middle of a record. *)
Definition ts_ex : list TraceInst := [PipeRun.add_ex; PipeRun.br_ex; PipeRun.mul_ex; PipeRun.load_ex].
Definition trace_ex : list Z := concat (inst_bytes <$> ts_ex) ++ [1; 2; 3].
Definition inst0_ex : TraceInst := MkTraceInst 0 0 0 0 0 0 0 0 0 0.
Notation run_ex := (run_main 800 defaults 0 inst0_ex trace_ex).
Definition short_ex : Options := defaults <| max_ticks := 50 |>.

Lemma options_ex_ok mt n : Z.of_nat n <= 3800000 → options_ok (defaults <| max_ticks := mt |>) n.
Proof.
  intros Hn. assert (burst (defaults <| max_ticks := mt |>) = 4) as Eb by done. constructor; rewrite ?Eb; try (split; done).
  - constructor; try done; vm_compute; try (split; done). by repeat constructor.
  - split; [by exists 6, 4|]. split; [done|]. split; [done|]. split; [by left | done].
  - change (freq_mhz _ / 100) with 10. assert (Z.of_nat n / 10 <= 380000) by (apply Z.div_le_upper_bound; lia).
    change Sdram.REFRESH_PERIOD with 781. lia.
Qed.

Lemma defaults_span n : Z.of_nat n <= 3800000 → options_ok defaults n.
Proof. change defaults with (defaults <| max_ticks := max_ticks defaults |>). apply options_ex_ok. Qed.

Lemma defaults_ok : options_ok defaults 800.
Proof. apply defaults_span. lia. Qed.

Lemma trace_ex_ok : Forall PipeSafe.fed_ok (records trace_ex).
Proof.
  change (records trace_ex) with ts_ex. unfold ts_ex. rewrite !Forall_cons_iff, !Forall_nil_iff. unfold PipeSafe.fed_ok.
  by repeat split.
Qed.

Lemma run_ex_finished : match run_ex with Ok l => Pipe.is_finished (core (sys l)) | Err _ => false end = true.
Proof. by vm_compute. Qed.

(** A trace torn one byte before its end, a reset marker in the last byte: the
    statistics are reset behind the last record, and the commits before it are lost. *)
Lemma torn_resets : match run_main 800 defaults 0 inst0_ex (concat (inst_bytes <$> ts_ex) ++ repeat 0 14 ++ [SysResetStats]) with
  | Ok l => Pipe.is_finished (core (sys l)) && (inst_cnt l =? 4) && (Pipe.insts (Pipe.stats (core (sys l))) <? 4)
  | Err _ => false
  end = true.
Proof. by vm_compute. Qed.

(** Fifty ticks always end in a result. *)
Lemma simulator_safe_witness : ∃ l, run_main 50 short_ex 0 inst0_ex trace_ex = Ok l.
Proof.
  pose proof (simulator_safe short_ex 50 0 inst0_ex trace_ex (options_ex_ok 50 50 ltac:(lia)) trace_ex_ok) as Hw.
  destruct (run_main 50 short_ex 0 inst0_ex _) as [l|e]; [by exists l|]. destruct Hw as [_ [Hw|Hw]]; [done|].
  exfalso. change (max_ticks short_ex) with 50 in Hw. lia.
Defined.

Lemma trace_committed_witness : ∃ l fed rest, run_ex = Ok l ∧ records trace_ex = fed ++ rest ∧ inst_cnt l = zlen fed ∧
  (rest = [] ∨ max_insts defaults <= zlen fed ∨ last_mark inst0_ex trace_ex (has_next l) fed = SysDumpStats).
Proof.
  pose proof run_ex_finished as Hfin. destruct run_ex as [l|e] eqn:E; [|done].
  destruct (trace_committed defaults 800 0 inst0_ex trace_ex l defaults_ok trace_ex_ok E Hfin)
    as (fed & rest & H1 & H2 & _ & H3 & _).
  exists l, fed, rest. split; [done|]. split; [exact H1|]. split; [exact H2 | exact H3].
Defined.
End SimSafe.
