(* ===== verification/GenTrace.v ===== *)
(** * The trace generator

    [src/tests/gen_trace.cc]: a program of six records that writes them as the
    simulator reads them.  It is the test input of the whole simulator: a load with
    a use behind it, a taken branch, and a dump marker at the end. *)

From S2P Require Import Prelude Trace PipelineSafe.

Module GenTrace.

(** [add_inst]: a record with every field it does not name zero.  Of the vectors
    only the first elements are used, a store address before a load address. *)
Definition add_inst (pc is_br taken : Z) (dst_regs src_regs dst_mem src_mem : list Z) (sys_op : Z) : TraceInst :=
  MkTraceInst pc
    match dst_mem, src_mem with a :: _, _ => a | [], a :: _ => a | [], [] => 0 end
    match dst_mem, src_mem with _ :: _, _ => 2 | [], _ :: _ => 1 | [], [] => 0 end
    is_br taken (hd 0 dst_regs) (nth 0 src_regs 0) (nth 1 src_regs 0) sys_op 0.

Definition trace : list TraceInst := [
  add_inst 0x1000 0 0 [1] [2; 3] [] [] 0;
  add_inst 0x1004 0 0 [4] [1] [] [0x2000] 0;
  add_inst 0x1008 0 0 [5] [4] [] [] 0;
  add_inst 0x100C 1 1 [] [5] [] [] 0;
  add_inst 0x1014 0 0 [6] [] [] [] 0;
  add_inst 0x1018 0 0 [] [] [] [] 2].

(** [out.write(trace.data(), trace.size() * sizeof(TraceInst))] *)
Definition file : list Z := concat (inst_bytes <$> trace).

(** The simulator reads the records that were written. *)
Lemma file_records : records file = trace.
Proof. by vm_compute. Qed.

Lemma file_fed : Forall PipeSafe.fed_ok (records file).
Proof. rewrite file_records. unfold trace. rewrite !Forall_cons_iff, !Forall_nil_iff. unfold PipeSafe.fed_ok. by repeat split. Qed.

Lemma trace_marked : sys_op (List.last trace (add_inst 0 0 0 [] [] [] [] 0)) = SysDumpStats.
Proof. done. Qed.
End GenTrace.
