(* ===== verification/Reports.v ===== *)
(** * What the components report

    [config_json] and [stats_json] of every object of the simulator, the area
    descriptors of [src/areaSim/AreaEst.hh] they embed, and the counters of
    [TraceSanitizer], over any [Json].  Counters are numbers of the report as they
    are; rates and percentages are binary64 ([Stats.double]).  A [json j; j[k] = v;
    ...] is [fields], in the order of the assignments.

    The theorems are about the area numbers: the bits a cache reports hold its lines
    and tags, and no more. *)

From stdpp Require Import strings.
From S2P Require Import Prelude Stats Json Types Trace BranchPred Ras Bimodal Btb Tage BranchUnit.
From S2P Require Import Repl Prefetcher CacheBase PipeCache StoreBuffer Caches Sdram RamConn Ifq Pipeline Config.

(** A decimal literal [n / d] of the source, [n] and [d] exact. *)
Definition lit (n d : Z) : double := ddiv (to_double n) (to_double d).
Definition d0 : double := to_double 0.

(** [std::to_string] of an unsigned number. *)
Definition to_string (n : Z) : string := String.string_of_list_ascii (Config.dec n).

(** [n ? (double)x / n : 0.0] *)
Definition ratio (x n : Z) : double := if 0 <? n then ddiv (to_double x) (to_double n) else d0.

(** ** Area descriptors *)

Module AreaEst.
Section area.
Context {J : Type} `{Json J}.

Definition area_json (known_um2 : double) : J :=
  fields [("known_area", jreal known_um2); ("comb_percent", jreal d0); ("timing_bits", jint 0);
          ("cacti_objs", jarray [])]%string.

Definition area_json_dff (known_um2 : double) (dff_bits : Z) (comb_percent : double) : J :=
  fields [("known_area", jreal known_um2); ("comb_percent", jreal comb_percent); ("timing_bits", jint dff_bits);
          ("cacti_objs", jarray [])]%string.

Definition sram_cache (label : string) (size_bytes block_bytes assoc : Z) : J :=
  fields [("label", jstr label); ("type", jstr "sram"); ("size", jint size_bytes); ("block_size", jint block_bytes);
          ("assoc", jint assoc)]%string.

Definition sram_ram (label : string) (size_bytes word_bytes : Z) : J :=
  fields [("label", jstr label); ("type", jstr "sram"); ("size", jint size_bytes); ("word_size", jint word_bytes)]%string.

Definition sram_macro (label : string) (total_bits : Z) : J :=
  fields [("label", jstr label); ("type", jstr "sram_macro"); ("total_bits", jint total_bits)]%string.
End area.
End AreaEst.

Module Report.
Import AreaEst Config.
Section reports.
Context {J : Type} `{Json J}.

(** ** Core *)

Definition get_ipc (s : Pipe.PipelineStats) : double := ratio (Pipe.insts s) (Pipe.cycles s).

(** [100.0 * n / cycles] *)
Definition pct (n cycles : Z) : double := ddiv (dmul (to_double 100) (to_double n)) (to_double cycles).

Definition cyc_breakdown (s : Pipe.PipelineStats) : J :=
  let c := Pipe.cycles s in
  fields ([("NoStall", jint (Pipe.nostall s)); ("NoInst", jint (Pipe.noinst s)); ("LsuStall", jint (Pipe.lsu_stall s));
           ("BranchMispred", jint (Pipe.brmiss_stall s)); ("RAW", jint (Pipe.raw_stall s))]%string ++
          if 0 <? c then
            [("NoInst_pct", jreal (pct (Pipe.noinst s) c)); ("LsuStall_pct", jreal (pct (Pipe.lsu_stall s) c));
             ("BranchMispred_pct", jreal (pct (Pipe.brmiss_stall s) c)); ("RAW_pct", jreal (pct (Pipe.raw_stall s) c))]%string
          else []).

Definition pipeline_stats (s : Pipe.PipelineStats) : J :=
  fields [("insts", jint (Pipe.insts s)); ("cycles", jint (Pipe.cycles s)); ("ipc", jreal (get_ipc s));
          ("CycBreakdown", cyc_breakdown s); ("WP_bpu_queries", jint (Pipe.wp_bpu_queries s));
          ("WP_btb_hits", jint (Pipe.wp_btb_hits s)); ("WP_redirects", jint (Pipe.wp_redirects s));
          ("early_redirects", jint (Pipe.early_redirects s))]%string.

Definition pipeline_config {P} (p : Pipe.Pipeline P) : J :=
  fields [("BranchPenaltyCycles", jint Pipe.kBranchMissPenalty); ("MmioLatency", jint (Pipe.mmio_lat_ p));
          ("IFQSize", jint (IFQ.cap_ (Pipe.fetch_queue_ p))); ("area", area_json (to_double 19570))]%string.

(** ** Predictors *)

Definition bp_miss_rate (s : BPStats) : double := ratio (misses s) (br_accesses s).

Definition bp_stats_fields (s : BPStats) : list (string * J) :=
  [("accesses", jint (accesses s)); ("misses", jint (misses s)); ("miss_no_target", jint (no_target s));
   ("miss_bad_pred", jint (bad_pred s)); ("miss_bad_target", jint (bad_target s));
   ("nonbr_mispred", jint (nonbr_mispred s)); ("br_accesses", jint (br_accesses s));
   ("miss_rate", jreal (bp_miss_rate s))]%string.

Definition bp_stats_json (s : BPStats) : J := fields (bp_stats_fields s).

Definition bimodal_config (p : Bimodal.BimodalPredictor) : J :=
  let n := zlen (Bimodal.table_ p) in
  let ar := fields [("comb_percent", jreal (lit 30 100)); ("known_area", jreal d0); ("timing_bits", jint (i32 (n * 2)))]%string in
  jlit [("entries", jint n); ("area", ar)]%string.

(** [bytes]: the size of the table's SRAM. *)
Definition history_area (history_len bytes : Z) : J :=
  fields [("comb_percent", jreal (lit 3 10)); ("known_area", jreal d0); ("timing_bits", jint history_len);
          ("cacti_objs", jarray [sram_ram "bpu_table" bytes 1])]%string.

Definition gshare_config (p : GShare.GSharePredictor) : J :=
  let n := zlen (GShare.table_ p) in
  jlit [("entries", jint n); ("history_len", jint (GShare.history_len_ p));
        ("area", history_area (GShare.history_len_ p) (u64 (n * 2 + 7) / 8))]%string.

Definition tournament_config (p : Tournament.TournamentPredictor) : J :=
  let n := zlen (Tournament.selector_table_ p) in
  jlit [("entries", jint n); ("history_len", jint (Tournament.history_len_ p));
        ("area", history_area (Tournament.history_len_ p) (u64 (n * 2 * 3 + 7) / 8))]%string.

(** [for (int i = 0; i < n; i++)] over an array of the predictor. *)
Definition upto {A B} (n : Z) (l : list A) (f : Z → A → res B) : res (list B) :=
  mapM (λ i, x ← vec_at l i; f i x) (zrange n).

Definition comp_entry_bits : Z := u64 (TAGE.CTR_MAX - TAGE.CTR_MIN + 1) + 2 + TAGE.TAG_BITS + 1.

Definition tage_comp (p : TAGE.TagePredictor) (i : Z) (t : list TAGE.TageEntry) : res J :=
  h ← vec_at (TAGE.hist_len_ p) i;
  b ← vec_at (TAGE.comp_idx_bits_ p) i;
  mret (jlit [("entries", jint (zlen t)); ("hist_len", jint h); ("idx_bits", jint b);
              ("tag_bits", jint TAGE.TAG_BITS)]%string).

Definition tage_bits (p : TAGE.TagePredictor) : res Z :=
  cs ← upto (TAGE.n_comp_ p) (TAGE.comp_tables_ p) (λ _ t, mret (u64 (zlen t * comp_entry_bits)));
  mret (u64 (zlen (TAGE.base_table_ p) * 2 + zsum cs)).

Definition tage_config (p : TAGE.TagePredictor) : res J :=
  comps ← upto (TAGE.n_comp_ p) (TAGE.comp_tables_ p) (tage_comp p);
  bits ← tage_bits p;
  mret (fields [("base_entries", jint (zlen (TAGE.base_table_ p))); ("n_comp", jint (TAGE.n_comp_ p));
                ("components", jarray comps); ("hist_lens", jarray (jint <$> TAGE.hist_lens_param_ p));
                ("area", area_json_dff d0 bits (lit 3 10))]%string).

Definition tage_extra_fields (s : TAGE.TageStats) (cu cc cm : list J) : list (string * J) :=
  let total_br := to_double (u64 (TAGE.bimodal_correct s + TAGE.bimodal_mispred s)) in
  let rate n := if 0 <? u64 (TAGE.bimodal_correct s + TAGE.bimodal_mispred s) then ddiv (to_double n) total_br else d0 in
  [("bimodal_correct", jint (TAGE.bimodal_correct s)); ("bimodal_mispred", jint (TAGE.bimodal_mispred s));
   ("bimodal_miss_rate", jreal (rate (TAGE.bimodal_mispred s)));
   ("tage_correct", jint (TAGE.tage_correct s)); ("tage_mispred", jint (TAGE.tage_mispred s));
   ("tage_miss_rate", jreal (rate (TAGE.tage_mispred s)));
   ("tage_overrides", jint (TAGE.tage_overrides s));
   ("tage_override_helpful", jint (TAGE.tage_override_helpful s));
   ("tage_override_harmful", jint (TAGE.tage_override_harmful s));
   ("base_used", jint (TAGE.base_used s)); ("base_correct", jint (TAGE.base_correct s));
   ("base_mispred", jint (TAGE.base_mispred s));
   ("comp_used", jarray cu); ("comp_correct", jarray cc); ("comp_mispred", jarray cm);
   ("allocations", jint (TAGE.allocations s)); ("alloc_failures", jint (TAGE.alloc_failures s));
   ("alloc_tried", jint (TAGE.alloc_tried s)); ("update_snap_invalid", jint (TAGE.update_snap_invalid s));
   ("snap_ring_overflow", jint (TAGE.snap_ring_overflow s))]%string.

Definition tage_extra (p : TAGE.TagePredictor) : res J :=
  let s := TAGE.tage_stats_ p in
  let num (l : list Z) := upto (TAGE.n_comp_ p) l (λ _ n, mret (jint n)) in
  cu ← num (TAGE.comp_used s); cc ← num (TAGE.comp_correct s); cm ← num (TAGE.comp_mispred s);
  mret (fields (tage_extra_fields s cu cc cm)).

(** Virtual dispatch, and the names [create_bpu_core] gives. *)
Definition bpu_name (p : AnyPredictor) : string :=
  match p with
  | ABimodal _ => "BimodalBP" | AGShare _ => "GShareBP" | ATournament _ => "TournamentBP" | ATage _ => "TageBP"
  | AStatic p => match st_kind p with AlwaysTaken => "AlwaysTaken" | NoBPU => "NoBPU" | BTFNT => "BTFNTPredictor" end
  end%string.

Definition bpu_config (p : AnyPredictor) : res J :=
  match p with
  | ABimodal p => mret (bimodal_config p)
  | AGShare p => mret (gshare_config p)
  | ATournament p => mret (tournament_config p)
  | ATage p => tage_config p
  | AStatic _ => mret (jlit [("area", area_json d0)]%string)
  end.

Definition extra_stats_json (p : AnyPredictor) : res J := match p with ATage p => tage_extra p | _ => mret jnull end.

(** ** Branch unit *)

Definition btb_name (b : BTB.BTBBase) : string :=
  match BTB.kind b with BTB.NoBTB => "NoBTB" | BTB.CompressedBTB _ _ _ => "BTB" end%string.

Definition btb_config (b : BTB.BTBBase) : J :=
  let n := BTB.num_entries b in
  let idx_bits := if 1 <? n then Z.log2 n else 0 in
  let tag_bits := u64 (32 - idx_bits) in
  match BTB.kind b with
  | BTB.NoBTB => jlit [("entries", jint 0)]%string
  | BTB.CompressedBTB _ _ _ =>
    if BTB.sram_dff_ b then
      jlit [("entries", jint n); ("area", area_json_dff d0 (u64 (n * (tag_bits + 32 + 1))) (lit 10 100))]%string
    else
      let ar := jset "cacti_objs" (jarray [sram_macro "btb_tag" (u64 (n * tag_bits));
                                           sram_macro "btb_target" (u64 (n * 32))])
                  (area_json_dff d0 (u64 (n * 2)) (lit 10 100)) in
      jlit [("entries", jint n); ("area", ar)]%string
  end.

(** [ceil(log2 x)] of a positive [x], exact below 2^48. *)
Definition ceil_log2 (x : Z) : Z := Z.log2_up x.

Definition unit_bits {P} (b : BU.BranchUnit P) : Z :=
  let rd := match BU.ras_ b with Some r => RAS.depth r | None => 0 end in
  u64 (rd * 32 + (if 1 <? rd then ceil_log2 rd else 0) + (if 0 <? rd then ceil_log2 (rd + 1) else 0) +
       (if 0 <? rd then BTB.num_entries (BU.btb_ b) else 0) + (if 0 <? rd then 2 else 0)).

Definition unit_config (b : BU.BranchUnit AnyPredictor) : res J :=
  c ← bpu_config (BU.bpu_ b);
  let rd := match BU.ras_ b with Some r => RAS.depth r | None => 0 end in
  mret (fields [("bpu", jstr (bpu_name (BU.bpu_ b))); ("bpu_config", c); ("btb", jstr (btb_name (BU.btb_ b)));
                ("btb_config", btb_config (BU.btb_ b)); ("ras_depth", jint rd);
                ("area", area_json_dff (to_double 500) (unit_bits b) (lit 3 10))]%string).

Definition unit_stats (b : BU.BranchUnit AnyPredictor) : res J :=
  let j := bp_stats_json (BU.stats b) in
  extra ← extra_stats_json (BU.bpu_ b);
  mret (if negb (jempty extra) then extend j (jitems extra) else j).

(** ** Caches *)

Definition hit_rate (s : CB.CacheStats) : double := ratio (CB.hits s) (CB.accesses s).
Definition miss_rate (s : CB.CacheStats) : double := dsub (to_double 1) (hit_rate s).

Definition cache_stats (s : CB.CacheStats) : J :=
  fields [("accesses", jint (CB.accesses s)); ("hits", jint (CB.hits s)); ("misses", jint (CB.misses s));
          ("miss_rate", jreal (miss_rate s))]%string.

(** The widths of the area report. *)
Definition idx_bits (c : CB.CacheBase) : res Z := CB.floorLog2 (CB.sets_ c).
Definition tag_bits (c : CB.CacheBase) : res Z := i ← idx_bits c; mret (u64 (u64 (32 - CB.offsetBits_ c) - i)).

Definition dff_bits (c : CB.CacheBase) : res Z :=
  t ← tag_bits c;
  mret (u64 (u64 (CB.size c * 8) + u64 (u64 (CB.sets_ c * CB.assoc_ c) * u64 (t + 1)))).
Definition tag_macro_bits (c : CB.CacheBase) : res Z := t ← tag_bits c; mret (u64 (t * CB.sets_ c)).
Definition data_macro_bits (c : CB.CacheBase) : Z := u64 (u64 (CB.lineBytes_ c * 8) * CB.sets_ c).

Definition pipecache_area (c : PipeCache.PipeCache) : res J :=
  let b := PipeCache.base c in
  let known := dadd (to_double 575) (dmul (to_double 264) (to_double (CB.lineBytes_ b / 4))) in
  if PipeCache.sram_dff_ c then
    bits ← dff_bits b;
    mret (fields [("known_area", jreal known); ("comb_percent", jreal (lit 15 100)); ("timing_bits", jint bits);
                  ("cacti_objs", jarray [])]%string)
  else
    tag ← tag_macro_bits b;
    mret (fields [("known_area", jreal known); ("comb_percent", jreal (lit 31 100)); ("timing_bits", jint (CB.sets_ b));
                  ("cacti_objs", jarray [sram_macro "tag_sram" tag; sram_macro "data_sram" (data_macro_bits b)])]%string).

Definition pipecache_config (c : PipeCache.PipeCache) : res J :=
  ar ← pipecache_area c;
  let b := PipeCache.base c in
  mret (fields [("size", jint (CB.size b)); ("assoc", jint (CB.assoc_ b)); ("blkSize", jint (CB.lineBytes_ b));
                ("latency", jint (zlen (PipeCache.pipe_ c))); ("write_back", jbool (PipeCache.write_back_ c));
                ("wb_hit_resp_delay", jint (PipeCache.wb_hit_resp_delay_ c)); ("area", ar)]%string).

Definition nocache_config (c : NC.NoCache) : J :=
  fields [("type", jstr "NoCache"); ("size", jint 0); ("area", area_json d0)]%string.

Definition stbuf_config (c : SB.StoreBuffer) : J :=
  fields [("type", jstr "StoreBuffer"); ("entries", jint (SB.entries c));
          ("area", area_json_dff d0 (u64 (SB.entries c * 72)) (lit 3 10))]%string.

Definition dcache_base (d : DCache) : CB.CacheBase :=
  match d with DPipe c => PipeCache.base c | DNone c => NC.base c end.
Definition dcache_config (d : DCache) : res J :=
  match d with DPipe c => pipecache_config c | DNone c => mret (nocache_config c) end.

(** ** Prefetchers *)

Definition prefetcher_name (prefix : string) (p : Pf.Prefetcher) : string :=
  prefix +:+ match Pf.kind p with
             | Pf.NextLine => "-NextLinePrefetcher" | Pf.Stride _ _ => "-StridePrefetcher" | Pf.Tagged => "-TaggedPrefetcher"
             end%string.
Definition prefetcher_stats (p : Pf.Prefetcher) : J :=
  fields [("issued", jint (Pf.prefetch_issued p)); ("useful", jint (Pf.prefetch_useful p))]%string.
Definition prefetcher_config (p : Pf.Prefetcher) : J := jlit [("area", area_json d0)]%string.

(** ** Memory *)

Definition T_RCD : Z := 2.
Definition T_RP : Z := 2.
Definition CAS : Z := 2.
Definition T_RFC : Z := 6.

Definition sdram_config (m : Sdram.SdramModel) : J :=
  fields [("type", jstr "SdramModel"); ("dev_mhz", jint Sdram.DEV_MHZ); ("freq_ratio", jint (Sdram.freq_ratio_ m));
          ("n_banks", jint Sdram.N_BANKS); ("t_rcd", jint T_RCD); ("t_rp", jint T_RP); ("t_rfc", jint T_RFC);
          ("cas", jint CAS); ("refresh_period", jint Sdram.REFRESH_PERIOD); ("per_word", jint Sdram.PER_WORD);
          ("rd_base", jint Sdram.RD_BASE); ("act_cost", jint Sdram.ACT_COST); ("pre_cost", jint Sdram.PRE_COST)]%string.

Definition sdram_stats (m : Sdram.SdramModel) : J :=
  fields [("row_hit", jint (Sdram.row_hit_ m)); ("row_miss", jint (Sdram.row_miss_ m));
          ("row_conflict", jint (Sdram.row_conf_ m)); ("refresh_count", jint (Sdram.refresh_count_ m));
          ("ctrl_stall_dev", jint (Sdram.ctrl_stall_ m))]%string.

Definition device_base_config (d : Ram.RamDevice) : J := fields [("name", jstr (Ram.name_ d))]%string.

Definition device_config (d : Ram.RamDevice) : J :=
  match Ram.kind d with
  | Ram.ConstLatency r w =>
    extend (device_base_config d) [("type", jstr "ConstLatencyRamDevice"); ("lat_read_cyc", jint r); ("lat_write_cyc", jint w)]
  | Ram.SdramDevice m => extend (device_base_config d) [("type", jstr "SdramRamDevice"); ("sdram_model", sdram_config m)]
  end%string.

(** [RamDevice::stats_json] calls the virtual [config_json]. *)
Definition device_stats (d : Ram.RamDevice) : J :=
  let j := extend (device_config d)
    [("accesses", jint (Ram.accesses_ d)); ("reads", jint (Ram.reads_ d)); ("writes", jint (Ram.writes_ d));
     ("avg_lat_cyc", jreal (ratio (Ram.total_lat_cyc_ d) (Ram.accesses_ d)))]%string in
  match Ram.kind d with
  | Ram.ConstLatency _ _ => j
  | Ram.SdramDevice m => extend j [("sdram_stats", sdram_stats m)]%string
  end.

Definition map_entry (e : Ram.AddrMapEntry) : J :=
  fields [("name", jstr (Ram.name e)); ("lo", jint (Ram.lo e)); ("hi", jint (Ram.hi e));
          ("device_id", jint (Ram.device_id e))]%string.

Definition arbiter_config (a : Ram.RAMArbiter) : J :=
  fields [("type", jstr "RAMArbiter"); ("num_hosts", jint (Ram.hosts_ a)); ("num_devices", jint (zlen (Ram.devices_ a)));
          ("devices", jarray (device_config <$> Ram.devices_ a)); ("addr_map", jarray (map_entry <$> Ram.addr_map_ a));
          ("default_device", jint (Ram.default_device_ a)); ("area", area_json (to_double 200))]%string.

Definition host_key (i : Z) (what : string) : string := "host" +:+ to_string i +:+ what.

(** The body of the loop over the hosts. *)
Definition host_fields (a : Ram.RAMArbiter) (i : Z) : res (list (string * J)) :=
  rd ← vec_at (Ram.host_rd_ a) i;
  wr ← vec_at (Ram.host_wr_ a) i;
  row ← vec_at (Ram.host_dev_ a) i;
  devs ← mapM (λ d, n ← vec_at row d; mret (host_key i ("_dev" +:+ to_string d), jint n)) (zrange (zlen (Ram.devices_ a)));
  mret ((host_key i "_rd", jint rd) :: (host_key i "_wr", jint wr) :: devs).

Definition arbiter_stats (a : Ram.RAMArbiter) : res J :=
  hosts ← mapM (host_fields a) (zrange (Ram.hosts_ a));
  let j := extend (arbiter_config a) (concat hosts) in
  mret (jset "device_stats" (jarray (device_stats <$> Ram.devices_ a)) j).

(** ** The trace's counters *)

Definition sanitizer_json (s : TraceSanitizer) : J :=
  jlit [("total", jint (total s)); ("loads", jint (loads s)); ("stores", jint (stores s));
        ("branches", jint (branches s)); ("br_taken", jint (n_br_taken s)); ("br_not_taken", jint (br_not_taken s));
        ("alu", jint (alu s)); ("has_dst", jint (has_dst s)); ("has_src1", jint (has_src1 s));
        ("has_src2", jint (has_src2 s)); ("sys_ops", jint (sys_ops s)); ("rvm_ops", jint (m_ext_ops s));
        ("br_taken_no_target", jint (br_taken_no_target s))]%string.

(** ** Distributions *)

Definition distri_json (d : Distri.DistriBase) : res J :=
  buckets ← mapM (λ i, n ← vec_at (Distri.arr d) i; mret (to_string (u64 (Distri.min d + Distri.delta d * i)), jint n))
              (zrange (Distri.maxidx d));
  stats ← mapM (λ kv : Z * string, x ← vec_at (Distri.stat d) kv.1; mret (kv.2, jreal x)) [(0, "Sum"); (1, "Avg")]%string;
  metas ← mapM (λ kv : Z * string, n ← vec_at (Distri.meta d) kv.1; mret (kv.2, jint n))
            [(0, "Overflow"); (1, "Underflow"); (2, "Min"); (3, "Max")]%string;
  mret (fields ([("samples"%string, jint (Distri.samples d))] ++ buckets ++ stats ++ metas)).
End reports.
End Report.

(** ** Area of a cache *)

Module AreaSpec.
Import Report.

(** The part of an address above set index and offset. *)
Definition high (c : CB.CacheBase) (addr : Z) : Z := addr / (CB.lineBytes_ c * CB.sets_ c).

(** The bits of the lines, and the lines. *)
Definition content_bits (c : CB.CacheBase) : Z := 8 * zsum ((λ set, zsum ((λ l, 4 * zlen (Line.data l)) <$> set)) <$> CB.setsArr_ c).
Definition line_count (c : CB.CacheBase) : Z := zsum (zlen <$> CB.setsArr_ c).

Lemma zsum_const {A} (f : A → Z) k l : Forall (λ x, f x = k) l → zsum (f <$> l) = k * zlen l.
Proof.
  induction 1 as [|x l Hx _ IH]; [unfold zlen; simpl; lia|]. rewrite fmap_cons. cbn [zsum]. rewrite IH, Hx.
  unfold zlen. simpl length. lia.
Qed.

Section wf.
Context (s o a : Z) (c : CB.CacheBase) (Hw : CB.wf s o a c) (Ho : 2 <= o) (Hsz : 2 ^ s * a * 2 ^ o < 2 ^ 32).

Lemma geometry : 1 <= s ∧ 0 < a ∧ s + o < 32 ∧ 2 ^ s * 2 ^ o = 2 ^ (s + o).
Proof using All.
  destruct (CB.w_s _ _ _ _ Hw). pose proof (CB.w_a _ _ _ _ Hw). split; [done|]. split; [lia|].
  assert (2 ^ s * 2 ^ o = 2 ^ (s + o)) as E by (rewrite Z.pow_add_r; lia). split; [|done].
  apply (Z.pow_lt_mono_r_iff 2); [lia | lia|]. rewrite <- E. pose proof (Z.pow_pos_nonneg 2 s). pose proof (Z.pow_pos_nonneg 2 o). nia.
Qed.

Lemma widths : idx_bits c = Ok s ∧ tag_bits c = Ok (32 - o - s).
Proof using All.
  destruct geometry as (Hs & Ha & Hso & _).
  assert (idx_bits c = Ok s) as E.
  { unfold idx_bits, CB.floorLog2. rewrite (CB.w_sets _ _ _ _ Hw). rewrite (proj2 (Z.ltb_lt 0 (2 ^ s))) by lia.
    cbn [assert_ mbind res_bind mret res_ret]. by rewrite Z.log2_pow2 by lia. }
  split; [done|]. unfold tag_bits. rewrite E. cbn [mbind res_bind mret res_ret].
  by rewrite (CB.w_off _ _ _ _ Hw), (u64_small (32 - o)), u64_small by lia.
Qed.

Lemma size_eq : CB.size c = 2 ^ s * a * 2 ^ o.
Proof using All.
  destruct geometry as (Hs & Ha & _). unfold CB.size.
  rewrite (CB.w_sets _ _ _ _ Hw), (CB.w_assoc _ _ _ _ Hw), (CB.w_line _ _ _ _ Hw). apply u64_small. nia.
Qed.

Lemma lines_eq : line_count c = 2 ^ s * a ∧ content_bits c = 8 * CB.size c.
Proof using All.
  destruct geometry as (Hs & Ha & _). pose proof (CB.w_set _ _ _ _ Hw) as Hset. rewrite size_eq.
  unfold line_count, content_bits. rewrite (zsum_const _ a), (CB.w_arr _ _ _ _ Hw).
  2: { revert Hset. apply Forall_impl. by intros set [? _]. }
  split; [lia|]. rewrite (zsum_const _ (a * 2 ^ o)), (CB.w_arr _ _ _ _ Hw); [lia|].
  revert Hset. apply Forall_impl. intros set [<- Hl]. rewrite (zsum_const _ (2 ^ o)); [lia|].
  revert Hl. apply Forall_impl. intros l ->. unfold WordShift. rewrite Z.shiftr_div_pow2 by lia.
  replace (2 ^ o) with (2 ^ (o - 2) * 2 ^ 2) by (rewrite <- Z.pow_add_r by lia; f_equal; lia).
  rewrite Z.div_mul by done. lia.
Qed.

(** Address bits: offset, index and tag, and equal tags are equal high parts. *)
Lemma address_bits addr addr' : word_ok addr → word_ok addr' →
  0 <= CB.setIndexOf c addr < 2 ^ s ∧ 0 <= high c addr < 2 ^ (32 - o - s) ∧
  (CB.setIndexOf c addr = CB.setIndexOf c addr' → CB.tagOf c addr = CB.tagOf c addr' ↔ high c addr = high c addr').
Proof using All.
  destruct geometry as (Hs & Ha & Hso & E). unfold word_ok. intros H1 H2.
  split; [by apply (CB.setIndexOf_range s o a)|]. unfold high. rewrite (CB.w_line _ _ _ _ Hw), (CB.w_sets _ _ _ _ Hw).
  rewrite <- !Z.div_div by lia. split.
  - split; [apply Z.div_pos; [apply Z.div_pos|]; lia|]. apply Z.div_lt_upper_bound; [lia|]. apply Z.div_lt_upper_bound; [lia|].
    replace (2 ^ o * (2 ^ s * 2 ^ (32 - o - s))) with (2 ^ 32); [lia|]. rewrite <- !Z.pow_add_r by lia. f_equal. lia.
  - unfold CB.tagOf. rewrite !(CB.setIndexOf_eq s o a), !(CB.blockAddrOf_eq s o a) by done. intros Hi.
    pose proof (Z.div_mod (addr / 2 ^ o) (2 ^ s)). pose proof (Z.div_mod (addr' / 2 ^ o) (2 ^ s)).
    split; intros Ht; [|nia]. f_equal. apply (Z.mul_reg_r _ _ (2 ^ o)); [lia | done].
Qed.

Lemma bits_eq : dff_bits c = Ok (content_bits c + line_count c * (32 - o - s + 1)) ∧
  tag_macro_bits c = Ok (2 ^ s * (32 - o - s)) ∧ data_macro_bits c * a = content_bits c.
Proof using All.
  destruct geometry as (Hs & Ha & Hso & E), widths as [_ Et], lines_eq as [El Ec].
  unfold dff_bits, tag_macro_bits, data_macro_bits. rewrite Et, El, Ec, size_eq.
  rewrite (CB.w_sets _ _ _ _ Hw), (CB.w_assoc _ _ _ _ Hw), (CB.w_line _ _ _ _ Hw). cbn [mbind res_bind mret res_ret].
  assert (2 ^ s * a < 2 ^ 32 ∧ 2 ^ s < 2 ^ 32 ∧ 2 ^ o * 2 ^ s < 2 ^ 32) as (B1 & B2 & B3) by nia.
  assert (0 <= 2 ^ s * a * (32 - o - s + 1) < 2 ^ 32 * 32) as B4.
  { split; [nia|]. apply Z.lt_le_trans with (2 ^ 32 * (32 - o - s + 1)); nia. }
  rewrite (u64_small (2 ^ s * a * 2 ^ o * 8)), (u64_small (2 ^ s * a)), (u64_small (_ + 1)), (u64_small (2 ^ s * a * _)),
    (u64_small (2 ^ o * 8)) by nia.
  split; [f_equal; rewrite u64_small; nia|]. split; [f_equal; rewrite u64_small; nia|]. rewrite u64_small; nia.
Qed.
End wf.

(** C30: the bits a cache reports are those of its lines, tags and valid bits; dirty
    bits and the state of the replacement policy are not counted.  For a cache of
    [PipeCache.built], offset, index and tag take the 32 bits of an address: every
    address has an index and a tag of the reported widths, and two addresses of a
    set have the same tag exactly when their tag fields are equal, so these bits are
    what the directory must store.  With flip-flops, [timing_bits] is the bits of
    all lines plus one tag and one valid bit per line.  Otherwise the report has two
    [sram_macro] descriptors, and their sizes are those of one way only: times the
    associativity they are the bits of all tags and of all lines. *)
Theorem cache_area {J} `{Json J, !JsonLaws J} depth size_bytes line_bytes assoc pf id dff wb cwf delay rp c :
  PipeCache.built depth size_bytes line_bytes assoc pf id dff wb cwf delay rp c →
  let b := PipeCache.base c in
  ∃ i t j ar, idx_bits b = Ok i ∧ tag_bits b = Ok t ∧ CB.offsetBits_ b + i + t = 32 ∧
    (∀ addr addr', word_ok addr → word_ok addr' →
       0 <= CB.setIndexOf b addr < 2 ^ i ∧ 0 <= high b addr < 2 ^ t ∧
       (CB.setIndexOf b addr = CB.setIndexOf b addr' → CB.tagOf b addr = CB.tagOf b addr' ↔ high b addr = high b addr')) ∧
    pipecache_config (J := J) c = Ok j ∧ jget "size" j = Some (jint size_bytes) ∧ content_bits b = 8 * size_bytes ∧
    jget "area" j = Some ar ∧
    if dff then jget "timing_bits" ar = Some (jint (content_bits b + line_count b * (t + 1)))
    else ∃ tb db, jget "cacti_objs" ar = Some (jarray [AreaEst.sram_macro "tag_sram" tb; AreaEst.sram_macro "data_sram" db]) ∧
      tb * assoc = line_count b * t ∧ db * assoc = content_bits b.
Proof.
  intros (_ & Hsz & Ha & Hl & Hla & _ & Hrp & Hm) b. unfold PipeCache.make in Hm. res_inv Hm. injection Hm as Ec.
  assert (0 < line_bytes) as Hl0 by lia.
  destruct (CB.cache_make_wf _ _ _ _ _ _ _ _ Hsz Ha Hl0 Hla Hrp Ha0) as (s & o & Hw & _ & _ & Eo & Es & _).
  assert (b = a ∧ PipeCache.sram_dff_ c = dff) as [Eb Ed] by by subst c. rewrite <- Eb in Hw. clear Ec Ha0.
  assert (2 <= o) as Ho.
  { destruct (CB.w_o _ _ _ _ Hw). apply (Z.pow_le_mono_r_iff 2); [lia | lia|]. rewrite <- Eo. lia. }
  assert (2 ^ s * assoc * 2 ^ o < 2 ^ 32) as Hsz' by nia.
  destruct (widths s o assoc b Hw Ho Hsz') as [Ei Et], (bits_eq s o assoc b Hw Ho Hsz') as (E1 & E2 & E3).
  destruct (lines_eq s o assoc b Hw Ho Hsz') as [El Ec]. pose proof (size_eq s o assoc b Hw Ho Hsz') as Ez.
  assert (CB.size b = size_bytes) as Ezb by (rewrite Ez, Es; lia).
  unfold pipecache_config, pipecache_area. fold b. rewrite Ed, Ezb in *.
  exists s, (32 - o - s).
  assert (CB.offsetBits_ b + s + (32 - o - s) = 32) as E32 by (rewrite (CB.w_off _ _ _ _ Hw); lia).
  pose proof (λ addr addr' H1 H2, address_bits s o assoc b Hw Ho Hsz' addr addr' H1 H2) as Haddr.
  destruct dff; [rewrite E1 | rewrite E2]; cbn [mbind res_bind mret res_ret]; eexists _, _;
    (split; [done|]); (split; [done|]); (split; [done|]); (split; [exact Haddr|]); (split; [reflexivity|]);
    rewrite !get_fields; (split; [reflexivity|]); (split; [done|]); (split; [reflexivity|]); [done|].
  eexists _, _. split; [reflexivity|]. split; [rewrite El; lia | done].
Qed.

#[local] Existing Instances Tree.tree_json Tree.tree_laws.

(** 32 sets of two ways: 5 index bits, 23 tag bits. *)
Lemma cache_area_witness : PipeCache.built 1 1024 16 2 None 1 true true false 0 None PipeCache.dcache_ex ∧
  ∃ (j ar : Tree.json), pipecache_config PipeCache.dcache_ex = Ok j ∧ jget "size" j = Some (jint 1024) ∧
    jget "area" j = Some ar ∧ jget "timing_bits" ar = Some (jint 9728).
Proof.
  split; [exact PipeCache.dcache_ex_built|].
  destruct (cache_area (J := Tree.json) _ _ _ _ _ _ _ _ _ _ _ _ PipeCache.dcache_ex_built)
    as (i & t & j & ar & Ei & Et & _ & _ & Ej & Es & _ & Ear & Eb).
  exists j, ar. split; [exact Ej|]. split; [exact Es|]. split; [exact Ear|].
  cbv in Et. injection Et as <-. rewrite Eb. by vm_compute.
Defined.
End AreaSpec.
