(* ===== verification/FabricFrame.v ===== *)
(** * What the rest of the system can do to the fabric

    The counters of the fabric change only where [lat_of] charges a request, and
    where statistics are reset.  A property [Φ] of the fabric that these two keep,
    and that looks at the counters only, is kept by every method of every object:
    the methods are generic in their environment, so [EnvSim] and [CoreSim], used
    with the relation "equal, and the fabric satisfies [Φ]", say so.

    The instance is [tally]: the counters of the hosts and of the devices agree. *)

From S2P Require Import Prelude Types Trace Stats BranchPred BranchUnit Prefetcher CacheBase CacheEnv EnvSim.
From S2P Require Import PipeCache StoreBuffer Caches RamConn Sdram Pipeline CoreSim Sim SimSafe.

Module FabricFrame.
Import Sim.

(** The counters and the number of hosts. *)
Definition counters (a : Ram.RAMArbiter) := (Ram.tables a, Ram.hosts_ a).

Class FabricInv (Φ : Ram.RAMArbiter → Prop) : Prop := {
  inv_tables a a' : counters a' = counters a → Φ a → Φ a';
  inv_lat a req now lat a' : Ram.lat_of a req now = Ok (lat, a') → Φ a → Φ a';
  inv_reset a : Φ a → Φ (Ram.reset_stats a)
}.

(** A run of [m] keeps what [P] says of the state. *)
Definition kept {S A} (P : S → Prop) (m : ST S A) : Prop := ∀ s a s', m s = Ok (a, s') → P s → P s'.

Section kept.
Context {S : Type} (P : S → Prop).

Lemma kept_ret {A} (a : A) : kept P (mret a).
Proof. by intros s b s' [= _ <-]. Qed.
Lemma kept_bind {A B} (m : ST S A) (k : A → ST S B) : kept P m → (∀ a, kept P (k a)) → kept P (m ≫= k).
Proof.
  intros Hm Hk s b s2 Hr Hs. unfold mbind, ST_bind in Hr. destruct (m s) as [[a s1]|] eqn:E; [|done].
  eapply Hk; [exact Hr|]. by eapply Hm.
Qed.
Lemma kept_gets {A} (f : S → A) : kept P (gets f).
Proof. by intros s b s' [= _ <-]. Qed.
Lemma kept_modify (f : S → S) : (∀ s, P s → P (f s)) → kept P (modify f).
Proof. intros Hf s b s' [= _ <-]. apply Hf. Qed.
Lemma kept_lift {A} (m : res A) : kept P (lift m).
Proof. intros s b s'. unfold lift. destruct m; [|done]. by intros [= _ <-]. Qed.
Lemma kept_fail {A} e : kept P (fail (A := A) e).
Proof. done. Qed.
Lemma kept_assert b : kept P (assertM b).
Proof. apply kept_lift. Qed.
End kept.

Create HintDb kept.
#[export] Hint Resolve kept_ret kept_gets kept_lift kept_fail kept_assert : kept.

(** [kept_tac]: walk through a method, deciding each branch. *)
Ltac kept_tac := repeat first
  [ solve [eauto with kept] | apply kept_bind; [|intros ?] | progress cbv zeta | case_match ].

Section frame.
Context (Φ : Ram.RAMArbiter → Prop) `{!FabricInv Φ}.

(** ** The fabric itself *)

Lemma slot_tables m i e a a' : Ram.set_slot m i e a = Ok a' → counters a' = counters a.
Proof. intros Hr. unfold Ram.set_slot in Hr. by repeat res_inv Hr; subst. Qed.

Lemma serve_kept m i req now start a a' : Ram.serve m i req now start a = Ok a' → Φ a → Φ a'.
Proof.
  intros Hr Ha. unfold Ram.serve in Hr. res_inv Hr. destruct a0 as [lat a1]. res_inv Hr. injection Hr as <-.
  apply (inv_tables a0); [by destruct m|]. apply (inv_tables a1); [by eapply slot_tables|]. by eapply inv_lat.
Qed.

Lemma recv_kept req now a a' : Ram.recv_req req now a = Ok a' → Φ a → Φ a'.
Proof.
  intros Hr Ha. unfold Ram.recv_req in Hr. do 3 res_inv Hr.
  assert (Φ a2) as HΦ by (apply (inv_tables a); [by eapply slot_tables | done]).
  destruct (_ =? _); [by eapply serve_kept | by injection Hr as <-].
Qed.

Section fabric.
Context {E : Type} `{Ram.HostEnv E} (Hhost : ∀ i t, kept (λ s, Φ s.1) (Ram.host_recv (E := E) i t)).
#[local] Notation K := (λ s : Ram.RAMArbiter * E, Φ s.1).

Lemma set_arb_kept f : (∀ a a', f a = Ok a' → Φ a → Φ a') → kept K (Ram.set_arb f).
Proof.
  intros Hf s b s'. unfold Ram.set_arb. destruct (f s.1) as [a|] eqn:Ef; [|done]. intros [= _ <-]. by apply Hf.
Qed.

Lemma pick_kept m : kept K (Ram.pick_next m).
Proof.
  unfold Ram.pick_next, Ram.arb, Ram.arb_now. apply kept_bind; [|intros _; kept_tac].
  - apply set_arb_kept. intros a a' [= <-]. apply inv_tables. by destruct m.
  - apply set_arb_kept. intros x x'. by apply serve_kept.
Qed.

Lemma complete_kept m : kept K (Ram.complete m).
Proof.
  unfold Ram.complete, Ram.arb, Ram.arb_now. apply kept_bind; [kept_tac | intros a].
  apply kept_bind; [kept_tac | intros now]. case_match; [|kept_tac]. cbv zeta.
  do 3 (apply kept_bind; [kept_tac | intros ?]). apply kept_bind.
  { apply set_arb_kept. intros x x' Hx. apply inv_tables. by eapply slot_tables. }
  intros _. apply kept_bind; [apply Hhost | intros _; apply pick_kept].
Qed.

Lemma fabric_kept : kept K Ram.do_update.
Proof.
  unfold Ram.do_update, Ram.arb, Ram.arb_now. do 2 (apply kept_bind; [kept_tac | intros ?]).
  case_match; [|kept_tac]. apply kept_bind; [|intros _]; apply complete_kept.
Qed.
End fabric.

Section system.
Context {P : Type} `{DirPredictor P}.

(** ** The caches *)

#[local] Notation W := (λ x : World P, Φ (w_arb x)).
Definition same (e1 e2 : World P) : Prop := e1 = e2 ∧ W e1.

Lemma call_core_arb f (w w' : World P) u : call_core f w = Ok (u, w') → w_arb w' = w_arb w.
Proof. intros Hr. unfold call_core in Hr. destruct (w_core w); [|done]. by repeat res_inv Hr; subst. Qed.

Lemma same_env : env_sim same.
Proof.
  constructor.
  - by intros e ? [-> _].
  - intros req e ? [] e' [<- He] Hr. exists e'. split; [done|]. split; [done|]. revert Hr.
    unfold mem_recv_req, world_env. destruct (Ram.recv_req _ _ _) as [a|] eqn:Er; [|done].
    cbn [mbind res_bind mret res_ret]. intros [= <-]. by eapply recv_kept.
  - intros r e ? [] e' [<- He] Hr. exists e'. split; [done|]. split; [done|]. by rewrite (call_core_arb _ _ _ _ Hr).
  - intros r e ? [] e' [<- He] Hr. exists e'. split; [done|]. split; [done|]. by rewrite (call_core_arb _ _ _ _ Hr).
Qed.

Lemma sim_kept {C A} (m : ST (C * World P) A) : sim same same m m → kept (λ s, W s.2) m.
Proof.
  intros Hs [c e] a [c' e'] Hr He. destruct (Hs _ _ _ _ _ _ (conj eq_refl He) Hr) as (_ & _ & _ & He'). exact He'.
Qed.

Lemma focus_kept {S C A} (get : S → C) put (m : ST (C * World P) A) :
  kept (λ s, W s.2) m → kept (λ s, W s.2) (focus get put m).
Proof.
  intros Hm [s e] a s' Hr He. unfold focus in Hr. cbn [fst snd] in Hr. destruct (m _) as [[b [c e']]|] eqn:E; [|done].
  injection Hr as _ <-. apply (Hm _ _ _ E He).
Qed.

(** The methods, of each of the three caches. *)
Definition all_caches (f : ∀ C, Cache C → ST (C * World P) unit) : Prop :=
  kept (λ s, W s.2) (on_ic (f _ _)) ∧ kept (λ s, W s.2) (on_dc (f _ _)) ∧ kept (λ s, W s.2) (on_nc (f _ _)).

Lemma all_lawful (f : ∀ C, Cache C → ST (C * World P) unit) :
  (∀ C (HC : Cache C) cinv, CacheLaws C cinv → sim same same (f C HC) (f C HC)) → all_caches f.
Proof.
  intros Hf. split; [|split]; apply focus_kept, sim_kept.
  - apply (Hf _ _ (PipeCache.inv 0 0 0 false)). apply PipeLaws.pipe_laws.
  - apply (Hf _ _ (dc_ok 0 0 0)). apply dcache_laws.
  - apply (Hf _ _ NoLaws.nc_ok). apply NoLaws.nocache_laws.
Qed.

Lemma reads_kept a : all_caches (λ C _, ca_read a).
Proof. apply all_lawful. intros C HC cinv HL. by apply law_sim_read, same_env. Qed.
Lemma writes_kept a d m : all_caches (λ C _, ca_write a d m).
Proof. apply all_lawful. intros C HC cinv HL. by apply law_sim_write, same_env. Qed.
Lemma resps_kept t : all_caches (λ C _, ca_resp t).
Proof. apply all_lawful. intros C HC cinv HL. by apply law_sim_resp, same_env. Qed.
Lemma updates_kept : all_caches (λ C _, ca_update).
Proof. apply all_lawful. intros C HC cinv HL. by apply law_sim_update, same_env. Qed.
Lemma flushes_kept : all_caches (λ C _, ca_flush).
Proof. apply all_lawful. intros C HC cinv HL. by apply law_sim_flush, same_env. Qed.

(** ** The parts of the system *)

#[local] Notation M := (λ s : Sys P, Φ (memory s)).

Lemma caches_kept (m : ST (Caches * World P) unit) : kept (λ s, W s.2) m → kept M (run_caches m).
Proof.
  intros Hm s [] s' Hr Hs. unfold run_caches in Hr. destruct (m _) as [[[] [cs [now a o]]]|] eqn:E; [|done].
  destruct o as [p|]; [|done]. injection Hr as <-. apply (Hm _ _ _ E Hs).
Qed.

Lemma host_kept i t : kept (λ s : Ram.RAMArbiter * Hosts P, Φ s.1) (Ram.host_recv i t).
Proof.
  intros [a h] [] s' Hr Ha. unfold Ram.host_recv, hosts_env in Hr. cbn [fst snd] in Hr.
  destruct (host_resp _ _ _) as [[[] [cs [now x o]]]|] eqn:E; [|done]. destruct o as [p|]; [|done].
  injection Hr as <-. cbn [fst]. change (W (MkWorld now x (Some p))).
  assert (kept (λ s : Caches * World P, W s.2) (host_resp i t)) as Hk.
  { destruct (resps_kept t) as (H1 & H2 & H3). unfold host_resp. case_match; [done|]. case_match; [done|].
    case_match; [done | apply kept_fail]. }
  apply (Hk _ _ _ E Ha).
Qed.

Lemma memory_kept : kept M (run_memory Ram.do_update).
Proof.
  intros s [] s' Hr Hs. unfold run_memory in Hr. destruct (Ram.do_update _) as [[[] [a h]]|] eqn:E; [|done].
  injection Hr as <-. apply (fabric_kept host_kept _ _ _ E Hs).
Qed.

#[local] Instance real_env : Pipe.CpuEnv Ports := ports_env (P := P).

Lemma call_cache_kept (m : ST (Caches * World P) unit) : kept (λ s, W s.2) m → kept (λ e, Φ (e_arb e)) (call_cache m).
Proof.
  intros Hm e [] e' Hr He. unfold call_cache in Hr. destruct (m _) as [[[] [cs w]]|] eqn:E; [|done].
  injection Hr as <-. apply (Hm _ _ _ E He).
Qed.

Lemma ports_same : CoreSim.core_sim (λ _ _ (e1 e2 : Ports), e1 = e2 ∧ Φ (e_arb e1)).
Proof.
  assert (∀ m : ST (Caches * World P) unit, kept (λ s, W s.2) m → ∀ e1 e2 u e1', e1 = e2 ∧ Φ (e_arb e1) →
    call_cache m e1 = Ok (u, e1') → ∃ e2', call_cache m e2 = Ok (u, e2') ∧ e1' = e2' ∧ Φ (e_arb e1')) as Hc.
  { intros m Hm e1 e2 u e1' [<- He] Hr. exists e1'. split; [done|]. split; [done|]. by apply (call_cache_kept m Hm _ _ _ Hr). }
  constructor; try done; try (by intros ? ? ? ? [-> _]).
  - by intros ? ? ? [-> _].
  - intros bd a. exact (Hc _ (proj1 (reads_kept a))).
  - intros bi po a. destruct po; [exact (Hc _ (proj1 (proj2 (reads_kept a)))) | exact (Hc _ (proj2 (proj2 (reads_kept a))))].
  - intros bi po a d m. destruct po;
      [exact (Hc _ (proj1 (proj2 (writes_kept a d m)))) | exact (Hc _ (proj2 (proj2 (writes_kept a d m))))].
Qed.

Lemma core_kept (m : ST (Pipe.Pipeline P * Ports) unit) : kept (λ s, Φ (e_arb s.2)) m → kept M (run_core m).
Proof.
  intros Hm s [] s' Hr Hs. unfold run_core in Hr. destruct (m _) as [[[] [p e]]|] eqn:E; [|done].
  injection Hr as <-. apply (Hm _ _ _ E Hs).
Qed.

Lemma core_sim_kept (m : ST (Pipe.Pipeline P * Ports) unit) :
  sim (λ e1 e2, e1 = e2 ∧ Φ (e_arb e1)) (λ e1 e2, e1 = e2 ∧ Φ (e_arb e1)) m m → kept M (run_core m).
Proof.
  intros Hs. apply core_kept. intros [c e] a [c' e'] Hr He.
  destruct (Hs _ _ _ _ _ _ (conj eq_refl He) Hr) as (_ & _ & _ & He'). exact He'.
Qed.

Lemma devices_kept : kept M update_devices.
Proof.
  destruct updates_kept as (U1 & U2 & U3). unfold update_devices.
  repeat (apply kept_bind; [first [apply memory_kept | by apply caches_kept]|intros _]).
  apply core_sim_kept. apply (CoreSim.update_sim _ ports_same).
Qed.

Lemma fence_kept : kept M fence_i.
Proof.
  destruct updates_kept as (U1 & U2 & U3), flushes_kept as (F1 & F2 & F3). unfold fence_i.
  repeat (apply kept_bind; [by apply caches_kept|intros _]). by apply caches_kept.
Qed.

Lemma tick_kept : kept M next_tick.
Proof. unfold next_tick. kept_tac. by apply kept_modify. Qed.

(** ** The loop *)

#[local] Notation L := (λ l : Loop P, Φ (memory (sys l))).

Lemma on_sys_kept (m : ST (Sys P) unit) : kept M m → kept L (on_sys m).
Proof.
  intros Hm l [] l' Hr Hl. unfold on_sys in Hr. destruct (m (sys l)) as [[[] s]|] eqn:E; [|done].
  injection Hr as <-. apply (Hm _ _ _ E Hl).
Qed.

Lemma feed_kept max_insts : kept L (feed max_insts).
Proof.
  unfold feed. apply kept_bind; [kept_tac | intros l]. case_match; [kept_tac|].
  case_match; [|by apply kept_modify]. destruct (next (inst l) (file l)) as [[more i] rest].
  apply kept_bind; [by apply kept_modify | intros _]. destruct (negb more); [by apply kept_modify|].
  apply kept_bind; [|intros _; by apply kept_modify].
  apply on_sys_kept, core_sim_kept. apply (CoreSim.feed_sim _ ports_same true).
Qed.

Lemma head_kept max_insts : kept L (turn_head max_insts).
Proof.
  unfold turn_head. apply kept_bind; [apply on_sys_kept, devices_kept | intros _].
  apply kept_bind; [apply feed_kept | intros _]. apply on_sys_kept, tick_kept.
Qed.

Lemma ops_kept : kept L sys_ops.
Proof.
  unfold sys_ops. apply kept_bind; [kept_tac | intros l]. cbv zeta. case_match; [|case_match; [|case_match]].
  - apply kept_modify. intros s Hs. by apply inv_reset.
  - apply kept_bind; [by apply kept_modify | intros _]. apply on_sys_kept, fence_kept.
  - by apply kept_modify.
  - apply kept_ret.
Qed.
End system.
End frame.

(** ** The counters agree *)

(** What a device got from the hosts. *)
Definition column (d : nat) (rows : list (list Z)) : list Z := (λ row, default 0 (row !! d)) <$> rows.

(** Modulo 2^64: the reads and writes of a host are its accesses to the devices, and
    those of all hosts to a device are the reads and writes the device has served. *)
Record tally (a : Ram.RAMArbiter) : Prop := {
  t_host i rd wr row : Ram.host_rd_ a !! i = Some rd → Ram.host_wr_ a !! i = Some wr → Ram.host_dev_ a !! i = Some row →
    u64 (rd + wr) = u64 (zsum row);
  t_dev d dev : Ram.devices_ a !! d = Some dev →
    u64 (Ram.accesses_ dev) = u64 (zsum (column d (Ram.host_dev_ a))) ∧
    u64 (Ram.accesses_ dev) = u64 (Ram.reads_ dev + Ram.writes_ dev)
}.

Lemma u64_iff x y : u64 x = u64 y ↔ ∃ k, x = y + k * 2 ^ 64.
Proof.
  unfold u64. split.
  - intros Hxy. exists (x / 2 ^ 64 - y / 2 ^ 64). pose proof (Z.div_mod x (2 ^ 64)). pose proof (Z.div_mod y (2 ^ 64)). lia.
  - intros [k ->]. apply Z.mod_add. lia.
Qed.

Lemma incr_eq x : ∃ k, incr x = x + 1 + k * 2 ^ 64.
Proof. apply u64_iff. unfold incr, u64. apply Z.mod_mod. lia. Qed.

(** Both sides of an agreement count one more. *)
Lemma agree_incr x y x' y' : u64 x = u64 y → (∃ k, x' = x + 1 + k * 2 ^ 64) → (∃ k, y' = y + 1 + k * 2 ^ 64) → u64 x' = u64 y'.
Proof. rewrite !u64_iff. intros [k Hk] [k1 H1] [k2 H2]. exists (k + k1 - k2). lia. Qed.

Lemma zsum_bump (l : list Z) i x : l !! i = Some x → ∃ k, zsum (<[i:=incr x]> l) = zsum l + 1 + k * 2 ^ 64.
Proof. intros Hi. rewrite (zsum_insert _ _ _ _ Hi). destruct (incr_eq x) as [k ->]. exists k. lia. Qed.

Lemma vec_inv {A} (l : list A) i x : vec_at l i = Ok x → l !! Z.to_nat i = Some x.
Proof. by intros [_ ?]%vec_at_Ok. Qed.

Lemma set_inv {A} (l l' : list A) i x : vec_set l i x = Ok l' → l' = <[Z.to_nat i:=x]> l.
Proof. unfold vec_set. case_match; [|done]. by intros [= <-]. Qed.

Lemma bump_inv l i l' : Ram.bump_at l i = Ok l' → ∃ x, l !! Z.to_nat i = Some x ∧ l' = <[Z.to_nat i:=incr x]> l.
Proof. intros Hb. unfold Ram.bump_at in Hb. res_inv Hb. exists a. split; [by apply vec_inv | by apply set_inv]. Qed.

Lemma access_counts d req now lat d' : Ram.access d req now = Ok (lat, d') →
  Ram.accesses_ d' = incr (Ram.accesses_ d) ∧ Ram.reads_ d' = (if is_Read (mt_mop req) then incr (Ram.reads_ d) else Ram.reads_ d) ∧
  Ram.writes_ d' = if is_Read (mt_mop req) then Ram.writes_ d else incr (Ram.writes_ d).
Proof.
  intros Hr. unfold Ram.access in Hr. res_inv Hr. destruct a as [lat0 d0]. injection Hr as _ <-.
  assert (Ram.accesses_ d0 = Ram.accesses_ d ∧ Ram.reads_ d0 = Ram.reads_ d ∧ Ram.writes_ d0 = Ram.writes_ d) as (E1 & E2 & E3).
  { unfold Ram.latency_impl in Ha. destruct (Ram.kind d); [by injection Ha as _ <-|].
    res_inv Ha. res_inv Ha. destruct a0 as [x m]. by injection Ha as _ <-. }
  destruct (is_Read (mt_mop req)); simpl; by rewrite E1, E2, E3.
Qed.

Lemma column_insert d rows h (row' : list Z) :
  column d (<[h:=row']> rows) = <[h:=default 0 (row' !! d)]> (column d rows).
Proof. unfold column. by rewrite list_fmap_insert. Qed.

(** The charge of a request, on the tables. *)
Lemma charge_inv a req now lat a' : Ram.lat_of a req now = Ok (lat, a') →
  ∃ h d x row n dev dev', let m := mt_mop req in
    Ram.host_counts m a !! h = Some x ∧ Ram.host_dev_ a !! h = Some row ∧ row !! d = Some n ∧
    Ram.devices_ a !! d = Some dev ∧ Ram.access dev req now = Ok (lat, dev') ∧
    Ram.host_counts m a' = <[h:=incr x]> (Ram.host_counts m a) ∧
    Ram.host_counts (Ram.other m) a' = Ram.host_counts (Ram.other m) a ∧
    Ram.host_dev_ a' = <[h:=<[d:=incr n]> row]> (Ram.host_dev_ a) ∧ Ram.devices_ a' = <[d:=dev']> (Ram.devices_ a) ∧
    Ram.hosts_ a' = Ram.hosts_ a.
Proof.
  intros Hr. unfold Ram.lat_of in Hr. do 8 (res_inv Hr). destruct a7 as [l d']. res_inv Hr. injection Hr as -> <-.
  apply bump_inv in Ha1 as (x & Hx & ->). apply bump_inv in Ha3 as (n & Hn & ->). apply vec_inv in Ha2, Ha5.
  apply set_inv in Ha4, Ha7. subst a5 a7. exists (Z.to_nat (mt_id req)), (Z.to_nat (Ram.device_of a (mt_addr req))), x, a3, n, a6, d'.
  by destruct (mt_mop req).
Qed.

Lemma charge_host a req now lat a' : Ram.lat_of a req now = Ok (lat, a') → tally a →
  ∀ i rd wr row, Ram.host_rd_ a' !! i = Some rd → Ram.host_wr_ a' !! i = Some wr → Ram.host_dev_ a' !! i = Some row →
    u64 (rd + wr) = u64 (zsum row).
Proof.
  intros Hr [Hh _]. apply charge_inv in Hr as (h & d & x & row0 & n & dev & dev' & Hx & Hrow & Hn & _ & _ & E1 & E2 & E3 & _ & _).
  intros i rd wr row. rewrite E3. destruct (decide (i = h)) as [->|Hne].
  - rewrite list_lookup_insert_eq by by eapply lookup_lt_Some. intros H1 H2 [= <-].
    destruct (incr_eq x) as [kx Ex], (zsum_bump row0 d n Hn) as [kn En].
    destruct (mt_mop req); simpl in *; rewrite E1 in *; rewrite E2 in *; rewrite list_lookup_insert_eq in *
      by (by eapply lookup_lt_Some); simplify_eq;
      (eapply agree_incr; [by eapply Hh | exists kx; lia | by exists kn]).
  - rewrite list_lookup_insert_ne by done. intros H1 H2 H3. apply (Hh i); [| |done];
      destruct (mt_mop req); simpl in *; rewrite E1 in *; rewrite E2 in *; by rewrite ?list_lookup_insert_ne in * by done.
Qed.

Lemma charge_dev a req now lat a' : Ram.lat_of a req now = Ok (lat, a') → tally a →
  ∀ d dev, Ram.devices_ a' !! d = Some dev →
    u64 (Ram.accesses_ dev) = u64 (zsum (column d (Ram.host_dev_ a'))) ∧
    u64 (Ram.accesses_ dev) = u64 (Ram.reads_ dev + Ram.writes_ dev).
Proof.
  intros Hr [_ Hd]. apply charge_inv in Hr as (h & d & x & row & n & dev & dev' & _ & Hrow & Hn & Hdev & Hacc & _ & _ & E3 & E4 & _).
  intros i dv. rewrite E3, E4, column_insert. apply access_counts in Hacc as (A1 & A2 & A3).
  assert (∀ j, column j (Ram.host_dev_ a) !! h = Some (default 0 (row !! j))) as Hcol.
  { intros j. unfold column. by rewrite list_lookup_fmap, Hrow. }
  destruct (decide (i = d)) as [->|Hne].
  - rewrite list_lookup_insert_eq by by eapply lookup_lt_Some. intros [= <-]. destruct (Hd d dev Hdev) as [D1 D2].
    rewrite A1, A2, A3. rewrite list_lookup_insert_eq by by eapply lookup_lt_Some. cbn [default from_option id].
    specialize (Hcol d). rewrite Hn in Hcol. destruct (zsum_bump _ _ _ Hcol) as [kc Ec], (incr_eq (Ram.accesses_ dev)) as [ka Ea].
    split; [eapply agree_incr; [exact D1 | by exists ka | by exists kc]|].
    eapply agree_incr; [exact D2 | by exists ka|].
    destruct (is_Read (mt_mop req)); [destruct (incr_eq (Ram.reads_ dev)) as [kr Er] | destruct (incr_eq (Ram.writes_ dev)) as [kr Er]];
      exists kr; lia.
  - rewrite !list_lookup_insert_ne by done. intros Hi. rewrite list_insert_id by apply Hcol. by apply Hd.
Qed.

#[export] Instance tally_inv : FabricInv tally.
Proof.
  split.
  - intros a a' [= E1 E2 E3 E4 _] [H1 H2]. constructor; intros *; rewrite ?E1, ?E2, ?E3, ?E4; eauto.
  - intros a req now lat a' Hr Ha. constructor; [by eapply charge_host | by eapply charge_dev].
  - intros a _. assert (∀ row : list Z, zsum (map (λ _, 0) row) = 0) as Hz by (intros row; by induction row).
    constructor; simpl.
    + intros i rd wr row (x & -> & _)%list_lookup_fmap_Some (y & -> & _)%list_lookup_fmap_Some
        (z & -> & _)%list_lookup_fmap_Some. by rewrite Hz.
    + intros d dev (x & -> & _)%list_lookup_fmap_Some.
      assert (zsum (column d (map (map (λ _, 0)) (Ram.host_dev_ a))) = 0) as ->.
      { generalize (Ram.host_dev_ a) as rows. induction rows as [|row rows IH]; [done|].
        change (default 0 (((λ _, 0) <$> row) !! d) + zsum (column d (map (map (λ _, 0)) rows)) = 0).
        rewrite IH, list_lookup_fmap. by destruct (row !! d). }
      unfold Ram.reset_device. cbv zeta. simpl. by destruct (Ram.kind x).
Qed.

Lemma make_tally hosts devices addr_map default a : Ram.make hosts devices addr_map default = Ok a →
  Forall (λ d, Ram.accesses_ d = 0 ∧ Ram.reads_ d = 0 ∧ Ram.writes_ d = 0) devices → tally a.
Proof.
  intros Hm Hd. unfold Ram.make in Hm. do 3 res_inv Hm. injection Hm as <-. constructor; simpl.
  - intros i rd wr row [-> _]%lookup_replicate [-> _]%lookup_replicate [-> _]%lookup_replicate.
    assert (zsum (replicate (length devices) 0) = 0) as ->; [|done]. induction (length devices); simpl; lia.
  - intros d dev Hdev. rewrite list.Forall_forall in Hd. destruct (Hd dev) as (-> & -> & ->); [by eapply list_elem_of_lookup_2|].
    assert (zsum (column d (replicate (Z.to_nat hosts) (replicate (length devices) 0))) = 0) as ->; [|done].
    assert (option.default 0 (replicate (length devices) 0 !! d) = 0) as E0.
    { destruct (replicate _ _ !! d) as [x|] eqn:E; [|done]. by apply lookup_replicate in E as [-> _]. }
    induction (Z.to_nat hosts) as [|n IH]; [done|].
    change (option.default 0 (replicate (length devices) 0 !! d) + zsum (column d (replicate n (replicate (length devices) 0))) = 0).
    by rewrite E0, IH.
Qed.

(** Also the sizes of the tables stay. *)
Record sized (n m : Z) (a : Ram.RAMArbiter) : Prop := {
  s_tally : tally a;
  s_hosts : Ram.hosts_ a = n;
  s_devices : zlen (Ram.devices_ a) = m;
  s_counts k : zlen (Ram.host_counts k a) = n;
  s_rows : zlen (Ram.host_dev_ a) = n;
  s_row : Forall (λ row, zlen row = m) (Ram.host_dev_ a)
}.

#[export] Instance sized_inv n m : FabricInv (sized n m).
Proof.
  split.
  - intros a a' E [Ht H1 H2 H3 H4 H5]. pose proof (inv_tables a a' E Ht). injection E as E1 E2 E3 E4 E5.
    constructor; rewrite ?E1, ?E4, ?E5; try done. intros k. specialize (H3 k). destruct k; simpl in *; by rewrite ?E2, ?E3.
  - intros a req now lat a' Hr [Ht H1 H2 H3 H4 H5]. pose proof (inv_lat a req now lat a' Hr Ht).
    apply charge_inv in Hr as (h & d & x & row & k & dev & dev' & _ & Hrow & _ & _ & _ & Ec & Eo & Er & Ed & Eh).
    constructor; rewrite ?Er, ?Ed, ?Eh, ?zlen_insert; try done.
    + intros c. pose proof (H3 c) as Hc. destruct (mt_mop req), c; simpl in *; by rewrite ?Ec, ?Eo, ?zlen_insert.
    + apply list.Forall_insert; [done|]. rewrite zlen_insert. rewrite list.Forall_forall in H5. apply H5.
      by eapply list_elem_of_lookup_2.
  - intros a [Ht H1 H2 H3 H4 H5]. pose proof (inv_reset a Ht).
    assert (∀ A B (f : A → B) l, zlen (map f l) = zlen l) as Hm by (intros; unfold zlen; by rewrite List.length_map).
    constructor; simpl; rewrite ?Hm; try done.
    + intros k. specialize (H3 k). destruct k; simpl in *; by rewrite Hm.
    + apply list.Forall_forall. intros row Hrow%list_elem_of_In%in_map_iff. destruct Hrow as (r & <- & Hr%list_elem_of_In).
      rewrite Hm. rewrite list.Forall_forall in H5. by apply H5.
Qed.

(** The tables of three hosts and four devices, entry by entry. *)
Lemma vec_default {A} (l : list A) i x0 : 0 <= i < zlen l → vec_at l i = Ok (default x0 (l !! Z.to_nat i)).
Proof. intros Hi. destruct (vec_at_lt l i Hi) as [x E]. rewrite E. apply vec_inv in E. by rewrite E. Qed.

Lemma sized_table a : sized 3 4 a → ∃ rd wr (dev : Z → Z → Z) (row : Z → list Z),
  (∀ h, 0 <= h < 3 → vec_at (Ram.host_rd_ a) h = Ok (rd h) ∧ vec_at (Ram.host_wr_ a) h = Ok (wr h) ∧
     vec_at (Ram.host_dev_ a) h = Ok (row h) ∧ (∀ d, 0 <= d < 4 → vec_at (row h) d = Ok (dev h d)) ∧
     u64 (rd h + wr h) = u64 (dev h 0 + dev h 1 + dev h 2 + dev h 3)) ∧
  (∀ d dv, 0 <= d < 4 → vec_at (Ram.devices_ a) d = Ok dv →
     u64 (Ram.accesses_ dv) = u64 (dev 0 d + dev 1 d + dev 2 d) ∧
     u64 (Ram.accesses_ dv) = u64 (Ram.reads_ dv + Ram.writes_ dv)).
Proof.
  intros [[Hh Hd] H1 H2 H3 H4 H5]. pose proof (H3 Read) as Hrd. pose proof (H3 Write) as Hwr. simpl in Hrd, Hwr.
  set (row := λ h, default [] (Ram.host_dev_ a !! Z.to_nat h)).
  exists (λ h, default 0 (Ram.host_rd_ a !! Z.to_nat h)), (λ h, default 0 (Ram.host_wr_ a !! Z.to_nat h)),
    (λ h d, default 0 (row h !! Z.to_nat d)), row.
  assert (∀ h, 0 <= h < 3 → Ram.host_dev_ a !! Z.to_nat h = Some (row h) ∧ zlen (row h) = 4) as Hrow.
  { intros h Hr. assert (vec_at (Ram.host_dev_ a) h = Ok (row h)) as E by (apply vec_default; lia). apply vec_inv in E.
    split; [done|]. rewrite list.Forall_forall in H5. apply H5. by eapply list_elem_of_lookup_2. }
  split.
  - intros h Hr. destruct (Hrow h Hr) as [Er El]. split; [apply vec_default; lia|]. split; [apply vec_default; lia|].
    split; [apply vec_default; lia|]. split; [intros d Hd4; apply vec_default; lia|].
    rewrite (Hh (Z.to_nat h) _ _ (row h)); [| apply vec_inv, vec_default; lia | apply vec_inv, vec_default; lia | done].
    f_equal. destruct (row h) as [|x0 [|x1 [|x2 [|x3 [|]]]]]; unfold zlen in El; simpl in El; try lia. simpl. lia.
  - intros d dv Hr E. destruct (Hd (Z.to_nat d) dv (vec_inv _ _ _ E)) as [E1 E2]. split; [|done]. rewrite E1. f_equal.
    clear Hrow. unfold column. destruct (Ram.host_dev_ a) as [|r0 [|r1 [|r2 [|]]]]; unfold zlen in H4; simpl in H4; try lia.
    subst row. simpl. lia.
Qed.
End FabricFrame.
