(* ===== verification/SimReport.v ===== *)
(** * The report of a run

    The JSON side of [main] in [src/main.cc]: the list of objects that report, the
    configuration dumped before the simulation, the statistics dumped at a dump
    marker and at the end, and the files written.  The loop is the one of [Sim],
    with the report [root] beside it.

    The theorems: reporting never fails and never changes the simulation
    ([report_refines]); a run leaves one entry for the configuration, at most one
    for a dump marker, and one for the end, none overwritten, and the last one tells
    the records fed ([report_complete]); the fabric's counters agree in every entry
    ([report_tallies]). *)

From stdpp Require Import strings.
From S2P Require Import Prelude Stats Json Types Trace BranchPred BranchUnit Btb Ras Tage Repl Prefetcher CacheBase CacheEnv.
From S2P Require Import PipeCache StoreBuffer Caches RamConn Sdram Ifq Pipeline PipelineSafe PipelineRun Config Sim SimSafe GenTrace Reports FabricFrame.

Module SimReport.
Import Sim Config Report FabricFrame.

Section report.
Context {J : Type} `{Json J}.

(** ** Objects that report *)

Record SimObject : Type := MkObject { name : string; config_json : res J; stats_json : res J }.

Definition dcache_name (d : DCache) : string := match d with DPipe _ => "dCache" | DNone _ => "dNoCache" end%string.

(** [simlist]; the prefetcher of the instruction cache last. *)
Definition simlist (s : Sys AnyPredictor) : list SimObject :=
  let '(MkCaches ic dc nc) := caches s in
  [MkObject "memory" (mret (arbiter_config (memory s))) (arbiter_stats (memory s));
   MkObject "dBypass" (mret (nocache_config nc)) (mret (cache_stats (CB.stats (NC.base nc))));
   MkObject (dcache_name dc) (dcache_config dc) (mret (cache_stats (CB.stats (dcache_base dc))));
   MkObject "iCache" (pipecache_config ic) (mret (cache_stats (CB.stats (PipeCache.base ic))));
   MkObject "BranchUnit" (unit_config (Pipe.bpu (core s))) (unit_stats (Pipe.bpu (core s)));
   MkObject "Core" (mret (pipeline_config (core s))) (mret (pipeline_stats (Pipe.stats (core s))))]%string ++
  match CB.prefetcher_ (PipeCache.base ic) with
  | Some p => [MkObject (prefetcher_name "iCache" p) (mret (prefetcher_config p)) (mret (prefetcher_stats p))]
  | None => []
  end.

(** [for (const auto* obj : simlist) j[obj->name()] = f(obj);] *)
Definition collect (f : SimObject → res J) (l : list SimObject) : res J :=
  kvs ← mapM (λ obj, j ← f obj; mret (name obj, j)) l; mret (fields kvs).

Definition collect_stats_json (s : Sys AnyPredictor) : res J := collect stats_json (simlist s).
Definition collect_config_json (s : Sys AnyPredictor) : res J := collect config_json (simlist s).

Definition stats_key (cnt : Z) : string := "stats" +:+ to_string cnt.

(** One entry of the report. *)
Definition stats_entry (s : Sys AnyPredictor) (san : TraceSanitizer) : res J :=
  j ← collect_stats_json s; mret (jset "TraceSanitizer" (sanitizer_json san) j).

Definition append_stats_json (root : J) (cnt : Z) (s : Sys AnyPredictor) (san : TraceSanitizer) : res J :=
  j ← stats_entry s san; mret (jset (stats_key cnt) j root).

(** ** The loop, with the report *)

Record Run : Type := MkRun { root : J; loop : Loop AnyPredictor }.

Definition in_loop (m : ST (Loop AnyPredictor) unit) : ST Run unit := λ r,
  match m (loop r) with Ok (_, l) => Ok (tt, MkRun (root r) l) | Err x => Err x end.

(** [append_stats_json(root, dump_cnt++, simlist, sanitizer)]; the counter is
    [sys_ops]'s. *)
Definition dump : ST Run unit := λ r,
  match append_stats_json (root r) (dump_cnt (loop r)) (sys (loop r)) (sanitizer (loop r)) with
  | Ok j => Ok (tt, MkRun j (loop r))
  | Err x => Err x
  end.

Definition report_ops : ST Run unit :=
  r ← gets id;
  when (sys_op (inst (loop r)) =? SysDumpStats) dump;;
  in_loop sys_ops.

Definition report_turn (max_insts : Z) : ST Run unit :=
  in_loop (turn_head max_insts);;
  report_ops.

Fixpoint report_loop (fuel : nat) (max_insts max_ticks : Z) : ST Run unit :=
  match fuel with
  | O => fail OutOfFuel
  | S n =>
    report_turn max_insts;;
    r ← gets id;
    if goes_on max_ticks (loop r) then report_loop n max_insts max_ticks else mret tt
  end.

(** What [main] writes: [outfile_write], and the dump to [std::cout]. *)
Inductive output : Type := OFile (path : string) (j : J) | OStdout (j : J).

Definition in_dir (o : Options) (file : string) (j : J) : list output :=
  if decide (out_dir o = "")%string then [] else [OFile ("simout/" +:+ out_dir o +:+ file) j].

(** [main] after [parse_args]; [None]: a dry run ends with the configuration. *)
Definition main_ (fuel : nat) (o : Options) (nxtupd : Z) (inst0 : TraceInst) (trace : list Z)
    : res (list output * option Run) :=
  s ← build o nxtupd;
  conf ← collect_config_json s;
  let root0 := jset "config" conf jnull in
  let outs := in_dir o "/conf.json" root0 in
  if dry_run o then mret (outs ++ if decide (out_dir o = "")%string then [OStdout root0] else [], None)
  else
    '(_, r) ← report_loop fuel (max_insts o) (max_ticks o)
                (MkRun root0 (MkLoop s trace inst0 true false 0 0 sanitizer_reset sanitizer_reset));
    let l := loop r in
    j ← append_stats_json (root r) (dump_cnt l) (sys l) (sanitizer_all l);
    mret (outs ++ in_dir o "/stats.json" j, Some (MkRun j (l <| dump_cnt ::= incr |>))).

(** ** Reporting does not fail *)

Lemma is_ok_bind {A B} (m : res A) (f : A → res B) : is_ok m → (∀ a, is_ok (f a)) → is_ok (m ≫= f).
Proof. destruct m; [|done]. intros _ Hf. apply Hf. Qed.

Lemma mapM_ok {A B} (f : A → res B) l : (∀ x, x ∈ l → is_ok (f x)) → is_ok (mapM f l).
Proof.
  induction l as [|x l IH]; intros Hf; [done|]. cbn [mapM]. apply is_ok_bind; [apply Hf; by left|]. intros y.
  apply is_ok_bind; [apply IH; intros z Hz; apply Hf; by right | done].
Qed.

Lemma vec_ok {A} (l : list A) i : 0 <= i < zlen l → is_ok (vec_at l i).
Proof. intros Hi. by destruct (vec_at_lt l i Hi) as [x ->]. Qed.

Lemma upto_ok {A B} n (l : list A) (f : Z → A → res B) : n <= zlen l → (∀ i x, 0 <= i < n → is_ok (f i x)) → is_ok (upto n l f).
Proof.
  intros Hn Hf. apply mapM_ok. intros i Hi%elem_of_zrange. apply is_ok_bind; [apply vec_ok; lia | intros x; by apply Hf].
Qed.

Lemma arbiter_ok dok L n t k a : Ram.base_inv dok L n t k a → is_ok (arbiter_stats a).
Proof.
  intros Hb. apply is_ok_bind; [|done]. apply mapM_ok. intros i Hi%elem_of_zrange.
  rewrite (Ram.f_hosts _ _ _ _ _ _ Hb) in Hi. unfold host_fields.
  apply is_ok_bind; [apply vec_ok; pose proof (Ram.f_counts _ _ _ _ _ _ Hb Read) as Hc; simpl in Hc; lia | intros rd].
  apply is_ok_bind; [apply vec_ok; pose proof (Ram.f_counts _ _ _ _ _ _ Hb Write) as Hc; simpl in Hc; lia | intros wr].
  destruct (Ram.f_dev _ _ _ _ _ _ Hb) as [Hd Hrow]. destruct (vec_at_lt (Ram.host_dev_ a) i) as [row Er]; [lia|].
  rewrite Er. cbn [mbind res_bind]. apply is_ok_bind; [|done]. apply mapM_ok. intros d Hd'%elem_of_zrange.
  apply is_ok_bind; [|done]. apply vec_ok. apply vec_inv, list_elem_of_lookup_2 in Er.
  rewrite list.Forall_forall in Hrow. by rewrite (Hrow row Er).
Qed.

Lemma extra_ok k c p : any_inv k c p → is_ok (extra_stats_json p) ∧ is_ok (bpu_config p).
Proof.
  destruct p as [p|p|p|p|p]; cbn [any_inv extra_stats_json bpu_config]; try done. intros Hw.
  destruct (TAGE.w_n _ _ _ Hw) as [_ Hn]. destruct (TAGE.w_stats _ _ _ Hw) as [H1 H2 H3].
  destruct (TAGE.w_comps _ _ _ Hw) as [Hc _], (TAGE.w_hist _ _ _ Hw) as [Hh _]. unfold TAGE.MAX_COMP in Hn. split.
  - unfold tage_extra. cbv zeta. repeat (apply is_ok_bind; [apply upto_ok; [lia | done] | intros ?]). done.
  - unfold tage_config, tage_bits. apply is_ok_bind.
    + apply upto_ok; [lia|]. intros i x Hi. unfold tage_comp. apply is_ok_bind; [apply vec_ok; lia | intros h].
      apply is_ok_bind; [apply vec_ok; rewrite (TAGE.w_bits _ _ _ Hw); unfold zlen; rewrite length_replicate; lia | done].
    + intros comps. apply is_ok_bind; [|done]. apply is_ok_bind; [apply upto_ok; [lia | done] | done].
Qed.

Lemma area_ok s o a c : CB.wf s o a (PipeCache.base c) → is_ok (pipecache_config c).
Proof.
  intros Hw. unfold pipecache_config, pipecache_area, dff_bits, tag_macro_bits, tag_bits, idx_bits, CB.floorLog2.
  rewrite (CB.w_sets _ _ _ _ Hw). destruct (CB.w_s _ _ _ _ Hw). rewrite (proj2 (Z.ltb_lt 0 (2 ^ s))) by lia.
  by destruct (PipeCache.sram_dff_ c).
Qed.
(** ** The loop with its report is the loop *)

Lemma stats_entry_ok s san : is_ok (collect_stats_json s) → is_ok (stats_entry s san).
Proof. intros Hs. by apply is_ok_bind. Qed.

Section loop.
Context (kb cb k w : Z) (dok : Z → Z → Ram.RamDevice → Prop) (T L M : Z) `{!Ram.DeviceLaws dok T L M}.
Context (HM : 0 <= M) (Hend : T + M + 42 < InfTime) (si oi ai sd od ad : Z).
Context (inst0 : TraceInst) (trace : list Z) (max_insts max_ticks : Z) (Hfed : Forall PipeSafe.fed_ok (records trace)).

#[local] Notation sys_ok := (SimSafe.sys_ok (any_inv kb cb) k w dok T L M si oi ai sd od ad).
#[local] Notation loop_ok := (SimSafe.loop_ok (any_inv kb cb) k w dok T L M si oi ai sd od ad inst0 trace max_insts).

Lemma sys_reports K b F g s : sys_ok K b F g s → is_ok (collect_stats_json s) ∧ is_ok (collect_config_json s).
Proof.
  intros (π & [(n & (h & Ha & _) & _) _] & _ & (Hic & Hdc & _) & l & ph & Hc & _).
  destruct Ha as [Hbase _ _ _ _]. pose proof (arbiter_ok _ _ _ _ _ _ Hbase) as Hmem.
  pose proof (PipeSafe.c_bu Hc) as [Hb _]. destruct (extra_ok _ _ _ Hb) as [Hex Hbc].
  pose proof (area_ok _ _ _ _ (PipeCache.b_wf _ _ _ _ (PipeCache.i_base _ _ _ _ _ _ Hic))) as Hi.
  assert (is_ok (dcache_config (dcache (caches s)))) as Hd.
  { destruct (dcache (caches s)) as [c|c]; [|done]. exact (area_ok _ _ _ _ (PipeCache.b_wf _ _ _ _ (PipeCache.i_base _ _ _ _ _ _ Hdc))). }
  destruct (caches s) as [ic dc nc] eqn:Ecs. unfold collect_stats_json, collect_config_json, simlist. rewrite Ecs.
  cbn [icache dcache] in *.
  split; (apply is_ok_bind; [|done]); apply mapM_ok; intros obj Hobj; (apply is_ok_bind; [|done]);
    (apply elem_of_app in Hobj as [Hobj|Hobj]; [rewrite !elem_of_cons, elem_of_nil in Hobj; destruct_or! Hobj; subst obj; try done|
     destruct (CB.prefetcher_ _); [|by apply elem_of_nil in Hobj]; apply list_elem_of_singleton in Hobj; by subst obj]);
    cbn [stats_json config_json].
  - by apply is_ok_bind.
  - by apply is_ok_bind.
Qed.

Lemma in_loop_run m j0 l : in_loop m (MkRun j0 l) =
  match m l with Ok (_, l') => Ok (tt, MkRun j0 l') | Err x => Err x end.
Proof. done. Qed.

(** One turn. *)
Lemma report_turn_run K t j0 l : 15 <= K → 0 <= t → t + 1 <= T → loop_ok K t l →
  ∃ root' l', turn max_insts l = Ok (tt, l') ∧ report_turn max_insts (MkRun j0 l) = Ok (tt, MkRun root' l').
Proof.
  intros HK Ht HtT Hl.
  pose proof (SimSafe.head_wp (any_inv kb cb) k w dok T L M HM Hend si oi ai sd od ad inst0 trace max_insts Hfed K t l HK Ht HtT Hl) as Hw.
  apply wp_run in Hw as ([] & l1 & E1 & fed & rest & g & Hh). pose proof Hh as ((_ & _ & Hs & _) & _).
  pose proof (SimSafe.handled_wp (any_inv kb cb) k w dok T L M Hend si oi ai sd od ad inst0 trace max_insts
    (K - 4) (t + 1) l1 fed rest g ltac:(lia) Hh) as Hw2.
  apply wp_run in Hw2 as ([] & l2 & E2 & _). destruct (sys_reports _ _ _ _ _ Hs) as [Hok _].
  unfold report_turn, turn, mbind, ST_bind. rewrite in_loop_run, E1. unfold report_ops, gets, id, mbind, ST_bind. cbn [loop].
  destruct (sys_op (inst l1) =? SysDumpStats); cbn [when].
  - unfold dump, append_stats_json. cbn [root loop]. pose proof (stats_entry_ok (sys l1) (sanitizer l1) Hok) as He.
    destruct (stats_entry _ _) as [j|]; [|done]. cbn [mbind res_bind mret res_ret]. rewrite in_loop_run, E2. by eexists _, l2.
  - unfold mret, ST_ret. rewrite in_loop_run, E2. by eexists _, l2.
Qed.

Lemma report_loop_run n t j0 l : 0 <= t → t + Z.of_nat n <= T → loop_ok (4 * Z.of_nat n + 15) t l →
  match sim_loop n max_insts max_ticks l with
  | Ok (_, l') => ∃ root', report_loop n max_insts max_ticks (MkRun j0 l) = Ok (tt, MkRun root' l')
  | Err e => report_loop n max_insts max_ticks (MkRun j0 l) = Err e
  end.
Proof.
  revert t j0 l. induction n as [|n IH]; intros t j0 l Ht HtT Hl; [done|].
  pose proof (SimSafe.turn_wp (any_inv kb cb) k w dok T L M HM Hend si oi ai sd od ad inst0 trace max_insts Hfed
    (4 * Z.of_nat (S n) + 15) t l ltac:(lia) Ht ltac:(lia) Hl) as Hw.
  destruct (report_turn_run (4 * Z.of_nat (S n) + 15) t j0 l ltac:(lia) Ht ltac:(lia) Hl) as (root1 & l1 & E1 & E2).
  unfold wp in Hw. rewrite E1 in Hw. replace (4 * Z.of_nat (S n) + 15 - 4) with (4 * Z.of_nat n + 15) in Hw by lia.
  cbn [sim_loop report_loop]. unfold mbind, ST_bind. rewrite E1, E2. unfold gets, id. cbn [loop].
  destruct (goes_on max_ticks l1); [apply (IH (t + 1)); [lia | lia | done] | by exists root1].
Qed.
End loop.

(** The loop's head, as [main] reaches it. *)
Definition start (s : Sys AnyPredictor) (inst0 : TraceInst) (trace : list Z) : Loop AnyPredictor :=
  MkLoop s trace inst0 true false 0 0 sanitizer_reset sanitizer_reset.

(** The whole program, step by step. *)
Lemma main_run o n nxt inst0 trace : SimSafe.options_ok o n → Forall PipeSafe.fed_ok (records trace) →
  ∃ s conf, build o nxt = Ok s ∧ collect_config_json s = Ok conf ∧
    ∀ j0, match sim_loop n (max_insts o) (max_ticks o) (start s inst0 trace) with
          | Ok (_, l) => ∃ j1 j2, report_loop n (max_insts o) (max_ticks o) (MkRun j0 (start s inst0 trace)) = Ok (tt, MkRun j1 l) ∧
              append_stats_json j1 (dump_cnt l) (sys l) (sanitizer_all l) = Ok j2
          | Err e => report_loop n (max_insts o) (max_ticks o) (MkRun j0 (start s inst0 trace)) = Err e
          end.
Proof.
  intros Ho Hfed. destruct (SimSafe.build_ok o n nxt Ho) as (s & k & w & si & oi & ai & sd & od & ad & Eb & Et & Hs).
  destruct (SimSafe.options_time o n Ho) as (Hq & Hbst & Hn).
  assert (Ram.DeviceLaws (Ram.device_ok (freq_mhz o / 100) (Z.of_nat n) (SimSafe.burst o)) (Z.of_nat n) (SimSafe.burst o) (2 ^ 31))
    as HD by (apply Ram.ram_laws; lia).
  destruct (sys_reports _ _ _ _ _ _ _ _ _ _ _ _ _ _ _ _ _ _ _ Hs) as [_ Hconf].
  destruct (collect_config_json s) as [conf|] eqn:Ec; [|done]. exists s, conf. split; [done|]. split; [done|]. intros j0.
  pose proof (SimSafe.start_ok o n inst0 trace s k w si oi ai sd od ad Et Hs) as Hl0.
  pose proof (report_loop_run (bpu_entries_pow2 o) (tage_comp_pow2 o) k w
    (Ram.device_ok (freq_mhz o / 100) (Z.of_nat n) (SimSafe.burst o)) (Z.of_nat n) (SimSafe.burst o)
    (2 ^ 31) ltac:(lia) ltac:(unfold InfTime; lia) si oi ai sd od ad inst0 trace (max_insts o) (max_ticks o) Hfed n 0 j0 (start s inst0 trace)
    ltac:(lia) ltac:(lia) Hl0) as Hr.
  pose proof (SimSafe.sim_loop_ok (any_inv (bpu_entries_pow2 o) (tage_comp_pow2 o)) k w
    (Ram.device_ok (freq_mhz o / 100) (Z.of_nat n) (SimSafe.burst o)) (Z.of_nat n) (SimSafe.burst o) (2 ^ 31) ltac:(lia)
    ltac:(unfold InfTime; lia) si oi ai sd od ad inst0 trace (max_insts o) (max_ticks o) Hfed n 0 (start s inst0 trace)
    ltac:(lia) ltac:(lia) Hl0) as Hl.
  destruct (sim_loop n _ _ _) as [[[] l]|e]; [|done]. destruct Hr as [j1 ->].
  destruct Hl as (t' & (fed & rest & g & (_ & _ & Hs' & _) & _) & _).
  destruct (sys_reports _ _ _ _ _ _ _ _ _ _ _ _ _ _ _ _ _ _ _ Hs') as [Hst _].
  pose proof (stats_entry_ok (sys l) (sanitizer_all l) Hst) as He. unfold append_stats_json.
  destruct (stats_entry _ _) as [j|]; [|done]. by exists j1, (jset (stats_key (dump_cnt l)) j j1).
Qed.

(** C4: reporting is only reporting.  For every configuration in range and every
    well-formed trace no report fails: a dry run ends with the configuration, and
    otherwise the program with its report ends exactly as the simulation alone, in
    the same state of every component and with the same error if the fuel runs out;
    only the count of dumps is one higher, for the final one. *)
Theorem report_refines o n nxt inst0 trace : SimSafe.options_ok o n → Forall PipeSafe.fed_ok (records trace) →
  if dry_run o then ∃ outs, main_ n o nxt inst0 trace = Ok (outs, None)
  else match run_main n o nxt inst0 trace with
       | Ok l => ∃ outs j, main_ n o nxt inst0 trace = Ok (outs, Some (MkRun j (l <| dump_cnt ::= incr |>)))
       | Err e => main_ n o nxt inst0 trace = Err e
       end.
Proof.
  intros Ho Hfed. destruct (main_run o n nxt inst0 trace Ho Hfed) as (s & conf & Eb & Ec & Hl).
  unfold main_, run_main. rewrite Eb. cbn [mbind res_bind]. rewrite Ec. cbn [mbind res_bind mret res_ret].
  destruct (dry_run o); [by eexists|]. specialize (Hl (jset "config" conf jnull)). unfold start in Hl.
  destruct (sim_loop n _ _ _) as [[[] l]|e].
  - destruct Hl as (j1 & j2 & -> & E2). cbn [mbind res_bind mret res_ret root loop]. rewrite E2. by eexists _, j2.
  - by rewrite Hl.
Qed.

(** ** Keys *)

Lemma chars_app (a b : string) : chars (a +:+ b) = chars a ++ chars b.
Proof. induction a as [|c a IH]; [done|]. change (c :: chars (a +:+ b) = c :: (chars a ++ chars b)). by rewrite IH. Qed.

Lemma chars_inj (a b : string) : chars a = chars b → a = b.
Proof.
  intros E. rewrite <- (String.string_of_list_ascii_of_string a), <- (String.string_of_list_ascii_of_string b).
  unfold chars in E. by rewrite E.
Qed.

Lemma chars_num n : chars (to_string n) = dec n.
Proof. apply String.list_ascii_of_string_of_list_ascii. Qed.

(** A number followed by something that is no digit. *)
Lemma num_inj m n (a b : string) : 0 <= m → 0 <= n → starts_digit (chars a) = false → starts_digit (chars b) = false →
  to_string m +:+ a = to_string n +:+ b → m = n ∧ a = b.
Proof.
  intros Hm Hn Ha Hb E. apply (f_equal chars) in E. rewrite !chars_app, !chars_num in E.
  assert (m = n) as -> by (rewrite <- (digits_dec m (chars a)), <- (digits_dec n (chars b)) by done; by rewrite E).
  split; [done|]. apply app_inv_head in E. by apply chars_inj.
Qed.

Lemma prefix_inj (p a b : string) : p +:+ a = p +:+ b → a = b.
Proof. intros E. apply (f_equal chars) in E. rewrite !chars_app in E. apply app_inv_head in E. by apply chars_inj. Qed.

Lemma string_nil_r (a : string) : a +:+ "" = a.
Proof. apply chars_inj. rewrite chars_app. apply app_nil_r. Qed.

Lemma to_string_inj m n : 0 <= m → 0 <= n → to_string m = to_string n → m = n.
Proof. intros Hm Hn E. apply (num_inj m n "" ""); try done. by rewrite !string_nil_r. Qed.

Lemma stats_key_inj m n : 0 <= m → 0 <= n → stats_key m = stats_key n → m = n.
Proof. intros Hm Hn E. apply prefix_inj in E. by apply to_string_inj. Qed.

Lemma stats_key_config n : stats_key n ≠ "config"%string.
Proof. done. Qed.

(** ** The entries of the report *)

Context `{!JsonLaws J}.

Section entries.
Context (Φ : Ram.RAMArbiter → Prop) `{!FabricInv Φ}.

(** An entry is the report of a state of the run. *)
Definition entry (j : J) : Prop := ∃ s san, Φ (memory s) ∧ stats_entry s san = Ok j.

(** [cnt] entries behind the configuration. *)
Record root_ok (conf : J) (cnt : Z) (j : J) : Prop := {
  ro_object : is_object j;
  ro_keys : keys j = "config"%string :: (stats_key <$> zrange cnt);
  ro_conf : jget "config" j = Some conf;
  ro_entries i : 0 <= i < cnt → ∃ e, jget (stats_key i) j = Some e ∧ entry e
}.

Lemma zrange_succ n : 0 <= n → zrange (n + 1) = zrange n ++ [n].
Proof.
  intros Hn. unfold zrange. replace (Z.to_nat (n + 1)) with (Z.to_nat n + 1)%nat by lia.
  rewrite seq_app, fmap_app. simpl. by rewrite Z2Nat.id by lia.
Qed.

Lemma append_ok conf cnt j s san j' : 0 <= cnt → Φ (memory s) → root_ok conf cnt j →
  append_stats_json j cnt s san = Ok j' →
  root_ok conf (cnt + 1) j' ∧ ∃ e, stats_entry s san = Ok e ∧ jget (stats_key cnt) j' = Some e.
Proof.
  intros Hc Hs [H1 H2 H3 H4] Ha. unfold append_stats_json in Ha. destruct (stats_entry s san) as [e|] eqn:Ee; [|done].
  injection Ha as <-. assert (stats_key cnt ∉ keys j) as Hnew.
  { rewrite H2, not_elem_of_cons. split; [apply stats_key_config|].
    intros (i & E & Hi%elem_of_zrange)%list_elem_of_fmap. apply stats_key_inj in E; lia. }
  split; [constructor|].
  - by apply object_set.
  - rewrite keys_set_new, H2, zrange_succ, fmap_app by done. done.
  - by rewrite get_set, decide_False.
  - intros i Hi. destruct (decide (i = cnt)) as [->|Hne].
    + exists e. rewrite get_set, decide_True by done. split; [done|]. by exists s, san.
    + destruct (H4 i) as (x & Hx & He); [lia|]. exists x. split; [|done]. rewrite get_set by done. rewrite decide_False; [done|].
      intros E%stats_key_inj; lia.
  - exists e. split; [done|]. by rewrite get_set, decide_True.
Qed.

(** At most one dump marker is acted on: it stops the feeding, so [inst] keeps the
    handled record. *)
Definition one_dump (l : Loop AnyPredictor) : Prop :=
  dump_cnt l = b2z (stop_after_dump l) ∧ (stop_after_dump l = true → sys_op (inst l) = SysNone).

Lemma on_sys_one (m : ST (Sys AnyPredictor) unit) : kept one_dump (on_sys m).
Proof. intros l [] l' Hr Hl. unfold on_sys in Hr. destruct (m (sys l)) as [[[] s]|]; [|done]. by injection Hr as <-. Qed.

Lemma feed_one n : kept one_dump (feed n).
Proof.
  intros l [] l' Hr Hl. unfold feed in Hr. unfold mbind at 1, ST_bind, gets, id in Hr.
  destruct (negb (Pipe.inst_avail _)); [by injection Hr as <-|].
  destruct (stop_after_dump l) eqn:Es; cbn [negb andb] in Hr.
  { injection Hr as <-. unfold one_dump in *. simpl. by rewrite Es in *. }
  destruct (has_next l && _); [|injection Hr as <-; unfold one_dump in *; simpl; by rewrite Es in *].
  destruct (next (inst l) (file l)) as [[more i] rest].
  revert Hr. unfold modify, on_sys, mbind, ST_bind. destruct (negb more); cbn [sys].
  { intros [= <-]. unfold one_dump in *. simpl. rewrite Es in *. split; [apply Hl | done]. }
  destruct (run_core _ _) as [[[] s]|]; [|done].
  intros [= <-]. unfold one_dump in *. simpl. rewrite Es in *. split; [apply Hl | done].
Qed.

Lemma head_one n : kept one_dump (turn_head n).
Proof.
  unfold turn_head. apply kept_bind; [apply on_sys_one | intros _]. apply kept_bind; [apply feed_one | intros _].
  apply on_sys_one.
Qed.

(** The loop with its report. *)
Definition report_ok (conf : J) (r : Run) : Prop :=
  Φ (memory (sys (loop r))) ∧ one_dump (loop r) ∧ root_ok conf (dump_cnt (loop r)) (root r).

Lemma ops_frame l l' : sys_ops l = Ok (tt, l') → one_dump l → sys_op (inst l) ≠ SysDumpStats →
  dump_cnt l' = dump_cnt l ∧ one_dump l'.
Proof.
  intros Hr Hl Hne. unfold sys_ops in Hr. unfold mbind at 1, ST_bind, gets, id in Hr. cbv zeta in Hr.
  destruct (_ =? SysResetStats); [injection Hr as <-; split; [done|]; split; [apply Hl | done]|].
  destruct (_ =? SysFenceI).
  { revert Hr. unfold modify, on_sys, mbind, ST_bind. cbn [sys]. destruct (fence_i _) as [[[] s]|]; [|done].
    intros [= <-]. split; [done|]. split; [apply Hl | done]. }
  destruct (Z.eqb_spec (sys_op (inst l)) SysDumpStats); [done|]. by injection Hr as <-.
Qed.

Lemma ops_report conf : kept (report_ok conf) report_ops.
Proof.
  intros [j l] [] r' Hr (Hm & Ho & Hroot). cbn [root loop] in *. unfold report_ops, mbind, ST_bind, gets, id in Hr. cbn [loop] in Hr.
  destruct (Z.eqb_spec (sys_op (inst l)) SysDumpStats) as [Ed|Hne]; cbn [when] in Hr.
  - unfold dump in Hr. cbn [root loop] in Hr.
    destruct (append_stats_json _ _ _ _) as [j'|] eqn:Ea; [|done]. unfold in_loop in Hr. cbn [root loop] in Hr.
    destruct (sys_ops l) as [[[] l']|] eqn:E; [|done]. injection Hr as <-. pose proof (ops_kept Φ _ _ _ E Hm) as Hm'.
    destruct Ho as [Hc Hs]. destruct (stop_after_dump l) eqn:Es; [rewrite Hs in Ed by done; done|]. simpl in Hc.
    unfold sys_ops in E. unfold mbind at 1, ST_bind, gets, id in E. cbv zeta in E. rewrite Ed in E. cbn in E. injection E as <-.
    split; [exact Hm'|]. cbn [loop root]. rewrite Hc in *. split; [by split|].
    apply (append_ok conf 0 j (sys l) (sanitizer l) j'); done.
  - unfold mret, ST_ret, in_loop in Hr. cbn [root loop] in Hr. destruct (sys_ops l) as [[[] l']|] eqn:E; [|done].
    injection Hr as <-. destruct (ops_frame _ _ E Ho Hne) as [E1 Ho']. split; [by eapply ops_kept|]. split; [done|].
    cbn [loop root]. by rewrite E1.
Qed.

Lemma in_loop_head conf n : kept (report_ok conf) (in_loop (turn_head n)).
Proof.
  intros [j l] [] r' Hr (Hm & Ho & Hroot). unfold in_loop in Hr. cbn [root loop] in *.
  destruct (turn_head n l) as [[[] l']|] eqn:E; [|done]. injection Hr as <-.
  split; [by eapply head_kept|]. split; [by eapply head_one|]. cbn [loop root].
  assert (dump_cnt l' = dump_cnt l) as ->; [|done].
  assert (kept (λ x, dump_cnt x = dump_cnt l) (turn_head n)) as Hk; [|by apply (Hk l tt l')].
  unfold turn_head.
  assert (∀ m, kept (λ x, dump_cnt x = dump_cnt l) (on_sys (P := AnyPredictor) m)) as Hs.
  { intros m x [] x' Hx. unfold on_sys in Hx. destruct (m _) as [[[] s]|]; [|done]. by injection Hx as <-. }
  apply kept_bind; [apply Hs | intros _]. apply kept_bind; [|intros _; apply Hs]. unfold feed.
  apply kept_bind; [kept_tac | intros x]. case_match; [kept_tac|]. case_match; [|by apply kept_modify].
  destruct (next _ _) as [[more i] rest]. apply kept_bind; [by apply kept_modify | intros _].
  destruct (negb more); [by apply kept_modify|]. apply kept_bind; [apply Hs | intros _; by apply kept_modify].
Qed.

Lemma loop_report conf n mi mt : kept (report_ok conf) (report_loop n mi mt).
Proof.
  induction n as [|n IH]; [apply kept_fail|]. cbn [report_loop].
  apply kept_bind; [unfold report_turn; apply kept_bind; [apply in_loop_head | intros _; apply ops_report] | intros _].
  apply kept_bind; [kept_tac | intros r]. case_match; [apply IH | apply kept_ret].
Qed.
End entries.

(** ** What an entry holds *)

Lemma mapM_inv {A B} (f : A → res B) l r : mapM f l = Ok r → Forall2 (λ x y, f x = Ok y) l r.
Proof.
  revert r. induction l as [|x l IH]; intros r Hr; cbn [mapM] in Hr; [by injection Hr as <-|].
  res_inv Hr. res_inv Hr. injection Hr as <-. constructor; [done | by apply IH].
Qed.

Lemma simlist_names (s : Sys AnyPredictor) : NoDup ((name <$> simlist s) ++ ["TraceSanitizer"%string]).
Proof.
  unfold simlist. destruct (caches s) as [ic dc nc]. destruct dc; (destruct (CB.prefetcher_ _) as [[kd b i u]|]; [destruct kd|]);
    by apply (bool_decide_eq_true _).
Qed.

(** The report of each object is under its name. *)
Lemma collect_items f l j : collect f l = Ok j → NoDup (name <$> l) →
  is_object j ∧ keys j = name <$> l ∧ ∀ obj, obj ∈ l → ∃ v, f obj = Ok v ∧ jget (name obj) j = Some v.
Proof.
  intros Hc Hn. unfold collect in Hc. res_inv Hc. injection Hc as <-. apply mapM_inv in Ha.
  assert (a.*1 = name <$> l) as Ek.
  { clear Hn. induction Ha as [|x y l a Hxy _ IH]; [done|]. res_inv Hxy. injection Hxy as <-. rewrite !fmap_cons, IH. done. }
  assert (NoDup a.*1) as Hn' by by rewrite Ek. split; [apply object_fields|]. split; [unfold keys; by rewrite items_fields|].
  intros obj Hobj. apply list_elem_of_lookup in Hobj as [i Hi].
  destruct (Forall2_lookup_l _ _ _ _ _ Ha Hi) as (kv & Hkv & Hf). res_inv Hf. injection Hf as <-. exists a0. split; [done|].
  unfold jget. rewrite items_fields by done. apply assoc_elem; [done|]. by eapply list_elem_of_lookup_2.
Qed.

Lemma entry_items s san e : stats_entry s san = Ok e →
  keys e = (name <$> simlist s) ++ ["TraceSanitizer"%string] ∧ NoDup (keys e) ∧
  jget "TraceSanitizer" e = Some (sanitizer_json san) ∧
  ∀ obj, obj ∈ simlist s → ∃ v, stats_json obj = Ok v ∧ jget (name obj) e = Some v.
Proof.
  intros He. unfold stats_entry in He. res_inv He. injection He as <-. pose proof (simlist_names s) as Hn.
  pose proof Hn as (Hn1 & Hn2 & _)%list.NoDup_app. destruct (collect_items _ _ _ Ha Hn1) as (Ho & Ek & Hv).
  assert ("TraceSanitizer"%string ∉ name <$> simlist s) as Hnew.
  { intros Hin. apply (Hn2 _ Hin). by left. }
  assert (keys (jset "TraceSanitizer" (sanitizer_json san) a) = (name <$> simlist s) ++ ["TraceSanitizer"%string]) as E.
  { rewrite keys_set_new by (rewrite ?Ek; done). by rewrite Ek. }
  split; [done|]. split; [by rewrite E|]. split; [by rewrite get_set, decide_True|].
  intros obj Hobj. destruct (Hv obj Hobj) as (v & Ev & Hg). exists v. split; [done|].
  rewrite get_set by done. rewrite decide_False; [done|]. intros E1. apply Hnew. rewrite E1. by apply list_elem_of_fmap_2.
Qed.

(** *** The fabric's entry *)

(** What follows the number of a host in a key. *)
Definition is_tail (t : string) : Prop := starts_digit (chars t) = false.

Lemma host_key_inj i i' t t' : 0 <= i → 0 <= i' → is_tail t → is_tail t' → host_key i t = host_key i' t' → i = i' ∧ t = t'.
Proof. intros Hi Hi' Ht Ht' E. unfold host_key in E. apply prefix_inj in E. by apply num_inj. Qed.

Lemma dev_key_inj d d' : 0 <= d → 0 <= d' → ("_dev" +:+ to_string d)%string = ("_dev" +:+ to_string d')%string → d = d'.
Proof. intros Hd Hd' E. apply prefix_inj in E. by apply to_string_inj. Qed.

(** The value a key of a host has. *)
Definition host_value (a : Ram.RAMArbiter) (i : Z) (t : string) (n : Z) : Prop :=
  t = "_rd"%string ∧ vec_at (Ram.host_rd_ a) i = Ok n ∨ t = "_wr"%string ∧ vec_at (Ram.host_wr_ a) i = Ok n ∨
  ∃ row d, 0 <= d < zlen (Ram.devices_ a) ∧ t = ("_dev" +:+ to_string d)%string ∧ vec_at (Ram.host_dev_ a) i = Ok row ∧
    vec_at row d = Ok n.

Lemma host_value_fun a i t n n' : host_value a i t n → host_value a i t n' → is_tail t ∧ n' = n.
Proof.
  intros [[-> E]|[[-> E]|(row & d & Hd & -> & Er & E)]] [[Et E']|[[Et E']|(row' & d' & Hd' & Et & Er' & E')]]; try done;
    try (split; [done|]; congruence).
  apply dev_key_inj in Et; [|lia..]. subst d'. split; [done|]. congruence.
Qed.

Lemma host_fields_spec a i l : host_fields a i = Ok l →
  (∀ k v, (k, v) ∈ l → ∃ t n, k = host_key i t ∧ v = jint n ∧ host_value a i t n) ∧
  (∀ t n, host_value a i t n → (host_key i t, jint n) ∈ l).
Proof.
  intros Hl. unfold host_fields in Hl. do 4 (res_inv Hl). injection Hl as <-. apply mapM_inv in Ha2. split.
  - intros k v Hin. rewrite !elem_of_cons in Hin. destruct Hin as [[= -> ->]|[[= -> ->]|Hin]].
    + exists "_rd"%string, a0. by repeat split; left.
    + exists "_wr"%string, a1. by repeat split; right; left.
    + apply list_elem_of_lookup in Hin as [m Hm]. destruct (Forall2_lookup_r _ _ _ _ _ Ha2 Hm) as (d & Hd & Hf).
      res_inv Hf. injection Hf as <- <-. apply list_elem_of_lookup_2, elem_of_zrange in Hd.
      eexists _, _. split; [done|]. split; [done|]. right. right. by exists a2, d.
  - intros t n [[-> E]|[[-> E]|(row & d & Hd & -> & Er & E)]].
    + rewrite Ha in E. injection E as <-. by left.
    + rewrite Ha0 in E. injection E as <-. by right; left.
    + right. right. rewrite Ha1 in Er. injection Er as <-. apply elem_of_zrange, list_elem_of_lookup in Hd as [m Hm].
      destruct (Forall2_lookup_l _ _ _ _ _ Ha2 Hm) as (kv & Hkv & Hf). rewrite E in Hf. injection Hf as <-.
      by eapply list_elem_of_lookup_2.
Qed.

Lemma assoc_unique {V} k (v : V) l : (k, v) ∈ l → (∀ v', (k, v') ∈ l → v' = v) → assoc k l = Some v.
Proof.
  induction l as [|[k' v'] l IH]; [by intros ?%elem_of_nil|]. intros Hin Hu. cbn [assoc fst snd].
  destruct (decide (k' = k)) as [->|Hne]; [by rewrite (Hu v') by left|].
  apply elem_of_cons in Hin as [[= -> _]|Hin]; [done|]. apply IH; [done|]. intros x Hx. apply Hu. by right.
Qed.

Lemma arbiter_entry a m : arbiter_stats a = Ok m →
  (∀ i t n, 0 <= i < Ram.hosts_ a → host_value a i t n → jget (host_key i t) m = Some (jint n)) ∧
  jget "device_stats" m = Some (jarray (device_stats <$> Ram.devices_ a)).
Proof.
  intros Hm. unfold arbiter_stats in Hm. res_inv Hm. injection Hm as <-. apply mapM_inv in Ha.
  assert (is_object (extend (arbiter_config a) (concat a0))) as Ho by apply object_extend, object_fields.
  split; [|by rewrite get_set, decide_True].
  assert (∀ k v, (k, v) ∈ concat a0 → ∃ i t n, 0 <= i < Ram.hosts_ a ∧ k = host_key i t ∧ v = jint n ∧ host_value a i t n) as Hall.
  { intros k v Hin. apply list_elem_of_In, List.in_concat in Hin as (l & Hl%list_elem_of_In & Hin%list_elem_of_In).
    apply list_elem_of_lookup in Hl as [x Hx]. destruct (Forall2_lookup_r _ _ _ _ _ Ha Hx) as (i & Hi & Hf).
    apply list_elem_of_lookup_2, elem_of_zrange in Hi. apply host_fields_spec in Hf as [Hf _].
    destruct (Hf k v Hin) as (t & n & -> & -> & Hv). by exists i, t, n. }
  intros i t n Hi Hv. rewrite get_set, decide_False, get_extend; [|apply object_fields | done | done].
  rewrite (assoc_unique _ (jint n)); [done | |].
  - apply list_elem_of_In, List.in_rev. rewrite List.rev_involutive. apply List.in_concat.
    apply elem_of_zrange, list_elem_of_lookup in Hi as [x Hx]. destruct (Forall2_lookup_l _ _ _ _ _ Ha Hx) as (l & Hl & Hf).
    exists l. split; [apply list_elem_of_In; by eapply list_elem_of_lookup_2|]. apply list_elem_of_In.
    by apply (proj2 (host_fields_spec _ _ _ Hf)).
  - intros v' Hin. apply list_elem_of_In, List.in_rev, list_elem_of_In in Hin.
    destruct (Hall _ _ Hin) as (i' & t' & n' & Hi' & E & -> & Hv').
    destruct (host_value_fun _ _ _ _ _ Hv Hv) as [Ht _], (host_value_fun _ _ _ _ _ Hv' Hv') as [Ht' _].
    apply host_key_inj in E as [<- <-]; [|lia | lia | done | done]. by destruct (host_value_fun _ _ _ _ _ Hv Hv') as [_ ->].
Qed.

(** ** The whole report *)

Lemma build_sized o nxt s : build o nxt = Ok s → sized 3 4 (memory s).
Proof.
  intros Hb. unfold build in Hb. apply bind_Ok_inv in Hb as (bu & _ & Hb). apply bind_Ok_inv in Hb as (ic & _ & Hb).
  apply bind_Ok_inv in Hb as (dc & _ & Hb). apply bind_Ok_inv in Hb as (nc & _ & Hb).
  apply bind_Ok_inv in Hb as (mem & Ha3 & Hb). injection Hb as <-. cbn [memory]. unfold Ram.soc_fabric in Ha3.
  pose proof (make_tally _ _ _ _ _ Ha3 ltac:(by repeat constructor)) as Ht.
  injection Ha3 as <-. constructor; try done; [by intros [] | by repeat constructor].
Qed.

Lemma main_inv o n nxt inst0 trace outs j l : main_ n o nxt inst0 trace = Ok (outs, Some (MkRun j l)) →
  ∃ s conf l0 j1, build o nxt = Ok s ∧ collect_config_json s = Ok conf ∧
    outs = in_dir o "/conf.json" (jset "config" conf jnull) ++ in_dir o "/stats.json" j ∧
    report_loop n (max_insts o) (max_ticks o) (MkRun (jset "config" conf jnull) (start s inst0 trace)) = Ok (tt, MkRun j1 l0) ∧
    append_stats_json j1 (dump_cnt l0) (sys l0) (sanitizer_all l0) = Ok j ∧ l = l0 <| dump_cnt ::= incr |>.
Proof.
  intros Hm. unfold main_ in Hm. do 2 res_inv Hm. destruct (dry_run o); [done|].
  destruct (report_loop _ _ _ _) as [[[] [j1 l0]]|] eqn:El; [|done]. cbn [mbind res_bind root loop] in Hm. res_inv Hm.
  injection Hm as <- <- <-. by exists a, a0, l0, j1.
Qed.

(** The report at the end of the run: what holds of every entry, and the last one. *)
Lemma main_report o n nxt inst0 trace outs j l : main_ n o nxt inst0 trace = Ok (outs, Some (MkRun j l)) →
  ∃ s conf, build o nxt = Ok s ∧ collect_config_json s = Ok conf ∧
    outs = in_dir o "/conf.json" (jset "config" conf jnull) ++ in_dir o "/stats.json" j ∧
    root_ok (sized 3 4) conf (dump_cnt l) j ∧
    dump_cnt l = (if stop_after_dump l then 2 else 1) ∧
    ∃ e, stats_entry (sys l) (sanitizer_all l) = Ok e ∧ jget (stats_key (dump_cnt l - 1)) j = Some e.
Proof.
  intros (s & conf & l0 & j1 & Eb & Ec & -> & El & Ea & ->)%main_inv. exists s, conf. split; [done|]. split; [done|]. split; [done|].
  assert (report_ok (sized 3 4) conf (MkRun (jset "config" conf jnull) (start s inst0 trace))) as H0.
  { split; [by eapply build_sized|]. split; [done|]. cbn [loop root dump_cnt start].
    constructor; [apply object_set, object_null | | by rewrite get_set, decide_True by (done || apply object_null) | lia].
    rewrite keys_set_new; [|apply object_null|]; unfold keys; rewrite items_null; [done | by intros ?%elem_of_nil]. }
  pose proof (loop_report (sized 3 4) conf n _ _ _ _ _ El H0) as (Hm & [Hd _] & Hr). cbn [loop root] in Hm, Hd, Hr.
  assert (0 <= dump_cnt l0) as Hge by (rewrite Hd; by destruct (stop_after_dump l0)).
  destruct (append_ok (sized 3 4) conf (dump_cnt l0) j1 (sys l0) (sanitizer_all l0) j Hge Hm Hr Ea) as (Hroot & e & He & Hg).
  assert (incr (dump_cnt l0) = dump_cnt l0 + 1) as Ei by (rewrite Hd; by destruct (stop_after_dump l0)).
  change (dump_cnt (l0 <| dump_cnt ::= incr |>)) with (incr (dump_cnt l0)).
  change (stop_after_dump (l0 <| dump_cnt ::= incr |>)) with (stop_after_dump l0).
  rewrite Ei. split; [done|]. split; [rewrite Hd; by destruct (stop_after_dump l0)|].
  exists e. split; [done|]. by replace (dump_cnt l0 + 1 - 1) with (dump_cnt l0) by lia.
Qed.

(** C3: the report of a run is complete and nothing in it is overwritten.  Its keys
    are the configuration, then [stats0], and [stats1] too exactly when the last
    marker the program saw ([SimSafe.last_mark]: of the last record fed, or of a
    last record torn in its 16th byte, or of the initial [inst] if there was
    neither) is a dump marker: a marker is acted on when it is seen, and stops the
    feeding.  Each entry has one report per object, under distinct names, and the
    trace's counters.  The last entry reports the final state of every object, and
    counts exactly the records fed, which are the first whole ones of the trace.
    The configuration is written to [conf.json] and the report to [stats.json].
    The options and the number of turns are in the range of [options_ok], and the
    run has not run out of turns. *)
Theorem report_complete o n nxt inst0 trace outs j l : SimSafe.options_ok o n → Forall PipeSafe.fed_ok (records trace) →
  main_ n o nxt inst0 trace = Ok (outs, Some (MkRun j l)) →
  ∃ s conf fed rest e, build o nxt = Ok s ∧ collect_config_json s = Ok conf ∧
    outs = in_dir o "/conf.json" (jset "config" conf jnull) ++ in_dir o "/stats.json" j ∧
    keys j = "config"%string :: (stats_key <$> zrange (dump_cnt l)) ∧ NoDup (keys j) ∧ jget "config" j = Some conf ∧
    dump_cnt l = (if SimSafe.last_mark inst0 trace (has_next l) fed =? SysDumpStats then 2 else 1) ∧
    (∀ i, 0 <= i < dump_cnt l → ∃ x s', jget (stats_key i) j = Some x ∧ NoDup (keys x) ∧
       keys x = (name <$> simlist s') ++ ["TraceSanitizer"%string]) ∧
    records trace = fed ++ rest ∧ inst_cnt l = zlen fed ∧
    jget (stats_key (dump_cnt l - 1)) j = Some e ∧ jget "TraceSanitizer" e = Some (sanitizer_json (counters_of fed)) ∧
    ∀ obj, obj ∈ simlist (sys l) → ∃ v, stats_json obj = Ok v ∧ jget (name obj) e = Some v.
Proof.
  intros Ho Hfed Hm. destruct (main_report _ _ _ _ _ _ _ _ Hm) as (s & conf & Eb & Ec & Eo & [_ R2 R3 R4] & Ed & e & He & Hg).
  assert (∃ l0, run_main n o nxt inst0 trace = Ok l0 ∧ l = l0 <| dump_cnt ::= incr |>) as (l0 & Hrun & El).
  { destruct (main_run o n nxt inst0 trace Ho Hfed) as (s1 & conf1 & Eb1 & Ec1 & Hl).
    destruct (main_inv _ _ _ _ _ _ _ _ Hm) as (s2 & conf2 & l2 & j2 & Eb2 & Ec2 & _ & Er & _ & ->).
    specialize (Hl (jset "config" conf2 jnull)). assert (s1 = s2) as -> by congruence. unfold run_main. rewrite Eb2. cbn [mbind res_bind].
    unfold start in *. destruct (sim_loop n _ _ _) as [[[] l1]|]; [|congruence]. destruct Hl as (j3 & j4 & Hl & _).
    exists l1. split; [done|]. congruence. }
  pose proof (SimSafe.main_ok o n nxt inst0 trace Ho Hfed) as Hok. rewrite Hrun in Hok.
  destruct Hok as (fed & rest & past & Hb & _ & Hmark & _). exists s, conf, fed, rest, e.
  destruct (entry_items _ _ _ He) as (_ & _ & Ht & Hv).
  split; [done|]. split; [done|]. split; [done|]. split; [done|]. split.
  { rewrite R2. apply list.NoDup_cons. split; [by intros (i & E & _)%list_elem_of_fmap|].
    rewrite Ed. by destruct (stop_after_dump l); apply (bool_decide_eq_true _). }
  split; [done|]. split.
  { rewrite Ed, El. change (has_next (l0 <| dump_cnt ::= incr |>)) with (has_next l0).
    change (stop_after_dump (l0 <| dump_cnt ::= incr |>)) with (stop_after_dump l0).
    destruct (Z.eqb_spec (SimSafe.last_mark inst0 trace (has_next l0) fed) SysDumpStats) as [E|E].
    - by rewrite (proj2 Hmark E).
    - destruct (stop_after_dump l0); [by destruct E; apply Hmark | done]. }
  split.
  { intros i Hi. destruct (R4 i Hi) as (x & Hx & s' & san & _ & Hx'). destruct (entry_items _ _ _ Hx') as (E & Hn & _).
    by exists x, s'. }
  split; [apply (SimSafe.b_trace _ _ _ _ _ Hb)|]. split; [rewrite El; apply (SimSafe.b_cnt _ _ _ _ _ Hb)|]. split; [done|].
  split; [|exact Hv]. rewrite Ht, El. change (sanitizer_all (l0 <| dump_cnt ::= incr |>)) with (sanitizer_all l0).
  by rewrite (SimSafe.b_all _ _ _ _ _ Hb), sanitizer_counts.
Qed.

(** C5: in every entry of a run's report the counters of the memory fabric agree,
    modulo 2^64: a host's reads and writes add up to its accesses to the four
    devices; the accesses of the three hosts to a device add up to what the device
    has served, and these to its reads and writes.  Each of these numbers stands in
    the report under its own key. *)
Theorem report_tallies o n nxt inst0 trace outs j l i : main_ n o nxt inst0 trace = Ok (outs, Some (MkRun j l)) →
  0 <= i < dump_cnt l →
  ∃ e m rd wr dev ds, jget (stats_key i) j = Some e ∧ jget "memory" e = Some m ∧
    jget "device_stats" m = Some (jarray (device_stats <$> ds)) ∧ zlen ds = 4 ∧
    (∀ h, 0 <= h < 3 →
       jget (host_key h "_rd") m = Some (jint (rd h)) ∧ jget (host_key h "_wr") m = Some (jint (wr h)) ∧
       (∀ d, 0 <= d < 4 → jget (host_key h ("_dev" +:+ to_string d)) m = Some (jint (dev h d))) ∧
       u64 (rd h + wr h) = u64 (dev h 0 + dev h 1 + dev h 2 + dev h 3)) ∧
    (∀ d dv, 0 <= d < 4 → vec_at ds d = Ok dv →
       u64 (Ram.accesses_ dv) = u64 (dev 0 d + dev 1 d + dev 2 d) ∧
       u64 (Ram.accesses_ dv) = u64 (Ram.reads_ dv + Ram.writes_ dv)).
Proof.
  intros (s & conf & _ & _ & _ & [_ _ _ R4] & _)%main_report Hi.
  destruct (R4 i Hi) as (e & He & s' & san & Hsz & Hse). destruct (entry_items _ _ _ Hse) as (_ & _ & _ & Hv).
  destruct (Hv (MkObject "memory" (mret (arbiter_config (memory s'))) (arbiter_stats (memory s')))) as (m & Em & Hm).
  { unfold simlist. destruct (caches s'). by left. }
  cbn [stats_json name] in Em, Hm. destruct (sized_table _ Hsz) as (rd & wr & dev & row & Hhost & Hdev).
  destruct (arbiter_entry _ _ Em) as [Hk Hds].
  exists e, m, rd, wr, dev, (Ram.devices_ (memory s')). split; [done|]. split; [done|].
  split; [exact Hds|]. split; [apply Hsz|]. split; [|exact Hdev]. intros h Hh. destruct (Hhost h Hh) as (E1 & E2 & E3 & E4 & E5).
  assert (0 <= h < Ram.hosts_ (memory s')) as Hh' by (rewrite (s_hosts _ _ _ Hsz); lia).
  split; [by apply Hk; [|left]|]. split; [by apply Hk; [|right; left]|]. split; [|done]. intros d Hd. apply Hk; [done|].
  right. right. exists (row h), d. rewrite (s_devices _ _ _ Hsz). by repeat (split; [done || lia|]); apply E4.
Qed.
End report.
Arguments Run : clear implicits.
Arguments output : clear implicits.
Arguments SimObject : clear implicits.

(** ** A concrete run: the default options, a trace of four instructions *)

#[local] Existing Instances Tree.tree_json Tree.tree_laws.
#[local] Notation main_ex := (main_ 800 defaults 0 SimSafe.inst0_ex SimSafe.trace_ex).

Lemma main_ex_runs : match main_ex with Ok (_, Some r) => dump_cnt (loop r) =? 1 | _ => false end = true.
Proof. by vm_compute. Qed.

Lemma report_refines_witness : ∃ l outs (j : Tree.json),
  run_main 800 defaults 0 SimSafe.inst0_ex SimSafe.trace_ex = Ok l ∧
  main_ex = Ok (outs, Some (MkRun j (l <| dump_cnt ::= incr |>))).
Proof.
  pose proof SimSafe.run_ex_finished as Hfin.
  pose proof (report_refines (J := Tree.json) defaults 800 0 SimSafe.inst0_ex SimSafe.trace_ex SimSafe.defaults_ok
    SimSafe.trace_ex_ok) as Hr.
  destruct (dry_run defaults) eqn:Ed; [discriminate Ed|].
  destruct (run_main 800 defaults 0 _ _) as [l|e]; [|discriminate Hfin]. destruct Hr as (outs & j & Hr).
  exists l, outs, j. exact (conj eq_refl Hr).
Defined.

(** The trace of the generator ends with a dump marker: two entries. *)
#[local] Notation main_gen := (main_ 800 defaults 0 SimSafe.inst0_ex GenTrace.file).

Lemma main_gen_runs : match main_gen with Ok (_, Some r) => dump_cnt (loop r) =? 2 | _ => false end = true.
Proof. by vm_compute. Qed.

Lemma report_complete_witness : ∃ (outs : list (output Tree.json)) j l fed rest e,
  main_gen = Ok (outs, Some (MkRun j l)) ∧ keys j = ["config"; "stats0"; "stats1"]%string ∧
  GenTrace.trace = fed ++ rest ∧ inst_cnt l = zlen fed ∧
  jget "stats1" j = Some e ∧ jget "TraceSanitizer" e = Some (sanitizer_json (counters_of fed)).
Proof.
  pose proof main_gen_runs as Hrun. destruct main_gen as [[outs [[j l]|]]|] eqn:E; [|discriminate Hrun..].
  apply Z.eqb_eq in Hrun. cbn [loop] in Hrun.
  destruct (report_complete (J := Tree.json) _ _ _ _ _ _ _ _ SimSafe.defaults_ok GenTrace.file_fed E)
    as (s & conf & fed & rest & e & _ & _ & _ & Ek & _ & _ & _ & _ & Hfed & Hcnt & He & Ht & _).
  rewrite Hrun in Ek, He. rewrite GenTrace.file_records in Hfed. exists outs, j, l, fed, rest, e.
  exact (conj eq_refl (conj Ek (conj Hfed (conj Hcnt (conj He Ht))))).
Defined.

Lemma report_tallies_witness : ∃ (outs : list (output Tree.json)) r e m rd wr,
  main_ex = Ok (outs, Some r) ∧ jget "stats0" (root r) = Some e ∧ jget "memory" e = Some m ∧
  jget "host0_rd" m = Some (jint rd) ∧ jget "host0_wr" m = Some (jint wr).
Proof.
  pose proof main_ex_runs as Hrun. destruct main_ex as [[outs [[j l]|]]|] eqn:E; [|discriminate Hrun..].
  apply Z.eqb_eq in Hrun. cbn [loop] in Hrun.
  destruct (report_tallies (J := Tree.json) _ _ _ _ _ _ _ _ 0 E ltac:(lia))
    as (e & m & rd & wr & dev & ds & He & Hm & _ & _ & Hh & _). destruct (Hh 0 ltac:(lia)) as (H1 & H2 & _).
  exists outs, (MkRun j l), e, m, (rd 0), (wr 0). exact (conj eq_refl (conj He (conj Hm (conj H1 H2)))).
Defined.
End SimReport.
